(* ===== verification/_CoqProject ===== *)
-Q . S2P
Prelude.v
Errors.v
Bytes.v
Proto.v
RequestBuilder.v
Requests.v
BlockingQueue.v
Streams.v
Dispatcher.v
Collector.v
BiStream.v
BiStreamSpec.v
Stub.v
Database.v
Managers.v
DriverImpl.v
Options.v
Transaction.v
Shared.v
Session.v
Settling.v
Hoare.v
Fleet.v
FleetSafety.v
SharedSessions.v
Messages.v
Concept.v
ConceptManager.v
TypeOps.v
ThingOps.v
Answers.v
FetchTree.v
Live.v
Interfaces.v
EntryPoints.v
Reconnect.v
Async.v
DatabaseAsync.v
SessionAsync.v
FleetAsync.v
DriverInterfaces.v
Program.v
