(* ===== verification/Prelude.v ===== *)
(** * TypeDB driver for Node.js: a verification library

    The program is the TypeScript driver under [nodejs/]: it connects to TypeDB
    servers over gRPC, keeps sessions and transactions, sends requests in a
    transaction over one bidirectional stream, and turns the answers into
    concepts, concept maps and streams. This library models its
    implementation as executable definitions and proves the properties that
    make each part correct.

    ** Parts of the program, and where they are modelled

    - [common/errors]: Errors. The error templates with their registry, the
      printing of codes and messages, and the classification of gRPC errors on
      which retries, failover and token renewal depend.
    - [common/util/Bytes.ts], [common/Label.ts]: Bytes.
    - [common/rpc/RequestBuilder.ts]: RequestBuilder, one definition per
      builder, named by its namespace path. Proto has JavaScript values and
      messages as constructor calls with named fields; Requests collects the
      transaction operations, with ids as the strings that users and the driver
      pass, and proves their encoding injective up to the bytes that ids name.
    - [common/util/BlockingQueue.ts]: BlockingQueue. Promises are numbered and
      their settlements kept in a store.
    - [common/util/Stream.ts]: Streams. An async generator is an inductive
      tree of pulls that thread a state; the stream classes and consumers are
      functions on it.
    - [stream/RequestTransmitter.ts]: Dispatcher. Batching with timers as
      events, and the set of dispatchers of a transmitter over a heap.
    - [stream/ResponseCollector.ts]: Collector. The queue objects of requests,
      in a heap, and the table from request ids to them.
    - [stream/BidirectionalStream.ts], [stream/ResponsePartIterator.ts]:
      BiStream, a state machine whose events are calls of the client, messages
      and errors of the server, and pulls of the consumers, in any order;
      BiStreamSpec has its invariants and what each request gets.
    - [common/rpc/TypeDBStub.ts], [connection/TypeDBStubImpl.ts],
      [api/connection/TypeDBCredential.ts]: Stub. Every unary method, login,
      and the renewal of tokens.
    - [connection/TypeDBDatabaseImpl.ts]: Database. Replicas, the search for
      the primary replica, and failover.
    - [connection/TypeDBDatabaseManagerImpl.ts], [user/]: Managers.
    - [connection/TypeDBDriverImpl.ts]: DriverImpl (its record is in Database).
      Construction, opening with or without address translation, closing.
    - [api/connection/TypeDBOptions.ts]: Options.
    - [connection/TypeDBTransactionImpl.ts]: Transaction, over BiStream.
    - [connection/TypeDBSessionImpl.ts]: Session, over an interface of
      transactions that Transaction implements. The callbacks of a session are
      numbered, and the session keeps which of them were called; a transaction
      is opened over a stream that the stub of its server is asked for, by a
      call like the others.
    - [concept/], [api/concept/], [common/rpc/ResponseReader.ts]: Messages (the
      received messages), Concept (objects, classes and casts, equality,
      decoding, naming in requests), ConceptManager, TypeOps and ThingOps (the
      methods that call the server, over an interface of a transaction).
    - [concept/answer/], [logic/], [query/]: Answers, and FetchTree for fetch
      queries and the JSON trees they return.
    - [api/]: Interfaces (concepts, answers and managers) and DriverInterfaces
      (drivers, sessions, transactions, databases and users): the interfaces as
      records of methods, and each object seen through them.
    - [TypeDB.ts], with the constants of [api/connection/TypeDBSession.ts] and
      [api/connection/TypeDBTransaction.ts]: EntryPoints.
    - Sharing: Shared runs the transactions of one server over the transmitter
      they share ([ServerDriver], [requestTransmitter] of the session);
      SharedSessions gives them to sessions, and shows that they simulate
      transactions with transmitters of their own; Fleet
      runs the sessions of one driver, which share its state, the transactions
      and the timers, with their pulses in the background, and FleetSafety has
      the invariant and the theorems. Hoare has the triples with which Fleet
      follows the methods through the loops of the driver.
    - Overlapping calls: Async has asynchronous functions as trees of steps, one
      from each [await] to the next, with pools of them and a logic of what
      steps guarantee and rely on; DatabaseAsync, SessionAsync and FleetAsync
      have the loops of the databases, the methods of a session, and the
      sessions of a driver as such functions, interleaved at their awaits.
    - Composition: Live runs the concept, query and logic classes on a
      transaction and its stream, with the event loop between them; Settling
      has a small logic for calls that do not wait for ever, and its rules for
      the connection classes; Reconnect follows a session that loses its
      server; Program is the program that connects, opens a
      session and a transaction and collects the answers of a query, through
      all layers.

    ** How the code is represented

    A method is a function in the monad [proc] of this file: it takes a state,
    and returns an outcome (a value, a thrown error, or a promise that never
    settles) and the new state, so that what was changed before a throw stays
    changed. Objects that are shared are references into a heap or a store.
    The concurrent parts (the transaction stream and the dispatcher) are step
    functions over events, and their theorems are about every sequence of
    events. Numbers are IEEE doubles where the code computes on them; dates
    and messages that carry them keep an object identity.

    Code outside the repository is a parameter: the gRPC stub ([GRPCStub] in
    Stub), UUIDs ([Uuid] with [UuidLaws] in BiStream), the clock and the file
    system. The generated message classes are data: requests keep the
    constructor calls of the source, responses the fields that it reads.

    Interfaces between components are classes: [UuidLaws], [TransactionOps]
    with [TransactionLaws] (Session over transactions, with an instance built
    from Transaction), and [TransactionExtended] (the concept, query and logic
    classes over a transaction, with an instance built from Transaction in
    Live). [TransactionObjects] (Fleet) says that opening makes a new
    transaction and closing touches no other, with instances for separate and
    for shared transmitters. [GRPCSettles] and [TransactionSettles] (Settling) state that a
    client and transactions do not wait for ever.

    ** What the theorems show

    - Streams and transactions: a request is settled by the first response to
      it or by the closing of its stream, a consumer gets all parts of its
      answer, closed transactions settle everything and refuse everything,
      no request is lost or duplicated by batching, queues are first-in
      first-out, and answers to our requests are never unknown.
    - Sharing: transactions over one transmitter behave, in every interleaving,
      as each would alone, so that what is shown of a single transaction holds
      of those that share; sessions of one driver leave each other's state,
      pulses and transactions alone; where calls are awaited one after the
      other, an open session is kept alive, and the pulses of a closed one come
      to rest.
    - Overlapping calls: run without interruption, the asynchronous methods are
      the computations that the other theorems are about; in every
      interleaving, [close] closes all transactions handed out before it was
      called, and sessions still leave each other alone.
    - Connections: a token is renewed at most once per call and a refused
      call is repeated with the new one; failover follows the primary replica, waits a bounded
      time and never reads a missing replica; tasks run on the first replica that
      can be reached; a session that loses its server is opened again on the
      first replica that can be reached, its callbacks are called, and its
      transaction is opened there; sessions can be named to the server, and closing them releases what they hold; address translations
      are accepted exactly when they cover the servers.
    - Whole programs: from an address over a driver and a session to a
      transaction, with the six calls made on the way, and on to the answers of a
      query, which are those that the server delivers; a query from the messages
      of the server to its decoded answers, whatever else happens on the
      transaction and also when its consumer goes on calling it; and nothing
      waits for ever unless the server or a callback does. A closed
      driver or session and an ended transaction refuse the calls of their
      interfaces that ask the server.
    - Messages: request encodings are injective up to the spelling of ids, ids
      and concepts survive the
      round trip, and options are checked and sent.
    - Concepts and answers: casts are exact, equality is an equivalence,
      overloads mean what they declare, for filters in the declared order, results have the declared types also under dynamic dispatch, role
      players are grouped by role, queries return all their answers, and fetch
      answers have the shape of their trees.
    - Some theorems state what the code does where that is not what it means to
      do (a closed driver leaves its stubs open, schema reads do not fail over,
      a failed pulse leaks, reconnecting can leave a session and its pulse
      behind, a late answer to a pulse can close a reconnected session, [close]
      and [transaction] that overlap can leave a session open or a transaction
      in a closed session, a search for the primary replica that overlaps
      another can end in a TypeError, a batch
      can be written after the end of its stream, two documented calls fail an
      assertion, owners cannot be filtered by type, attribute
      explanations are misfiled).

    ** Bounds and fuel

    The loops of the source are bounded by its own constants (10 searches and
    retries in Database) or structural on lists and generators, so no fuel is
    needed, with one exception: the dispatch of [getSubtypes] and
    [getInstances] on the root thing type (TypeOps) has a depth, and
    [leaf_depth] shows that depth 1 is enough, since the root types it visits
    are never the root thing type. An iterator over a live transaction is
    pulled at most once more than there are upcoming events ([enough_pulls] in
    Live shows that this is enough), and resumed as often as its queue has
    elements. Streams are finite: a server that never
    ends a stream is one whose stream never settles. The loops of SessionAsync
    over a set or an array that others may extend make at most [turns] turns;
    [methods_uninterrupted] shows that more turns than members are enough when
    nothing interrupts, and the safety theorems hold for every number.

    ** What is not modelled

    Console output; the channel credentials object; [index.ts] and
    [dependencies_internal.ts], which only re-export; the documentation tool
    under [tool/]; strings beyond 8-bit code units. In Fleet the methods of
    sessions other than the pulse are run to their ends one after the other;
    FleetAsync interleaves their awaits, and shows that sessions stay apart
    there too, but what Fleet shows of pulses and filings does not hold of
    overlapping calls, as the runs in SessionAsync show. A call of the stub
    layer does its work when it is made, and a transaction is opened or closed
    in one step once its stream is connected. Session and Program
    look at one session, which Fleet justifies, and give each transaction a
    transmitter of its own, which SharedSessions justifies; a transaction is run on by
    itself in Live.

    ** This file

    Outcomes, the monad and its laws, reasoning about what a computation
    preserves, throws and costs, maps and lists, string search, and the
    tactics and hint database [drv] of the library. *)
From stdpp Require Export base gmap strings list pretty.

(** ** Outcomes of JavaScript computations *)

(** What an asynchronous computation comes to: its promise is fulfilled, is
    rejected, or never settles in the environment it runs in. *)
Inductive outcome (E A : Type) : Type :=
  | Ret (a : A)
  | Throw (e : E)
  | Pending.
Arguments Ret {E A} a.
Arguments Throw {E A} e.
Arguments Pending {E A}.

#[export] Instance outcome_eq_dec {E A} `{!EqDecision E, !EqDecision A} :
  EqDecision (outcome E A).
Proof. solve_decision. Defined.

Definition outcome_map {E A B} (f : A → B) (o : outcome E A) : outcome E B :=
  match o with
  | Ret a => Ret (f a)
  | Throw e => Throw e
  | Pending => Pending
  end.

Definition outcome_bind {E A B} (o : outcome E A) (k : A → outcome E B) : outcome E B :=
  match o with
  | Ret a => k a
  | Throw e => Throw e
  | Pending => Pending
  end.

#[export] Instance outcome_mret {E} : MRet (outcome E) := λ A a, Ret a.
#[export] Instance outcome_mbind {E} : MBind (outcome E) :=
  λ A B k o, outcome_bind o k.

(** [Array.prototype.map] with a callback that may throw. *)
Fixpoint mapM_outcome {E A B} (f : A → outcome E B) (l : list A) : outcome E (list B) :=
  match l with
  | [] => Ret []
  | x :: l' =>
      outcome_bind (f x) (λ y, outcome_bind (mapM_outcome f l') (λ ys, Ret (y :: ys)))
  end.

(** ** Stateful computations with exceptions *)

(** A method body: it reads and writes a state and ends with an outcome; the
    state changes made before a throw are kept, as in JavaScript. *)
Definition proc (S E A : Type) : Type := S → outcome E A * S.

#[export] Instance proc_mret {S E} : MRet (proc S E) := λ A a s, (Ret a, s).
#[export] Instance proc_mbind {S E} : MBind (proc S E) :=
  λ A B k m s,
    match m s with
    | (Ret a, s') => k a s'
    | (Throw e, s') => (Throw e, s')
    | (Pending, s') => (Pending, s')
    end.

Definition throw {S E A} (e : E) : proc S E A := λ s, (Throw e, s).
Definition pending {S E A} : proc S E A := λ s, (Pending, s).
Definition gets {S E A} (f : S → A) : proc S E A := λ s, (Ret (f s), s).
Definition modify {S E} (f : S → S) : proc S E unit := λ s, (Ret tt, f s).
Definition lift_outcome {S E A} (o : outcome E A) : proc S E A := λ s, (o, s).

(** [try { m } catch (e) { h e }]: a promise that never settles is not caught. *)
Definition try_catch {S E A} (m : proc S E A) (h : E → proc S E A) : proc S E A :=
  λ s,
    match m s with
    | (Ret a, s') => (Ret a, s')
    | (Throw e, s') => h e s'
    | (Pending, s') => (Pending, s')
    end.

(** [try { m } finally { f }] *)
Definition try_finally {S E A} (m : proc S E A) (f : proc S E unit) : proc S E A :=
  λ s,
    match m s with
    | (Ret a, s') => (f ≫= λ _, mret a) s'
    | (Throw e, s') => (f ≫= λ _, throw e) s'
    | (Pending, s') => (Pending, s')
    end.

(** [for (const x of l) await f(x)] *)
Fixpoint for_each {S E A} (f : A → proc S E unit) (l : list A) : proc S E unit :=
  match l with
  | [] => mret tt
  | x :: l' => f x ≫= λ _, for_each f l'
  end.

(** Two computations are equivalent when they agree on every state. *)
#[export] Instance proc_equiv {S E A} : Equiv (proc S E A) :=
  λ m1 m2, ∀ s, m1 s = m2 s.

#[export] Instance proc_equivalence {S E A} : Equivalence (≡@{proc S E A}).
Proof.
  split; [intros m s; reflexivity | intros m1 m2 H s; symmetry; apply H |].
  intros m1 m2 m3 H1 H2 s. etransitivity; [apply H1 | apply H2].
Qed.

#[export] Instance proc_mbind_proper {S E A B} :
  Proper (pointwise_relation A (≡) ==> (≡) ==> (≡)) (@mbind (proc S E) _ A B).
Proof.
  intros k1 k2 Hk m1 m2 Hm s. unfold mbind, proc_mbind. rewrite (Hm s).
  destruct (m2 s) as [[a|e|] s']; [apply Hk | reflexivity | reflexivity].
Qed.

#[export] Instance try_catch_proper {S E A} :
  Proper ((≡) ==> pointwise_relation E (≡) ==> (≡)) (@try_catch S E A).
Proof.
  intros m1 m2 Hm h1 h2 Hh s. unfold try_catch. rewrite (Hm s).
  destruct (m2 s) as [[a|e|] s']; [reflexivity | apply Hh | reflexivity].
Qed.

Section proc_laws.
Context {S E A B C : Type}.
Implicit Types (m : proc S E A) (s : S).

Lemma proc_bind_ret_l a (k : A → proc S E B) : mret a ≫= k ≡ k a.
Proof. intros s. reflexivity. Qed.

Lemma proc_bind_ret_r m : m ≫= mret ≡ m.
Proof. intros s. unfold mbind, proc_mbind. by destruct (m s) as [[a|e|] s']. Qed.

Lemma proc_bind_assoc m (k : A → proc S E B) (h : B → proc S E C) :
  (m ≫= k) ≫= h ≡ m ≫= λ a, k a ≫= h.
Proof. intros s. unfold mbind, proc_mbind. by destruct (m s) as [[a|e|] s']. Qed.

Lemma proc_bind_throw e (k : A → proc S E B) : throw e ≫= k ≡ throw e.
Proof. intros s. reflexivity. Qed.

Lemma try_catch_throw e (h : E → proc S E A) : try_catch (throw e) h ≡ h e.
Proof. intros s. reflexivity. Qed.

Lemma proc_bind_eq m (k : A → proc S E B) s :
  (m ≫= k) s = match m s with
               | (Ret a, s') => k a s'
               | (Throw e, s') => (Throw e, s')
               | (Pending, s') => (Pending, s')
               end.
Proof. reflexivity. Qed.

Lemma proc_bind_run m (k : A → proc S E B) s o s' :
  m s = (o, s') →
  (m ≫= k) s = match o with
               | Ret a => k a s'
               | Throw e => (Throw e, s')
               | Pending => (Pending, s')
               end.
Proof. intros H. unfold mbind, proc_mbind. rewrite H. by destruct o. Qed.

Lemma try_catch_run m (h : E → proc S E A) s o s' :
  m s = (o, s') →
  try_catch m h s = match o with
                    | Ret a => (Ret a, s')
                    | Throw e => h e s'
                    | Pending => (Pending, s')
                    end.
Proof. intros H. unfold try_catch. rewrite H. by destruct o. Qed.
End proc_laws.

(** A predicate on states kept by a computation, whatever its outcome. *)
Definition preserves {S E A} (P : S → Prop) (m : proc S E A) : Prop :=
  ∀ s, P s → P (m s).2.

Section preserves.
Context {S E : Type} (P : S → Prop).

Lemma preserves_ret {A} (a : A) : preserves P (mret a : proc S E A).
Proof. intros s Hs. exact Hs. Qed.

Lemma preserves_throw {A} (e : E) : preserves P (throw e : proc S E A).
Proof. intros s Hs. exact Hs. Qed.

Lemma preserves_gets {A} (f : S → A) : preserves P (gets f : proc S E A).
Proof. intros s Hs. exact Hs. Qed.

Lemma preserves_bind {A B} (m : proc S E A) (k : A → proc S E B) :
  preserves P m → (∀ a, preserves P (k a)) → preserves P (m ≫= k).
Proof.
  intros Hm Hk s Hs. specialize (Hm s Hs). unfold mbind, proc_mbind.
  destruct (m s) as [[a|e|] s']; simpl in *; [by apply Hk | done | done].
Qed.

Lemma preserves_try_catch {A} (m : proc S E A) (h : E → proc S E A) :
  preserves P m → (∀ e, preserves P (h e)) → preserves P (try_catch m h).
Proof.
  intros Hm Hh s Hs. specialize (Hm s Hs). unfold try_catch.
  destruct (m s) as [[a|e|] s']; simpl in *; [done | by apply Hh | done].
Qed.

Lemma preserves_for_each {A} (f : A → proc S E unit) l :
  (∀ x, preserves P (f x)) → preserves P (for_each f l).
Proof.
  intros Hf. induction l as [|x l IH]; simpl;
    [apply preserves_ret | apply preserves_bind; auto].
Qed.
End preserves.

(** Everything a computation throws satisfies [P]. *)
Definition throws_only {S E A} (P : E → Prop) (m : proc S E A) : Prop :=
  ∀ s e, (m s).1 = Throw e → P e.

Section throws_only.
Context {S E : Type} (P : E → Prop).

Lemma throws_ret {A} (a : A) : throws_only P (mret a : proc S E A).
Proof. intros s e. done. Qed.

Lemma throws_throw {A} e : P e → throws_only P (throw e : proc S E A).
Proof. intros He s e' [= <-]. exact He. Qed.

Lemma throws_gets {A} (f : S → A) : throws_only P (gets f : proc S E A).
Proof. intros s e. done. Qed.

Lemma throws_modify (f : S → S) : throws_only P (modify f : proc S E unit).
Proof. intros s e. done. Qed.

Lemma throws_bind {A B} (m : proc S E A) (k : A → proc S E B) :
  throws_only P m → (∀ a, throws_only P (k a)) → throws_only P (m ≫= k).
Proof.
  intros Hm Hk s e. rewrite proc_bind_eq. specialize (Hm s).
  destruct (m s) as [[a|e'|] s']; simpl in *; [apply Hk| |done].
  intros [= <-]. by apply Hm.
Qed.

(** A handler only sees what the body throws. *)
Lemma throws_try_catch {A} (Q : E → Prop) (m : proc S E A) (h : E → proc S E A) :
  throws_only Q m → (∀ e, Q e → throws_only P (h e)) → throws_only P (try_catch m h).
Proof.
  intros Hm Hh s e. unfold try_catch. specialize (Hm s).
  destruct (m s) as [[a|e'|] s']; simpl in *; [done| |done]. by apply Hh, Hm.
Qed.
End throws_only.

Lemma throws_weaken {S E A} (P Q : E → Prop) (m : proc S E A) :
  (∀ e, P e → Q e) → throws_only P m → throws_only Q m.
Proof. intros H Hm s e He. by eapply H, Hm. Qed.

(** A computation adds at most [n] to a measure of the state. *)
Definition costs {S E A} (f : S → nat) (n : nat) (m : proc S E A) : Prop :=
  ∀ s, f (m s).2 <= f s + n.

Section costs.
Context {S E : Type} (f : S → nat).

Lemma costs_ret {A} (a : A) : costs f 0 (mret a : proc S E A).
Proof. intros s. simpl. lia. Qed.

Lemma costs_throw {A} e : costs f 0 (throw e : proc S E A).
Proof. intros s. simpl. lia. Qed.

Lemma costs_gets {A} (g : S → A) : costs f 0 (gets g : proc S E A).
Proof. intros s. simpl. lia. Qed.

Lemma costs_weaken {A} n n' (m : proc S E A) : n <= n' → costs f n m → costs f n' m.
Proof. intros Hn Hm s. specialize (Hm s). lia. Qed.

Lemma costs_bind {A B} n1 n2 (m : proc S E A) (k : A → proc S E B) :
  costs f n1 m → (∀ a, costs f n2 (k a)) → costs f (n1 + n2) (m ≫= k).
Proof.
  intros Hm Hk s. rewrite proc_bind_eq. specialize (Hm s).
  destruct (m s) as [[a|e|] s']; simpl in *; [specialize (Hk a s')| |]; lia.
Qed.

Lemma costs_try_catch {A} n1 n2 (m : proc S E A) (h : E → proc S E A) :
  costs f n1 m → (∀ e, costs f n2 (h e)) → costs f (n1 + n2) (try_catch m h).
Proof.
  intros Hm Hh s. unfold try_catch. specialize (Hm s).
  destruct (m s) as [[a|e|] s']; simpl in *; [|specialize (Hh e s')|]; lia.
Qed.
End costs.

Create HintDb drv.
Create Rewrite HintDb drv.
#[export] Hint Resolve preserves_ret preserves_throw preserves_gets preserves_bind
  preserves_try_catch preserves_for_each : drv.
#[export] Hint Resolve throws_ret throws_throw throws_gets throws_modify throws_bind
  costs_ret costs_throw costs_gets : drv.

(** ** Runs of a state machine given by a step function *)

Section runs.
Context {S O : Type} (step : S → O → S).

Lemma foldl_invariant (P : S → Prop) :
  (∀ s o, P s → P (step s o)) → ∀ ops s, P s → P (foldl step s ops).
Proof. intros Hstep ops. induction ops as [|o ops IH]; simpl; auto. Qed.
End runs.

(** ** Lists *)

Lemma seq_snoc a n : seq a (n + 1) = seq a n ++ [a + n].
Proof. by rewrite seq_app. Qed.

Lemma filter_none {A} (f : A → bool) l : (∀ x, x ∈ l → f x = false) → List.filter f l = [].
Proof.
  induction l as [|x l IH]; intros H; simpl; [done|].
  rewrite H by by left. apply IH. intros y Hy. apply H. by right.
Qed.

Lemma filter_filter {A} (f g : A → bool) l :
  List.filter f (List.filter g l) = List.filter (λ x, g x && f x) l.
Proof. induction l as [|x l IH]; simpl; [done|]. destruct (g x); simpl; by rewrite IH. Qed.

Lemma list_find_app_None {A} (P : A → Prop) `{∀ x, Decision (P x)} l1 l2 :
  list_find P l1 = None →
  list_find P (l1 ++ l2) = prod_map (Nat.add (length l1)) id <$> list_find P l2.
Proof.
  induction l1 as [|x l1 IH]; simpl; intros Hn.
  - destruct (list_find P l2) as [[]|]; done.
  - case_decide; [done|]. destruct (list_find P l1) as [[]|] eqn:E; [done|].
    rewrite IH by done. by destruct (list_find P l2) as [[]|].
Qed.

Lemma list_alter_at {A} (f : A → A) (l : list A) i x :
  l !! i = Some x → alter f i l = <[i := f x]> l.
Proof.
  revert i. induction l as [|y l IH]; intros [|i] Hi; simplify_eq/=; [done|].
  f_equal. by apply IH.
Qed.

(** ** Strings *)

Lemma append_assoc (a b c : string) : ((a ++ b) ++ c = a ++ (b ++ c))%string.
Proof. induction a as [|x a IH]; [done|]. exact (f_equal (String x) IH). Qed.

Lemma length_append (s t : string) :
  String.length (s ++ t)%string = String.length s + String.length t.
Proof. induction s as [|c s IH]; simpl; [done|]. by rewrite IH. Qed.

Lemma append_inj (s1 s2 t1 t2 : string) :
  String.length s1 = String.length s2 → (s1 ++ t1)%string = (s2 ++ t2)%string →
  s1 = s2 ∧ t1 = t2.
Proof.
  revert s2. induction s1 as [|c s1 IH]; intros [|c' s2] Hl H; try done.
  simpl in *. injection Hl as Hl. injection H as -> H. by destruct (IH s2 Hl H) as [-> ->].
Qed.

Lemma append_nil_r (a : string) : (a ++ "" = a)%string.
Proof. induction a as [|x a IH]; [done|]. exact (f_equal (String x) IH). Qed.

Section includes.
Local Open Scope string_scope.

(** [haystack.includes(needle)] *)
Fixpoint includes (haystack needle : string) : bool :=
  String.prefix needle haystack ||
  match haystack with
  | "" => false
  | String _ rest => includes rest needle
  end.

Lemma prefix_append (s t : string) : String.prefix s (s ++ t) = true.
Proof.
  induction s as [|c s IH]; simpl; [by destruct t|].
  destruct (Ascii.ascii_dec c c); [done | congruence].
Qed.

Lemma prefix_spec (s t : string) :
  String.prefix s t = true → ∃ after, t = s ++ after.
Proof.
  revert t. induction s as [|c s IH]; intros t Hp; [by eexists|].
  destruct t as [|d t]; simpl in Hp; [done|].
  destruct (Ascii.ascii_dec c d) as [->|]; [|done].
  destruct (IH t Hp) as [after ->]. by exists after.
Qed.

Lemma includes_spec (needle haystack : string) :
  includes haystack needle = true ↔
  ∃ before after, haystack = before ++ needle ++ after.
Proof.
  split.
  - induction haystack as [|c h IH]; cbn [includes]; intros [Hp|Hi]%orb_true_iff.
    + destruct (prefix_spec _ _ Hp) as [after ->]. by exists "", after.
    + done.
    + destruct (prefix_spec _ _ Hp) as [after ->]. by exists "", after.
    + destruct (IH Hi) as (before & after & ->). by exists (String c before), after.
  - intros (before & after & ->). induction before as [|c b IH].
    + change ("" ++ needle ++ after) with (needle ++ after).
      pose proof (prefix_append needle after) as Hp.
      destruct (needle ++ after); cbn [includes]; by rewrite Hp.
    + change (String c b ++ needle ++ after) with (String c (b ++ needle ++ after)).
      cbn [includes]. rewrite IH. apply orb_true_r.
Qed.
End includes.

(** ** JavaScript maps *)

(** A JavaScript [Map] keeps its entries in insertion order; setting a known
    key keeps its place. *)
Fixpoint map_get {A} (m : list (string * A)) (k : string) : option A :=
  match m with
  | [] => None
  | (k', v) :: m' => if bool_decide (k = k') then Some v else map_get m' k
  end.

Fixpoint map_set {A} (m : list (string * A)) (k : string) (v : A) : list (string * A) :=
  match m with
  | [] => [(k, v)]
  | (k', v') :: m' =>
      if bool_decide (k = k') then (k', v) :: m' else (k', v') :: map_set m' k v
  end.

Lemma map_get_set {A} (m : list (string * A)) k v k' :
  map_get (map_set m k v) k' = if bool_decide (k' = k) then Some v else map_get m k'.
Proof.
  induction m as [|[k0 v0] m IH]; simpl; [by repeat case_bool_decide; subst|].
  repeat case_bool_decide; subst; simpl; repeat case_bool_decide; subst; done.
Qed.

(** Setting the entries of a list one after the other. *)
Lemma map_get_foldl_other {A B} (f : B → string * A) l m k :
  Forall (λ b, (f b).1 ≠ k) l →
  map_get (foldl (λ m b, map_set m (f b).1 (f b).2) m l) k = map_get m k.
Proof.
  intros H. revert m. induction H as [|b l Hb _ IH]; intros m; [done|]. simpl.
  rewrite IH, map_get_set. by rewrite bool_decide_eq_false_2 by congruence.
Qed.

(** ** Automation *)

(** Splits every boolean test, option and outcome that a goal or hypothesis
    still computes on. *)
Ltac split_cases :=
  repeat
    match goal with
    | |- context [match ?x with _ => _ end] => is_var x; destruct x
    | H : context [match ?x with _ => _ end] |- _ => is_var x; destruct x
    | |- context [if ?b then _ else _] => let E := fresh "E" in destruct b eqn:E
    end; simplify_eq/=.

(** Unfolds the computation layer so that a method body runs. *)
Ltac unfold_proc :=
  unfold mbind, proc_mbind, mret, proc_mret, try_catch, throw, gets, modify,
    lift_outcome in *.
