(* ===== verification/Errors.v ===== *)
(** * Errors: the message templates and the driver's exception class

    Models [common/errors/ErrorMessage.ts] (the templates, the registry that
    the template constructor maintains, error codes and messages) and
    [common/errors/TypeDBDriverError.ts] (how an error raised below the driver
    is classified). [exn] is the type of the JavaScript values that the
    modelled code throws and catches. *)
From S2P Require Import Prelude.
Local Open Scope string_scope.

(** ** The templates *)

(** One constructor per template object; the code compares templates with
    [===], so identity is constructor identity. *)
Inductive ErrorMessage : Type :=
  (* namespace Driver *)
  | RPC_METHOD_UNAVAILABLE | DRIVER_NOT_OPEN | SESSION_ID_EXISTS | SESSION_CLOSED
  | TRANSACTION_CLOSED | TRANSACTION_CLOSED_WITH_ERRORS | UNABLE_TO_CONNECT
  | NEGATIVE_VALUE_NOT_ALLOWED | MISSING_DB_NAME | DATABASE_DOES_NOT_EXIST
  | UNKNOWN_STREAM_STATE | MISSING_RESPONSE | UNKNOWN_REQUEST_ID
  | CLOUD_NO_PRIMARY_REPLICA_YET | CLOUD_UNABLE_TO_CONNECT | CLOUD_REPLICA_NOT_PRIMARY
  | CLOUD_ALL_NODES_FAILED | USER_MANAGEMENT_CLOUD_ONLY | CLOUD_USER_DOES_NOT_EXIST
  | CLOUD_TOKEN_CREDENTIAL_INVALID | CLOUD_INVALID_ROOT_CA_PATH
  | UNRECOGNISED_SESSION_TYPE | MISSING_PORT | ADDRESS_TRANSLATION_MISMATCH
  (* namespace Concept *)
  | INVALID_CONCEPT_CASTING | MISSING_TRANSACTION | MISSING_IID | MISSING_LABEL
  | BAD_ENCODING | BAD_VALUE_TYPE | BAD_ANNOTATION | BAD_ATTRIBUTE_VALUE
  | VALUE_HAS_NO_REMOTE
  (* namespace Query *)
  | VARIABLE_DOES_NOT_EXIST | NONEXISTENT_EXPLAINABLE_CONCEPT
  | NONEXISTENT_EXPLAINABLE_OWNERSHIP | BAD_ANSWER_TYPE | MISSING_ANSWER
  (* namespace Internal *)
  | ILLEGAL_CAST | ILLEGAL_ARGUMENT | ILLEGAL_STATE.

#[export] Instance ErrorMessage_eq_dec : EqDecision ErrorMessage.
Proof. solve_decision. Defined.

(** Which namespace class a template is an instance of. *)
Inductive ErrorNamespace : Type := Driver | Concept | Query | Internal.

Definition namespace_of (t : ErrorMessage) : ErrorNamespace :=
  match t with
  | INVALID_CONCEPT_CASTING | MISSING_TRANSACTION | MISSING_IID | MISSING_LABEL
  | BAD_ENCODING | BAD_VALUE_TYPE | BAD_ANNOTATION | BAD_ATTRIBUTE_VALUE
  | VALUE_HAS_NO_REMOTE => Concept
  | VARIABLE_DOES_NOT_EXIST | NONEXISTENT_EXPLAINABLE_CONCEPT
  | NONEXISTENT_EXPLAINABLE_OWNERSHIP | BAD_ANSWER_TYPE | MISSING_ANSWER => Query
  | ILLEGAL_CAST | ILLEGAL_ARGUMENT | ILLEGAL_STATE => Internal
  | _ => Driver
  end.

(** The [super(...)] call of each namespace class: code prefix. *)
Definition codePrefix (t : ErrorMessage) : string :=
  match namespace_of t with
  | Driver => "NDR"
  | Concept => "NCO"
  | Query => "NQR"
  | Internal => "NIN"
  end.

(** The [super(...)] call of each namespace class: message prefix. *)
Definition messagePrefix (t : ErrorMessage) : string :=
  match namespace_of t with
  | Driver => "Driver Error"
  | Concept => "Concept Error"
  | Query => "Query Error"
  | Internal => "Internal Error"
  end.

Definition codeNumber (t : ErrorMessage) : N :=
  match t with
  | RPC_METHOD_UNAVAILABLE => 1
  | DRIVER_NOT_OPEN => 2
  | SESSION_ID_EXISTS => 3
  | SESSION_CLOSED => 4
  | TRANSACTION_CLOSED => 5
  | TRANSACTION_CLOSED_WITH_ERRORS => 6
  | UNABLE_TO_CONNECT => 7
  | NEGATIVE_VALUE_NOT_ALLOWED => 8
  | MISSING_DB_NAME => 9
  | DATABASE_DOES_NOT_EXIST => 10
  | UNKNOWN_STREAM_STATE => 11
  | MISSING_RESPONSE => 12
  | UNKNOWN_REQUEST_ID => 13
  | CLOUD_NO_PRIMARY_REPLICA_YET => 14
  | CLOUD_UNABLE_TO_CONNECT => 15
  | CLOUD_REPLICA_NOT_PRIMARY => 16
  | CLOUD_ALL_NODES_FAILED => 17
  | USER_MANAGEMENT_CLOUD_ONLY => 18
  | CLOUD_USER_DOES_NOT_EXIST => 19
  | CLOUD_TOKEN_CREDENTIAL_INVALID => 20
  | CLOUD_INVALID_ROOT_CA_PATH => 21
  | UNRECOGNISED_SESSION_TYPE => 22
  | MISSING_PORT => 23
  | ADDRESS_TRANSLATION_MISMATCH => 24
  | INVALID_CONCEPT_CASTING => 1
  | MISSING_TRANSACTION => 2
  | MISSING_IID => 3
  | MISSING_LABEL => 4
  | BAD_ENCODING => 5
  | BAD_VALUE_TYPE => 6
  | BAD_ANNOTATION => 7
  | BAD_ATTRIBUTE_VALUE => 8
  | VALUE_HAS_NO_REMOTE => 9
  | VARIABLE_DOES_NOT_EXIST => 1
  | NONEXISTENT_EXPLAINABLE_CONCEPT => 2
  | NONEXISTENT_EXPLAINABLE_OWNERSHIP => 3
  | BAD_ANSWER_TYPE => 4
  | MISSING_ANSWER => 5
  | ILLEGAL_CAST => 1
  | ILLEGAL_ARGUMENT => 2
  | ILLEGAL_STATE => 3
  end%N.

(** [`${args[i]}`]: reading past the end gives [undefined]. *)
Definition arg (args : list string) (i : nat) : string :=
  default "undefined" (args !! i).

(** The line feed that the templates write as an escape. *)
Definition newline : string := String (Ascii.ascii_of_nat 10) "".

(** The message bodies, as functions of the arguments already turned into
    strings. *)
Definition messageBody (t : ErrorMessage) (args : list string) : string :=
  match t with
  | RPC_METHOD_UNAVAILABLE =>
      "The server does not support this method. Please ensure that the TypeDB Driver and TypeDB Server versions are compatible:"
      ++ newline ++ "'" ++ arg args 0 ++ "'."
  | DRIVER_NOT_OPEN => "The driver is not open."
  | SESSION_ID_EXISTS =>
      "The newly opened session id '" ++ arg args 0 ++ "' already exists"
  | SESSION_CLOSED => "Session is closed."
  | TRANSACTION_CLOSED =>
      "The transaction has been closed and no further operation is allowed."
  | TRANSACTION_CLOSED_WITH_ERRORS =>
      "The transaction has been closed with error(s): " ++ newline ++ arg args 0 ++ "."
  | UNABLE_TO_CONNECT => "Unable to connect to TypeDB server."
  | NEGATIVE_VALUE_NOT_ALLOWED =>
      "Value cannot be less than 1, was: '" ++ arg args 0 ++ "'."
  | MISSING_DB_NAME => "Database name cannot be null."
  | DATABASE_DOES_NOT_EXIST => "The database '" ++ arg args 0 ++ "' does not exist."
  | UNKNOWN_STREAM_STATE =>
      "RPC transaction stream response '" ++ arg args 0 ++ "' is unknown."
  | MISSING_RESPONSE =>
      "The required field 'res' of type '" ++ arg args 0 ++ "' was not set."
  | UNKNOWN_REQUEST_ID =>
      "Received a response with unknown request id '" ++ arg args 0 ++ "'."
  | CLOUD_NO_PRIMARY_REPLICA_YET =>
      "No replica has been marked as the primary replica for latest known term '"
      ++ arg args 0 ++ "'."
  | CLOUD_UNABLE_TO_CONNECT =>
      "Unable to connect to TypeDB Cloud. Attempted connecting to the cloud nodes, but none are available: '"
      ++ arg args 1 ++ "'."
  | CLOUD_REPLICA_NOT_PRIMARY => "The replica is not the primary replica."
  | CLOUD_ALL_NODES_FAILED =>
      "Attempted connecting to all cloud nodes, but the following errors occurred: "
      ++ newline ++ "'" ++ arg args 0 ++ "'"
  | USER_MANAGEMENT_CLOUD_ONLY =>
      "User management is only available in TypeDB Cloud servers."
  | CLOUD_USER_DOES_NOT_EXIST => "The user '" ++ arg args 0 ++ "' does not exist."
  | CLOUD_TOKEN_CREDENTIAL_INVALID => "Invalid token credential."
  | CLOUD_INVALID_ROOT_CA_PATH =>
      "The provided Root CA path '" ++ arg args 0 ++ "' does not exist"
  | UNRECOGNISED_SESSION_TYPE =>
      "Session type '" ++ arg args 1 ++ "' was not recognised."
  | MISSING_PORT => "Invalid URL '" ++ arg args 1 ++ "': missing port."
  | ADDRESS_TRANSLATION_MISMATCH =>
      "Address translation map does not match the server's advertised address list. User-provided servers not in the advertised list: {"
      ++ arg args 0 ++ "}. Advertised servers not mapped by user: {" ++ arg args 1 ++ "}."
  | INVALID_CONCEPT_CASTING =>
      "Invalid concept conversion from '" ++ arg args 0 ++ "' to '" ++ arg args 1 ++ "'."
  | MISSING_TRANSACTION => "Transaction cannot be null."
  | MISSING_IID => "IID cannot be null or empty."
  | MISSING_LABEL => "Label cannot be null or empty."
  | BAD_ENCODING => "The encoding '" ++ arg args 0 ++ "' was not recognised."
  | BAD_VALUE_TYPE => "The value type '" ++ arg args 0 ++ "' was not recognised."
  | BAD_ANNOTATION => "The annotation '" ++ arg args 0 ++ "' was not recognised."
  | BAD_ATTRIBUTE_VALUE =>
      "The attribute value '" ++ arg args 0 ++ "' was not recognised."
  | VALUE_HAS_NO_REMOTE => "A 'value' has no remote concept."
  | VARIABLE_DOES_NOT_EXIST => "The variable '" ++ arg args 0 ++ "' does not exist."
  | NONEXISTENT_EXPLAINABLE_CONCEPT =>
      "The concept identified by '" ++ arg args 0 ++ "' is not explainable."
  | NONEXISTENT_EXPLAINABLE_OWNERSHIP =>
      "The ownership by owner '" ++ arg args 0 ++ "'of attribute '" ++ arg args 1
      ++ "' is not explainable."
  | BAD_ANSWER_TYPE => "The answer type '" ++ arg args 0 ++ "' was not recognised."
  | MISSING_ANSWER =>
      "The required field 'answer' of type '" ++ arg args 0 ++ "' was not set."
  | ILLEGAL_CAST =>
      "Illegal casting operation from '" ++ arg args 0 ++ "' to '" ++ arg args 1 ++ "'."
  | ILLEGAL_ARGUMENT => "Illegal argument provided: '" ++ arg args 0 ++ "'"
  | ILLEGAL_STATE => "Illegal state."
  end.

(** The templates in the order in which the module body constructs them. *)
Definition all_templates : list ErrorMessage :=
  [ RPC_METHOD_UNAVAILABLE; DRIVER_NOT_OPEN; SESSION_ID_EXISTS; SESSION_CLOSED;
    TRANSACTION_CLOSED; TRANSACTION_CLOSED_WITH_ERRORS; UNABLE_TO_CONNECT;
    NEGATIVE_VALUE_NOT_ALLOWED; MISSING_DB_NAME; DATABASE_DOES_NOT_EXIST;
    UNKNOWN_STREAM_STATE; MISSING_RESPONSE; UNKNOWN_REQUEST_ID;
    CLOUD_NO_PRIMARY_REPLICA_YET; CLOUD_UNABLE_TO_CONNECT; CLOUD_REPLICA_NOT_PRIMARY;
    CLOUD_ALL_NODES_FAILED; USER_MANAGEMENT_CLOUD_ONLY; CLOUD_USER_DOES_NOT_EXIST;
    CLOUD_TOKEN_CREDENTIAL_INVALID; CLOUD_INVALID_ROOT_CA_PATH;
    UNRECOGNISED_SESSION_TYPE; MISSING_PORT; ADDRESS_TRANSLATION_MISMATCH;
    INVALID_CONCEPT_CASTING; MISSING_TRANSACTION; MISSING_IID; MISSING_LABEL;
    BAD_ENCODING; BAD_VALUE_TYPE; BAD_ANNOTATION; BAD_ATTRIBUTE_VALUE;
    VALUE_HAS_NO_REMOTE;
    VARIABLE_DOES_NOT_EXIST; NONEXISTENT_EXPLAINABLE_CONCEPT;
    NONEXISTENT_EXPLAINABLE_OWNERSHIP; BAD_ANSWER_TYPE; MISSING_ANSWER;
    ILLEGAL_CAST; ILLEGAL_ARGUMENT; ILLEGAL_STATE ].

(** ** The static registry *)

(** The static members [knownErrors], [maxCodeNumber] and [maxCodeDigits]
    (undefined until the first construction). *)
Record registry : Type := Registry {
  knownErrors : gmap string (gmap N ErrorMessage);
  maxCodeNumber : N;
  maxCodeDigits : option nat;
}.

Definition empty_registry : registry := Registry ∅ 0 None.

(** [String(n)] for a natural number. *)
Definition String_of_number (n : N) : string := pretty n.

(** The constructor's effect on the statics. *)
Definition construct (r : registry) (t : ErrorMessage) : registry :=
  let known :=
    match knownErrors r !! codePrefix t with
    | Some _ => knownErrors r
    | None => <[codePrefix t := ∅]> (knownErrors r)
    end in
  let inner := default ∅ (known !! codePrefix t) in
  let max' := N.max (maxCodeNumber r) (codeNumber t) in
  Registry
    (<[codePrefix t := <[codeNumber t := t]> inner]> known)
    max'
    (Some (String.length (String_of_number max'))).

Definition loaded_registry : registry := foldl construct empty_registry all_templates.

(** ** Codes and messages *)

(** The loop of [code()]: one zero for each length from [len] up to [digits]. *)
Fixpoint zeros_loop (steps : nat) : string :=
  match steps with
  | 0 => ""
  | S n => "0" ++ zeros_loop n
  end.

Definition zeros (len : nat) (digits : option nat) : string :=
  match digits with
  | Some d => zeros_loop (d - len)
  | None => ""
  end.

(** [code()], on the template object's memo field [_code]: when it is null,
    [String(this._code)] is the string [undefined]. *)
Definition code_memo (r : registry) (t : ErrorMessage) (memo : option string)
    : string * option string :=
  match memo with
  | None =>
      let z := zeros (String.length "undefined") (maxCodeDigits r) in
      let c := codePrefix t ++ z ++ String_of_number (codeNumber t) in
      (c, Some c)
  | Some c => (c, Some c)
  end.

Definition code (t : ErrorMessage) : string := (code_memo loaded_registry t None).1.

Definition message (t : ErrorMessage) (args : list string) : string :=
  "[" ++ code t ++ "] " ++ messagePrefix t ++ ": " ++ messageBody t args.

Definition toString (t : ErrorMessage) : string :=
  "[" ++ code t ++ "] " ++ messagePrefix t ++ ": " ++ messageBody t [].

(** ** Exceptions *)

(** The gRPC status codes that the code names; the others are told apart by
    their number. *)
Inductive Status : Type :=
  | UNIMPLEMENTED | UNAVAILABLE | UNKNOWN | CANCELLED | INTERNAL | OTHER (n : N).

#[export] Instance Status_eq_dec : EqDecision Status.
Proof. solve_decision. Defined.

(** A gRPC [ServiceError]: an [Error] object with a status and its details. *)
Record ServiceError : Type := mkServiceError {
  se_code : Status;
  se_details : string;
  se_message : string;
}.

#[export] Instance ServiceError_eq_dec : EqDecision ServiceError.
Proof. solve_decision. Defined.

(** The values the modelled code throws: the driver's error class, a raw gRPC
    error, or another JavaScript error (such as the TypeError of reading a
    property of undefined). *)
Inductive exn : Type :=
  | DriverError (msg : string) (template : option ErrorMessage)
  | RawServiceError (e : ServiceError)
  | JsError (name msg : string).

#[export] Instance exn_eq_dec : EqDecision exn.
Proof. solve_decision. Defined.

(** [Error.prototype.toString] *)
Definition error_to_string (name msg : string) : string :=
  if bool_decide (name = "") then msg
  else if bool_decide (msg = "") then name
  else name ++ ": " ++ msg.

(** [`${e}`] *)
Definition exn_to_string (e : exn) : string :=
  match e with
  | DriverError msg _ => error_to_string "TypeDBDriverError" msg
  | RawServiceError se => error_to_string "Error" (se_message se)
  | JsError name msg => error_to_string name msg
  end.

(** [e instanceof TypeDBDriverError && T === e.messageTemplate] *)
Definition has_template (t : ErrorMessage) (e : exn) : bool :=
  match e with
  | DriverError _ (Some t') => bool_decide (t = t')
  | _ => false
  end.

(** ** [TypeDBDriverError] *)

Definition isReplicaNotPrimaryError (e : ServiceError) : bool :=
  includes (se_message e) "[RPL01]".

Definition isTokenCredentialInvalidError (e : ServiceError) : bool :=
  includes (se_message e) "[CLS08]" || includes (se_message e) "[ENT08]".

(** ["code" in e] *)
Definition isServiceError (e : exn) : bool :=
  match e with
  | RawServiceError _ => true
  | _ => false
  end.

(** What the constructor accepts: [string | Error | ServiceError | ErrorMessage]. *)
Inductive error_arg : Type :=
  | ArgString (s : string)
  | ArgTemplate (t : ErrorMessage)
  | ArgError (e : exn).

(** [new TypeDBDriverError(error)] *)
Definition TypeDBDriverError (error : error_arg) : exn :=
  match error with
  | ArgString s => DriverError s None
  | ArgTemplate t => DriverError (toString t) (Some t)
  | ArgError (RawServiceError e) =>
      if bool_decide (se_code e = UNIMPLEMENTED) then
        DriverError (message RPC_METHOD_UNAVAILABLE [se_details e])
          (Some RPC_METHOD_UNAVAILABLE)
      else if bool_decide (se_code e ∈ [UNAVAILABLE; UNKNOWN; CANCELLED])
              || includes (se_message e) "Received RST_STREAM" then
        DriverError (message UNABLE_TO_CONNECT []) (Some UNABLE_TO_CONNECT)
      else if isReplicaNotPrimaryError e then
        DriverError (message CLOUD_REPLICA_NOT_PRIMARY []) (Some CLOUD_REPLICA_NOT_PRIMARY)
      else if isTokenCredentialInvalidError e then
        DriverError (message CLOUD_TOKEN_CREDENTIAL_INVALID [])
          (Some CLOUD_TOKEN_CREDENTIAL_INVALID)
      else if bool_decide (se_code e = INTERNAL) then DriverError (se_details e) None
      else DriverError (exn_to_string (RawServiceError e)) None
  | ArgError e => DriverError (exn_to_string e) None
  end.

(** [throw new TypeDBDriverError(T.message(args))]: the argument is a string,
    so the error carries no template. *)
Definition driver_error (t : ErrorMessage) (args : list string) : exn :=
  TypeDBDriverError (ArgString (message t args)).

(** Reading a property of undefined or null. *)
Definition type_error (what : string) : exn :=
  JsError "TypeError" ("Cannot read properties of undefined (reading '" ++ what ++ "')").

(** ** Properties *)

(** Decides a statement about every template by evaluation. *)
Lemma all_templates_complete t : t ∈ all_templates.
Proof. destruct t; vm_compute; repeat constructor. Qed.

Lemma templates_inj {B} `{EqDecision B} (f : ErrorMessage → B) :
  bool_decide (NoDup (f <$> all_templates)) = true → ∀ t1 t2, f t1 = f t2 → t1 = t2.
Proof.
  intros Hnd%bool_decide_eq_true t1 t2 Hf.
  destruct (list_elem_of_lookup_1 _ _ (all_templates_complete t1)) as [i Hi].
  destruct (list_elem_of_lookup_1 _ _ (all_templates_complete t2)) as [j Hj].
  assert (i = j) as <-; [|congruence].
  apply (NoDup_lookup _ _ _ (f t1) Hnd); rewrite list_lookup_fmap;
    [by rewrite Hi | by rewrite Hj, Hf].
Qed.

Lemma prefix_number_inj t1 t2 :
  codePrefix t1 = codePrefix t2 → codeNumber t1 = codeNumber t2 → t1 = t2.
Proof.
  intros Hp Hn. apply (templates_inj (λ t, (codePrefix t, codeNumber t)));
    [vm_compute; reflexivity | congruence].
Qed.

(** Error codes identify errors: two message templates with the same
    printed code are the same template. *)
Theorem code_injective (t1 t2 : ErrorMessage) : code t1 = code t2 ↔ t1 = t2.
Proof.
  split; [|by intros ->]. apply (templates_inj code). vm_compute. reflexivity.
Qed.

(** The registry lookup that the two-level map offers. *)
Definition registered (r : registry) (p : string) (n : N) : option ErrorMessage :=
  knownErrors r !! p ≫= λ m, m !! n.

Lemma registered_construct r t p n :
  registered (construct r t) p n =
    if bool_decide (codePrefix t = p ∧ codeNumber t = n) then Some t
    else registered r p n.
Proof.
  unfold registered, construct; simpl.
  destruct (decide (codePrefix t = p)) as [<-|Hp].
  - rewrite lookup_insert_eq; simpl.
    destruct (decide (codeNumber t = n)) as [<-|Hn].
    + rewrite lookup_insert_eq. by rewrite bool_decide_eq_true_2.
    + rewrite lookup_insert_ne by done. rewrite bool_decide_eq_false_2 by (intros []; done).
      destruct (knownErrors r !! codePrefix t) eqn:E; simpl; [by rewrite E|].
      by rewrite lookup_insert_eq.
  - rewrite lookup_insert_ne by done. rewrite bool_decide_eq_false_2 by (intros []; done).
    destruct (knownErrors r !! codePrefix t); [done|]. by rewrite lookup_insert_ne.
Qed.

Lemma registered_foldl ts r p n t :
  registered (foldl construct r ts) p n = Some t →
  (t ∈ ts ∧ codePrefix t = p ∧ codeNumber t = n) ∨ registered r p n = Some t.
Proof.
  revert r. induction ts as [|t' ts IH]; intros r; simpl; [auto|].
  intros [(?&?&?)|H]%IH; [left; by rewrite elem_of_cons; auto|].
  rewrite registered_construct in H. case_bool_decide as Ht; [|auto].
  injection H as <-. left. rewrite elem_of_cons. destruct Ht; auto.
Qed.

Lemma registered_foldl_keep ts r t :
  registered r (codePrefix t) (codeNumber t) = Some t →
  registered (foldl construct r ts) (codePrefix t) (codeNumber t) = Some t.
Proof.
  revert r. induction ts as [|t' ts IH]; intros r H; simpl; [done|]. apply IH.
  rewrite registered_construct. case_bool_decide as Ht; [|done].
  destruct Ht. f_equal. by apply prefix_number_inj.
Qed.

(** The registry built by loading the module maps each code prefix and
    number to exactly the template that was constructed with them. *)
Theorem registry_exact (p : string) (n : N) (t : ErrorMessage) :
  registered loaded_registry p n = Some t ↔ codePrefix t = p ∧ codeNumber t = n.
Proof.
  unfold loaded_registry. split.
  - intros [(?&?&?)|H]%registered_foldl; [done|]. by vm_compute in H.
  - intros [<- <-]. destruct (list_elem_of_split _ _ (all_templates_complete t))
      as (l1 & l2 & ->).
    rewrite foldl_app; simpl. apply registered_foldl_keep.
    rewrite registered_construct. by rewrite bool_decide_eq_true_2.
Qed.

(** The zero padding of error codes never happens: [code()] measures the
    string of the unset field [_code] (nine characters) rather than the code
    number, so no code is padded while there are fewer than ten digits. *)
Theorem code_never_padded (r : registry) (t : ErrorMessage) (d : nat)
    (Hd : maxCodeDigits r = Some d) (Hsmall : d <= 9) :
  (code_memo r t None).1 = codePrefix t ++ String_of_number (codeNumber t).
Proof.
  unfold code_memo, zeros. rewrite Hd. change (String.length "undefined") with 9.
  by replace (d - 9) with 0 by lia.
Qed.

Lemma code_never_padded_witness :
  (code_memo loaded_registry ILLEGAL_CAST None).1 = "NIN1".
Proof. apply (code_never_padded loaded_registry ILLEGAL_CAST 2); [reflexivity | lia]. Defined.

(** The conditions under which the constructor looks past the connection
    failures. *)
Definition reaches_server (e : ServiceError) : bool :=
  negb (bool_decide (se_code e ∈ [UNIMPLEMENTED; UNAVAILABLE; UNKNOWN; CANCELLED]))
  && negb (includes (se_message e) "Received RST_STREAM").

(** Classification of gRPC errors: the wrapped error carries the template
    that the retry logic tests for exactly when the status and the message
    say so. Connection failures win over both markers, and a replica that is
    not primary wins over an invalid token. *)
Theorem service_error_classified (e : ServiceError) :
  let err := TypeDBDriverError (ArgError (RawServiceError e)) in
  has_template UNABLE_TO_CONNECT err =
    negb (reaches_server e) && negb (bool_decide (se_code e = UNIMPLEMENTED)) ∧
  has_template RPC_METHOD_UNAVAILABLE err = bool_decide (se_code e = UNIMPLEMENTED) ∧
  has_template CLOUD_REPLICA_NOT_PRIMARY err =
    reaches_server e && includes (se_message e) "[RPL01]" ∧
  has_template CLOUD_TOKEN_CREDENTIAL_INVALID err =
    reaches_server e && negb (includes (se_message e) "[RPL01]")
    && (includes (se_message e) "[CLS08]" || includes (se_message e) "[ENT08]").
Proof.
  destruct e as [c d m]. unfold reaches_server, TypeDBDriverError, isReplicaNotPrimaryError,
    isTokenCredentialInvalidError; simpl.
  generalize (includes m "Received RST_STREAM") (includes m "[RPL01]")
    (includes m "[CLS08]" || includes m "[ENT08]"). intros b1 b2 b3.
  destruct c; destruct b1, b2, b3; vm_compute; auto.
Qed.

(** Errors built from a formatted message carry no template, so no handler
    that tests the template recognises them. *)
Lemma driver_error_no_template t t' args : has_template t (driver_error t' args) = false.
Proof. done. Qed.
#[export] Hint Rewrite driver_error_no_template : drv.

(** The driver's own errors have no status code. *)
Lemma driver_error_not_service a : isServiceError (TypeDBDriverError a) = false.
Proof.
  destruct a as [s|t|[msg t|e|n m]]; try reflexivity. unfold TypeDBDriverError.
  repeat case_match; reflexivity.
Qed.
#[export] Hint Rewrite driver_error_not_service : drv.

(** Messages are not computed while methods are run symbolically. *)
#[global] Arguments TypeDBDriverError : simpl never.
#[global] Arguments driver_error : simpl never.
#[global] Arguments message : simpl never.
