(* ===== verification/Bytes.v ===== *)
(** * Bytes and labels

    Models [common/util/Bytes.ts] (hexadecimal instance and session ids) and
    [common/Label.ts] (type labels). A string is a sequence of code units, of
    which the model keeps the 8-bit ones; hexadecimal text only has those. *)
From Stdlib Require Export Strings.Byte Strings.Ascii.
From S2P Require Import Prelude Errors.
Local Open Scope string_scope.

#[export] Instance byte_eq_dec : EqDecision byte.
Proof. exact Byte.byte_eq_dec. Defined.

(** ** Node's hexadecimal codec *)

(** One digit of [Buffer.toString('hex')]: lower case. *)
Definition hex_digit (n : nat) : Ascii.ascii :=
  match n with
  | 0 => "0" | 1 => "1" | 2 => "2" | 3 => "3" | 4 => "4" | 5 => "5" | 6 => "6" | 7 => "7"
  | 8 => "8" | 9 => "9" | 10 => "a" | 11 => "b" | 12 => "c" | 13 => "d" | 14 => "e"
  | _ => "f"
  end%char.

(** The value of a digit as [Buffer.from(_, 'hex')] reads it: both cases. *)
Definition hex_value (c : Ascii.ascii) : option nat :=
  let n := Ascii.nat_of_ascii c in
  if bool_decide (48 <= n <= 57) then Some (n - 48)
  else if bool_decide (97 <= n <= 102) then Some (n - 87)
  else if bool_decide (65 <= n <= 70) then Some (n - 55)
  else None.

Definition byte_of_digits (hi lo : nat) : byte :=
  default x00 (Byte.of_nat (16 * hi + lo)).

(** [Buffer.from(s, 'hex')]: pairs of digits, up to the first pair that is not
    hexadecimal. *)
Fixpoint buffer_from_hex (s : string) : list byte :=
  match s with
  | String c1 (String c2 rest) =>
      match hex_value c1, hex_value c2 with
      | Some hi, Some lo => byte_of_digits hi lo :: buffer_from_hex rest
      | _, _ => []
      end
  | _ => []
  end.

(** [Buffer.from(bytes).toString('hex')] *)
Fixpoint buffer_to_hex (bs : list byte) : string :=
  match bs with
  | [] => ""
  | b :: bs' =>
      String (hex_digit (Byte.to_nat b / 16))
        (String (hex_digit (Byte.to_nat b mod 16)) (buffer_to_hex bs'))
  end.

(** ** [Bytes] *)

Definition PREFIX : string := "0x".

(** [s.replace(p, r)] with a string pattern: the first occurrence only. *)
Fixpoint replace_first (s p r : string) : string :=
  if String.prefix p s then r ++ String.substring (String.length p) (String.length s) s
  else match s with
       | "" => ""
       | String c rest => String c (replace_first rest p r)
       end.

Definition hexStringToBytes (hexString : string) : outcome exn (list byte) :=
  if negb (bool_decide (String.length hexString mod 2 = 0)) then
    Throw (JsError "Error" ("hexString length not divisible by 2: "
                            ++ pretty (String.length hexString)))
  else if negb (String.prefix PREFIX hexString) then
    Throw (JsError "Error" ("hexString does not start with '" ++ PREFIX ++ "': "
                            ++ hexString ++ "'"))
  else
    let hexString := replace_first hexString PREFIX "" in
    Ret (buffer_from_hex hexString).

Definition bytesToHexString (bytes : list byte) : string :=
  PREFIX ++ buffer_to_hex bytes.

(** ** [Label] *)

Record Label : Type := mkLabel {
  scope : option string;
  name : string;
}.

#[export] Instance Label_eq_dec : EqDecision Label.
Proof. solve_decision. Defined.

Definition scopedName (l : Label) : string :=
  match scope l with
  | None => name l
  | Some s => s ++ ":" ++ name l
  end.

Definition label_equals (this that : Label) : bool :=
  bool_decide (scope this = scope that) && bool_decide (name this = name that).

(** [Label.of] *)
Definition label_of (name : string) : Label := mkLabel None name.

(** [Label.scoped] *)
Definition label_scoped (scope name : string) : Label := mkLabel (Some scope) name.

(** ** Properties *)

Lemma byte_digits (b : byte) :
  hex_value (hex_digit (Byte.to_nat b / 16)) = Some (Byte.to_nat b / 16) ∧
  hex_value (hex_digit (Byte.to_nat b mod 16)) = Some (Byte.to_nat b mod 16) ∧
  byte_of_digits (Byte.to_nat b / 16) (Byte.to_nat b mod 16) = b.
Proof. destruct b; vm_compute; auto. Qed.

Lemma buffer_from_to_hex bs : buffer_from_hex (buffer_to_hex bs) = bs.
Proof.
  induction bs as [|b bs IH]; [done|]. cbn [buffer_to_hex buffer_from_hex].
  destruct (byte_digits b) as (-> & -> & ->). by rewrite IH.
Qed.

Lemma buffer_to_hex_length bs : String.length (buffer_to_hex bs) = 2 * length bs.
Proof. induction bs as [|b bs IH]; simpl; [done|]. rewrite IH. lia. Qed.

Lemma substring_all s : String.substring 0 (String.length s) s = s.
Proof. induction s as [|c s IH]; simpl; [done|]. by rewrite IH. Qed.

Lemma substring_long s n : String.length s <= n → String.substring 0 n s = s.
Proof.
  revert n. induction s as [|c s IH]; intros [|n] H; simpl in *; try done; [lia|].
  f_equal. apply IH. lia.
Qed.

(** Dropping the [0x] of a string that starts with it. *)
Lemma replace_first_PREFIX s : replace_first (PREFIX ++ s) PREFIX "" = s.
Proof.
  unfold PREFIX; simpl. rewrite substring_long by lia. by destruct s.
Qed.

Lemma hexStringToBytes_prefixed s :
  hexStringToBytes (PREFIX ++ s) =
    if bool_decide (String.length s mod 2 = 0) then Ret (buffer_from_hex s)
    else Throw (JsError "Error" ("hexString length not divisible by 2: "
                                 ++ pretty (2 + String.length s))).
Proof.
  unfold hexStringToBytes. change (String.length (PREFIX ++ s)) with (2 + String.length s).
  replace ((2 + String.length s) mod 2) with (String.length s mod 2)
    by (rewrite <- Nat.Div0.add_mod_idemp_l; done).
  case_bool_decide; [|done]. rewrite prefix_append. cbv zeta.
  by rewrite replace_first_PREFIX.
Qed.

Lemma hexStringToBytes_print (bytes : list byte) :
  hexStringToBytes (bytesToHexString bytes) = Ret bytes.
Proof.
  unfold bytesToHexString. rewrite hexStringToBytes_prefixed, buffer_to_hex_length.
  rewrite bool_decide_eq_true_2 by (rewrite Nat.mul_comm; apply Nat.Div0.mod_mul).
  by rewrite buffer_from_to_hex.
Qed.
#[export] Hint Rewrite hexStringToBytes_print : drv.

(** A string all of whose characters are hexadecimal digits. *)
Fixpoint is_hex (s : string) : bool :=
  match s with
  | "" => true
  | String c rest => bool_decide (is_Some (hex_value c)) && is_hex rest
  end.

(** The lower-case form in which the driver prints ids. *)
Fixpoint lower_hex (s : string) : string :=
  match s with
  | "" => ""
  | String c rest =>
      String (match hex_value c with Some n => hex_digit n | None => c end) (lower_hex rest)
  end.

Lemma hex_value_bound c n : hex_value c = Some n → n < 16.
Proof.
  unfold hex_value. repeat case_bool_decide; intros; simplify_eq; lia.
Qed.

Lemma byte_of_digits_nat hi lo :
  hi < 16 → lo < 16 → Byte.to_nat (byte_of_digits hi lo) = 16 * hi + lo.
Proof.
  intros Hhi Hlo. unfold byte_of_digits.
  destruct (Byte.of_nat (16 * hi + lo)) as [b|] eqn:E; simpl.
  - by apply Byte.to_of_nat in E.
  - apply Byte.of_nat_None_iff in E. lia.
Qed.

Lemma buffer_to_from_hex n s :
  String.length s = 2 * n → is_hex s = true →
  buffer_to_hex (buffer_from_hex s) = lower_hex s ∧ length (buffer_from_hex s) = n.
Proof.
  revert s. induction n as [|n IH]; intros s Hl Hh; [by destruct s|].
  destruct s as [|c1 [|c2 s]]; [simpl in Hl; lia..|].
  cbn [is_hex] in Hh. apply andb_true_iff in Hh as [H1 [H2 Hs]%andb_true_iff].
  apply bool_decide_eq_true in H1 as [hi Hhi]. apply bool_decide_eq_true in H2 as [lo Hlo].
  destruct (IH s) as [IH1 IH2]; [simpl in Hl; lia | done |].
  cbn [buffer_from_hex lower_hex]. rewrite Hhi, Hlo. cbn [buffer_to_hex length].
  pose proof (hex_value_bound _ _ Hhi). pose proof (hex_value_bound _ _ Hlo).
  rewrite byte_of_digits_nat, IH1, IH2 by done.
  replace ((16 * hi + lo) / 16) with hi by (apply Nat.div_unique with lo; lia).
  replace ((16 * hi + lo) mod 16) with lo by (apply Nat.mod_unique with hi; lia).
  done.
Qed.

(** Ids round-trip between bytes and hexadecimal text: printed bytes parse
    back to themselves, and [0x] followed by an even number of hexadecimal
    digits parses to half as many bytes, which print as the same id in lower
    case. *)
Theorem hex_roundtrip (bytes : list byte) (s : string)
    (Heven : String.length s mod 2 = 0) (Hhex : is_hex s = true) :
  hexStringToBytes (bytesToHexString bytes) = Ret bytes ∧
  ∃ parsed, hexStringToBytes (PREFIX ++ s) = Ret parsed ∧
            bytesToHexString parsed = PREFIX ++ lower_hex s ∧
            2 * length parsed = String.length s.
Proof.
  split; [apply hexStringToBytes_print|].
  apply Nat.Div0.mod_divides in Heven as [n Hn].
  destruct (buffer_to_from_hex n s Hn Hhex) as [H1 H2].
  exists (buffer_from_hex s). rewrite hexStringToBytes_prefixed. split_and!.
  - by rewrite bool_decide_eq_true_2 by (rewrite Hn, Nat.mul_comm; apply Nat.Div0.mod_mul).
  - unfold bytesToHexString. by rewrite H1.
  - lia.
Qed.

Lemma hex_roundtrip_witness :
  hexStringToBytes (bytesToHexString [xc0; xff; xee]) = Ret [xc0; xff; xee] ∧
  ∃ parsed, hexStringToBytes (PREFIX ++ "C0FFee") = Ret parsed ∧
            bytesToHexString parsed = PREFIX ++ "c0ffee" ∧
            2 * length parsed = String.length "C0FFee".
Proof. apply (hex_roundtrip [xc0; xff; xee] "C0FFee"); reflexivity. Defined.

(** Ids of odd length and ids without the prefix are rejected. *)
Lemma hexStringToBytes_errors s :
  String.length s mod 2 ≠ 0 ∨ String.prefix PREFIX s = false →
  ∃ msg, hexStringToBytes s = Throw (JsError "Error" msg).
Proof.
  intros H. unfold hexStringToBytes. case_bool_decide; simpl; [|by eexists].
  destruct H as [?| ->]; [done|]. by eexists.
Qed.

Lemma hexStringToBytes_ret s bs :
  hexStringToBytes s = Ret bs → ∃ t, s = PREFIX ++ t ∧ bs = buffer_from_hex t.
Proof.
  unfold hexStringToBytes. case_bool_decide; simpl; [|done].
  destruct (String.prefix PREFIX s) eqn:Hp; simpl; [|done].
  destruct (prefix_spec _ _ Hp) as [t ->]. rewrite replace_first_PREFIX.
  intros [= <-]. by exists t.
Qed.

(** Label equality is equality of scope and name. *)
Lemma label_equals_eq l1 l2 : label_equals l1 l2 = true ↔ l1 = l2.
Proof.
  unfold label_equals. rewrite andb_true_iff, !bool_decide_eq_true.
  destruct l1, l2; simpl. split; [intros [-> ->]; done | by intros [= -> ->]].
Qed.
