(* ===== verification/Proto.v ===== *)
(** * Values and protocol messages

    JavaScript values that the driver passes through, and the request messages
    it builds. The message classes are generated code outside the repository,
    so a message is kept as the constructor call that the source writes: the
    class name and the fields of its object literal, in order. *)
From Stdlib Require Import Floats.SpecFloat.
From S2P Require Import Prelude Errors Bytes.
Local Open Scope string_scope.

(** ** JavaScript primitive values and dates *)

(** A number is an IEEE 754 double. *)
#[export] Instance spec_float_eq_dec : EqDecision spec_float.
Proof. solve_decision. Defined.

(** The double of an integer, rounded to 53 bits. *)
Definition number_of_Z (z : Z) : spec_float := binary_normalize 53 1024 z 0 false.

(** [boolean | string | number | Date]; a [Date] is an object, so it has an
    identity besides its time value. *)
Inductive jsval : Type :=
  | JBool (b : bool)
  | JNum (f : spec_float)
  | JStr (s : string)
  | JDate (ref : positive) (time : spec_float).

#[export] Instance jsval_eq_dec : EqDecision jsval.
Proof. solve_decision. Defined.

(** [a == b] on values of one type: numbers by IEEE equality, dates by
    identity. *)
Definition js_eq (a b : jsval) : bool :=
  match a, b with
  | JBool x, JBool y => bool_decide (x = y)
  | JNum x, JNum y => SFeqb x y
  | JStr x, JStr y => bool_decide (x = y)
  | JDate r _, JDate r' _ => bool_decide (r = r')
  | _, _ => false
  end.

(** ** Enumerations of the protocol that the source names *)

Inductive ValueTypeProto : Type := OBJECT | BOOLEAN | LONG | DOUBLE | STRING | DATETIME.
Inductive TypeTransitivity : Type := TRANSITIVE | EXPLICIT.
Inductive SessionTypeProto : Type := DATA | SCHEMA.
Inductive TransactionTypeProto : Type := READ | WRITE.

#[export] Instance ValueTypeProto_eq_dec : EqDecision ValueTypeProto.
Proof. solve_decision. Defined.
#[export] Instance TypeTransitivity_eq_dec : EqDecision TypeTransitivity.
Proof. solve_decision. Defined.
#[export] Instance SessionTypeProto_eq_dec : EqDecision SessionTypeProto.
Proof. solve_decision. Defined.
#[export] Instance TransactionTypeProto_eq_dec : EqDecision TransactionTypeProto.
Proof. solve_decision. Defined.

(** ** Messages *)

Unset Elimination Schemes.
Inductive pval : Type :=
  | PUndefined
  | PNull
  | PVal (v : jsval)
  | PBytes (bs : list byte)
  | PValueType (t : ValueTypeProto)
  | PTransitivity (t : TypeTransitivity)
  | PSessionType (t : SessionTypeProto)
  | PTransactionType (t : TransactionTypeProto)
  | PVersion
  | PArr (l : list pval)
  | New (cls : string) (fields : list (string * pval)).
Set Elimination Schemes.

Definition PStr (s : string) : pval := PVal (JStr s).

(** A string argument that may be null. *)
Definition PStrOrNull (s : option string) : pval :=
  match s with
  | Some s => PStr s
  | None => PNull
  end.

(** An optional argument that was left out. *)
Definition POpt {A} (f : A → pval) (o : option A) : pval :=
  match o with
  | Some a => f a
  | None => PUndefined
  end.

(** [msg.field = v] *)
Fixpoint set_in (fields : list (string * pval)) (f : string) (v : pval)
    : list (string * pval) :=
  match fields with
  | [] => [(f, v)]
  | (g, w) :: rest => if bool_decide (f = g) then (g, v) :: rest else (g, w) :: set_in rest f v
  end.

Definition set_field (m : pval) (f : string) (v : pval) : pval :=
  match m with
  | New cls fields => New cls (set_in fields f v)
  | _ => m
  end.

(** [msg.field] *)
Fixpoint field_in (fields : list (string * pval)) (f : string) : option pval :=
  match fields with
  | [] => None
  | (g, w) :: rest => if bool_decide (f = g) then Some w else field_in rest f
  end.

Definition get_field (m : pval) (f : string) : option pval :=
  match m with
  | New _ fields => field_in fields f
  | _ => None
  end.

Lemma field_in_set_in fields f g v :
  field_in (set_in fields f v) g = if bool_decide (g = f) then Some v else field_in fields g.
Proof.
  induction fields as [|[h w] rest IH]; simpl.
  - repeat case_bool_decide; by subst.
  - repeat case_bool_decide; subst; simpl; repeat case_bool_decide; subst; try done.
Qed.

Lemma get_set_field cls fields f v : get_field (set_field (New cls fields) f v) f = Some v.
Proof. simpl. rewrite field_in_set_in. by rewrite bool_decide_eq_true_2. Qed.

Lemma get_set_field_ne m f g v : f ≠ g → get_field (set_field m f v) g = get_field m g.
Proof.
  intros Hne. destruct m; simpl; try done.
  rewrite field_in_set_in. by rewrite bool_decide_eq_false_2.
Qed.
