(* ===== verification/RequestBuilder.v ===== *)
(** * Request messages

    Models [common/rpc/RequestBuilder.ts]: one definition per builder function,
    named after its namespace path. Ids given as hexadecimal strings are parsed
    while the message is built, so those builders may throw. [uuid.parse] is
    library code and is a parameter of the builder that uses it. *)
From Stdlib Require Import Floats.SpecFloat.
From S2P Require Import Prelude Errors Bytes Proto.
Local Open Scope string_scope.

(** ** Shared message builders *)

Definition Type_RoleType_newReqBuilder (label : Label) : list (string * pval) :=
  [("label", PStr (name label)); ("scope", PStrOrNull (scope label))].

Definition Type_EntityType_protoEntityType (label : Label) : pval :=
  New "EntityTypeProto" [("label", PStr (name label))].

Definition Type_RelationType_protoRelationType (label : Label) : pval :=
  New "RelationTypeProto" [("label", PStr (name label))].

Definition Type_AttributeType_protoAttributeType (label : Label) : pval :=
  New "AttributeTypeProto" [("label", PStr (name label))].

Definition Thing_Entity_protoEntity (iid : string) : outcome exn pval :=
  outcome_bind (hexStringToBytes iid) (λ iid_bytes,
    Ret (New "EntityProto" [("iid", PBytes iid_bytes)])).

Definition Thing_Relation_protoRelation (iid : string) : outcome exn pval :=
  outcome_bind (hexStringToBytes iid) (λ iid_bytes,
    Ret (New "RelationProto" [("iid", PBytes iid_bytes)])).

Definition Thing_Attribute_protoAttribute (iid : string) : outcome exn pval :=
  outcome_bind (hexStringToBytes iid) (λ iid_bytes,
    Ret (New "AttributeProto" [("iid", PBytes iid_bytes)])).

Definition Type_RoleType_roleTypeReq (req : pval) : pval :=
  New "TransactionReq" [("type_req", New "TypeReq" [("role_type_req", req)])].

Definition Type_RoleType_protoRoleType (label : Label) : pval :=
  New "RoleTypeProto" [("scope", PStrOrNull (scope label)); ("label", PStr (name label))].

Definition Type_thingTypeReq (req : pval) : pval :=
  New "TransactionReq" [("type_req", New "TypeReq" [("thing_type_req", req)])].

Definition Type_ThingType_protoThingTypeEntityType (label : Label) : pval :=
  New "ThingTypeProto" [("entity_type", Type_EntityType_protoEntityType label)].

Definition Type_ThingType_protoThingTypeRelationType (label : Label) : pval :=
  New "ThingTypeProto" [("relation_type", Type_RelationType_protoRelationType label)].

Definition Type_ThingType_protoThingTypeAttributeType (label : Label) : pval :=
  New "ThingTypeProto" [("attribute_type", Type_AttributeType_protoAttributeType label)].

Definition Thing_protoThingEntity (iid : string) : outcome exn pval :=
  outcome_bind (Thing_Entity_protoEntity iid) (λ m1,
    Ret (New "ThingProto" [("entity", m1)])).

Definition Thing_protoThingRelation (iid : string) : outcome exn pval :=
  outcome_bind (Thing_Relation_protoRelation iid) (λ m1,
    Ret (New "ThingProto" [("relation", m1)])).

Definition Thing_protoThingAttribute (iid : string) : outcome exn pval :=
  outcome_bind (Thing_Attribute_protoAttribute iid) (λ m1,
    Ret (New "ThingProto" [("attribute", m1)])).

Definition Thing_thingReq (req : pval) : pval :=
  New "TransactionReq" [("thing_req", req)].

Definition Thing_Relation_protoRolePlayer (roleType : pval) (player : pval) : pval :=
  New "RelationRolePlayer" [("role_type", roleType); ("player", player)].

(** [RequestBuilder.Value.protoValue]; the casts check nothing, except that
    [getTime] is only defined on dates. *)
Definition Value_protoValue (valueType : option ValueTypeProto) (value : jsval) : outcome exn pval
    :=
  match valueType with
  | Some BOOLEAN => Ret (New "ValueProto" [("boolean", PVal value)])
  | Some LONG => Ret (New "ValueProto" [("long", PVal value)])
  | Some DOUBLE => Ret (New "ValueProto" [("double", PVal value)])
  | Some STRING => Ret (New "ValueProto" [("string", PVal value)])
  | Some DATETIME =>
      match value with
      | JDate _ t => Ret (New "ValueProto" [("date_time", PVal (JNum t))])
      | _ => Throw (JsError "TypeError" "value.getTime is not a function")
      end
  | _ => Throw (driver_error BAD_VALUE_TYPE [])
  end.

(** ** [RequestBuilder.DatabaseManager] *)

Definition DatabaseManager_getReq (name_ : string) : pval :=
  New "DatabaseManagerGetReq" [("name", PStr name_)].

Definition DatabaseManager_createReq (name_ : string) : pval :=
  New "DatabaseManagerCreateReq" [("name", PStr name_)].

Definition DatabaseManager_containsReq (name_ : string) : pval :=
  New "DatabaseManagerContainsReq" [("name", PStr name_)].

Definition DatabaseManager_allReq : pval :=
  New "DatabaseManagerAllReq" [].

(** ** [RequestBuilder.Database] *)

Definition Database_schemaReq (name_ : string) : pval :=
  New "DatabaseSchemaReq" [("name", PStr name_)].

Definition Database_typeSchemaReq (name_ : string) : pval :=
  New "DatabaseTypeSchemaReq" [("name", PStr name_)].

Definition Database_ruleSchemaReq (name_ : string) : pval :=
  New "DatabaseRuleSchemaReq" [("name", PStr name_)].

Definition Database_deleteReq (name_ : string) : pval :=
  New "DatabaseDeleteReq" [("name", PStr name_)].

(** ** [RequestBuilder.ServerManager] *)

Definition ServerManager_allReq : pval :=
  New "ServerManagerAllReq" [].

(** ** [RequestBuilder.UserManager] *)

Definition UserManager_containsReq (name_ : string) : pval :=
  New "UserManagerContainsReq" [("username", PStr name_)].

Definition UserManager_createReq (name_ : string) (password : string) : pval :=
  New "UserManagerCreateReq" [("username", PStr name_); ("password", PStr password)].

Definition UserManager_deleteReq (name_ : string) : pval :=
  New "UserManagerDeleteReq" [("username", PStr name_)].

Definition UserManager_allReq : pval :=
  New "UserManagerAllReq" [].

Definition UserManager_passwordSetReq (name_ : string) (password : string) : pval :=
  New "UserManagerPasswordSetReq" [("username", PStr name_); ("password", PStr password)].

Definition UserManager_getReq (name_ : string) : pval :=
  New "UserManagerGetReq" [("username", PStr name_)].

(** ** [RequestBuilder.User] *)

Definition User_passwordUpdateReq (name_ : string) (passwordOld : string) (passwordNew : string)
    : pval :=
  New "UserPasswordUpdateReq" [("username", PStr name_); ("password_old", PStr passwordOld);
      ("password_new", PStr passwordNew)].

Definition User_tokenReq (username : string) : pval :=
  New "UserTokenReq" [("username", PStr username)].

(** ** [RequestBuilder.Connection] *)

Definition Connection_openReq : pval :=
  New "ConnectionOpenReq" [("version", PVersion)].

(** ** [RequestBuilder.Session] *)

Definition Session_openReq (database : string) (type_ : SessionTypeProto) (options : pval) : pval
    :=
  New "SessionOpenReq" [("database", PStr database); ("type", PSessionType type_); ("options",
      options)].

Definition Session_closeReq (id : string) : outcome exn pval :=
  outcome_bind (hexStringToBytes id) (λ id_bytes,
    Ret (New "SessionCloseReq" [("session_id", PBytes id_bytes)])).

Definition Session_pulseReq (id : string) : outcome exn pval :=
  outcome_bind (hexStringToBytes id) (λ id_bytes,
    Ret (New "SessionPulseReq" [("session_id", PBytes id_bytes)])).

(** ** [RequestBuilder.Transaction] *)

Definition Transaction_clientReq (reqs : list pval) : pval :=
  New "TransactionClient" [("reqs", PArr reqs)].

Definition Transaction_openReq (sessionId : string) (type_ : TransactionTypeProto) (options
    : pval) (latencyMillis : spec_float) : outcome exn pval :=
  outcome_bind (hexStringToBytes sessionId) (λ sessionId_bytes,
    Ret (New "TransactionReq" [("open_req", New "TransactionOpenReq" [("session_id",
        PBytes sessionId_bytes); ("type", PTransactionType type_); ("options", options);
        ("network_latency_millis", (λ n, PVal (JNum n)) latencyMillis)])])).

Definition Transaction_commitReq : pval :=
  New "TransactionReq" [("commit_req", New "TransactionCommitReq" [])].

Definition Transaction_rollbackReq : pval :=
  New "TransactionReq" [("rollback_req", New "TransactionRollbackReq" [])].

Definition Transaction_streamReq (uuid_parse : string → list byte) (requestId : string) : pval :=
  New "TransactionReq" [("req_id", PBytes (uuid_parse requestId)); ("stream_req",
      New "TransactionStreamReq" [])].

(** ** [RequestBuilder.LogicManager] *)

Definition LogicManager_logicManagerReq (logicReq : pval) : pval :=
  New "TransactionReq" [("logic_manager_req", logicReq)].

Definition LogicManager_putRuleReq (label : string) (when_ : string) (then_ : string) : pval :=
  LogicManager_logicManagerReq (New "LogicManagerReq" [("put_rule_req",
      New "LogicManagerPutRuleReq" [("label", PStr label); ("when", PStr when_); ("then",
      PStr then_)])]).

Definition LogicManager_getRuleReq (label : string) : pval :=
  LogicManager_logicManagerReq (New "LogicManagerReq" [("get_rule_req",
      New "LogicManagerGetRuleReq" [("label", PStr label)])]).

Definition LogicManager_getRulesReq : pval :=
  LogicManager_logicManagerReq (New "LogicManagerReq" [("get_rules_req",
      New "LogicManagerGetRulesReq" [])]).

(** ** [RequestBuilder.Rule] *)

Definition Rule_ruleReq (request : pval) : pval :=
  New "TransactionReq" [("rule_req", request)].

Definition Rule_setLabelReq (currentLabel : string) (newLabel : string) : pval :=
  Rule_ruleReq (New "RuleReq" [("label", PStr currentLabel); ("rule_set_label_req",
      New "RuleSetLabelReq" [("label", PStr newLabel)])]).

Definition Rule_deleteReq (label : string) : pval :=
  Rule_ruleReq (New "RuleReq" [("label", PStr label); ("rule_delete_req", New "RuleDeleteReq"
      [])]).

(** ** [RequestBuilder.QueryManager] *)

Definition QueryManager_queryManagerReq (queryReq : pval) (options : pval) : pval :=
  let queryReq := set_field queryReq "options" options in
  New "TransactionReq" [("query_manager_req", queryReq)].

Definition QueryManager_defineReq (query : string) (options : pval) : pval :=
  QueryManager_queryManagerReq (New "QueryManagerReq" [("define_req", New "QueryManagerDefineReq"
      [("query", PStr query)])]) options.

Definition QueryManager_undefineReq (query : string) (options : pval) : pval :=
  QueryManager_queryManagerReq (New "QueryManagerReq" [("undefine_req",
      New "QueryManagerUndefineReq" [("query", PStr query)])]) options.

Definition QueryManager_getReq (query : string) (options : pval) : pval :=
  QueryManager_queryManagerReq (New "QueryManagerReq" [("get_req", New "QueryManagerGetReq"
      [("query", PStr query)])]) options.

Definition QueryManager_getAggregateReq (query : string) (options : pval) : pval :=
  QueryManager_queryManagerReq (New "QueryManagerReq" [("get_aggregate_req",
      New "QueryManagerGetAggregateReq" [("query", PStr query)])]) options.

Definition QueryManager_getGroupReq (query : string) (options : pval) : pval :=
  QueryManager_queryManagerReq (New "QueryManagerReq" [("get_group_req",
      New "QueryManagerGetGroupReq" [("query", PStr query)])]) options.

Definition QueryManager_getGroupAggregateReq (query : string) (options : pval) : pval :=
  QueryManager_queryManagerReq (New "QueryManagerReq" [("get_group_aggregate_req",
      New "QueryManagerGetGroupAggregateReq" [("query", PStr query)])]) options.

Definition QueryManager_fetchReq (query : string) (options : pval) : pval :=
  QueryManager_queryManagerReq (New "QueryManagerReq" [("fetch_req", New "QueryManagerFetchReq"
      [("query", PStr query)])]) options.

Definition QueryManager_insertReq (query : string) (options : pval) : pval :=
  QueryManager_queryManagerReq (New "QueryManagerReq" [("insert_req", New "QueryManagerInsertReq"
      [("query", PStr query)])]) options.

Definition QueryManager_deleteReq (query : string) (options : pval) : pval :=
  QueryManager_queryManagerReq (New "QueryManagerReq" [("delete_req", New "QueryManagerDeleteReq"
      [("query", PStr query)])]) options.

Definition QueryManager_updateReq (query : string) (options : pval) : pval :=
  QueryManager_queryManagerReq (New "QueryManagerReq" [("update_req", New "QueryManagerUpdateReq"
      [("query", PStr query)])]) options.

Definition QueryManager_explainReq (id : spec_float) (options : pval) : pval :=
  QueryManager_queryManagerReq (New "QueryManagerReq" [("explain_req",
      New "QueryManagerExplainReq" [("explainable_id", (λ n, PVal (JNum n)) id)])]) options.

(** ** [RequestBuilder.ConceptManager] *)

Definition ConceptManager_conceptManagerReq (req : pval) : pval :=
  New "TransactionReq" [("concept_manager_req", req)].

Definition ConceptManager_putEntityTypeReq (label : string) : pval :=
  ConceptManager_conceptManagerReq (New "ConceptManagerReq" [("put_entity_type_req",
      New "ConceptManagerPutEntityTypeReq" [("label", PStr label)])]).

Definition ConceptManager_putRelationTypeReq (label : string) : pval :=
  ConceptManager_conceptManagerReq (New "ConceptManagerReq" [("put_relation_type_req",
      New "ConceptManagerPutRelationTypeReq" [("label", PStr label)])]).

Definition ConceptManager_putAttributeTypeReq (label : string) (valueType : option ValueTypeProto)
    : pval :=
  ConceptManager_conceptManagerReq (New "ConceptManagerReq" [("put_attribute_type_req",
      New "ConceptManagerPutAttributeTypeReq" [("label", PStr label); ("value_type",
      POpt PValueType valueType)])]).

Definition ConceptManager_getEntityTypeReq (label : string) : pval :=
  ConceptManager_conceptManagerReq (New "ConceptManagerReq" [("get_entity_type_req",
      New "ConceptManagerGetEntityTypeReq" [("label", PStr label)])]).

Definition ConceptManager_getRelationTypeReq (label : string) : pval :=
  ConceptManager_conceptManagerReq (New "ConceptManagerReq" [("get_relation_type_req",
      New "ConceptManagerGetRelationTypeReq" [("label", PStr label)])]).

Definition ConceptManager_getAttributeTypeReq (label : string) : pval :=
  ConceptManager_conceptManagerReq (New "ConceptManagerReq" [("get_attribute_type_req",
      New "ConceptManagerGetAttributeTypeReq" [("label", PStr label)])]).

Definition ConceptManager_getEntityReq (iid : string) : outcome exn pval :=
  outcome_bind (hexStringToBytes iid) (λ iid_bytes,
    Ret (ConceptManager_conceptManagerReq (New "ConceptManagerReq" [("get_entity_req",
        New "ConceptManagerGetEntityReq" [("iid", PBytes iid_bytes)])]))).

Definition ConceptManager_getRelationReq (iid : string) : outcome exn pval :=
  outcome_bind (hexStringToBytes iid) (λ iid_bytes,
    Ret (ConceptManager_conceptManagerReq (New "ConceptManagerReq" [("get_relation_req",
        New "ConceptManagerGetRelationReq" [("iid", PBytes iid_bytes)])]))).

Definition ConceptManager_getAttributeReq (iid : string) : outcome exn pval :=
  outcome_bind (hexStringToBytes iid) (λ iid_bytes,
    Ret (ConceptManager_conceptManagerReq (New "ConceptManagerReq" [("get_attribute_req",
        New "ConceptManagerGetAttributeReq" [("iid", PBytes iid_bytes)])]))).

Definition ConceptManager_getSchemaExceptions : pval :=
  ConceptManager_conceptManagerReq (New "ConceptManagerReq" [("get_schema_exceptions_req",
      New "ConceptManagerGetSchemaExceptionsReq" [])]).

(** ** [RequestBuilder.Type.RoleType] *)

Definition Type_RoleType_deleteReq (label : Label) : pval :=
  Type_RoleType_roleTypeReq (New "RoleTypeReq" (Type_RoleType_newReqBuilder label ++
      [("role_type_delete_req", New "RoleTypeDeleteReq" [])])).

Definition Type_RoleType_setLabelReq (label : Label) (newLabel : string) : pval :=
  Type_RoleType_roleTypeReq (New "RoleTypeReq" (Type_RoleType_newReqBuilder label ++
      [("role_type_set_label_req", New "RoleTypeSetLabelReq" [("label", PStr newLabel)])])).

Definition Type_RoleType_getSupertypeReq (label : Label) : pval :=
  Type_RoleType_roleTypeReq (New "RoleTypeReq" (Type_RoleType_newReqBuilder label ++
      [("role_type_get_supertype_req", New "RoleTypeGetSupertypeReq" [])])).

Definition Type_RoleType_getSupertypesReq (label : Label) : pval :=
  Type_RoleType_roleTypeReq (New "RoleTypeReq" (Type_RoleType_newReqBuilder label ++
      [("role_type_get_supertypes_req", New "RoleTypeGetSupertypesReq" [])])).

Definition Type_RoleType_getSubtypesReq (label : Label) (transitivity : option TypeTransitivity)
    : pval :=
  Type_RoleType_roleTypeReq (New "RoleTypeReq" (Type_RoleType_newReqBuilder label ++
      [("role_type_get_subtypes_req", New "RoleTypeGetSubtypesReq" [("transitivity",
      POpt PTransitivity transitivity)])])).

Definition Type_RoleType_getRelationTypesReq (label : Label) : pval :=
  Type_RoleType_roleTypeReq (New "RoleTypeReq" (Type_RoleType_newReqBuilder label ++
      [("role_type_get_relation_types_req", New "RoleTypeGetRelationTypesReq" [])])).

Definition Type_RoleType_getPlayerTypesReq (label : Label) (transitivity
    : option TypeTransitivity) : pval :=
  Type_RoleType_roleTypeReq (New "RoleTypeReq" (Type_RoleType_newReqBuilder label ++
      [("role_type_get_player_types_req", New "RoleTypeGetPlayerTypesReq" [("transitivity",
      POpt PTransitivity transitivity)])])).

Definition Type_RoleType_getRelationInstancesReq (label : Label) (transitivity
    : option TypeTransitivity) : pval :=
  Type_RoleType_roleTypeReq (New "RoleTypeReq" (Type_RoleType_newReqBuilder label ++
      [("role_type_get_relation_instances_req", New "RoleTypeGetRelationInstancesReq"
      [("transitivity", POpt PTransitivity transitivity)])])).

Definition Type_RoleType_getPlayerInstancesReq (label : Label) (transitivity
    : option TypeTransitivity) : pval :=
  Type_RoleType_roleTypeReq (New "RoleTypeReq" (Type_RoleType_newReqBuilder label ++
      [("role_type_get_player_instances_req", New "RoleTypeGetPlayerInstancesReq"
      [("transitivity", POpt PTransitivity transitivity)])])).

(** ** [RequestBuilder.Type.ThingType] *)

Definition Type_ThingType_deleteReq (label : Label) : pval :=
  Type_thingTypeReq (New "ThingTypeReq" [("label", PStr (name label)); ("thing_type_delete_req",
      New "ThingTypeDeleteReq" [])]).

Definition Type_ThingType_setLabelReq (label : Label) (newLabel : string) : pval :=
  Type_thingTypeReq (New "ThingTypeReq" [("label", PStr (name label));
      ("thing_type_set_label_req", New "ThingTypeSetLabelReq" [("label", PStr newLabel)])]).

Definition Type_ThingType_setAbstractReq (label : Label) : pval :=
  Type_thingTypeReq (New "ThingTypeReq" [("label", PStr (name label));
      ("thing_type_set_abstract_req", New "ThingTypeSetAbstractReq" [])]).

Definition Type_ThingType_unsetAbstractReq (label : Label) : pval :=
  Type_thingTypeReq (New "ThingTypeReq" [("label", PStr (name label));
      ("thing_type_unset_abstract_req", New "ThingTypeUnsetAbstractReq" [])]).

Definition Type_ThingType_getOwnsReq (label : Label) (value_type : option ValueTypeProto)
    (annotations : list pval) (transitivity : option TypeTransitivity) : pval :=
  Type_thingTypeReq (New "ThingTypeReq" [("label", PStr (name label)); ("thing_type_get_owns_req",
      New "ThingTypeGetOwnsReq" [("value_type", POpt PValueType value_type); ("annotations",
      PArr annotations); ("transitivity", POpt PTransitivity transitivity)])]).

Definition Type_ThingType_getOwnsOverriddenReq (label : Label) (attributeType : pval) : pval :=
  Type_thingTypeReq (New "ThingTypeReq" [("label", PStr (name label));
      ("thing_type_get_owns_overridden_req", New "ThingTypeGetOwnsOverriddenReq"
      [("attribute_type", attributeType)])]).

Definition Type_ThingType_setOwnsReq (label : Label) (attributeType : pval) (overriddenType
    : pval) (annotations : list pval) : pval :=
  Type_thingTypeReq (New "ThingTypeReq" [("label", PStr (name label)); ("thing_type_set_owns_req",
      New "ThingTypeSetOwnsReq" [("attribute_type", attributeType); ("overridden_type",
      overriddenType); ("annotations", PArr annotations)])]).

Definition Type_ThingType_unsetOwnsReq (label : Label) (attributeType : pval) : pval :=
  Type_thingTypeReq (New "ThingTypeReq" [("label", PStr (name label));
      ("thing_type_unset_owns_req", New "ThingTypeUnsetOwnsReq" [("attribute_type",
      attributeType)])]).

Definition Type_ThingType_getPlaysReq (label : Label) (transitivity : option TypeTransitivity)
    : pval :=
  Type_thingTypeReq (New "ThingTypeReq" [("label", PStr (name label));
      ("thing_type_get_plays_req", New "ThingTypeGetPlaysReq" [("transitivity",
      POpt PTransitivity transitivity)])]).

Definition Type_ThingType_getPlaysOverriddenReq (label : Label) (roleType : pval) : pval :=
  Type_thingTypeReq (New "ThingTypeReq" [("label", PStr (name label));
      ("thing_type_get_plays_overridden_req", New "ThingTypeGetPlaysOverriddenReq" [("role_type",
      roleType)])]).

Definition Type_ThingType_setPlaysReq (label : Label) (roleType : pval) (overriddenType : pval)
    : pval :=
  Type_thingTypeReq (New "ThingTypeReq" [("label", PStr (name label));
      ("thing_type_set_plays_req", New "ThingTypeSetPlaysReq" [("role_type", roleType);
      ("overridden_role_type", overriddenType)])]).

Definition Type_ThingType_unsetPlaysReq (label : Label) (roleType : pval) : pval :=
  Type_thingTypeReq (New "ThingTypeReq" [("label", PStr (name label));
      ("thing_type_unset_plays_req", New "ThingTypeUnsetPlaysReq" [("role_type", roleType)])]).

Definition Type_ThingType_getSyntaxReq (label : Label) : pval :=
  Type_thingTypeReq (New "ThingTypeReq" [("label", PStr (name label));
      ("thing_type_get_syntax_req", New "ThingTypeGetSyntaxReq" [])]).

(** ** [RequestBuilder.Type.EntityType] *)

Definition Type_EntityType_createReq (label : Label) : pval :=
  Type_thingTypeReq (New "ThingTypeReq" [("label", PStr (name label)); ("entity_type_create_req",
      New "EntityTypeCreateReq" [])]).

Definition Type_EntityType_getSupertypeReq (label : Label) : pval :=
  Type_thingTypeReq (New "ThingTypeReq" [("label", PStr (name label));
      ("entity_type_get_supertype_req", New "EntityTypeGetSupertypeReq" [])]).

Definition Type_EntityType_setSupertypeReq (label : Label) (supertype : pval) : pval :=
  Type_thingTypeReq (New "ThingTypeReq" [("label", PStr (name label));
      ("entity_type_set_supertype_req", New "EntityTypeSetSupertypeReq" [("entity_type",
      supertype)])]).

Definition Type_EntityType_getSupertypesReq (label : Label) : pval :=
  Type_thingTypeReq (New "ThingTypeReq" [("label", PStr (name label));
      ("entity_type_get_supertypes_req", New "EntityTypeGetSupertypesReq" [])]).

Definition Type_EntityType_getSubtypesReq (label : Label) (transitivity : option TypeTransitivity)
    : pval :=
  Type_thingTypeReq (New "ThingTypeReq" [("label", PStr (name label));
      ("entity_type_get_subtypes_req", New "EntityTypeGetSubtypesReq" [("transitivity",
      POpt PTransitivity transitivity)])]).

Definition Type_EntityType_getInstancesReq (label : Label) (transitivity
    : option TypeTransitivity) : pval :=
  Type_thingTypeReq (New "ThingTypeReq" [("label", PStr (name label));
      ("entity_type_get_instances_req", New "EntityTypeGetInstancesReq" [("transitivity",
      POpt PTransitivity transitivity)])]).

(** ** [RequestBuilder.Type.RelationType] *)

Definition Type_RelationType_createReq (label : Label) : pval :=
  Type_thingTypeReq (New "ThingTypeReq" [("label", PStr (name label));
      ("relation_type_create_req", New "RelationTypeCreateReq" [])]).

Definition Type_RelationType_getSupertypeReq (label : Label) : pval :=
  Type_thingTypeReq (New "ThingTypeReq" [("label", PStr (name label));
      ("relation_type_get_supertype_req", New "RelationTypeGetSupertypeReq" [])]).

Definition Type_RelationType_setSupertypeReq (label : Label) (supertype : pval) : pval :=
  Type_thingTypeReq (New "ThingTypeReq" [("label", PStr (name label));
      ("relation_type_set_supertype_req", New "RelationTypeSetSupertypeReq" [("relation_type",
      supertype)])]).

Definition Type_RelationType_getSupertypesReq (label : Label) : pval :=
  Type_thingTypeReq (New "ThingTypeReq" [("label", PStr (name label));
      ("relation_type_get_supertypes_req", New "RelationTypeGetSupertypesReq" [])]).

Definition Type_RelationType_getSubtypesReq (label : Label) (transitivity
    : option TypeTransitivity) : pval :=
  Type_thingTypeReq (New "ThingTypeReq" [("label", PStr (name label));
      ("relation_type_get_subtypes_req", New "RelationTypeGetSubtypesReq" [("transitivity",
      POpt PTransitivity transitivity)])]).

Definition Type_RelationType_getInstancesReq (label : Label) (transitivity
    : option TypeTransitivity) : pval :=
  Type_thingTypeReq (New "ThingTypeReq" [("label", PStr (name label));
      ("relation_type_get_instances_req", New "RelationTypeGetInstancesReq" [("transitivity",
      POpt PTransitivity transitivity)])]).

Definition Type_RelationType_getRelatesReq (label : Label) (transitivity
    : option TypeTransitivity) : pval :=
  Type_thingTypeReq (New "ThingTypeReq" [("label", PStr (name label));
      ("relation_type_get_relates_req", New "RelationTypeGetRelatesReq" [("transitivity",
      POpt PTransitivity transitivity)])]).

Definition Type_RelationType_getRelatesForRoleLabel (label : Label) (roleLabel : string) : pval :=
  Type_thingTypeReq (New "ThingTypeReq" [("label", PStr (name label));
      ("relation_type_get_relates_for_role_label_req", New "RelationTypeGetRelatesForRoleLabelReq"
      [("label", PStr roleLabel)])]).

Definition Type_RelationType_getRelatesOverriddenReq (label : Label) (roleLabel : string) : pval
    :=
  Type_thingTypeReq (New "ThingTypeReq" [("label", PStr (name label));
      ("relation_type_get_relates_overridden_req", New "RelationTypeGetRelatesOverriddenReq"
      [("label", PStr roleLabel)])]).

Definition Type_RelationType_setRelatesReq (label : Label) (roleLabel : string) (overriddenLabel
    : option string) : pval :=
  Type_thingTypeReq (New "ThingTypeReq" [("label", PStr (name label));
      ("relation_type_set_relates_req", New "RelationTypeSetRelatesReq" [("label",
      PStr roleLabel); ("overridden_label", POpt PStr overriddenLabel)])]).

Definition Type_RelationType_unsetRelatesReq (label : Label) (roleLabel : string) : pval :=
  Type_thingTypeReq (New "ThingTypeReq" [("label", PStr (name label));
      ("relation_type_unset_relates_req", New "RelationTypeUnsetRelatesReq" [("label",
      PStr roleLabel)])]).

(** ** [RequestBuilder.Type.AttributeType] *)

Definition Type_AttributeType_putReq (label : Label) (value : pval) : pval :=
  Type_thingTypeReq (New "ThingTypeReq" [("label", PStr (name label)); ("attribute_type_put_req",
      New "AttributeTypePutReq" [("value", value)])]).

Definition Type_AttributeType_getReq (label : Label) (value : pval) : pval :=
  Type_thingTypeReq (New "ThingTypeReq" [("label", PStr (name label)); ("attribute_type_get_req",
      New "AttributeTypeGetReq" [("value", value)])]).

Definition Type_AttributeType_getSupertypeReq (label : Label) : pval :=
  Type_thingTypeReq (New "ThingTypeReq" [("label", PStr (name label));
      ("attribute_type_get_supertype_req", New "AttributeTypeGetSupertypeReq" [])]).

Definition Type_AttributeType_setSupertypeReq (label : Label) (supertype : pval) : pval :=
  Type_thingTypeReq (New "ThingTypeReq" [("label", PStr (name label));
      ("attribute_type_set_supertype_req", New "AttributeTypeSetSupertypeReq" [("attribute_type",
      supertype)])]).

Definition Type_AttributeType_getSupertypesReq (label : Label) : pval :=
  Type_thingTypeReq (New "ThingTypeReq" [("label", PStr (name label));
      ("attribute_type_get_supertypes_req", New "AttributeTypeGetSupertypesReq" [])]).

Definition Type_AttributeType_getSubtypesReq (label : Label) (transitivity
    : option TypeTransitivity) (valueType : option ValueTypeProto) : pval :=
  Type_thingTypeReq (New "ThingTypeReq" [("label", PStr (name label));
      ("attribute_type_get_subtypes_req", New "AttributeTypeGetSubtypesReq" [("transitivity",
      POpt PTransitivity transitivity); ("value_type", POpt PValueType valueType)])]).

Definition Type_AttributeType_getInstancesReq (label : Label) (transitivity
    : option TypeTransitivity) : pval :=
  Type_thingTypeReq (New "ThingTypeReq" [("label", PStr (name label));
      ("attribute_type_get_instances_req", New "AttributeTypeGetInstancesReq" [("transitivity",
      POpt PTransitivity transitivity)])]).

Definition Type_AttributeType_getRegexReq (label : Label) : pval :=
  Type_thingTypeReq (New "ThingTypeReq" [("label", PStr (name label));
      ("attribute_type_get_regex_req", New "AttributeTypeGetRegexReq" [])]).

Definition Type_AttributeType_setRegexReq (label : Label) (regex : string) : pval :=
  Type_thingTypeReq (New "ThingTypeReq" [("label", PStr (name label));
      ("attribute_type_set_regex_req", New "AttributeTypeSetRegexReq" [("regex", PStr regex)])]).

Definition Type_AttributeType_getOwnersReq (label : Label) (transitivity
    : option TypeTransitivity) (annotations : list pval) : pval :=
  Type_thingTypeReq (New "ThingTypeReq" [("label", PStr (name label));
      ("attribute_type_get_owners_req", New "AttributeTypeGetOwnersReq" [("transitivity",
      POpt PTransitivity transitivity); ("annotations", PArr annotations)])]).

(** ** [RequestBuilder.Type.Annotation] *)

Definition Type_Annotation_annotationKey : pval :=
  New "TypeAnnotation" [("key", New "TypeAnnotationKey" [])].

Definition Type_Annotation_annotationUnique : pval :=
  New "TypeAnnotation" [("unique", New "TypeAnnotationUnique" [])].

(** ** [RequestBuilder.Thing] *)

Definition Thing_getHasReq (iid : string) (attributeTypes : list pval) (annotations : list pval)
    : outcome exn pval :=
  outcome_bind (hexStringToBytes iid) (λ iid_bytes,
    Ret (Thing_thingReq (New "ThingReq" [("iid", PBytes iid_bytes); ("thing_get_has_req",
        New "ThingGetHasReq" [("annotations", PArr annotations); ("attribute_types",
        PArr attributeTypes)])]))).

Definition Thing_setHasReq (iid : string) (attribute : pval) : outcome exn pval :=
  outcome_bind (hexStringToBytes iid) (λ iid_bytes,
    Ret (Thing_thingReq (New "ThingReq" [("iid", PBytes iid_bytes); ("thing_set_has_req",
        New "ThingSetHasReq" [("attribute", attribute)])]))).

Definition Thing_unsetHasReq (iid : string) (attribute : pval) : outcome exn pval :=
  outcome_bind (hexStringToBytes iid) (λ iid_bytes,
    Ret (Thing_thingReq (New "ThingReq" [("iid", PBytes iid_bytes); ("thing_unset_has_req",
        New "ThingUnsetHasReq" [("attribute", attribute)])]))).

Definition Thing_getPlayingReq (iid : string) : outcome exn pval :=
  outcome_bind (hexStringToBytes iid) (λ iid_bytes,
    Ret (Thing_thingReq (New "ThingReq" [("iid", PBytes iid_bytes); ("thing_get_playing_req",
        New "ThingGetPlayingReq" [])]))).

Definition Thing_getRelationsReq (iid : string) (roleTypes : list pval) : outcome exn pval :=
  outcome_bind (hexStringToBytes iid) (λ iid_bytes,
    Ret (Thing_thingReq (New "ThingReq" [("iid", PBytes iid_bytes); ("thing_get_relations_req",
        New "ThingGetRelationsReq" [("role_types", PArr roleTypes)])]))).

Definition Thing_deleteReq (iid : string) : outcome exn pval :=
  outcome_bind (hexStringToBytes iid) (λ iid_bytes,
    Ret (Thing_thingReq (New "ThingReq" [("iid", PBytes iid_bytes); ("thing_delete_req",
        New "ThingDeleteReq" [])]))).

(** ** [RequestBuilder.Thing.Relation] *)

Definition Thing_Relation_addRolePlayerReq (iid : string) (roleType : pval) (player : pval)
    : outcome exn pval :=
  outcome_bind (hexStringToBytes iid) (λ iid_bytes,
    Ret (Thing_thingReq (New "ThingReq" [("iid", PBytes iid_bytes);
        ("relation_add_role_player_req", New "RelationAddRolePlayerReq" [("role_player",
        Thing_Relation_protoRolePlayer roleType player)])]))).

Definition Thing_Relation_removeRolePlayerReq (iid : string) (roleType : pval) (player : pval)
    : outcome exn pval :=
  outcome_bind (hexStringToBytes iid) (λ iid_bytes,
    Ret (Thing_thingReq (New "ThingReq" [("iid", PBytes iid_bytes);
        ("relation_remove_role_player_req", New "RelationRemoveRolePlayerReq" [("role_player",
        Thing_Relation_protoRolePlayer roleType player)])]))).

Definition Thing_Relation_getPlayersByRoleTypeReq (iid : string) (roleTypes : list pval)
    : outcome exn pval :=
  outcome_bind (hexStringToBytes iid) (λ iid_bytes,
    Ret (Thing_thingReq (New "ThingReq" [("iid", PBytes iid_bytes);
        ("relation_get_players_by_role_type_req", New "RelationGetPlayersByRoleTypeReq"
        [("role_types", PArr roleTypes)])]))).

Definition Thing_Relation_getRolePlayersReq (iid : string) : outcome exn pval :=
  outcome_bind (hexStringToBytes iid) (λ iid_bytes,
    Ret (Thing_thingReq (New "ThingReq" [("iid", PBytes iid_bytes);
        ("relation_get_role_players_req", New "RelationGetRolePlayersReq" [])]))).

Definition Thing_Relation_getRelatingReq (iid : string) : outcome exn pval :=
  outcome_bind (hexStringToBytes iid) (λ iid_bytes,
    Ret (Thing_thingReq (New "ThingReq" [("iid", PBytes iid_bytes); ("relation_get_relating_req",
        New "RelationGetRelatingReq" [])]))).

(** ** [RequestBuilder.Thing.Attribute] *)

Definition Thing_Attribute_getOwnersReq (iid : string) (ownerType : pval) : outcome exn pval :=
  outcome_bind (hexStringToBytes iid) (λ iid_bytes,
    Ret (Thing_thingReq (New "ThingReq" [("iid", PBytes iid_bytes); ("attribute_get_owners_req",
        New "AttributeGetOwnersReq" [("thing_type", ownerType)])]))).
