(* ===== verification/Requests.v ===== *)
(** * The transaction requests as a wire language

    The operations a transaction can ask the server for, as data, and their
    encoding by the builders of [RequestBuilder.v]. Instances and sessions are
    named by ids, strings that the builders parse into bytes: those that the
    driver holds are printed bytes, and those that a user passes to [getEntity],
    [getRelation] and [getAttribute] may be any strings. The main result is that
    an operation builds a request exactly when its id can be parsed, and that two
    operations build the same request exactly when they are the same operation
    on the same arguments, up to ids that name the same bytes. *)
From Stdlib Require Import Floats.SpecFloat.
From S2P Require Import Prelude Errors Bytes Proto RequestBuilder.
Local Open Scope string_scope.

Inductive role_type_op : Type :=
  | RT_delete | RT_setLabel (newLabel : string) | RT_getSupertype | RT_getSupertypes
  | RT_getSubtypes (t : option TypeTransitivity) | RT_getRelationTypes
  | RT_getPlayerTypes (t : option TypeTransitivity)
  | RT_getRelationInstances (t : option TypeTransitivity)
  | RT_getPlayerInstances (t : option TypeTransitivity).

Inductive thing_type_op : Type :=
  | TT_delete | TT_setLabel (newLabel : string) | TT_setAbstract | TT_unsetAbstract
  | TT_getOwns (v : option ValueTypeProto) (annotations : list pval)
      (t : option TypeTransitivity)
  | TT_getOwnsOverridden (attributeType : pval)
  | TT_setOwns (attributeType overriddenType : pval) (annotations : list pval)
  | TT_unsetOwns (attributeType : pval)
  | TT_getPlays (t : option TypeTransitivity) | TT_getPlaysOverridden (roleType : pval)
  | TT_setPlays (roleType overriddenType : pval) | TT_unsetPlays (roleType : pval)
  | TT_getSyntax
  | ET_create | ET_getSupertype | ET_setSupertype (supertype : pval) | ET_getSupertypes
  | ET_getSubtypes (t : option TypeTransitivity) | ET_getInstances (t : option TypeTransitivity)
  | RelT_create | RelT_getSupertype | RelT_setSupertype (supertype : pval)
  | RelT_getSupertypes | RelT_getSubtypes (t : option TypeTransitivity)
  | RelT_getInstances (t : option TypeTransitivity)
  | RelT_getRelates (t : option TypeTransitivity)
  | RelT_getRelatesForRoleLabel (roleLabel : string)
  | RelT_getRelatesOverridden (roleLabel : string)
  | RelT_setRelates (roleLabel : string) (overriddenLabel : option string)
  | RelT_unsetRelates (roleLabel : string)
  | AT_put (value : pval) | AT_get (value : pval) | AT_getSupertype
  | AT_setSupertype (supertype : pval) | AT_getSupertypes
  | AT_getSubtypes (t : option TypeTransitivity) (v : option ValueTypeProto)
  | AT_getInstances (t : option TypeTransitivity) | AT_getRegex | AT_setRegex (regex : string)
  | AT_getOwners (t : option TypeTransitivity) (annotations : list pval).

Inductive thing_op : Type :=
  | Th_getHas (attributeTypes annotations : list pval) | Th_setHas (attribute : pval)
  | Th_unsetHas (attribute : pval) | Th_getPlaying | Th_getRelations (roleTypes : list pval)
  | Th_delete | Rel_addRolePlayer (roleType player : pval)
  | Rel_removeRolePlayer (roleType player : pval)
  | Rel_getPlayersByRoleType (roleTypes : list pval) | Rel_getRolePlayers | Rel_getRelating
  | At_getOwners (ownerType : pval).

(** Operations that name an instance or a session by an id are over the type [I]
    of ids: strings as the builders take them, or the bytes that they name. *)
Inductive concept_op (I : Type) : Type :=
  | CM_putEntityType (label : string) | CM_putRelationType (label : string)
  | CM_putAttributeType (label : string) (v : option ValueTypeProto)
  | CM_getEntityType (label : string) | CM_getRelationType (label : string)
  | CM_getAttributeType (label : string) | CM_getEntity (iid : I)
  | CM_getRelation (iid : I) | CM_getAttribute (iid : I)
  | CM_getSchemaExceptions.
Arguments CM_putEntityType {I} label.
Arguments CM_putRelationType {I} label.
Arguments CM_putAttributeType {I} label v.
Arguments CM_getEntityType {I} label.
Arguments CM_getRelationType {I} label.
Arguments CM_getAttributeType {I} label.
Arguments CM_getEntity {I} iid.
Arguments CM_getRelation {I} iid.
Arguments CM_getAttribute {I} iid.
Arguments CM_getSchemaExceptions {I}.

Inductive query_op : Type :=
  | Q_define (query : string) | Q_undefine (query : string) | Q_get (query : string)
  | Q_getAggregate (query : string) | Q_getGroup (query : string)
  | Q_getGroupAggregate (query : string) | Q_fetch (query : string)
  | Q_insert (query : string) | Q_delete (query : string) | Q_update (query : string)
  | Q_explain (id : spec_float).

Inductive logic_op : Type :=
  | L_putRule (label when_ then_ : string) | L_getRule (label : string) | L_getRules
  | R_setLabel (current new : string) | R_delete (label : string).

Inductive tx_op (I : Type) : Type :=
  | Tx_open (session : I) (type_ : TransactionTypeProto) (options : pval)
      (latency : spec_float)
  | Tx_commit | Tx_rollback
  | Tx_logic (op : logic_op)
  | Tx_query (op : query_op) (options : pval)
  | Tx_concept (op : concept_op I)
  | Tx_roleType (label : Label) (op : role_type_op)
  | Tx_thingType (label : string) (op : thing_type_op)
  | Tx_thing (iid : I) (op : thing_op).
Arguments Tx_open {I} session type_ options latency.
Arguments Tx_commit {I}.
Arguments Tx_rollback {I}.
Arguments Tx_logic {I} op.
Arguments Tx_query {I} op options.
Arguments Tx_concept {I} op.
Arguments Tx_roleType {I} label op.
Arguments Tx_thingType {I} label op.
Arguments Tx_thing {I} iid op.

Definition encode_role_type (l : Label) (op : role_type_op) : pval :=
  match op with
  | RT_delete => Type_RoleType_deleteReq l
  | RT_setLabel n => Type_RoleType_setLabelReq l n
  | RT_getSupertype => Type_RoleType_getSupertypeReq l
  | RT_getSupertypes => Type_RoleType_getSupertypesReq l
  | RT_getSubtypes t => Type_RoleType_getSubtypesReq l t
  | RT_getRelationTypes => Type_RoleType_getRelationTypesReq l
  | RT_getPlayerTypes t => Type_RoleType_getPlayerTypesReq l t
  | RT_getRelationInstances t => Type_RoleType_getRelationInstancesReq l t
  | RT_getPlayerInstances t => Type_RoleType_getPlayerInstancesReq l t
  end.

Definition encode_thing_type (l : Label) (op : thing_type_op) : pval :=
  match op with
  | TT_delete => Type_ThingType_deleteReq l
  | TT_setLabel n => Type_ThingType_setLabelReq l n
  | TT_setAbstract => Type_ThingType_setAbstractReq l
  | TT_unsetAbstract => Type_ThingType_unsetAbstractReq l
  | TT_getOwns v a t => Type_ThingType_getOwnsReq l v a t
  | TT_getOwnsOverridden a => Type_ThingType_getOwnsOverriddenReq l a
  | TT_setOwns a o ann => Type_ThingType_setOwnsReq l a o ann
  | TT_unsetOwns a => Type_ThingType_unsetOwnsReq l a
  | TT_getPlays t => Type_ThingType_getPlaysReq l t
  | TT_getPlaysOverridden r => Type_ThingType_getPlaysOverriddenReq l r
  | TT_setPlays r o => Type_ThingType_setPlaysReq l r o
  | TT_unsetPlays r => Type_ThingType_unsetPlaysReq l r
  | TT_getSyntax => Type_ThingType_getSyntaxReq l
  | ET_create => Type_EntityType_createReq l
  | ET_getSupertype => Type_EntityType_getSupertypeReq l
  | ET_setSupertype s => Type_EntityType_setSupertypeReq l s
  | ET_getSupertypes => Type_EntityType_getSupertypesReq l
  | ET_getSubtypes t => Type_EntityType_getSubtypesReq l t
  | ET_getInstances t => Type_EntityType_getInstancesReq l t
  | RelT_create => Type_RelationType_createReq l
  | RelT_getSupertype => Type_RelationType_getSupertypeReq l
  | RelT_setSupertype s => Type_RelationType_setSupertypeReq l s
  | RelT_getSupertypes => Type_RelationType_getSupertypesReq l
  | RelT_getSubtypes t => Type_RelationType_getSubtypesReq l t
  | RelT_getInstances t => Type_RelationType_getInstancesReq l t
  | RelT_getRelates t => Type_RelationType_getRelatesReq l t
  | RelT_getRelatesForRoleLabel r => Type_RelationType_getRelatesForRoleLabel l r
  | RelT_getRelatesOverridden r => Type_RelationType_getRelatesOverriddenReq l r
  | RelT_setRelates r o => Type_RelationType_setRelatesReq l r o
  | RelT_unsetRelates r => Type_RelationType_unsetRelatesReq l r
  | AT_put v => Type_AttributeType_putReq l v
  | AT_get v => Type_AttributeType_getReq l v
  | AT_getSupertype => Type_AttributeType_getSupertypeReq l
  | AT_setSupertype s => Type_AttributeType_setSupertypeReq l s
  | AT_getSupertypes => Type_AttributeType_getSupertypesReq l
  | AT_getSubtypes t v => Type_AttributeType_getSubtypesReq l t v
  | AT_getInstances t => Type_AttributeType_getInstancesReq l t
  | AT_getRegex => Type_AttributeType_getRegexReq l
  | AT_setRegex r => Type_AttributeType_setRegexReq l r
  | AT_getOwners t a => Type_AttributeType_getOwnersReq l t a
  end.

Definition encode_thing (iid : string) (op : thing_op) : outcome exn pval :=
  match op with
  | Th_getHas ts a => Thing_getHasReq iid ts a
  | Th_setHas a => Thing_setHasReq iid a
  | Th_unsetHas a => Thing_unsetHasReq iid a
  | Th_getPlaying => Thing_getPlayingReq iid
  | Th_getRelations rs => Thing_getRelationsReq iid rs
  | Th_delete => Thing_deleteReq iid
  | Rel_addRolePlayer r p => Thing_Relation_addRolePlayerReq iid r p
  | Rel_removeRolePlayer r p => Thing_Relation_removeRolePlayerReq iid r p
  | Rel_getPlayersByRoleType rs => Thing_Relation_getPlayersByRoleTypeReq iid rs
  | Rel_getRolePlayers => Thing_Relation_getRolePlayersReq iid
  | Rel_getRelating => Thing_Relation_getRelatingReq iid
  | At_getOwners t => Thing_Attribute_getOwnersReq iid t
  end.

Definition encode_concept (op : concept_op string) : outcome exn pval :=
  match op with
  | CM_putEntityType l => Ret (ConceptManager_putEntityTypeReq l)
  | CM_putRelationType l => Ret (ConceptManager_putRelationTypeReq l)
  | CM_putAttributeType l v => Ret (ConceptManager_putAttributeTypeReq l v)
  | CM_getEntityType l => Ret (ConceptManager_getEntityTypeReq l)
  | CM_getRelationType l => Ret (ConceptManager_getRelationTypeReq l)
  | CM_getAttributeType l => Ret (ConceptManager_getAttributeTypeReq l)
  | CM_getEntity iid => ConceptManager_getEntityReq iid
  | CM_getRelation iid => ConceptManager_getRelationReq iid
  | CM_getAttribute iid => ConceptManager_getAttributeReq iid
  | CM_getSchemaExceptions => Ret ConceptManager_getSchemaExceptions
  end.

Definition encode_query (op : query_op) (options : pval) : pval :=
  match op with
  | Q_define q => QueryManager_defineReq q options
  | Q_undefine q => QueryManager_undefineReq q options
  | Q_get q => QueryManager_getReq q options
  | Q_getAggregate q => QueryManager_getAggregateReq q options
  | Q_getGroup q => QueryManager_getGroupReq q options
  | Q_getGroupAggregate q => QueryManager_getGroupAggregateReq q options
  | Q_fetch q => QueryManager_fetchReq q options
  | Q_insert q => QueryManager_insertReq q options
  | Q_delete q => QueryManager_deleteReq q options
  | Q_update q => QueryManager_updateReq q options
  | Q_explain id => QueryManager_explainReq id options
  end.

Definition encode_logic (op : logic_op) : pval :=
  match op with
  | L_putRule l w t => LogicManager_putRuleReq l w t
  | L_getRule l => LogicManager_getRuleReq l
  | L_getRules => LogicManager_getRulesReq
  | R_setLabel c n => Rule_setLabelReq c n
  | R_delete l => Rule_deleteReq l
  end.

Definition encode_op (op : tx_op string) : outcome exn pval :=
  match op with
  | Tx_open s t o l => Transaction_openReq s t o l
  | Tx_commit => Ret Transaction_commitReq
  | Tx_rollback => Ret Transaction_rollbackReq
  | Tx_logic op => Ret (encode_logic op)
  | Tx_query op o => Ret (encode_query op o)
  | Tx_concept op => encode_concept op
  | Tx_roleType l op => Ret (encode_role_type l op)
  | Tx_thingType l op => Ret (encode_thing_type (label_of l) op)
  | Tx_thing iid op => encode_thing iid op
  end.

(** ** Ids *)

Section ids.
Context {I J : Type} (f : I → outcome exn J).

(** The operation with its id, if it has one, parsed. *)
Definition traverse_concept (op : concept_op I) : outcome exn (concept_op J) :=
  match op with
  | CM_putEntityType l => Ret (CM_putEntityType l)
  | CM_putRelationType l => Ret (CM_putRelationType l)
  | CM_putAttributeType l v => Ret (CM_putAttributeType l v)
  | CM_getEntityType l => Ret (CM_getEntityType l)
  | CM_getRelationType l => Ret (CM_getRelationType l)
  | CM_getAttributeType l => Ret (CM_getAttributeType l)
  | CM_getEntity iid => outcome_map CM_getEntity (f iid)
  | CM_getRelation iid => outcome_map CM_getRelation (f iid)
  | CM_getAttribute iid => outcome_map CM_getAttribute (f iid)
  | CM_getSchemaExceptions => Ret CM_getSchemaExceptions
  end.

Definition traverse_ids (op : tx_op I) : outcome exn (tx_op J) :=
  match op with
  | Tx_open s t o l => outcome_map (λ s, Tx_open s t o l) (f s)
  | Tx_commit => Ret Tx_commit
  | Tx_rollback => Ret Tx_rollback
  | Tx_logic op => Ret (Tx_logic op)
  | Tx_query op o => Ret (Tx_query op o)
  | Tx_concept op => outcome_map Tx_concept (traverse_concept op)
  | Tx_roleType l op => Ret (Tx_roleType l op)
  | Tx_thingType l op => Ret (Tx_thingType l op)
  | Tx_thing iid op => outcome_map (λ iid, Tx_thing iid op) (f iid)
  end.
End ids.

(** The operation that the strings name, or the error of an id that names
    nothing. *)
Definition parse_ids : tx_op string → outcome exn (tx_op (list byte)) := traverse_ids hexStringToBytes.

(** The operation with its id as the driver prints it. *)
Definition printed (op : tx_op (list byte)) : outcome exn (tx_op string) :=
  traverse_ids (λ b, Ret (bytesToHexString b)) op.

(** Printing ids always succeeds, and parsing them gives them back. *)
Lemma printed_parses op : ∃ op', printed op = Ret op' ∧ parse_ids op' = Ret op.
Proof.
  destruct op as [| | | | |op| | |]; [..|destruct op| | |]; eexists; (split; [reflexivity|]);
    cbn; by rewrite ?hexStringToBytes_print.
Qed.

(** ** Injectivity *)

Lemma POpt_inj {A} (f : A → pval) (o1 o2 : option A) :
  (∀ a b, f a = f b → a = b) → (∀ a, f a ≠ PUndefined) → POpt f o1 = POpt f o2 → o1 = o2.
Proof.
  intros Hf Hu. destruct o1, o2; simpl; intros H; [by f_equal; apply Hf | | |done].
  - by apply Hu in H.
  - by symmetry in H; apply Hu in H.
Qed.

Lemma POpt_transitivity_inj o1 o2 : POpt PTransitivity o1 = POpt PTransitivity o2 → o1 = o2.
Proof. apply POpt_inj; [by intros a b [=] | done]. Qed.
Lemma POpt_valueType_inj o1 o2 : POpt PValueType o1 = POpt PValueType o2 → o1 = o2.
Proof. apply POpt_inj; [by intros a b [=] | done]. Qed.
Lemma POpt_string_inj o1 o2 : POpt PStr o1 = POpt PStr o2 → o1 = o2.
Proof. apply POpt_inj; [by intros a b [=] | done]. Qed.
Lemma PStrOrNull_inj o1 o2 : PStrOrNull o1 = PStrOrNull o2 → o1 = o2.
Proof. destruct o1, o2; simpl; unfold PStr; congruence. Qed.

(** Takes an equation between two messages apart down to their arguments. *)
Ltac solve_encode_inj :=
  let H := fresh "H" in
  intros H;
  try discriminate H;
  try (injection H; clear H; intros);
  repeat match goal with
    | H : POpt PTransitivity _ = POpt PTransitivity _ |- _ => apply POpt_transitivity_inj in H
    | H : POpt PValueType _ = POpt PValueType _ |- _ => apply POpt_valueType_inj in H
    | H : POpt PStr _ = POpt PStr _ |- _ => apply POpt_string_inj in H
    | H : PStrOrNull _ = PStrOrNull _ |- _ => apply PStrOrNull_inj in H
    end;
  subst; try reflexivity.

Lemma encode_role_type_inj l1 l2 op1 op2 :
  encode_role_type l1 op1 = encode_role_type l2 op2 → l1 = l2 ∧ op1 = op2.
Proof.
  destruct l1, l2. destruct op1, op2; solve_encode_inj; done.
Qed.

Lemma encode_thing_type_inj n1 n2 op1 op2 :
  encode_thing_type (label_of n1) op1 = encode_thing_type (label_of n2) op2 →
  n1 = n2 ∧ op1 = op2.
Proof. destruct op1, op2; solve_encode_inj; done. Qed.

(** The operation-specific field of a thing request. *)
Definition thing_field (op : thing_op) : string * pval :=
  match op with
  | Th_getHas ts a =>
      ("thing_get_has_req",
       New "ThingGetHasReq" [("annotations", PArr a); ("attribute_types", PArr ts)])
  | Th_setHas a => ("thing_set_has_req", New "ThingSetHasReq" [("attribute", a)])
  | Th_unsetHas a => ("thing_unset_has_req", New "ThingUnsetHasReq" [("attribute", a)])
  | Th_getPlaying => ("thing_get_playing_req", New "ThingGetPlayingReq" [])
  | Th_getRelations rs =>
      ("thing_get_relations_req", New "ThingGetRelationsReq" [("role_types", PArr rs)])
  | Th_delete => ("thing_delete_req", New "ThingDeleteReq" [])
  | Rel_addRolePlayer r p =>
      ("relation_add_role_player_req",
       New "RelationAddRolePlayerReq" [("role_player", Thing_Relation_protoRolePlayer r p)])
  | Rel_removeRolePlayer r p =>
      ("relation_remove_role_player_req",
       New "RelationRemoveRolePlayerReq" [("role_player", Thing_Relation_protoRolePlayer r p)])
  | Rel_getPlayersByRoleType rs =>
      ("relation_get_players_by_role_type_req",
       New "RelationGetPlayersByRoleTypeReq" [("role_types", PArr rs)])
  | Rel_getRolePlayers =>
      ("relation_get_role_players_req", New "RelationGetRolePlayersReq" [])
  | Rel_getRelating => ("relation_get_relating_req", New "RelationGetRelatingReq" [])
  | At_getOwners t =>
      ("attribute_get_owners_req", New "AttributeGetOwnersReq" [("thing_type", t)])
  end.

Lemma encode_thing_shape iid op :
  encode_thing iid op = outcome_bind (hexStringToBytes iid) (λ b,
    Ret (Thing_thingReq (New "ThingReq" [("iid", PBytes b); thing_field op]))).
Proof. by destruct op. Qed.

Lemma thing_field_inj op1 op2 : thing_field op1 = thing_field op2 → op1 = op2.
Proof. destruct op1, op2; solve_encode_inj; done. Qed.

(** The operation-specific field of a concept-manager request. *)
Definition concept_field (op : concept_op (list byte)) : string * pval :=
  match op with
  | CM_putEntityType l =>
      ("put_entity_type_req", New "ConceptManagerPutEntityTypeReq" [("label", PStr l)])
  | CM_putRelationType l =>
      ("put_relation_type_req", New "ConceptManagerPutRelationTypeReq" [("label", PStr l)])
  | CM_putAttributeType l v =>
      ("put_attribute_type_req",
       New "ConceptManagerPutAttributeTypeReq"
         [("label", PStr l); ("value_type", POpt PValueType v)])
  | CM_getEntityType l =>
      ("get_entity_type_req", New "ConceptManagerGetEntityTypeReq" [("label", PStr l)])
  | CM_getRelationType l =>
      ("get_relation_type_req", New "ConceptManagerGetRelationTypeReq" [("label", PStr l)])
  | CM_getAttributeType l =>
      ("get_attribute_type_req", New "ConceptManagerGetAttributeTypeReq" [("label", PStr l)])
  | CM_getEntity iid =>
      ("get_entity_req", New "ConceptManagerGetEntityReq" [("iid", PBytes iid)])
  | CM_getRelation iid =>
      ("get_relation_req", New "ConceptManagerGetRelationReq" [("iid", PBytes iid)])
  | CM_getAttribute iid =>
      ("get_attribute_req", New "ConceptManagerGetAttributeReq" [("iid", PBytes iid)])
  | CM_getSchemaExceptions =>
      ("get_schema_exceptions_req", New "ConceptManagerGetSchemaExceptionsReq" [])
  end.

Lemma encode_concept_shape op :
  encode_concept op = outcome_bind (traverse_concept hexStringToBytes op) (λ op,
    Ret (New "TransactionReq"
           [("concept_manager_req", New "ConceptManagerReq" [concept_field op])])).
Proof.
  destruct op; try reflexivity; cbn [encode_concept traverse_concept];
    [unfold ConceptManager_getEntityReq | unfold ConceptManager_getRelationReq
    | unfold ConceptManager_getAttributeReq]; by destruct (hexStringToBytes iid).
Qed.

Lemma concept_field_inj op1 op2 : concept_field op1 = concept_field op2 → op1 = op2.
Proof. destruct op1, op2; solve_encode_inj; done. Qed.

Lemma encode_query_inj op1 op2 o1 o2 :
  encode_query op1 o1 = encode_query op2 o2 → op1 = op2 ∧ o1 = o2.
Proof. destruct op1, op2; solve_encode_inj; done. Qed.

Lemma encode_logic_inj op1 op2 : encode_logic op1 = encode_logic op2 → op1 = op2.
Proof. destruct op1, op2; solve_encode_inj; done. Qed.

(** The request that an operation becomes, without the parsing of ids. *)
Definition request_of (op : tx_op (list byte)) : pval :=
  match op with
  | Tx_open s t o l =>
      New "TransactionReq" [("open_req", New "TransactionOpenReq"
        [("session_id", PBytes s); ("type", PTransactionType t); ("options", o);
         ("network_latency_millis", PVal (JNum l))])]
  | Tx_commit => Transaction_commitReq
  | Tx_rollback => Transaction_rollbackReq
  | Tx_logic op => encode_logic op
  | Tx_query op o => encode_query op o
  | Tx_concept op =>
      New "TransactionReq"
        [("concept_manager_req", New "ConceptManagerReq" [concept_field op])]
  | Tx_roleType l op => encode_role_type l op
  | Tx_thingType l op => encode_thing_type (label_of l) op
  | Tx_thing iid op => Thing_thingReq (New "ThingReq" [("iid", PBytes iid); thing_field op])
  end.

Lemma encode_op_request_of op : encode_op op = outcome_bind (parse_ids op) (λ op, Ret (request_of op)).
Proof.
  destruct op; try reflexivity; unfold parse_ids; cbn [encode_op traverse_ids].
  - unfold Transaction_openReq. by destruct (hexStringToBytes session).
  - rewrite encode_concept_shape. by destruct (traverse_concept _ op).
  - rewrite encode_thing_shape. by destruct (hexStringToBytes iid).
Qed.

(** The name of the request's single top-level field; the groups of operations
    are told apart by it. *)
Definition top_field (m : pval) : option string :=
  match m with
  | New _ [(f, _)] => Some f
  | _ => None
  end.

Lemma top_field_request op :
  top_field (request_of op) =
    Some (match op with
          | Tx_open _ _ _ _ => "open_req"
          | Tx_commit => "commit_req"
          | Tx_rollback => "rollback_req"
          | Tx_logic (R_setLabel _ _ | R_delete _) => "rule_req"
          | Tx_logic _ => "logic_manager_req"
          | Tx_query _ _ => "query_manager_req"
          | Tx_concept _ => "concept_manager_req"
          | Tx_roleType _ _ | Tx_thingType _ _ => "type_req"
          | Tx_thing _ _ => "thing_req"
          end).
Proof. destruct op as [| | |op|op ?|op|? op|? op|? op]; try destruct op; reflexivity. Qed.

Lemma role_thing_type_apart l op n op' :
  encode_role_type l op ≠ encode_thing_type (label_of n) op'.
Proof. destruct op, op'; discriminate. Qed.

Lemma request_of_inj op1 op2 : request_of op1 = request_of op2 → op1 = op2.
Proof.
  intros H. pose proof (f_equal top_field H) as Htop. rewrite !top_field_request in Htop.
  destruct op1 as [| | |op1|op1 ?|op1|? op1|? op1|? op1],
    op2 as [| | |op2|op2 ?|op2|? op2|? op2|? op2]; try done; simpl in H.
  all: try (exfalso; revert Htop; 
    first [destruct op1; discriminate | destruct op2; discriminate]).
  - by simplify_eq.
  - f_equal. by apply encode_logic_inj.
  - by destruct (encode_query_inj _ _ _ _ H) as [-> ->].
  - simplify_eq. f_equal. by apply concept_field_inj.
  - by destruct (encode_role_type_inj _ _ _ _ H) as [-> ->].
  - by apply role_thing_type_apart in H.
  - by symmetry in H; apply role_thing_type_apart in H.
  - by destruct (encode_thing_type_inj _ _ _ _ H) as [-> ->].
  - injection H. intros ? ->. f_equal. by apply thing_field_inj.
Qed.

(** C17 - the request encoding is unambiguous: a transaction operation builds a
    request exactly when its id, if it has one, can be parsed, and throws the
    error of the id otherwise; two operations build the same request exactly when
    they are the same operation on the same arguments, up to ids that name the
    same bytes ([0xAB] and [0xab]); and on ids as the driver prints them every
    operation builds a request, which is built by no other. *)
Theorem encode_op_injective :
  (∀ op e, encode_op op = Throw e ↔ parse_ids op = Throw e) ∧
  (∀ op, (∃ m, encode_op op = Ret m) ↔ ∃ named, parse_ids op = Ret named) ∧
  (∀ op1 op2 m, encode_op op1 = Ret m →
     (encode_op op2 = Ret m ↔ parse_ids op2 = parse_ids op1)) ∧
  (∀ named1 named2, ∃ op1 op2 m1 m2, printed named1 = Ret op1 ∧ printed named2 = Ret op2 ∧
     encode_op op1 = Ret m1 ∧ encode_op op2 = Ret m2 ∧ (m1 = m2 ↔ named1 = named2)).
Proof.
  split_and!.
  - intros op e. rewrite encode_op_request_of.
    destruct (parse_ids op); cbn; split; intros [= ?]; by subst.
  - intros op. rewrite encode_op_request_of.
    destruct (parse_ids op); split; intros [x Hx]; try done; by eexists.
  - intros op1 op2 m. rewrite !encode_op_request_of.
    destruct (parse_ids op1) as [n1| |], (parse_ids op2) as [n2| |]; cbn; intros [= <-]; try done.
    split; [|by intros [= ->]]. intros [= H]. apply request_of_inj in H. by subst.
  - intros named1 named2. destruct (printed_parses named1) as (op1 & E1 & P1).
    destruct (printed_parses named2) as (op2 & E2 & P2).
    exists op1, op2, (request_of named1), (request_of named2). rewrite !encode_op_request_of, P1, P2.
    split_and!; try done. split; [apply request_of_inj|by intros ->].
Qed.

(** An id that is no hex string, and two ids of one instance. *)
Example ids_of_users :
  (∃ e, encode_op (Tx_concept (CM_getEntity "abc")) = Throw e) ∧
  encode_op (Tx_concept (CM_getEntity "0xAB")) = encode_op (Tx_concept (CM_getEntity "0xab")) ∧
  encode_op (Tx_concept (CM_getEntity "0xab")) ≠ encode_op (Tx_concept (CM_getEntity "0xac")).
Proof. split; [by eexists|]. split; [reflexivity|by vm_compute]. Qed.

(** Requests are built without an id: the stream that sends one assigns it. *)
Lemma request_of_no_id op : get_field (request_of op) "req_id" = None.
Proof. destruct op as [| | |op|op ?|op|? op|? op|? op]; try destruct op; reflexivity. Qed.
