(* ===== verification/BlockingQueue.v ===== *)
(** * The promise queue

    Models [common/util/BlockingQueue.ts]. A queue allocates promises; the
    model numbers them and keeps each one's settlement in [store]: [None] while
    pending, [Some t] once resolved with [t]. The abstract queue of the
    specification is the list of elements added and the number of takes, and
    [run_refines] shows that the code implements it: the i-th take waits for
    exactly the i-th element, whatever the interleaving of adds and takes. *)
From S2P Require Import Prelude.

Section queue.
Context {T : Type}.

Record bqueue : Type := BQueue {
  promises : list nat;
  resolvers : list nat;
  store : list (option T);
}.

Definition new_queue : bqueue := BQueue [] [] [].

(** [new Promise(resolve => this._resolvers.push(resolve))] runs its executor
    at once, so the promise and its resolver are pushed together. *)
Definition addPromise (q : bqueue) : bqueue :=
  let p := length (store q) in
  BQueue (promises q ++ [p]) (resolvers q ++ [p]) (store q ++ [None]).

(** Calling the resolver of promise [r]; resolving twice has no effect. *)
Definition resolve (r : nat) (t : T) (st : list (option T)) : list (option T) :=
  match st !! r with
  | Some None => <[r := Some t]> st
  | _ => st
  end.

Definition add (t : T) (q : bqueue) : bqueue :=
  let q := match resolvers q with [] => addPromise q | _ => q end in
  match resolvers q with
  | r :: rs => BQueue (promises q) rs (resolve r t (store q))
  | [] => q
  end.

(** Returns the promise, by its number. *)
Definition take (q : bqueue) : option nat * bqueue :=
  let q := match promises q with [] => addPromise q | _ => q end in
  match promises q with
  | p :: ps => (Some p, BQueue ps (resolvers q) (store q))
  | [] => (None, q)
  end.

(** ** Specification *)

(** The abstract queue: elements added so far and promises handed out. *)
Record squeue : Type := SQueue { added : list T; taken : nat }.

(** The concrete queue that an abstract one stands for. *)
Definition repr (s : squeue) : bqueue :=
  let n := max (length (added s)) (taken s) in
  BQueue (seq (taken s) (n - taken s))
         (seq (length (added s)) (n - length (added s)))
         ((Some <$> added s) ++ replicate (n - length (added s)) None).

Lemma repr_new : new_queue = repr (SQueue [] 0).
Proof. reflexivity. Qed.

Lemma length_repr_store s :
  length (store (repr s)) = max (length (added s)) (taken s).
Proof. unfold repr; simpl. rewrite length_app, length_fmap, length_replicate. lia. Qed.

Lemma take_fresh q :
  promises q = [] →
  take q = (Some (length (store q)),
            BQueue [] (resolvers q ++ [length (store q)]) (store q ++ [None])).
Proof. intros E. unfold take. rewrite E. unfold addPromise. by rewrite E. Qed.

Lemma add_fresh t q :
  resolvers q = [] →
  add t q = BQueue (promises q ++ [length (store q)]) []
              (resolve (length (store q)) t (store q ++ [None])).
Proof. intros E. unfold add. rewrite E. unfold addPromise. by rewrite E. Qed.

Lemma add_waiting t q r rs :
  resolvers q = r :: rs → add t q = BQueue (promises q) rs (resolve r t (store q)).
Proof. intros E. unfold add. by rewrite E, E. Qed.

Lemma take_refines s :
  take (repr s) = (Some (taken s), repr (SQueue (added s) (S (taken s)))).
Proof.
  destruct (decide (taken s < length (added s))) as [Hlt|Hge].
  - unfold take, repr; cbn [promises resolvers store added taken].
    rewrite !Nat.max_l by lia. destruct (length (added s) - taken s) as [|k] eqn:E; [lia|].
    simpl. by replace (length (added s) - S (taken s)) with k by lia.
  - rewrite take_fresh, length_repr_store by (simpl; by rewrite Nat.max_r, Nat.sub_diag by lia).
    unfold repr; cbn [promises resolvers store added taken].
    rewrite !Nat.max_r, Nat.sub_diag by lia.
    replace (S (taken s) - length (added s)) with (taken s - length (added s) + 1) by lia.
    rewrite seq_snoc, replicate_add, app_assoc.
    by replace (length (added s) + (taken s - length (added s))) with (taken s) by lia.
Qed.

Lemma resolve_first_pending t (l : list T) k :
  resolve (length l) t ((Some <$> l) ++ replicate (S k) None) =
    (Some <$> (l ++ [t])) ++ replicate k None.
Proof.
  unfold resolve. rewrite lookup_app_r by by rewrite length_fmap.
  rewrite length_fmap, Nat.sub_diag. simpl.
  rewrite insert_app_r_alt by by rewrite length_fmap.
  rewrite length_fmap, Nat.sub_diag. simpl.
  by rewrite fmap_app, <- app_assoc.
Qed.

Lemma add_refines t s : add t (repr s) = repr (SQueue (added s ++ [t]) (taken s)).
Proof.
  unfold repr at 2; cbn [added taken]. rewrite length_app. cbn [length].
  destruct (decide (length (added s) < taken s)) as [Hlt|Hge].
  - assert (∃ k, taken s - length (added s) = S k) as [k Hk]
      by (exists (pred (taken s - length (added s))); lia).
    rewrite (add_waiting _ _ (length (added s)) (seq (S (length (added s))) k))
      by (simpl; by rewrite Nat.max_r, Hk by lia).
    unfold repr; cbn [promises store]. rewrite !Nat.max_r, Hk, resolve_first_pending by lia.
    replace (taken s - (length (added s) + 1)) with k by lia.
    by rewrite Nat.add_1_r.
  - rewrite add_fresh, length_repr_store by (simpl; by rewrite Nat.max_l, Nat.sub_diag by lia).
    unfold repr; cbn [promises resolvers store added taken].
    rewrite !Nat.max_l by lia. rewrite !Nat.sub_diag. cbn [seq replicate].
    rewrite !app_nil_r. f_equal.
    + replace (length (added s) + 1 - taken s) with (length (added s) - taken s + 1) by lia.
      rewrite seq_snoc. by replace (taken s + (length (added s) - taken s))
        with (length (added s)) by lia.
    + pose proof (resolve_first_pending t (added s) 0) as H. cbn [replicate] in H.
      by rewrite app_nil_r in H.
Qed.

(** ** Runs *)

Inductive qop : Type := QAdd (t : T) | QTake.

(** The queue and the promises handed out, in order. *)
Definition qstep (st : bqueue * list nat) (op : qop) : bqueue * list nat :=
  match op with
  | QAdd t => (add t st.1, st.2)
  | QTake => let '(p, q) := take st.1 in (q, st.2 ++ from_option (λ n, [n]) [] p)
  end.

Definition run_queue (ops : list qop) : bqueue * list nat :=
  foldl qstep (new_queue, []) ops.

Definition adds_of (ops : list qop) : list T :=
  omap (λ op, match op with QAdd t => Some t | QTake => None end) ops.

Definition takes_of (ops : list qop) : nat :=
  length (List.filter (λ op, match op with QAdd _ => false | QTake => true end) ops).

(** What awaiting the promise numbered [p] gives: [None] while it is pending. *)
Definition awaited (q : bqueue) (p : nat) : option T := mjoin (store q !! p).

Lemma qstep_foldl ops s :
  foldl qstep (repr s, seq 0 (taken s)) ops =
    (repr (SQueue (added s ++ adds_of ops) (taken s + takes_of ops)),
     seq 0 (taken s + takes_of ops)).
Proof.
  revert s. induction ops as [|op ops IH]; intros s.
  - unfold adds_of, takes_of; simpl. rewrite app_nil_r, Nat.add_0_r. by destruct s.
  - destruct op as [t|]; cbn [foldl qstep fst snd].
    + rewrite add_refines. change (taken s) with (taken (SQueue (added s ++ [t]) (taken s))).
      rewrite IH; simpl. by rewrite <- app_assoc.
    + rewrite take_refines. cbn [from_option].
      replace (seq 0 (taken s) ++ [taken s]) with (seq 0 (S (taken s)))
        by (rewrite <- Nat.add_1_r, seq_snoc; done).
      change (S (taken s)) with (taken (SQueue (added s) (S (taken s)))) at 2.
      rewrite IH; cbn [added taken]. unfold takes_of. simpl.
      by rewrite !Nat.add_succ_r.
Qed.

Lemma run_queue_repr ops :
  run_queue ops = (repr (SQueue (adds_of ops) (takes_of ops)), seq 0 (takes_of ops)).
Proof. unfold run_queue. rewrite repr_new. apply (qstep_foldl ops (SQueue [] 0)). Qed.

Lemma awaited_repr s p : awaited (repr s) p = added s !! p.
Proof.
  unfold awaited, repr; cbn [store]. destruct (decide (p < length (added s))) as [Hlt|Hge].
  - rewrite lookup_app_l by (rewrite length_fmap; lia). rewrite list_lookup_fmap.
    by destruct (added s !! p).
  - rewrite lookup_app_r by (rewrite length_fmap; lia).
    rewrite (lookup_ge_None_2 (added s)) by lia.
    destruct (replicate _ _ !! _) eqn:E; [|done].
    by apply lookup_replicate in E as [-> _].
Qed.

(** C22 - the promise queue is first-in first-out under every interleaving:
    after any sequence of adds and takes, the i-th take was given a promise
    of its own, and that promise is resolved with the i-th added element, or
    pending when fewer elements were added. *)
Theorem run_refines (ops : list qop) :
  (run_queue ops).2 = seq 0 (takes_of ops) ∧
  ∀ i, awaited (run_queue ops).1 i = adds_of ops !! i.
Proof.
  rewrite run_queue_repr. split; [done|]. intros i. simpl. apply awaited_repr.
Qed.
End queue.

Arguments bqueue : clear implicits.
Arguments squeue : clear implicits.
Arguments qop : clear implicits.
