(* ===== verification/Streams.v ===== *)
(** * Answer streams

    Models [common/util/Stream.ts]. A stream is an async generator: pulling it
    runs it up to its next [yield], its end, a throw, or an await that never
    settles, and may change the state it runs in. Generators are an inductive
    type, so a [for await] loop over one ends. Streams are equivalent when
    they yield the same elements, passing through the same states, and end in
    the same way. *)
From S2P Require Import Prelude.

Section gen.
Context {S E : Type}.

(** The result of one pull: the state after it, and what it gave. *)
Inductive gstep (G A : Type) : Type :=
  | GYield (s : S) (a : A) (k : G)
  | GDone (s : S)
  | GThrow (s : S) (e : E)
  | GPend (s : S).
#[global] Arguments GYield {G A} s a k.
#[global] Arguments GDone {G A} s.
#[global] Arguments GThrow {G A} s e.
#[global] Arguments GPend {G A} s.

Unset Elimination Schemes.
Inductive gen (A : Type) : Type :=
  | Gen (pull : S → gstep (gen A) A).
Set Elimination Schemes.
#[global] Arguments Gen {A} pull.

Definition force {A} (g : gen A) : S → gstep (gen A) A :=
  match g with Gen pull => pull end.

Definition gen_induction {A} (P : gen A → Prop)
    (H : ∀ pull, (∀ s s' a k, pull s = GYield s' a k → P k) → P (Gen pull)) :
  ∀ g, P g :=
  fix F (g : gen A) : P g :=
    match g with
    | Gen pull =>
        H pull (λ s s' a k Hs,
          match pull s as x return x = GYield s' a k → P k with
          | GYield s1 a1 k1 => λ Hx, match Hx in _ = y return
                                match y with GYield _ _ k' => P k' | _ => True end
                              with eq_refl => F k1 end
          | GDone _ => λ Hx, match Hx in _ = y return
                                match y with GYield _ _ k' => P k' | _ => True end
                              with eq_refl => I end
          | GThrow _ _ => λ Hx, match Hx in _ = y return
                                match y with GYield _ _ k' => P k' | _ => True end
                              with eq_refl => I end
          | GPend _ => λ Hx, match Hx in _ = y return
                                match y with GYield _ _ k' => P k' | _ => True end
                              with eq_refl => I end
          end Hs)
    end.

(** ** [for await (const a of g) body] *)

(** The body gets the loop's accumulator and either continues with a new one
    ([inl]) or returns from the enclosing method ([inr]). *)
Fixpoint for_await {A X R} (body : X → A → proc S E (X + R)) (x : X) (g : gen A)
    : proc S E (X + R) :=
  λ s,
    match g with
    | Gen pull =>
        match pull s with
        | GYield s1 a k =>
            match body x a s1 with
            | (Ret (inl x'), s2) => for_await body x' k s2
            | (Ret (inr r), s2) => (Ret (inr r), s2)
            | (Throw e, s2) => (Throw e, s2)
            | (Pending, s2) => (Pending, s2)
            end
        | GDone s1 => (Ret (inl x), s1)
        | GThrow s1 e => (Throw e, s1)
        | GPend s1 => (Pending, s1)
        end
    end.

Definition collect {A} (g : gen A) : proc S E (list A) :=
  for_await (R := Empty_set) (λ answers a, mret (inl (answers ++ [a]))) [] g
  ≫= λ r : list A + Empty_set,
       match r with inl answers => mret answers | inr v => match v with end end.

Definition every {A} (callbackFn : A → proc S E bool) (g : gen A) : proc S E bool :=
  for_await (X := unit) (R := bool) (λ _ item, callbackFn item ≫= λ b : bool,
    mret (if negb b then inr false else inl tt)) tt g
  ≫= λ r, match r with inl _ => mret true | inr b => mret b end.

Definition some {A} (callbackFn : A → proc S E bool) (g : gen A) : proc S E bool :=
  for_await (X := unit) (R := bool) (λ _ item, callbackFn item ≫= λ b : bool,
    mret (if b then inr true else inl tt)) tt g
  ≫= λ r, match r with inl _ => mret false | inr b => mret b end.

Definition forEach {A} (fn : A → proc S E unit) (g : gen A) : proc S E unit :=
  for_await (X := unit) (R := Empty_set) (λ _ val, fn val ≫= λ _, mret (inl tt)) tt g
  ≫= λ _, mret tt.

(** [null] is [None]. *)
Definition first {A} (g : gen A) : proc S E (option A) :=
  for_await (X := unit) (R := A) (λ _ val, mret (inr val)) tt g
  ≫= λ r, match r with inl _ => mret None | inr v => mret (Some v) end.

(** ** The stream classes *)

(** [Stream.Array] *)
Fixpoint array {A} (items : list A) : gen A :=
  match items with
  | [] => Gen (λ s, GDone s)
  | a :: rest => Gen (λ s, GYield s a (array rest))
  end.

(** [Stream.PromiseArray]: each element is awaited in turn. *)
Fixpoint promises {A} (items : list (outcome E A)) : gen A :=
  match items with
  | [] => Gen (λ s, GDone s)
  | Ret a :: rest => Gen (λ s, GYield s a (promises rest))
  | Throw e :: _ => Gen (λ s, GThrow s e)
  | Pending :: _ => Gen (λ s, GPend s)
  end.

(** [Stream.Iterable] *)
Fixpoint iterable {A} (provider : gen A) : gen A :=
  match provider with
  | Gen pull => Gen (λ s,
      match pull s with
      | GYield s1 val k => GYield s1 val (iterable k)
      | GDone s1 => GDone s1
      | GThrow s1 e => GThrow s1 e
      | GPend s1 => GPend s1
      end)
  end.

(** [Stream.Filtered] *)
Fixpoint gfilter {A} (filter : A → proc S E bool) (source : gen A) : gen A :=
  match source with
  | Gen pull => Gen (λ s,
      match pull s with
      | GYield s1 val k =>
          match filter val s1 with
          | (Ret true, s2) => GYield s2 val (gfilter filter k)
          | (Ret false, s2) => force (gfilter filter k) s2
          | (Throw e, s2) => GThrow s2 e
          | (Pending, s2) => GPend s2
          end
      | GDone s1 => GDone s1
      | GThrow s1 e => GThrow s1 e
      | GPend s1 => GPend s1
      end)
  end.

(** [Stream.Mapped] *)
Fixpoint gmap_ {A B} (mapper : A → proc S E B) (source : gen A) : gen B :=
  match source with
  | Gen pull => Gen (λ s,
      match pull s with
      | GYield s1 val k =>
          match mapper val s1 with
          | (Ret b, s2) => GYield s2 b (gmap_ mapper k)
          | (Throw e, s2) => GThrow s2 e
          | (Pending, s2) => GPend s2
          end
      | GDone s1 => GDone s1
      | GThrow s1 e => GThrow s1 e
      | GPend s1 => GPend s1
      end)
  end.

(** The inner loop of [Stream.FlatMapped]: the elements of [g], then the
    rest of the outer loop. *)
Fixpoint gthen {A} (g rest : gen A) : gen A :=
  match g with
  | Gen pull => Gen (λ s,
      match pull s with
      | GYield s1 a k => GYield s1 a (gthen k rest)
      | GDone s1 => force rest s1
      | GThrow s1 e => GThrow s1 e
      | GPend s1 => GPend s1
      end)
  end.

(** [Stream.FlatMapped] *)
Fixpoint flatMap {A B} (flatMapper : A → proc S E (gen B)) (source : gen A) : gen B :=
  match source with
  | Gen pull => Gen (λ s,
      match pull s with
      | GYield s1 val k =>
          match flatMapper val s1 with
          | (Ret inner, s2) => force (gthen inner (flatMap flatMapper k)) s2
          | (Throw e, s2) => GThrow s2 e
          | (Pending, s2) => GPend s2
          end
      | GDone s1 => GDone s1
      | GThrow s1 e => GThrow s1 e
      | GPend s1 => GPend s1
      end)
  end.

(** ** What a stream does when it is drained *)

(** The elements with the state after each, and how and where it ends. *)
Fixpoint steps {A} (g : gen A) (s : S) : list (A * S) * (outcome E unit * S) :=
  match g with
  | Gen pull =>
      match pull s with
      | GYield s1 a k => let '(l, fin) := steps k s1 in ((a, s1) :: l, fin)
      | GDone s1 => ([], (Ret tt, s1))
      | GThrow s1 e => ([], (Throw e, s1))
      | GPend s1 => ([], (Pending, s1))
      end
  end.

#[global] Instance gen_equiv {A} : Equiv (gen A) :=
  λ g1 g2, ∀ s, steps g1 s = steps g2 s.

(** ** Draining the basic streams *)

Lemma steps_array {A} (l : list A) s : steps (array l) s = ((λ a, (a, s)) <$> l, (Ret tt, s)).
Proof. induction l as [|a l IH]; simpl; [done|]. by rewrite IH. Qed.

Lemma steps_iterable {A} (g : gen A) : iterable g ≡ g.
Proof.
  intros s. revert s. induction g as [pull IH] using gen_induction. intros s. simpl.
  destruct (pull s) as [s1 a k| | |] eqn:Ep; try done. by rewrite (IH _ _ _ _ Ep).
Qed.

Definition steps_then {A} (t1 : list (A * S) * (outcome E unit * S))
    (t2 : S → list (A * S) * (outcome E unit * S)) : list (A * S) * (outcome E unit * S) :=
  match t1.2 with
  | (Ret _, s') => (t1.1 ++ (t2 s').1, (t2 s').2)
  | _ => t1
  end.

Lemma steps_gthen {A} (g rest : gen A) s :
  steps (gthen g rest) s = steps_then (steps g s) (steps rest).
Proof.
  revert s. induction g as [pull IH] using gen_induction. intros s. simpl.
  destruct (pull s) as [s1 a k|s1|s1 e|s1] eqn:Ep; try done.
  - rewrite (IH _ _ _ _ Ep). unfold steps_then.
    destruct (steps k s1) as [l [[]s2]]; simpl; try done; by destruct (steps rest s2).
  - unfold steps_then; simpl. destruct rest as [pullr]; simpl.
    destruct (pullr s1) as [s2 a k| | |]; try done. by destruct (steps k s2).
Qed.

(** A callback that neither reads nor writes the state. *)
Definition pure {A B} (f : A → outcome E B) : A → proc S E B := λ a, lift_outcome (f a).

(** Mapping the elements of a drained stream, up to the first throw. *)
Fixpoint map_steps {A B} (f : A → outcome E B) (l : list (A * S)) (fin : outcome E unit * S)
    : list (B * S) * (outcome E unit * S) :=
  match l with
  | [] => ([], fin)
  | (a, s) :: l' =>
      match f a with
      | Ret b => let '(l2, fin2) := map_steps f l' fin in ((b, s) :: l2, fin2)
      | Throw e => ([], (Throw e, s))
      | Pending => ([], (Pending, s))
      end
  end.

Lemma steps_map {A B} (f : A → outcome E B) (g : gen A) s :
  steps (gmap_ (pure f) g) s = map_steps f (steps g s).1 (steps g s).2.
Proof.
  revert s. induction g as [pull IH] using gen_induction. intros s. simpl.
  destruct (pull s) as [s1 a k|s1|s1 e|s1] eqn:Ep; try done.
  unfold pure, lift_outcome. destruct (steps k s1) as [l fin] eqn:El. simpl.
  destruct (f a) as [b|e|]; try done.
  pose proof (IH _ _ _ _ Ep s1) as IHs. unfold pure, lift_outcome in IHs. rewrite IHs, El.
  simpl. by destruct (map_steps f l fin).
Qed.

Lemma steps_filter {A} (p : A → bool) (g : gen A) s :
  steps (gfilter (λ a, mret (p a)) g) s =
    (List.filter (λ x, p x.1) (steps g s).1, (steps g s).2).
Proof.
  revert s. induction g as [pull IH] using gen_induction. intros s. simpl.
  destruct (pull s) as [s1 a k|s1|s1 e|s1] eqn:Ep; try done. simpl.
  pose proof (IH _ _ _ _ Ep s1) as IHs.
  destruct (steps k s1) as [l fin] eqn:El; simpl in *.
  destruct (p a); simpl; [by rewrite IHs|].
  destruct (gfilter _ k) as [pull']. simpl in *. exact IHs.
Qed.

(** ** Consuming *)

Lemma for_await_collect {A} (g : gen A) acc s :
  for_await (R := Empty_set) (λ answers a, mret (inl (answers ++ [a]))) acc g s =
    (outcome_map (λ _, inl (acc ++ (steps g s).1.*1)) (steps g s).2.1, (steps g s).2.2).
Proof.
  revert acc s. induction g as [pull IH] using gen_induction. intros acc s. simpl.
  destruct (pull s) as [s1 a k|s1|s1 e|s1] eqn:Ep; simpl; rewrite ?app_nil_r; try done.
  rewrite (IH _ _ _ _ Ep). destruct (steps k s1) as [l fin]; simpl.
  by rewrite <- app_assoc.
Qed.

(** Collecting a stream returns its elements in order when it ends, and
    otherwise throws what it throws. *)
Lemma collect_steps {A} (g : gen A) s :
  collect g s = (outcome_map (λ _, (steps g s).1.*1) (steps g s).2.1, (steps g s).2.2).
Proof.
  unfold collect, mbind, proc_mbind. rewrite for_await_collect.
  by destruct (steps g s) as [l [[] s']].
Qed.

#[global] Instance collect_proper {A} : Proper ((≡) ==> (≡)) (@collect A).
Proof. intros g1 g2 Hg s. rewrite !collect_steps, (Hg s). done. Qed.

(** The first element a pure predicate accepts, with the state the stream
    was left in. *)
Definition find_step {A} (p : A → bool) (l : list (A * S)) : option (A * S) :=
  List.find (λ x, p x.1) l.

Lemma for_await_search {A} (p : A → bool) (r : bool) (g : gen A) s :
  for_await (X := unit) (λ _ item, mret (p item) ≫= λ b : bool,
    mret (if b then inr r else inl tt)) tt g s =
    match find_step p (steps g s).1 with
    | Some (_, s') => (Ret (inr r), s')
    | None => (outcome_map (λ _, inl tt) (steps g s).2.1, (steps g s).2.2)
    end.
Proof.
  revert s. induction g as [pull IH] using gen_induction. intros s. simpl.
  destruct (pull s) as [s1 a k|s1|s1 e|s1] eqn:Ep; try done.
  pose proof (IH _ _ _ _ Ep s1) as IHs. destruct (steps k s1) as [l fin]; simpl in *.
  by destruct (p a).
Qed.

Lemma some_steps {A} (p : A → bool) (g : gen A) (s : S) :
  some (λ a, mret (p a)) g s =
    match find_step p (steps g s).1 with
    | Some (_, s') => (Ret true, s')
    | None => (outcome_map (λ _, false) (steps g s).2.1, (steps g s).2.2)
    end.
Proof.
  unfold some. rewrite proc_bind_eq, for_await_search.
  destruct (find_step _ _) as [[]|]; [done|]. by destruct (steps g s).2 as [[] ?].
Qed.

Lemma every_steps {A} (p : A → bool) (g : gen A) s :
  every (λ a, mret (p a)) g s =
    match find_step (λ a, negb (p a)) (steps g s).1 with
    | Some (_, s') => (Ret false, s')
    | None => (outcome_map (λ _, true) (steps g s).2.1, (steps g s).2.2)
    end.
Proof.
  unfold every. rewrite proc_bind_eq, (for_await_search (λ a, negb (p a)) false).
  destruct (find_step _ _) as [[]|]; [done|]. by destruct (steps g s).2 as [[] ?].
Qed.

(** [every] is the dual of [some]. *)
Lemma every_not_some {A} (p : A → bool) (g : gen A) :
  every (λ a, mret (p a)) g ≡
    some (λ a, mret (negb (p a))) g ≫= λ b, mret (negb b).
Proof.
  intros s. rewrite every_steps, proc_bind_eq, (some_steps (λ a, negb (p a))).
  destruct (find_step _ _) as [[]|]; [done|]. by destruct (steps g s).2 as [[] ?].
Qed.

Lemma first_force {A} (g : gen A) s :
  first g s =
    match force g s with
    | GYield s' a _ => (Ret (Some a), s')
    | GDone s' => (Ret None, s')
    | GThrow s' e => (Throw e, s')
    | GPend s' => (Pending, s')
    end.
Proof. destruct g as [pull]. unfold first; simpl. unfold_proc; simpl. by destruct (pull s). Qed.

(** Searching a stream stops at the first answer that decides: [some]
    returns true, and [every] false, at the first element that satisfies
    (fails) the condition, leaving the stream in the state right after that
    element; otherwise they drain it, and pass its error on. [first] pulls
    once. *)
Theorem search_short_circuits {A} (p : A → bool) (g : gen A) (s : S) :
  some (λ a, mret (p a)) g s =
    match find_step p (steps g s).1 with
    | Some (_, s') => (Ret true, s')
    | None => (outcome_map (λ _, false) (steps g s).2.1, (steps g s).2.2)
    end ∧
  every (λ a, mret (p a)) g s =
    match find_step (λ a, negb (p a)) (steps g s).1 with
    | Some (_, s') => (Ret false, s')
    | None => (outcome_map (λ _, true) (steps g s).2.1, (steps g s).2.2)
    end ∧
  first g s =
    match (steps g s).1 with
    | (a, s') :: _ => (Ret (Some a), s')
    | [] => (outcome_map (λ _, None) (steps g s).2.1, (steps g s).2.2)
    end.
Proof.
  split_and!; [apply some_steps | apply every_steps |].
  rewrite first_force. destruct g as [pull]; simpl.
  destruct (pull s) as [s1 a k| | |]; try done. by destruct (steps k s1).
Qed.

(** ** Answers that arrive in parts *)

Lemma steps_flatMap {A B} (f : A → gen B) (g : gen A) s :
  (∀ a s, (steps (f a) s).2.2 = s) →
  steps (flatMap (λ a, mret (f a)) g) s =
    foldr (λ x t, steps_then (steps (f x.1) x.2) (λ _, t))
      ([], (steps g s).2) (steps g s).1.
Proof.
  intros Hf. revert s. induction g as [pull IH] using gen_induction. intros s. simpl.
  destruct (pull s) as [s1 a k|s1|s1 e|s1] eqn:Ep; try done. simpl.
  specialize (IH _ _ _ _ Ep s1).
  assert (∀ h : gen B, match force h s1 with
    | GYield s2 b k => let '(l, fin) := steps k s2 in ((b, s2) :: l, fin)
    | GDone s2 => ([], (Ret (), s2))
    | GThrow s2 e => ([], (Throw e, s2))
    | GPend s2 => ([], (Pending, s2)) end = steps h s1) as -> by by intros [].
  rewrite steps_gthen. specialize (Hf a s1).
  destruct (steps k s1) as [l fin] eqn:El. simpl in *.
  destruct (steps (f a) s1) as [l' [[] s']]; simpl in *; subst;
    unfold steps_then; simpl; [by rewrite IH | done | done].
Qed.

Lemma map_steps_array {A B} (f : A → outcome E B) (l : list A) s :
  ∃ pre, map_steps f ((λ a, (a, s)) <$> l) (Ret tt, s) =
           (pre, (outcome_map (λ _, tt) (mapM_outcome f l), s)) ∧
         ∀ bs, mapM_outcome f l = Ret bs → pre = (λ b, (b, s)) <$> bs.
Proof.
  induction l as [|a l (pre & Hpre & Hret)].
  - exists []. split; [done|]. by intros bs [= <-].
  - rewrite fmap_cons. cbn [map_steps mapM_outcome]. destruct (f a) as [b|e|]; simpl.
    + rewrite Hpre. exists ((b, s) :: pre). split; [by destruct (mapM_outcome f l)|].
      intros bs. destruct (mapM_outcome f l) as [bs'| |]; simpl; intros [= <-].
      by rewrite (Hret bs').
    + by exists [].
    + by exists [].
Qed.

Lemma mapM_outcome_app {A B} (f : A → outcome E B) l1 l2 :
  mapM_outcome f (l1 ++ l2) =
    outcome_bind (mapM_outcome f l1) (λ b1, outcome_bind (mapM_outcome f l2) (λ b2, Ret (b1 ++ b2))).
Proof.
  induction l1 as [|a l1 IH]; simpl; [by destruct (mapM_outcome f l2)|].
  destruct (f a); simpl; try done. rewrite IH.
  destruct (mapM_outcome f l1); simpl; try done. by destruct (mapM_outcome f l2).
Qed.

(** Answers delivered in parts: decoding every answer of every part
    with a flat-mapped stream and collecting it returns the decoded answers
    of all parts in order; a decoding error of an earlier answer is thrown
    first, and otherwise the stream's own error. *)
Theorem collect_parts {P Q A} (answers : P → list Q) (decode : Q → outcome E A)
    (g : gen P) (s : S) :
  (collect (flatMap (λ part, mret (gmap_ (pure decode) (array (answers part)))) g) s).1 =
    outcome_bind (mapM_outcome decode (concat (answers <$> (steps g s).1.*1)))
      (λ xs, outcome_map (λ _, xs) (steps g s).2.1).
Proof.
  rewrite collect_steps, (steps_flatMap (λ part, gmap_ (pure decode) (array (answers part)))).
  2: { intros a s1. rewrite steps_map, steps_array. cbn [fst snd].
       by destruct (map_steps_array decode (answers a) s1) as (pre & -> & _). }
  destruct (steps g s) as [l fin]; simpl. induction l as [|[a s1] l IH]; [by destruct fin as [[] ?]|].
  cbn [foldr fst snd]. rewrite !fmap_cons, concat_cons, mapM_outcome_app.
  rewrite steps_map, steps_array. cbn [fst snd].
  destruct (map_steps_array decode (answers a) s1) as (pre & -> & Hpre).
  unfold steps_then at 1. cbn [fst snd].
  destruct (mapM_outcome decode (answers a)) as [bs|e|]; [|done..].
  rewrite (Hpre bs eq_refl). clear Hpre. revert IH. cbn [fst snd outcome_map outcome_bind].
  destruct (foldr _ _ l) as [l2 [o2 s2]].
  destruct (mapM_outcome decode (concat (answers <$> l.*1))) as [xs|e'|];
    destruct o2, fin as [[] ?]; cbn; intros IH; simplify_eq; try done.
  rewrite fmap_app, <- list_fmap_compose. f_equal. f_equal. apply list_fmap_id.
Qed.
(** ** Draining, when nothing fails *)

(** Flattening the parts of a drained stream, when the stream made of each part
    has the elements of a list and leaves the state alone. *)
Lemma steps_flat_lists {A B} (f : A → proc S E (gen B)) (g : gen A) s parts fin ls :
  steps g s = (parts, fin) →
  Forall2 (λ x l, ∃ h, (∀ s, f x.1 s = (Ret h, s)) ∧
                       ∀ s, steps h s = ((λ b, (b, s)) <$> l, (Ret tt, s))) parts ls →
  ∃ out, steps (flatMap f g) s = (out, fin) ∧ out.*1 = concat ls.
Proof.
  revert s parts ls. induction g as [pull IH] using gen_induction. intros s parts ls. simpl.
  destruct (pull s) as [s1 a k|s1|s1 e|s1] eqn:Ep;
    try (intros [= <- <-] ->%Forall2_nil_inv_l; by exists []).
  destruct (steps k s1) as [l' fin'] eqn:Ek. intros [= <- <-] H.
  apply Forall2_cons_inv_l in H as (l & ls' & (h & Hf & Hh) & Hls & ->). simpl in Hf.
  destruct (IH _ _ _ _ Ep s1 l' ls' Ek Hls) as (out & Hout & Hcat). rewrite Hf.
  assert (∀ h : gen B, match force h s1 with
    | GYield s2 b k => let '(l, fin) := steps k s2 in ((b, s2) :: l, fin)
    | GDone s2 => ([], (Ret (), s2))
    | GThrow s2 e => ([], (Throw e, s2))
    | GPend s2 => ([], (Pending, s2)) end = steps h s1) as -> by by intros [].
  rewrite steps_gthen, Hh. unfold steps_then. cbn [fst snd]. rewrite Hout.
  eexists. split; [done|]. cbn [concat]. rewrite fmap_app, <- Hcat, <- list_fmap_compose.
  f_equal. apply list_fmap_id.
Qed.

Lemma steps_flat_arrays {A B} (F : A → outcome E (list B)) (g : gen A) s parts fin ls :
  steps g s = (parts, fin) → Forall2 (λ x l, F x.1 = Ret l) parts ls →
  ∃ out, steps (flatMap (λ a, lift_outcome (F a) ≫= λ l, mret (array l)) g) s = (out, fin) ∧
         out.*1 = concat ls.
Proof.
  intros Hg Hl. eapply steps_flat_lists; [exact Hg|]. eapply Forall2_impl; [exact Hl|].
  intros x l Hx. exists (array l). split; [|apply steps_array].
  intros s1. rewrite proc_bind_eq. unfold lift_outcome. by rewrite Hx.
Qed.

(** A mapped array whose elements all decode. *)
Lemma steps_map_array {A B} (f : A → outcome E B) l bs s :
  mapM_outcome f l = Ret bs → steps (gmap_ (pure f) (array l)) s = ((λ b, (b, s)) <$> bs, (Ret tt, s)).
Proof.
  intros H. rewrite steps_map, steps_array. cbn [fst snd].
  destruct (map_steps_array f l s) as (pre & -> & Hpre). rewrite (Hpre bs H), H. done.
Qed.

(** A loop whose body changes only its accumulator. *)
Fixpoint foldM {A X} (f : X → A → outcome E X) (x : X) (l : list A) : outcome E X :=
  match l with
  | [] => Ret x
  | a :: l' => outcome_bind (f x a) (λ x', foldM f x' l')
  end.

Lemma for_await_fold {A X} (f : X → A → outcome E X) (x x' : X) (g : gen A) s :
  foldM f x (steps g s).1.*1 = Ret x' →
  for_await (R := Empty_set) (λ x a, lift_outcome (outcome_map inl (f x a))) x g s =
    (outcome_map (λ _, inl x') (steps g s).2.1, (steps g s).2.2).
Proof.
  revert x s. induction g as [pull IH] using gen_induction. intros x s. simpl.
  destruct (pull s) as [s1 a k|s1|s1 e|s1] eqn:Ep; simpl; try by intros [= ->].
  destruct (steps k s1) as [l fin] eqn:Ek. simpl.
  destruct (f x a) as [x1|e|]; simpl; try done. intros H.
  change (lift_outcome (Ret (inl x1)) s1) with (Ret (E := E) (inl x1 : X + Empty_set), s1).
  cbv iota. rewrite (IH _ _ _ _ Ep x1 s1); by rewrite Ek.
Qed.

(** Mapping and collecting a drained stream. *)
Lemma collect_map {A B} (f : A → outcome E B) (g : gen A) s parts s' bs :
  steps g s = (parts, (Ret tt, s')) → mapM_outcome f parts.*1 = Ret bs →
  collect (gmap_ (pure f) g) s = (Ret bs, s').
Proof.
  intros Hg Hm. rewrite collect_steps, steps_map, Hg. cbn [fst snd]. clear g s Hg.
  assert (∃ out, map_steps f parts (Ret tt, s') = (out, (Ret tt, s')) ∧ out.*1 = bs)
    as (out & -> & <-); [|done].
  revert bs Hm. induction parts as [|[a s1] l IH]; intros bs Hm.
  - simpl in Hm. injection Hm as <-. by exists [].
  - rewrite fmap_cons in Hm. cbn [mapM_outcome fst] in Hm. cbn [map_steps]. destruct (f a) as [b|e|]; try done. simpl in Hm.
    destruct (mapM_outcome f l.*1) as [bs'|e|]; try done. injection Hm as <-.
    destruct (IH bs' eq_refl) as (out & -> & <-). by eexists.
Qed.

(** ** What a stream can yield *)

(** Every element the stream yields satisfies [P], from whatever states it and
    its continuations are pulled in. *)
Fixpoint yields {A} (P : A → Prop) (g : gen A) : Prop :=
  match g with
  | Gen pull => ∀ s, match pull s with
                     | GYield _ a k => P a ∧ yields P k
                     | _ => True
                     end
  end.

Lemma yields_steps {A} (P : A → Prop) (g : gen A) s :
  yields P g → Forall (λ x, P x.1) (steps g s).1.
Proof.
  revert s. induction g as [pull IH] using gen_induction. intros s H. simpl in *.
  specialize (H s). destruct (pull s) as [s1 a k| | |] eqn:Ep; try done. destruct H as [Ha Hk].
  specialize (IH _ _ _ _ Ep s1 Hk). destruct (steps k s1). by constructor.
Qed.

Lemma yields_weaken {A} (P Q : A → Prop) (g : gen A) :
  (∀ a, P a → Q a) → yields P g → yields Q g.
Proof.
  intros HPQ. induction g as [pull IH] using gen_induction. simpl. intros H s.
  specialize (H s). destruct (pull s) as [s1 a k| | |] eqn:Ep; try done.
  destruct H. split; [auto|]. by eapply IH.
Qed.

Lemma yields_array {A} (P : A → Prop) l : Forall P l → yields P (array l).
Proof. induction 1; simpl; auto. Qed.

Lemma yields_promises {A} (P : A → Prop) (l : list (outcome E A)) :
  (∀ a, Ret a ∈ l → P a) → yields P (promises l).
Proof.
  induction l as [|[a|e|] l IH]; simpl; try done. intros H s. split; [apply H; by constructor|].
  apply IH. intros b Hb. apply H. by constructor.
Qed.

Lemma yields_map {A B} (P : B → Prop) (f : A → outcome E B) (g : gen A) :
  (∀ a b, f a = Ret b → P b) → yields P (gmap_ (pure f) g).
Proof.
  intros H. induction g as [pull IH] using gen_induction. simpl. intros s.
  destruct (pull s) as [s1 a k| | |] eqn:Ep; try done. unfold pure, lift_outcome.
  destruct (f a) as [b|e|] eqn:Ef; try done. split; [eauto|]. by eapply IH.
Qed.

Lemma yields_gthen {A} (P : A → Prop) (g rest : gen A) :
  yields P g → yields P rest → yields P (gthen g rest).
Proof.
  intros Hg Hr. induction g as [pull IH] using gen_induction. simpl in *. intros s.
  specialize (Hg s). destruct (pull s) as [s1 a k|s1| |] eqn:Ep; try done.
  - destruct Hg. split; [done|]. by eapply IH.
  - destruct rest as [pullr]. simpl in *. apply Hr.
Qed.

Lemma yields_flatMap {A B} (Q : A → Prop) (P : B → Prop) (f : A → proc S E (gen B)) (g : gen A) :
  yields Q g → (∀ a s h s', Q a → f a s = (Ret h, s') → yields P h) → yields P (flatMap f g).
Proof.
  intros Hg H. induction g as [pull IH] using gen_induction. simpl in *. intros s.
  specialize (Hg s). destruct (pull s) as [s1 a k|s1|s1 e|s1] eqn:Ep; try done.
  destruct Hg as [Ha Hk]. destruct (f a s1) as [[h|e|] s2] eqn:Ef; try done.
  assert (yields P (gthen h (flatMap f k))) as Hy.
  { apply yields_gthen; [by eapply H|]. by eapply IH. }
  destruct (gthen h (flatMap f k)) as [pull']. apply Hy.
Qed.
End gen.

Arguments gen : clear implicits.
