(* ===== verification/Dispatcher.v ===== *)
(** * Request batching

    Models [stream/RequestTransmitter.ts]: the batch dispatcher of one
    transaction stream and the transmitter that owns the dispatchers of a
    server. The duplex gRPC stream is library code; the model records what the
    dispatcher does to it ([written], [ended]). [setTimeout] callbacks are
    entries of [timers], and an event of the run fires the oldest. *)
From S2P Require Import Prelude Proto RequestBuilder.

(** ** [BatchDispatcher] *)

Definition BATCH_WINDOW_SMALL_MILLIS : nat := 1.
Definition BATCH_WINDOW_LARGE_MILLIS : nat := 3.

Record BatchDispatcher : Type := mkDispatcher {
  bufferedRequests : list pval;
  isRunning : bool;
  timers : list nat;
  written : list pval;
  ended : bool;
}.

(** [new BatchDispatcher(transmitter, stream)] on a fresh stream *)
Definition new_dispatcher : BatchDispatcher := mkDispatcher [] false [] [] false.

Definition setSchedule (first : bool) (d : BatchDispatcher) : BatchDispatcher :=
  let wait := if first then BATCH_WINDOW_SMALL_MILLIS else BATCH_WINDOW_LARGE_MILLIS in
  mkDispatcher (bufferedRequests d) (isRunning d) (timers d ++ [wait]) (written d) (ended d).

Definition sendNow (d : BatchDispatcher) : BatchDispatcher :=
  let clientRequest := Transaction_clientReq (bufferedRequests d) in
  mkDispatcher [] (isRunning d) (timers d) (written d ++ [clientRequest]) (ended d).

Definition sendScheduledBatch (d : BatchDispatcher) : BatchDispatcher :=
  if isRunning d then d
  else setSchedule true
         (mkDispatcher (bufferedRequests d) true (timers d) (written d) (ended d)).

Definition push_request (req : pval) (d : BatchDispatcher) : BatchDispatcher :=
  mkDispatcher (bufferedRequests d ++ [req]) (isRunning d) (timers d) (written d) (ended d).

Definition dispatch (req : pval) (d : BatchDispatcher) : BatchDispatcher :=
  sendScheduledBatch (push_request req d).

Definition dispatchNow (req : pval) (d : BatchDispatcher) : BatchDispatcher :=
  sendNow (push_request req d).

(** The callback that [setSchedule] passes to [setTimeout]; the fired timer is
    gone. *)
Definition timer_fires (d : BatchDispatcher) : BatchDispatcher :=
  match timers d with
  | [] => d
  | _ :: ts =>
      let d := mkDispatcher (bufferedRequests d) (isRunning d) ts (written d) (ended d) in
      match bufferedRequests d with
      | _ :: _ => setSchedule false (sendNow d)
      | [] => mkDispatcher [] false (timers d) (written d) (ended d)
      end
  end.

(** [this._transactionStream.end()]; leaving the transmitter's set is the
    transmitter's part below. *)
Definition end_stream (d : BatchDispatcher) : BatchDispatcher :=
  mkDispatcher (bufferedRequests d) (isRunning d) (timers d) (written d) true.

(** ** [RequestTransmitter] *)

(** Dispatcher objects live in a heap; the transmitter's set holds references
    to them in insertion order. *)
Record RequestTransmitter : Type := mkTransmitter {
  dispatchers : list nat;
  tr_isOpen : bool;
  heap : list BatchDispatcher;
}.

Definition new_transmitter : RequestTransmitter := mkTransmitter [] true [].

(** [dispatcher.close()] on the object [r]. *)
Definition dispatcher_close (r : nat) (t : RequestTransmitter) : RequestTransmitter :=
  mkTransmitter (List.filter (λ r', negb (bool_decide (r' = r))) (dispatchers t)) (tr_isOpen t)
    (alter end_stream r (heap t)).

(** [this._dispatchers.forEach(d => d.close())] visits each member once even
    though closing removes it from the set. *)
Definition transmitter_close (t : RequestTransmitter) : RequestTransmitter :=
  if tr_isOpen t then
    foldl (λ t r, dispatcher_close r t)
      (mkTransmitter (dispatchers t) false (heap t)) (dispatchers t)
  else t.

(** [transmitter.dispatcher(stream)]: returns the new object. *)
Definition transmitter_dispatcher (t : RequestTransmitter) : nat * RequestTransmitter :=
  let r := length (heap t) in
  (r, mkTransmitter (dispatchers t ++ [r]) (tr_isOpen t) (heap t ++ [new_dispatcher])).

(** ** Runs of a dispatcher *)

Inductive disp_event : Type :=
  | EvDispatch (req : pval)
  | EvDispatchNow (req : pval)
  | EvTimer
  | EvEnd.

Definition disp_step (d : BatchDispatcher) (ev : disp_event) : BatchDispatcher :=
  match ev with
  | EvDispatch req => dispatch req d
  | EvDispatchNow req => dispatchNow req d
  | EvTimer => timer_fires d
  | EvEnd => end_stream d
  end.

Definition run_dispatcher (evs : list disp_event) : BatchDispatcher :=
  foldl disp_step new_dispatcher evs.

(** The requests handed to the dispatcher, in order. *)
Definition requested (evs : list disp_event) : list pval :=
  omap (λ ev, match ev with
              | EvDispatch req | EvDispatchNow req => Some req
              | _ => None
              end) evs.

(** The requests inside a [TransactionClient] message. *)
Definition batch_of (m : pval) : list pval :=
  match get_field m "reqs"%string with
  | Some (PArr reqs) => reqs
  | _ => []
  end.

Definition sent (d : BatchDispatcher) : list pval := concat (batch_of <$> written d).

(** ** Invariant *)

(** A timer is pending exactly while the schedule runs, there is never more
    than one, and it waits at most the large window; requests only wait in the
    buffer while the schedule runs; no empty batch is written. *)
Record disp_inv (d : BatchDispatcher) : Prop := {
  inv_timer : if isRunning d then ∃ w, timers d = [w] ∧ w <= BATCH_WINDOW_LARGE_MILLIS
              else timers d = [];
  inv_buffer : isRunning d = false → bufferedRequests d = [];
  inv_batches : Forall (λ m, batch_of m ≠ []) (written d);
}.

Lemma batch_of_clientReq reqs : batch_of (Transaction_clientReq reqs) = reqs.
Proof. reflexivity. Qed.
#[export] Hint Rewrite batch_of_clientReq : drv.

Lemma disp_inv_new : disp_inv new_dispatcher.
Proof. split; simpl; auto. Qed.

Lemma disp_inv_sendNow d :
  bufferedRequests d ≠ [] →
  (if isRunning d then ∃ w, timers d = [w] ∧ w <= BATCH_WINDOW_LARGE_MILLIS
   else timers d = []) →
  Forall (λ m, batch_of m ≠ []) (written d) → disp_inv (sendNow d).
Proof.
  intros Hb Ht Hw. split; simpl; auto. apply Forall_app; split; [done|].
  by constructor.
Qed.

Lemma disp_inv_step d ev : disp_inv d → disp_inv (disp_step d ev).
Proof.
  intros [Ht Hb Hw]. destruct ev as [req|req| |]; simpl.
  - unfold dispatch, sendScheduledBatch, push_request; simpl.
    destruct (isRunning d) eqn:Er; split; simpl; rewrite ?Er; auto; [done| |done].
    rewrite Ht. exists BATCH_WINDOW_SMALL_MILLIS. split; [done|].
    unfold BATCH_WINDOW_SMALL_MILLIS, BATCH_WINDOW_LARGE_MILLIS. lia.
  - apply disp_inv_sendNow; simpl; auto. by destruct (bufferedRequests d).
  - unfold timer_fires. destruct (timers d) as [|w ts] eqn:Et; [split; rewrite ?Et; auto|].
    destruct (isRunning d) eqn:Er; [|done]. destruct Ht as (w' & [= -> ->] & _).
    simpl. destruct (bufferedRequests d) as [|r rs] eqn:Eb; split; simpl; auto.
    + by exists BATCH_WINDOW_LARGE_MILLIS.
    + apply Forall_app; split; [done|]. by constructor.
  - split; simpl; auto.
Qed.

Lemma disp_inv_run evs : disp_inv (run_dispatcher evs).
Proof.
  apply (foldl_invariant disp_step disp_inv); [apply disp_inv_step | apply disp_inv_new].
Qed.
#[export] Hint Resolve disp_inv_new disp_inv_step disp_inv_run : drv.

(** Everything handed over is either written or still buffered, in order. *)
Lemma sent_step d ev :
  sent (disp_step d ev) ++ bufferedRequests (disp_step d ev) =
    (sent d ++ bufferedRequests d) ++ requested [ev].
Proof.
  unfold sent. destruct ev as [req|req| |]; simpl; rewrite ?app_nil_r; auto.
  - unfold dispatch, sendScheduledBatch, push_request; simpl.
    destruct (isRunning d); simpl; by rewrite <- app_assoc.
  - rewrite fmap_app, concat_app. simpl. by rewrite !app_nil_r, <- app_assoc.
  - unfold timer_fires. destruct (timers d); [done|]. simpl.
    destruct (bufferedRequests d) eqn:Eb; simpl; [done|].
    rewrite fmap_app, concat_app. simpl. by rewrite !app_nil_r.
Qed.

Lemma requested_app evs1 evs2 : requested (evs1 ++ evs2) = requested evs1 ++ requested evs2.
Proof. apply omap_app. Qed.

Lemma sent_run evs d :
  sent (foldl disp_step d evs) ++ bufferedRequests (foldl disp_step d evs) =
    (sent d ++ bufferedRequests d) ++ requested evs.
Proof.
  revert d. induction evs as [|ev evs IH]; intros d; simpl; [by rewrite app_nil_r|].
  rewrite IH, sent_step, <- app_assoc. f_equal.
  change (ev :: evs) with ([ev] ++ evs). by rewrite <- requested_app.
Qed.

(** C21 - no request is lost, duplicated or reordered by batching: in every run
    of dispatches, timer firings and closing, the requests inside the written
    batches followed by the buffer are exactly the requests handed over, and
    no batch is empty. *)
Theorem dispatcher_conserves (evs : list disp_event) :
  concat (batch_of <$> written (run_dispatcher evs)) ++ bufferedRequests (run_dispatcher evs)
    = requested evs ∧
  Forall (λ m, batch_of m ≠ []) (written (run_dispatcher evs)).
Proof.
  split; [|apply inv_batches, disp_inv_run]. apply (sent_run evs new_dispatcher).
Qed.

Lemma timer_fires_empties d w ts :
  timers d = w :: ts → bufferedRequests (timer_fires d) = [].
Proof. intros E. unfold timer_fires. rewrite E. simpl. by destruct (bufferedRequests d). Qed.

(** C39 - a batched request waits for at most one timer: after a dispatch in
    any reachable state a single timer is pending, its delay is at most the
    large window, and when it fires every request handed over so far has been
    written. An unbatched dispatch writes them all at once. *)
Theorem dispatch_flushed (evs : list disp_event) (req : pval) :
  let d := dispatch req (run_dispatcher evs) in
  (∃ w, timers d = [w] ∧ w <= BATCH_WINDOW_LARGE_MILLIS) ∧
  sent (timer_fires d) = requested evs ++ [req] ∧
  sent (dispatchNow req (run_dispatcher evs)) = requested evs ++ [req].
Proof.
  cbv zeta. pose proof (disp_inv_run evs) as Hinv.
  pose proof (sent_run (evs ++ [EvDispatch req; EvTimer]) new_dispatcher) as H1.
  pose proof (sent_run (evs ++ [EvDispatchNow req]) new_dispatcher) as H2.
  rewrite foldl_app, requested_app in H1, H2. fold (run_dispatcher evs) in H1, H2.
  pose proof (disp_inv_step _ (EvDispatch req) Hinv) as [Ht _ _]. simpl in Ht, H1, H2.
  assert (isRunning (dispatch req (run_dispatcher evs)) = true) as Hr.
  { unfold dispatch, sendScheduledBatch, push_request; simpl.
    by destruct (isRunning (run_dispatcher evs)) eqn:Er. }
  rewrite Hr in Ht. destruct Ht as (w & Ht & Hw).
  assert (bufferedRequests (timer_fires (dispatch req (run_dispatcher evs))) = []) as Hb
    by by eapply timer_fires_empties.
  rewrite Hb, app_nil_r in H1. rewrite app_nil_r in H2.
  split_and!; [by exists w | exact H1 | exact H2].
Qed.

(** The schedule comes to rest: when nothing more is dispatched, two
    timer firings leave a dispatcher that has written everything, with no
    timer pending and ready to be scheduled again. *)
Theorem dispatcher_quiesces (evs : list disp_event) :
  let d := run_dispatcher (evs ++ [EvTimer; EvTimer]) in
  timers d = [] ∧ isRunning d = false ∧ sent d = requested evs.
Proof.
  cbv zeta. pose proof (sent_run (evs ++ [EvTimer; EvTimer]) new_dispatcher) as H.
  rewrite requested_app in H. unfold run_dispatcher in *. rewrite foldl_app in *.
  pose proof (disp_inv_run evs) as [Ht Hb _]. unfold run_dispatcher in *.
  simpl in *. rewrite app_nil_r in H. revert H.
  destruct (foldl disp_step new_dispatcher evs) as [buf run ts wr en]; simpl in *.
  destruct run; [destruct Ht as (w & -> & _) | subst ts; rewrite Hb by done];
    unfold timer_fires; simpl; [destruct buf; simpl|]; rewrite ?app_nil_r; auto.
Qed.

(** ** The transmitter *)

Lemma dispatcher_close_heap r t r' :
  heap (dispatcher_close r t) !! r' =
    (if bool_decide (r' = r) then end_stream else id) <$> heap t !! r'.
Proof.
  simpl. rewrite list_lookup_alter. case_bool_decide as H; [subst|].
  - by rewrite decide_True.
  - rewrite decide_False by done. by destruct (heap t !! r').
Qed.

Lemma close_all_spec l t :
  let t' := foldl (λ t r, dispatcher_close r t) t l in
  dispatchers t' = List.filter (λ r, negb (bool_decide (r ∈ l))) (dispatchers t) ∧
  tr_isOpen t' = tr_isOpen t ∧
  ∀ r, heap t' !! r = (if bool_decide (r ∈ l) then end_stream else id) <$> heap t !! r.
Proof.
  cbv zeta. revert t. induction l as [|r l IH]; intros t; simpl.
  - split_and!; [|done|]; [|by intros r; destruct (heap t !! r)].
    symmetry. induction (dispatchers t) as [|x xs IHx]; simpl; [done|]. by rewrite IHx.
  - destruct (IH (dispatcher_close r t)) as (H1 & H2 & H3). split_and!; [|done|].
    + rewrite H1. simpl. clear. induction (dispatchers t) as [|x xs IHx]; simpl; [done|].
      destruct (decide (x = r)) as [->|Hne].
      * rewrite (bool_decide_eq_true_2 (r = r)) by done. simpl.
        by rewrite (bool_decide_eq_true_2 (r ∈ r :: l)) by by left.
      * rewrite (bool_decide_eq_false_2 (x = r)) by done. simpl. rewrite IHx.
        by rewrite (bool_decide_ext (x ∈ l) (x ∈ r :: l)) by (rewrite elem_of_cons; tauto).
    + intros r'. rewrite H3, dispatcher_close_heap, <- option_fmap_compose.
      destruct (decide (r' = r)) as [->|Hne].
      * rewrite (bool_decide_eq_true_2 (r = r)) by done.
        rewrite (bool_decide_eq_true_2 (r ∈ r :: l)) by by left. by case_bool_decide; destruct (heap t !! r).
      * rewrite (bool_decide_eq_false_2 (r' = r)) by done.
        rewrite (bool_decide_ext (r' ∈ l) (r' ∈ r :: l)) by (rewrite elem_of_cons; tauto).
        by destruct (heap t !! r').
Qed.

(** Closing the transmitter closes every open stream and only those:
    its set is emptied, each dispatcher that was in it has ended its stream,
    and the others are untouched. *)
Theorem transmitter_close_ends_all (t : RequestTransmitter) (Hopen : tr_isOpen t = true) :
  let t' := transmitter_close t in
  dispatchers t' = [] ∧ tr_isOpen t' = false ∧
  ∀ r, heap t' !! r =
         (if bool_decide (r ∈ dispatchers t) then end_stream else id) <$> heap t !! r.
Proof.
  cbv zeta. unfold transmitter_close. rewrite Hopen.
  destruct (close_all_spec (dispatchers t) (mkTransmitter (dispatchers t) false (heap t)))
    as (H1 & H2 & H3). simpl in *. split_and!; [|done|done].
  rewrite H1. apply filter_none. intros r Hr. by rewrite bool_decide_eq_true_2.
Qed.

(** A request that waits for its batch when the stream is ended is not lost but
    late: it is written when the timer fires, after the end of the stream. *)
Lemma written_after_end req d (Hidle : isRunning d = false) (Htimers : timers d = [])
    (Hempty : bufferedRequests d = []) :
  let closed := end_stream (dispatch req d) in
  written closed = written d ∧ ended closed = true ∧
  written (timer_fires closed) = written d ++ [Transaction_clientReq [req]].
Proof.
  unfold dispatch, sendScheduledBatch, end_stream, push_request, timer_fires. cbn.
  rewrite Hidle. cbn. by rewrite Htimers, Hempty.
Qed.

Lemma transmitter_close_ends_all_witness :
  let t := (transmitter_dispatcher (transmitter_dispatcher new_transmitter).2).2 in
  dispatchers t = [0; 1] ∧ dispatchers (transmitter_close t) = [] ∧
  ended <$> heap (transmitter_close t) = [true; true].
Proof.
  pose proof (transmitter_close_ends_all
    (transmitter_dispatcher (transmitter_dispatcher new_transmitter).2).2 eq_refl) as H.
  split; [reflexivity|]. split; [apply H | reflexivity].
Defined.
