(* ===== verification/Collector.v ===== *)
(** * Response queues

    Models [stream/ResponseCollector.ts]: the queue of responses to one request
    and the collector that maps request ids to queues. Queue objects live in a
    heap, so that the promise returned by a [take] and the entry of the
    collector's table name the same queue. *)
From S2P Require Import Prelude Errors BlockingQueue.

(** ** Why a stream was closed *)

(** [error?: Error | string] *)
Inductive close_error : Type :=
  | CloseString (s : string)
  | CloseWith (e : exn).

#[export] Instance close_error_eq_dec : EqDecision close_error.
Proof. solve_decision. Defined.

Definition close_error_arg (e : close_error) : error_arg :=
  match e with
  | CloseString s => ArgString s
  | CloseWith e => ArgError e
  end.

(** [`${error}`] *)
Definition close_error_string (e : close_error) : string :=
  match e with
  | CloseString s => s
  | CloseWith e => exn_to_string e
  end.

Section collector.
Context {T : Type}.

(** ** [ResponseQueue] *)

(** [QueueElement] and its two subclasses. *)
Inductive QueueElement : Type :=
  | BaseElement
  | Value (value : T)
  | Done (error : option close_error).

Definition isValue (el : QueueElement) : bool :=
  match el with Value _ => true | _ => false end.
Definition isDone (el : QueueElement) : bool :=
  match el with Done _ => true | _ => false end.

(** [throw new TypeDBDriverError(...)] of a [Done] element. *)
Definition closed_exn (error : option close_error) : exn :=
  match error with
  | Some e => TypeDBDriverError (close_error_arg e)
  | None => TypeDBDriverError (ArgTemplate TRANSACTION_CLOSED)
  end.

(** [ResponseQueue.take] once the element it awaits has come. *)
Definition take_element (el : QueueElement) : outcome exn T :=
  match el with
  | Value v => Ret v
  | Done error => Throw (closed_exn error)
  | BaseElement => Throw (TypeDBDriverError (ArgTemplate ILLEGAL_STATE))
  end.

Definition response_queue : Type := bqueue QueueElement.

Definition put (element : T) (q : response_queue) : response_queue :=
  add (Value element) q.

Definition queue_close (error : option close_error) (q : response_queue) : response_queue :=
  add (Done error) q.

(** ** [ResponseCollector] *)

Record ResponseCollector : Type := mkCollector {
  response_queues : gmap string nat;
  queue_heap : list response_queue;
}.

Definition new_collector : ResponseCollector := mkCollector ∅ [].

(** [collector.queue(uuid)]: returns the new queue object. *)
Definition collector_queue (uuid : string) (c : ResponseCollector) : nat * ResponseCollector :=
  let r := length (queue_heap c) in
  (r, mkCollector (<[uuid := r]> (response_queues c)) (queue_heap c ++ [new_queue])).

Definition collector_get (uuid : string) (c : ResponseCollector) : option nat :=
  response_queues c !! uuid.

Definition collector_remove (requestId : string) (c : ResponseCollector) : ResponseCollector :=
  mkCollector (delete requestId (response_queues c)) (queue_heap c).

Definition at_queue (r : nat) (f : response_queue → response_queue) (c : ResponseCollector)
    : ResponseCollector :=
  mkCollector (response_queues c) (alter f r (queue_heap c)).

(** [Object.values(this._response_queues).forEach(collector => collector.close(error))] *)
Definition collector_close (error : option close_error) (c : ResponseCollector)
    : ResponseCollector :=
  foldl (λ c r, at_queue r (queue_close error) c) c (map_to_list (response_queues c)).*2.

(** [queue.take()] on the object [r]: the promise it waits for. *)
Definition queue_take (r : nat) (c : ResponseCollector) : option nat * ResponseCollector :=
  match queue_heap c !! r with
  | Some q => let '(p, q') := take q in
              (p, mkCollector (response_queues c) (<[r := q']> (queue_heap c)))
  | None => (None, c)
  end.

(** What awaiting promise [p] of queue [r] comes to: pending while nothing
    was delivered to it. *)
Definition response_of (c : ResponseCollector) (r p : nat) : outcome exn T :=
  match queue_heap c !! r ≫= λ q, awaited q p with
  | Some el => take_element el
  | None => Pending
  end.

Lemma queue_take_table r c : response_queues (queue_take r c).2 = response_queues c.
Proof. unfold queue_take. destruct (queue_heap c !! r) as [q|]; [|done]. by destruct (take q). Qed.

(** ** Well-formed collectors *)

(** Every id has a queue object of its own, and every queue object stands
    for an abstract queue. *)
Record coll_inv (c : ResponseCollector) : Prop := {
  coll_refs : ∀ id r, response_queues c !! id = Some r → r < length (queue_heap c);
  coll_own : ∀ id1 id2 r, response_queues c !! id1 = Some r →
                          response_queues c !! id2 = Some r → id1 = id2;
  coll_repr : ∀ r q, queue_heap c !! r = Some q → ∃ s, q = repr s;
}.

Lemma coll_inv_new : coll_inv new_collector.
Proof. split; intros; simpl in *; set_solver. Qed.

Lemma coll_inv_queue id c : coll_inv c → coll_inv (collector_queue id c).2.
Proof.
  intros [H1 H2 H3]. split; simpl.
  - intros id' r. rewrite length_app; simpl. intros [[<- <-]|[? H]]%lookup_insert_Some; [lia|].
    specialize (H1 _ _ H). lia.
  - intros id1 id2 r Hr1 Hr2. rewrite lookup_insert_Some in Hr1, Hr2.
    destruct Hr1 as [[<- <-]|[? Hr1]], Hr2 as [[<- Hr]|[? Hr2]]; try done.
    + specialize (H1 _ _ Hr2). lia.
    + subst r. specialize (H1 _ _ Hr1). lia.
    + by eapply H2.
  - intros r q [Hq|[_ Hq]]%lookup_app_Some; [by eapply H3|].
    apply list_lookup_singleton_Some in Hq as [_ <-]. by exists (SQueue [] 0).
Qed.

Lemma coll_inv_at r el c : coll_inv c → coll_inv (at_queue r (add el) c).
Proof.
  intros [H1 H2 H3]. split; simpl; [|done|].
  - intros id r' Hr. rewrite length_alter. by eapply H1.
  - intros r' q Hq. rewrite list_lookup_alter in Hq. case_decide; [|by eapply H3].
    apply fmap_Some in Hq as (q0 & Hq & ->). destruct (H3 _ _ Hq) as [s ->].
    rewrite add_refines. eauto.
Qed.

Lemma coll_inv_take r c : coll_inv c → coll_inv (queue_take r c).2.
Proof.
  intros [H1 H2 H3]. unfold queue_take. destruct (queue_heap c !! r) as [q|] eqn:Eq; [|done].
  destruct (H3 _ _ Eq) as [s ->]. rewrite take_refines. split; simpl; [|done|].
  - intros id r' Hr. rewrite length_insert. by eapply H1.
  - intros r' q [(<-&<-&_)|[_ Hq]]%list_lookup_insert_Some; [eauto|by eapply H3].
Qed.

(** Closing adds one [Done] to each queue of the table, and to no other. *)
Lemma foldl_at_queue f l c :
  NoDup l →
  response_queues (foldl (λ c r, at_queue r f c) c l) = response_queues c ∧
  ∀ r, queue_heap (foldl (λ c r, at_queue r f c) c l) !! r =
       (if bool_decide (r ∈ l) then f else id) <$> queue_heap c !! r.
Proof.
  intros Hnd. revert c. induction Hnd as [|x l Hx Hnd IH]; intros c; simpl.
  - split; [done|]. intros r. by destruct (queue_heap c !! r).
  - destruct (IH (at_queue x f c)) as [-> Hq]. split; [done|]. intros r.
    rewrite Hq. simpl. rewrite list_lookup_alter. case_decide as Hr; [subst x|].
    + rewrite (bool_decide_eq_false_2 (r ∈ l)), (bool_decide_eq_true_2 (r ∈ r :: l))
        by set_solver.
      by destruct (queue_heap c !! r).
    + by rewrite (bool_decide_ext (r ∈ x :: l) (r ∈ l)) by set_solver.
Qed.

Lemma coll_values_NoDup c : coll_inv c → NoDup (map_to_list (response_queues c)).*2.
Proof.
  intros Hinv. apply NoDup_fmap_2_strong; [|apply NoDup_map_to_list].
  intros [id1 r1] [id2 r2] H1%elem_of_map_to_list H2%elem_of_map_to_list; simpl.
  intros ->. f_equal. by eapply coll_own.
Qed.

Lemma collector_close_spec error c :
  coll_inv c →
  response_queues (collector_close error c) = response_queues c ∧
  ∀ id r, response_queues c !! id = Some r →
    queue_heap (collector_close error c) !! r = add (Done error) <$> queue_heap c !! r.
Proof.
  intros Hinv. destruct (foldl_at_queue (queue_close error) _ c (coll_values_NoDup c Hinv))
    as [H1 H2]. split; [exact H1|]. intros id r Hr. unfold collector_close. rewrite H2.
  rewrite bool_decide_eq_true_2; [done|]. apply list_elem_of_fmap. exists (id, r).
  by rewrite elem_of_map_to_list.
Qed.

Lemma coll_inv_close error c : coll_inv c → coll_inv (collector_close error c).
Proof.
  unfold collector_close. generalize (map_to_list (response_queues c)).*2. intros l.
  revert c. induction l as [|r l IH]; intros c Hc; simpl; [done|].
  apply IH. by apply coll_inv_at.
Qed.

(** ** The queue of one request *)

(** The queue registered for [id] is object [r] and stands for [s]. *)
Definition holds (c : ResponseCollector) (id : string) (r : nat)
    (s : squeue QueueElement) : Prop :=
  response_queues c !! id = Some r ∧ queue_heap c !! r = Some (repr s).

Lemma holds_new id c : holds (collector_queue id c).2 id (length (queue_heap c)) (SQueue [] 0).
Proof.
  split; simpl; [apply lookup_insert_eq|]. rewrite lookup_app_r by done. by rewrite Nat.sub_diag.
Qed.

Lemma holds_queue c id r s id' :
  id' ≠ id → holds c id r s → holds (collector_queue id' c).2 id r s.
Proof.
  intros Hne [H1 H2]. split; simpl; [by rewrite lookup_insert_ne|].
  by apply lookup_app_l_Some.
Qed.

Lemma holds_add c id r s el :
  holds c id r s → holds (at_queue r (add el) c) id r (SQueue (added s ++ [el]) (taken s)).
Proof.
  intros [H1 H2]. split; simpl; [done|].
  rewrite list_lookup_alter, decide_True by done. apply fmap_Some.
  exists (repr s). by rewrite add_refines.
Qed.

Lemma holds_add_other c id r s r' el :
  r' ≠ r → holds c id r s → holds (at_queue r' (add el) c) id r s.
Proof.
  intros Hne [H1 H2]. split; simpl; [done|]. by rewrite list_lookup_alter, decide_False.
Qed.

(** An element put in the queue [queue] is delivered to whoever holds it. *)
Lemma holds_put c queue id r s el :
  holds c id r s →
  holds (at_queue queue (add el) c) id r
    (SQueue (added s ++ if bool_decide (queue = r) then [el] else []) (taken s)).
Proof.
  intros Hs. case_bool_decide as Hq; [subst; by apply holds_add|].
  rewrite app_nil_r. destruct s. by apply holds_add_other.
Qed.

Lemma holds_close c id r s error :
  coll_inv c → holds c id r s →
  holds (collector_close error c) id r (SQueue (added s ++ [Done error]) (taken s)).
Proof.
  intros Hinv [H1 H2]. destruct (collector_close_spec error c Hinv) as [E1 E2].
  split; [by rewrite E1|]. rewrite (E2 _ _ H1). apply fmap_Some. exists (repr s).
  by rewrite add_refines.
Qed.

Lemma holds_take c id r s :
  holds c id r s →
  (queue_take r c).1 = Some (taken s) ∧
  holds (queue_take r c).2 id r (SQueue (added s) (S (taken s))).
Proof.
  intros [H1 H2]. unfold queue_take, holds. rewrite H2, take_refines. simpl.
  split; [done|]. split; [done|]. apply list_lookup_insert_eq. by eapply lookup_lt_Some.
Qed.

Lemma holds_take_other c id r s r' :
  r' ≠ r → holds c id r s → holds (queue_take r' c).2 id r s.
Proof.
  intros Hne [H1 H2]. unfold queue_take, holds. destruct (queue_heap c !! r'); [|done].
  destruct (take _). simpl. by rewrite list_lookup_insert_ne.
Qed.

Lemma holds_response c id r s p :
  holds c id r s → response_of c r p = from_option take_element Pending (added s !! p).
Proof.
  intros [_ H2]. unfold response_of. rewrite H2. simpl. rewrite awaited_repr.
  by destruct (added s !! p).
Qed.

(** A queue determines the abstract queue it stands for. *)
Lemma repr_inj (s s' : squeue QueueElement) : repr s = repr s' → s = s'.
Proof.
  intros H. destruct s as [l n], s' as [l' n']. f_equal.
  - apply list_eq. intros p. pose proof (awaited_repr (SQueue l n) p) as H1.
    pose proof (awaited_repr (SQueue l' n') p) as H2. rewrite H in H1. simpl in *. congruence.
  - pose proof (take_refines (SQueue l n)) as H1. pose proof (take_refines (SQueue l' n')) as H2.
    rewrite H in H1. simpl in *. congruence.
Qed.

Lemma holds_unique c id r s s' : holds c id r s → holds c id r s' → s = s'.
Proof.
  intros [_ H1] [_ H2]. rewrite H1 in H2. apply (inj Some) in H2. by apply repr_inj.
Qed.
End collector.

Arguments QueueElement : clear implicits.
Arguments ResponseCollector : clear implicits.
#[export] Hint Resolve coll_inv_new coll_inv_queue coll_inv_at coll_inv_take coll_inv_close : drv.
