(* ===== verification/BiStream.v ===== *)
(** * The transaction stream

    Models [stream/BidirectionalStream.ts] and [stream/ResponsePartIterator.ts].
    The state holds the two response collectors, the transmitter that owns the
    dispatcher, and the part iterators handed out by [stream]. A promise is
    named by its queue and its number. [uuid] is library code: an interface
    gives its three functions, and its laws are stated apart. Server messages
    are generated code; the model keeps what the stream reads of them. *)
From S2P Require Import Prelude Errors Bytes Proto RequestBuilder BlockingQueue Dispatcher Collector.

(** ** The [uuid] package *)

Class Uuid : Type := {
  (** the n-th id drawn *)
  uuid_v4 : nat → string;
  uuid_parse : string → list byte;
  (** throws on bytes that are no uuid *)
  uuid_stringify : list byte → outcome exn string;
}.

(** Ids are not drawn twice, and their binary form names them. *)
Class UuidLaws (U : Uuid) : Prop := {
  uuid_v4_fresh : ∀ m n, uuid_v4 m = uuid_v4 n → m = n;
  uuid_stringify_parse : ∀ n, uuid_stringify (uuid_parse (uuid_v4 n)) = Ret (uuid_v4 n);
}.

(** ** Messages from the server *)

Inductive TransactionStreamState : Type := SDONE | SCONTINUE | SOTHER (n : N).

#[export] Instance TransactionStreamState_eq_dec : EqDecision TransactionStreamState.
Proof. solve_decision. Defined.

Record TransactionRes (B : Type) : Type := mkRes {
  res_req_id : list byte;
  res_body : B;
}.
Arguments mkRes {B} _ _.
Arguments res_req_id {B} _.
Arguments res_body {B} _.

(** [part_state] is [Some] when [has_stream_res_part]. *)
Record TransactionResPart (B : Type) : Type := mkPart {
  part_req_id : list byte;
  part_state : option TransactionStreamState;
  part_body : B;
}.
Arguments mkPart {B} _ _ _.
Arguments part_req_id {B} _.
Arguments part_state {B} _.
Arguments part_body {B} _.

(** A message that holds neither is [ServerOther]; its printed form is kept. *)
Inductive TransactionServer (R P : Type) : Type :=
  | ServerRes (res : TransactionRes R)
  | ServerResPart (res_part : TransactionResPart P)
  | ServerOther (printed : string).
Arguments ServerRes {R P} _.
Arguments ServerResPart {R P} _.
Arguments ServerOther {R P} _.

(** [`${bytes}`] of a [Uint8Array] *)
Definition uint8_to_string (bs : list byte) : string :=
  String.concat "," ((λ b, pretty (Byte.to_N b)) <$> bs).

Section stream.
Context {U : Uuid} {R P : Type}.
(** The printed form of a stream state message. *)
Context (show_state : TransactionStreamState → string).

(** ** State *)

(** An iterator is at a [yield] or not started, awaits the promise of its
    [take], or has finished. *)
Inductive it_status : Type :=
  | ItIdle
  | ItAwaiting (p : nat)
  | ItFinished (o : outcome exn unit).

Record ResponsePartIterator : Type := mkIterator {
  it_requestId : string;
  it_queue : nat;
  it_dispatcher : option nat;
  it_status_of : it_status;
  it_yielded : list (TransactionResPart P);
}.

(** A callback of [onClose]: the outcome of its promise. *)
Definition callback : Type := option close_error → outcome exn unit.

Record BidirectionalStream : Type := mkStream {
  responseCollector : ResponseCollector (TransactionRes R);
  responsePartCollector : ResponseCollector (TransactionResPart P);
  dispatcher : option nat;
  isOpen : bool;
  getError : option close_error;
  onClose_list : list callback;
  (** the callbacks called so far, with their argument *)
  called : list (nat * option close_error);
  (** ids drawn so far *)
  drawn : nat;
  requestTransmitter : RequestTransmitter;
  iterators : list ResponsePartIterator;
}.

(** [new BidirectionalStream(stub, requestTransmitter)] *)
Definition new_stream (t : RequestTransmitter) : BidirectionalStream :=
  mkStream new_collector new_collector None false None [] [] 0 t [].

Definition set_responses c (st : BidirectionalStream) : BidirectionalStream :=
  mkStream c (responsePartCollector st) (dispatcher st) (isOpen st) (getError st)
    (onClose_list st) (called st) (drawn st) (requestTransmitter st) (iterators st).
Definition set_parts c (st : BidirectionalStream) : BidirectionalStream :=
  mkStream (responseCollector st) c (dispatcher st) (isOpen st) (getError st)
    (onClose_list st) (called st) (drawn st) (requestTransmitter st) (iterators st).
Definition set_transmitter t (st : BidirectionalStream) : BidirectionalStream :=
  mkStream (responseCollector st) (responsePartCollector st) (dispatcher st) (isOpen st)
    (getError st) (onClose_list st) (called st) (drawn st) t (iterators st).
Definition set_iterators l (st : BidirectionalStream) : BidirectionalStream :=
  mkStream (responseCollector st) (responsePartCollector st) (dispatcher st) (isOpen st)
    (getError st) (onClose_list st) (called st) (drawn st) (requestTransmitter st) l.
Definition set_closed e (st : BidirectionalStream) : BidirectionalStream :=
  mkStream (responseCollector st) (responsePartCollector st) (dispatcher st) false e
    (onClose_list st) (called st) (drawn st) (requestTransmitter st) (iterators st).

Local Abbreviation sproc := (proc BidirectionalStream exn).

(** [uuid.v4()] *)
Definition draw_id : sproc string := λ st,
  (Ret (uuid_v4 (drawn st)),
   mkStream (responseCollector st) (responsePartCollector st) (dispatcher st) (isOpen st)
     (getError st) (onClose_list st) (called st) (S (drawn st)) (requestTransmitter st)
     (iterators st)).

(** A method call on a dispatcher reference that may be undefined. *)
Definition on_dispatcher (d : option nat) (f : BatchDispatcher → BatchDispatcher)
    (st : BidirectionalStream) : outcome exn unit * BidirectionalStream :=
  match d with
  | Some r =>
      let t := requestTransmitter st in
      (Ret tt, set_transmitter
                 (mkTransmitter (dispatchers t) (tr_isOpen t) (alter f r (heap t))) st)
  | None => (Throw (type_error "dispatch"), st)
  end.

Definition assign_id (request : pval) (requestId : string) : pval :=
  set_field request "req_id" (PBytes (uuid_parse requestId)).

(** ** Operations *)

(** [open()]: what [stub.transaction()] comes to is given. *)
Definition attach_dispatcher : sproc unit := λ st,
  let '(r, t) := transmitter_dispatcher (requestTransmitter st) in
  (Ret tt, mkStream (responseCollector st) (responsePartCollector st) (Some r) true
             (getError st) (onClose_list st) (called st) (drawn st) t (iterators st)).

Definition stream_open (connection : outcome exn unit) : sproc unit :=
  lift_outcome connection ≫= λ _, attach_dispatcher.

(** [this._dispatcher.f(...)] *)
Definition call_dispatcher (f : BatchDispatcher → BatchDispatcher) : sproc unit :=
  λ st, on_dispatcher (dispatcher st) f st.

(** [this._responseCollector.queue(requestId)] *)
Definition queue_response (requestId : string) : sproc nat := λ st,
  let '(r, c) := collector_queue requestId (responseCollector st) in
  (Ret r, set_responses c st).

(** [responseQueue.take()], up to its [await]: the promise. *)
Definition take_response (r : nat) : sproc (nat * nat) := λ st,
  match queue_take r (responseCollector st) with
  | (Some p, c) => (Ret (r, p), set_responses c st)
  | (None, _) => (Throw (type_error "take"), st)
  end.

(** [single(request, batch)] up to its [await]: returns the promise. *)
Definition single (request : pval) (batch : bool) : sproc (nat * nat) :=
  draw_id ≫= λ requestId,
  queue_response requestId ≫= λ responseQueue,
  (if batch then call_dispatcher (dispatch (assign_id request requestId))
   else call_dispatcher (dispatchNow (assign_id request requestId))) ≫= λ _,
  take_response responseQueue.

(** [this._responsePartCollector.queue(requestId)] *)
Definition queue_part (requestId : string) : sproc nat := λ st,
  let '(r, c) := collector_queue requestId (responsePartCollector st) in
  (Ret r, set_parts c st).

(** [new ResponsePartIterator(requestId, responseQueue, this._dispatcher)] *)
Definition new_iterator (requestId : string) (responseQueue : nat) : sproc nat := λ st,
  (Ret (length (iterators st)),
   set_iterators (iterators st ++
     [mkIterator requestId responseQueue (dispatcher st) ItIdle []]) st).

(** [stream(request)]: returns the iterator. *)
Definition stream (request : pval) : sproc nat :=
  draw_id ≫= λ requestId,
  queue_part requestId ≫= λ responseQueue,
  new_iterator requestId responseQueue ≫= λ responseIterator,
  call_dispatcher (dispatch (assign_id request requestId)) ≫= λ _,
  mret responseIterator.

(** [callback(error)] *)
Definition invoke (i : nat) (cb : callback) (error : option close_error) : sproc unit :=
  λ st, (cb error,
         mkStream (responseCollector st) (responsePartCollector st) (dispatcher st)
           (isOpen st) (getError st) (onClose_list st) (called st ++ [(i, error)])
           (drawn st) (requestTransmitter st) (iterators st)).

(** [for (const callback of this._onClose) await callback(error)] *)
Fixpoint call_back (i : nat) (cbs : list callback) (error : option close_error)
    : sproc unit :=
  match cbs with
  | [] => mret tt
  | cb :: cbs' => invoke i cb error ≫= λ _, call_back (S i) cbs' error
  end.

Definition close_collectors (error : option close_error) (st : BidirectionalStream)
    : BidirectionalStream :=
  set_parts (collector_close error (responsePartCollector st))
    (set_responses (collector_close error (responseCollector st)) st).

(** [this._dispatcher.close()] *)
Definition close_dispatcher : sproc unit := λ st,
  match dispatcher st with
  | Some r => (Ret tt, set_transmitter (dispatcher_close r (requestTransmitter st)) st)
  | None => (Throw (type_error "close"), st)
  end.

Definition stream_close (error : option close_error) : sproc unit :=
  modify (λ st, close_collectors error (set_closed error st)) ≫= λ _,
  close_dispatcher ≫= λ _,
  gets onClose_list ≫= λ cbs,
  call_back 0 cbs error.

Definition onClose (cb : callback) (st : BidirectionalStream) : BidirectionalStream :=
  mkStream (responseCollector st) (responsePartCollector st) (dispatcher st) (isOpen st)
    (getError st) (onClose_list st ++ [cb]) (called st) (drawn st) (requestTransmitter st)
    (iterators st).

Definition collectRes (res : TransactionRes R) : sproc unit := λ st,
  let requestId := res_req_id res in
  match uuid_stringify requestId with
  | Ret id =>
      match collector_get id (responseCollector st) with
      | None => (Throw (driver_error UNKNOWN_REQUEST_ID [uint8_to_string requestId]), st)
      | Some queue =>
          (Ret tt, set_responses (at_queue queue (put res) (responseCollector st)) st)
      end
  | Throw e => (Throw e, st)
  | Pending => (Pending, st)
  end.

Definition collectResPart (res : TransactionResPart P) : sproc unit := λ st,
  let requestId := part_req_id res in
  match uuid_stringify requestId with
  | Ret id =>
      match collector_get id (responsePartCollector st) with
      | None => (Throw (driver_error UNKNOWN_REQUEST_ID [uint8_to_string requestId]), st)
      | Some queue =>
          (Ret tt, set_parts (at_queue queue (put res) (responsePartCollector st)) st)
      end
  | Throw e => (Throw e, st)
  | Pending => (Pending, st)
  end.

(** The listeners of [registerObserver]. *)
Definition on_data (res : TransactionServer R P) : sproc unit := λ st,
  if negb (isOpen st) then (Ret tt, st)
  else match res with
       | ServerRes r => collectRes r st
       | ServerResPart r => collectResPart r st
       | ServerOther printed => (Throw (driver_error MISSING_RESPONSE [printed]), st)
       end.

Definition on_error (err : exn) : sproc unit := stream_close (Some (CloseWith err)).
Definition on_done : sproc unit := stream_close None.

(** ** [ResponsePartIterator] *)

Definition set_status (s : it_status) (it : ResponsePartIterator) : ResponsePartIterator :=
  mkIterator (it_requestId it) (it_queue it) (it_dispatcher it) s (it_yielded it).

Definition yield_part (res : TransactionResPart P) (it : ResponsePartIterator)
    : ResponsePartIterator :=
  mkIterator (it_requestId it) (it_queue it) (it_dispatcher it) ItIdle (it_yielded it ++ [res]).

Definition at_iterator (i : nat) (f : ResponsePartIterator → ResponsePartIterator)
    (st : BidirectionalStream) : BidirectionalStream :=
  set_iterators (alter f i (iterators st)) st.

(** [next()] up to its [await]. *)
Definition next_begin (i : nat) (it : ResponsePartIterator) (st : BidirectionalStream)
    : BidirectionalStream :=
  match queue_take (it_queue it) (responsePartCollector st) with
  | (Some p, c) => at_iterator i (set_status (ItAwaiting p)) (set_parts c st)
  | (None, _) => at_iterator i (set_status (ItFinished (Throw (type_error "take")))) st
  end.

(** [next()] from its [await] on, up to the [yield], the end of the generator
    or the next [await]. *)
Definition next_resume (i : nat) (it : ResponsePartIterator)
    (res : outcome exn (TransactionResPart P)) (st : BidirectionalStream)
    : BidirectionalStream :=
  match res with
  | Pending => st
  | Throw e => at_iterator i (set_status (ItFinished (Throw e))) st
  | Ret res =>
      match part_state res with
      | Some SDONE => at_iterator i (set_status (ItFinished (Ret tt))) st
      | Some SCONTINUE =>
          match on_dispatcher (it_dispatcher it)
                  (dispatch (Transaction_streamReq uuid_parse (it_requestId it))) st with
          | (Ret _, st') => next_begin i it st'
          | (Throw e, st') => at_iterator i (set_status (ItFinished (Throw e))) st'
          | (Pending, st') => st'
          end
      | Some s =>
          at_iterator i (set_status (ItFinished
            (Throw (driver_error UNKNOWN_STREAM_STATE [show_state s])))) st
      | None => at_iterator i (yield_part res) st
      end
  end.

(** The consumer asks iterator [i] for its next element. *)
Definition pull (i : nat) (st : BidirectionalStream) : BidirectionalStream :=
  match iterators st !! i with
  | Some it =>
      match it_status_of it with
      | ItIdle => next_begin i it st
      | _ => st
      end
  | None => st
  end.

(** The event loop resumes iterator [i] if the promise it awaits is settled. *)
Definition resume (i : nat) (st : BidirectionalStream) : BidirectionalStream :=
  match iterators st !! i with
  | Some it =>
      match it_status_of it with
      | ItAwaiting p =>
          next_resume i it (response_of (responsePartCollector st) (it_queue it) p) st
      | _ => st
      end
  | None => st
  end.

(** ** Runs *)

Inductive stream_event : Type :=
  | SSingle (request : pval) (batch : bool)
  | SStream (request : pval)
  | SOnClose (cb : callback)
  | SClose (error : option close_error)
  | SData (res : TransactionServer R P)
  | SError (err : exn)
  | SDone
  | SPull (i : nat)
  | SResume (i : nat)
  | STimer (r : nat).

(** An event's effect; what a caller or the event emitter gets of an
    exception is not part of the stream's state. *)
Definition stream_step (st : BidirectionalStream) (ev : stream_event) : BidirectionalStream :=
  match ev with
  | SSingle request batch => (single request batch st).2
  | SStream request => (stream request st).2
  | SOnClose cb => onClose cb st
  | SClose error => (stream_close error st).2
  | SData res => (on_data res st).2
  | SError err => (on_error err st).2
  | SDone => (on_done st).2
  | SPull i => pull i st
  | SResume i => resume i st
  | STimer r => (on_dispatcher (Some r) timer_fires st).2
  end.

Definition run_stream : BidirectionalStream → list stream_event → BidirectionalStream :=
  foldl stream_step.

(** A stream just opened. *)
Definition opened (t : RequestTransmitter) : BidirectionalStream :=
  (stream_open (Ret tt) (new_stream t)).2.
End stream.

Arguments ResponsePartIterator : clear implicits.
Arguments BidirectionalStream : clear implicits.
Arguments stream_event : clear implicits.
