(* ===== verification/BiStreamSpec.v ===== *)
(** * The transaction stream: routing, closing and draining

    Theorems on the model of [BiStream.v]. The specification of the stream is
    the sequence of elements that the events of a run deliver to one request:
    the responses that carry its id while the stream is open, and the end that
    closing brings. The theorems show that, whatever other requests, pulls,
    timers and callbacks are interleaved, a unary request is settled by the
    first element delivered to it, and a part iterator yields the parts of its
    own request up to the end of its stream. *)
From S2P Require Import Prelude Errors Bytes Proto RequestBuilder BlockingQueue Dispatcher Collector BiStream.

Section spec.
Context {U : Uuid} {UL : UuidLaws U} {R P : Type}.
Context (show_state : TransactionStreamState → string).
Local Abbreviation BidirectionalStream := (BidirectionalStream R P).
Local Abbreviation ResponsePartIterator := (ResponsePartIterator P).
Local Abbreviation stream_event := (stream_event R P).
Local Abbreviation stream_step := (stream_step show_state).
Local Abbreviation run_stream := (run_stream show_state).
Local Abbreviation resume := (resume show_state).
Local Abbreviation next_resume := (next_resume show_state).
Implicit Types st : BidirectionalStream.

(** ** What is delivered to a request *)

Definition close_of (ev : stream_event) : option (option close_error) :=
  match ev with
  | SClose error => Some error
  | SError err => Some (Some (CloseWith err))
  | SDone => Some None
  | _ => None
  end.

(** The queue element an event delivers to the unary request [id], given
    whether the stream is open. *)
Definition delivered_res (id : string) (opn : bool) (ev : stream_event)
    : list (QueueElement (TransactionRes R)) :=
  match ev with
  | SData (ServerRes res) =>
      if opn && bool_decide (uuid_stringify (res_req_id res) = Ret id) then [Value res] else []
  | _ => from_option (λ error, [Done error]) [] (close_of ev)
  end.

Definition delivered_part (id : string) (opn : bool) (ev : stream_event)
    : list (QueueElement (TransactionResPart P)) :=
  match ev with
  | SData (ServerResPart res) =>
      if opn && bool_decide (uuid_stringify (part_req_id res) = Ret id) then [Value res] else []
  | _ => from_option (λ error, [Done error]) [] (close_of ev)
  end.

(** Closing ends the delivery of data. *)
Definition still_open (opn : bool) (ev : stream_event) : bool :=
  opn && bool_decide (close_of ev = None).

Fixpoint deliveries {A} (delivered : bool → stream_event → list A) (opn : bool)
    (evs : list stream_event) : list A :=
  match evs with
  | [] => []
  | ev :: evs' => delivered opn ev ++ deliveries delivered (still_open opn ev) evs'
  end.

(** ** The stream's shape after each operation *)

Lemma call_back_frame cbs i error st :
  let st' := (call_back i cbs error st).2 in
  responseCollector st' = responseCollector st ∧
  responsePartCollector st' = responsePartCollector st ∧
  dispatcher st' = dispatcher st ∧ isOpen st' = isOpen st ∧ drawn st' = drawn st ∧
  requestTransmitter st' = requestTransmitter st ∧ iterators st' = iterators st.
Proof.
  cbv zeta. revert i st. induction cbs as [|cb cbs IH]; intros i st; simpl; [auto 10|].
  unfold mbind, proc_mbind, invoke. destruct (cb error); simpl; [|auto 10..].
  match goal with |- context [call_back _ _ _ ?x] => destruct (IH (S i) x) as (?&?&?&?&?&?&?) end.
  simpl in *. auto 10.
Qed.

Lemma stream_close_frame error st :
  let st' := (stream_close error st).2 in
  responseCollector st' = collector_close error (responseCollector st) ∧
  responsePartCollector st' = collector_close error (responsePartCollector st) ∧
  dispatcher st' = dispatcher st ∧ isOpen st' = false ∧ drawn st' = drawn st ∧
  iterators st' = iterators st ∧
  requestTransmitter st' =
    match dispatcher st with
    | Some r => dispatcher_close r (requestTransmitter st)
    | None => requestTransmitter st
    end.
Proof.
  cbv zeta. unfold stream_close, close_dispatcher, modify, gets, mbind, proc_mbind; simpl.
  destruct (dispatcher st) as [d|] eqn:Hd; simpl; [|by split_and!].
  match goal with |- context [call_back ?i ?c ?e ?x] =>
    destruct (call_back_frame c i e x) as (?&?&?&?&?&?&?) end.
  simpl in *. split_and!; congruence.
Qed.

Lemma single_run request batch st d :
  dispatcher st = Some d →
  ∃ p c, queue_take (length (queue_heap (responseCollector st)))
           (collector_queue (uuid_v4 (drawn st)) (responseCollector st)).2 = (Some p, c) ∧
  let st' := (single request batch st).2 in
  (single request batch st).1 = Ret (length (queue_heap (responseCollector st)), p) ∧
  responseCollector st' = c ∧ responsePartCollector st' = responsePartCollector st ∧
  dispatcher st' = Some d ∧ isOpen st' = isOpen st ∧ drawn st' = S (drawn st) ∧
  iterators st' = iterators st.
Proof.
  intros Hd. destruct (holds_take _ _ _ _ (holds_new (uuid_v4 (drawn st)) (responseCollector st)))
    as [Hp _].
  destruct (queue_take _ _) as [[p|] c] eqn:Et; [|done]. exists p, c. split; [done|].
  unfold single, draw_id, queue_response, call_dispatcher, take_response, mbind, proc_mbind.
  simpl in *. destruct batch; simpl; rewrite Hd; simpl; rewrite Et; simpl; auto 10.
Qed.

Lemma stream_run request st d :
  dispatcher st = Some d →
  let st' := (stream request st).2 in
  (stream request st).1 = Ret (length (iterators st)) ∧
  responseCollector st' = responseCollector st ∧
  responsePartCollector st' =
    (collector_queue (uuid_v4 (drawn st)) (responsePartCollector st)).2 ∧
  dispatcher st' = Some d ∧ isOpen st' = isOpen st ∧ drawn st' = S (drawn st) ∧
  iterators st' = iterators st ++
    [mkIterator (uuid_v4 (drawn st)) (length (queue_heap (responsePartCollector st)))
       (Some d) ItIdle []].
Proof.
  intros Hd. unfold stream, draw_id, queue_part, new_iterator, call_dispatcher, mbind,
    proc_mbind; simpl. rewrite Hd. simpl. auto 10.
Qed.

(** ** What an iterator makes of the elements it takes *)

(** The parts yielded, and how the generator ended if it did. *)
Fixpoint consume (els : list (QueueElement (TransactionResPart P)))
    : list (TransactionResPart P) * option (outcome exn unit) :=
  match els with
  | [] => ([], None)
  | el :: els' =>
      match take_element el with
      | Ret res =>
          match part_state res with
          | Some SDONE => ([], Some (Ret tt))
          | Some SCONTINUE => consume els'
          | Some s => ([], Some (Throw (driver_error UNKNOWN_STREAM_STATE [show_state s])))
          | None => (res :: (consume els').1, (consume els').2)
          end
      | Throw e => ([], Some (Throw e))
      | Pending => ([], Some Pending)
      end
  end.

Lemma consume_app l1 l2 :
  consume (l1 ++ l2) =
    match (consume l1).2 with
    | Some _ => consume l1
    | None => ((consume l1).1 ++ (consume l2).1, (consume l2).2)
    end.
Proof.
  induction l1 as [|el l1 IH]; simpl; [by destruct (consume l2)|].
  destruct (take_element el) as [res| |]; try done.
  destruct (part_state res) as [[]|]; try done.
  rewrite IH. by destruct (consume l1) as [y [o|]].
Qed.

(** Where an iterator stands when its queue is [s]: it has consumed the
    elements taken, but for the one it awaits. *)
Definition it_matches (it : ResponsePartIterator) (s : squeue (QueueElement (TransactionResPart P)))
    : Prop :=
  match it_status_of it with
  | ItIdle => taken s ≤ length (added s) ∧
      consume (List.firstn (taken s) (added s)) = (it_yielded it, None)
  | ItAwaiting p => taken s = S p ∧ p ≤ length (added s) ∧
      consume (List.firstn p (added s)) = (it_yielded it, None)
  | ItFinished o => consume (added s) = (it_yielded it, Some o)
  end.

Lemma it_matches_deliver it s l :
  it_matches it s → it_matches it (SQueue (added s ++ l) (taken s)).
Proof.
  unfold it_matches; simpl. rewrite length_app.
  destruct (it_status_of it) as [|p|o].
  - intros [Hle Hc]. split; [lia|]. by rewrite take_app_le.
  - intros (Ht & Hle & Hc). split_and!; [done|lia|]. by rewrite take_app_le.
  - intros Hc. rewrite consume_app, Hc. done.
Qed.

(** ** Invariant *)

Record stream_inv (st : BidirectionalStream) : Prop := {
  inv_responses : coll_inv (responseCollector st);
  inv_parts : coll_inv (responsePartCollector st);
  inv_response_ids : ∀ id r, response_queues (responseCollector st) !! id = Some r →
    ∃ n, n < drawn st ∧ id = uuid_v4 n;
  inv_part_ids : ∀ id r, response_queues (responsePartCollector st) !! id = Some r →
    ∃ n, n < drawn st ∧ id = uuid_v4 n;
  inv_dispatcher : dispatcher st ≠ None;
  inv_iterators : ∀ i it, iterators st !! i = Some it →
    it_dispatcher it = dispatcher st ∧
    ∃ s, holds (responsePartCollector st) (it_requestId it) (it_queue it) s ∧
         it_matches it s;
  inv_distinct : ∀ i j it jt, iterators st !! i = Some it → iterators st !! j = Some jt →
    it_requestId it = it_requestId jt → i = j;
}.

(** Steps that leave the iterators alone and at most deliver to queues. *)
Lemma stream_inv_deliver st st' :
  stream_inv st →
  coll_inv (responseCollector st') → coll_inv (responsePartCollector st') →
  (∀ id r, response_queues (responseCollector st') !! id = Some r →
    ∃ n, n < drawn st' ∧ id = uuid_v4 n) →
  response_queues (responsePartCollector st') = response_queues (responsePartCollector st) →
  dispatcher st' = dispatcher st → drawn st ≤ drawn st' → iterators st' = iterators st →
  (∀ id r s, holds (responsePartCollector st) id r s →
    ∃ l, holds (responsePartCollector st') id r (SQueue (added s ++ l) (taken s))) →
  stream_inv st'.
Proof.
  intros [H1 H2 H3 H4 H5 H6 H7] Hc1 Hc2 Hids Ht Hd Hn Hi Hdel. split; try done.
  - intros id r. rewrite Ht. intros (n & ? & ->)%H4. exists n. split; [lia|done].
  - by rewrite Hd.
  - rewrite Hi, Hd. intros i it Hit. destruct (H6 _ _ Hit) as (? & s & Hs & Hm).
    split; [done|]. destruct (Hdel _ _ _ Hs) as [l Hl]. eexists; split; [exact Hl|].
    by apply it_matches_deliver.
  - by rewrite Hi.
Qed.

(** Steps of one iterator. *)
Lemma stream_inv_iterator st st' i it it' :
  stream_inv st → iterators st !! i = Some it → iterators st' = <[i := it']> (iterators st) →
  it_requestId it' = it_requestId it → it_queue it' = it_queue it →
  it_dispatcher it' = it_dispatcher it →
  responseCollector st' = responseCollector st → dispatcher st' = dispatcher st →
  drawn st' = drawn st →
  coll_inv (responsePartCollector st') →
  response_queues (responsePartCollector st') = response_queues (responsePartCollector st) →
  (∀ id r s, r ≠ it_queue it → holds (responsePartCollector st) id r s →
    holds (responsePartCollector st') id r s) →
  (∃ s, holds (responsePartCollector st') (it_requestId it) (it_queue it) s ∧
        it_matches it' s) →
  stream_inv st'.
Proof.
  intros [H1 H2 H3 H4 H5 H6 H7] Hit Hi Hid Hq Hdi Hr Hd Hn Hc Ht Hoth (s & Hs & Hm).
  split; try done; rewrite ?Hr, ?Hd, ?Hn, ?Ht; try done; rewrite Hi.
  - intros j jt [(<- & <- & _)|[Hne Hj]]%list_lookup_insert_Some.
    + rewrite Hid, Hq, Hdi. split; [by destruct (H6 _ _ Hit)|]. eauto.
    + destruct (H6 _ _ Hj) as (Hdj & sj & Hsj & Hmj). split; [done|].
      exists sj. split; [|done]. apply Hoth; [|done]. intros Heq.
      destruct (H6 _ _ Hit) as (_ & si & [Hsi _] & _), Hsj as [Hsj _]. rewrite Heq in Hsj.
      apply Hne. apply (H7 _ _ _ _ Hit Hj). exact (coll_own _ H2 _ _ _ Hsi Hsj).
  - intros j1 j2 jt1 jt2 Hj1 Hj2.
    apply list_lookup_insert_Some in Hj1 as [(<- & <- & _)|[Hne1 Hj1]],
      Hj2 as [(<- & <- & _)|[Hne2 Hj2]]; rewrite ?Hid; try done.
    + intros E. by apply (H7 _ _ _ _ Hit Hj2).
    + intros E. by apply (H7 _ _ _ _ Hj1 Hit).
    + intros E. by apply (H7 _ _ _ _ Hj1 Hj2).
Qed.

Lemma stream_inv_opened t : stream_inv (opened t).
Proof. split; simpl; auto with drv; intros; set_solver. Qed.

Lemma stream_inv_single request batch st :
  stream_inv st → stream_inv (single request batch st).2.
Proof.
  intros Hinv. destruct (dispatcher st) as [d|] eqn:Hd; [|by destruct (inv_dispatcher _ Hinv)].
  destruct (single_run request batch st d Hd) as (p & c & Hc & _ & E1 & E2 & E3 & E4 & E5 & E6).
  apply (stream_inv_deliver st); rewrite ?E1, ?E2; auto using inv_parts with drv; try congruence.
  - replace c with (queue_take (length (queue_heap (responseCollector st)))
           (collector_queue (uuid_v4 (drawn st)) (responseCollector st)).2).2 by (by rewrite Hc).
    auto using inv_responses with drv.
  - intros id r Hr. pose proof (f_equal (response_queues ∘ snd) Hc) as Hsame. simpl in Hsame.
    rewrite queue_take_table in Hsame. rewrite <- Hsame in Hr. simpl in Hr.
    rewrite E5. apply lookup_insert_Some in Hr as [[<- _]|[_ Hr]].
    + exists (drawn st). split; [lia|done].
    + destruct (inv_response_ids _ Hinv _ _ Hr) as (n & ? & ->). exists n. split; [lia|done].
  - rewrite E5. lia.
  - intros id r s Hs. exists []. rewrite app_nil_r. by destruct s.
Qed.

Lemma stream_inv_stream request st : stream_inv st → stream_inv (stream request st).2.
Proof.
  intros [H1 H2 H3 H4 H5 H6 H7]. destruct (dispatcher st) as [d|] eqn:Hd; [|done].
  destruct (stream_run request st d Hd) as (_ & E1 & E2 & E3 & E4 & E5 & E6).
  assert (∀ id r, response_queues (responsePartCollector st) !! id = Some r →
            uuid_v4 (drawn st) ≠ id) as Hfresh.
  { intros id r (n & Hn & ->)%H4 Heq%uuid_v4_fresh. lia. }
  split; rewrite ?E1, ?E2, ?E3, ?E5, ?E6; auto with drv.
  - intros id r (n & ? & ->)%H3. exists n. split; [lia|done].
  - intros id r; simpl.
    intros [[<- _]|[_ Hr]]%lookup_insert_Some; [exists (drawn st); split; [lia|done]|].
    destruct (H4 _ _ Hr) as (n & ? & ->). exists n. split; [lia|done].
  - intros i it [Hi|[_ Hi]]%lookup_app_Some.
    + destruct (H6 _ _ Hi) as (? & s & Hs & Hm). split; [congruence|]. exists s.
      split; [|done]. apply holds_queue; [|done]. destruct Hs. by eapply Hfresh.
    + apply list_lookup_singleton_Some in Hi as [_ <-]. split; [done|].
      exists (SQueue [] 0). split; [apply holds_new|]. by split.
  - assert (∀ i it, iterators st !! i = Some it → it_requestId it ≠ uuid_v4 (drawn st)) as Hold.
    { intros i it Hi. destruct (H6 _ _ Hi) as (_ & s & [Hs _] & _). apply not_eq_sym.
      by eapply Hfresh. }
    intros i j it jt Hi Hj. rewrite lookup_app_Some in Hi, Hj.
    destruct Hi as [Hi|[Hli Hi]], Hj as [Hj|[Hlj Hj]];
      rewrite ?list_lookup_singleton_Some in Hi; rewrite ?list_lookup_singleton_Some in Hj.
    + by apply (H7 _ _ _ _ Hi Hj).
    + destruct Hj as [_ <-]. simpl. intros E. by destruct (Hold _ _ Hi).
    + destruct Hi as [_ <-]. simpl. intros E. by destruct (Hold _ _ Hj).
    + destruct Hi as [? _], Hj as [? _]. lia.
Qed.

Lemma stream_inv_close error st : stream_inv st → stream_inv (stream_close error st).2.
Proof.
  intros Hinv. destruct (stream_close_frame error st) as (E1 & E2 & E3 & E4 & E5 & E6 & E7).
  apply (stream_inv_deliver st); rewrite ?E1, ?E2, ?E3, ?E5, ?E6;
    auto using inv_responses, inv_parts with drv.
  - intros id r. destruct (collector_close_spec error (responseCollector st)) as [-> _];
      auto using inv_responses. apply (inv_response_ids _ Hinv).
  - apply collector_close_spec, (inv_parts _ Hinv).
  - intros id r s Hs. exists [Done error]. apply holds_close; [apply (inv_parts _ Hinv)|done].
Qed.

Lemma stream_inv_data res st : stream_inv st → stream_inv (on_data res st).2.
Proof.
  intros Hinv. unfold on_data. destruct (isOpen st); [|done]; simpl.
  destruct res as [res|res|msg]; [| |done].
  - unfold collectRes, collector_get. destruct (uuid_stringify _); [|done..].
    destruct (_ !! _) as [queue|]; [|done]; simpl.
    apply (stream_inv_deliver st); simpl; auto using inv_responses, inv_parts with drv.
    + apply coll_inv_at, (inv_responses _ Hinv).
    + apply (inv_response_ids _ Hinv).
    + intros id r s Hs. exists []. rewrite app_nil_r. by destruct s.
  - unfold collectResPart, collector_get. destruct (uuid_stringify _); [|done..].
    destruct (_ !! _) as [queue|]; [|done]; simpl.
    apply (stream_inv_deliver st); simpl; auto using inv_responses, inv_parts with drv.
    + apply coll_inv_at, (inv_parts _ Hinv).
    + apply (inv_response_ids _ Hinv).
    + intros id r s Hs. eexists. by apply holds_put.
Qed.

(** Beginning [next()] moves the iterator to the promise after those taken. *)
Lemma next_begin_spec i it st s :
  iterators st !! i = Some it →
  holds (responsePartCollector st) (it_requestId it) (it_queue it) s →
  let st' := next_begin i it st in
  iterators st' = <[i := set_status (ItAwaiting (taken s)) it]> (iterators st) ∧
  responsePartCollector st' = (queue_take (it_queue it) (responsePartCollector st)).2 ∧
  responseCollector st' = responseCollector st ∧ dispatcher st' = dispatcher st ∧
  drawn st' = drawn st ∧ isOpen st' = isOpen st ∧
  requestTransmitter st' = requestTransmitter st.
Proof.
  intros Hi Hs. destruct (holds_take _ _ _ _ Hs) as [Hp _]. cbv zeta. unfold next_begin.
  destruct (queue_take _ _) as [p c]. simpl in Hp. subst p. simpl.
  split; [|auto 10]. by apply list_alter_at.
Qed.

Lemma stream_inv_next_begin i it st s :
  stream_inv st → iterators st !! i = Some it →
  holds (responsePartCollector st) (it_requestId it) (it_queue it) s →
  taken s ≤ length (added s) →
  consume (List.firstn (taken s) (added s)) = (it_yielded it, None) →
  stream_inv (next_begin i it st).
Proof.
  intros Hinv Hi Hs Hle Hc.
  destruct (next_begin_spec i it st s Hi Hs) as (E1 & E2 & E3 & E4 & E5 & _).
  destruct (holds_take _ _ _ _ Hs) as [_ Ht].
  eapply (stream_inv_iterator st); eauto; rewrite ?E2.
  - apply coll_inv_take, (inv_parts _ Hinv).
  - apply queue_take_table.
  - intros. by apply holds_take_other.
  - eexists. split; [exact Ht|]. by split_and!.
Qed.

Lemma stream_inv_pull i st : stream_inv st → stream_inv (pull i st).
Proof.
  intros Hinv. unfold pull. destruct (iterators st !! i) as [it|] eqn:Hi; [|done].
  destruct (inv_iterators _ Hinv _ _ Hi) as (_ & s & Hs & Hm). unfold it_matches in Hm.
  destruct (it_status_of it); [|done..]. destruct Hm. by eapply stream_inv_next_begin.
Qed.

(** An iterator that ends or yields on its own, without touching a queue. *)
Lemma stream_inv_at_iterator i it f st s :
  stream_inv st → iterators st !! i = Some it →
  it_requestId (f it) = it_requestId it → it_queue (f it) = it_queue it →
  it_dispatcher (f it) = it_dispatcher it →
  holds (responsePartCollector st) (it_requestId it) (it_queue it) s → it_matches (f it) s →
  stream_inv (at_iterator i f st).
Proof.
  intros Hinv Hi Hid Hq Hd Hs Hm.
  apply (stream_inv_iterator st _ i it (f it)); simpl; auto using inv_parts.
  - by apply list_alter_at.
  - eauto.
Qed.

Lemma consume_next l y el :
  consume l = (y, None) → ∀ l',
  consume (l ++ el :: l') = (y ++ (consume (el :: l')).1, (consume (el :: l')).2).
Proof. intros Hl l'. by rewrite consume_app, Hl. Qed.

Lemma on_dispatcher_inv d f st :
  stream_inv st → stream_inv (on_dispatcher d f st).2.
Proof.
  intros Hinv. destruct d as [d|]; [|done]. simpl.
  apply (stream_inv_deliver st); simpl; auto using inv_responses, inv_parts.
  - apply (inv_response_ids _ Hinv).
  - intros id r s Hs. exists []. rewrite app_nil_r. by destruct s.
Qed.

Lemma stream_inv_resume i st : stream_inv st → stream_inv (resume i st).
Proof.
  intros Hinv. unfold resume. destruct (iterators st !! i) as [it|] eqn:Hi; [|done].
  destruct (inv_iterators _ Hinv _ _ Hi) as (Hd & s & Hs & Hm). unfold it_matches in Hm.
  destruct (it_status_of it) as [|p|]; [done| |done]. destruct Hm as (Ht & Hle & Hc).
  rewrite (holds_response _ _ _ _ p Hs).
  destruct (added s !! p) as [el|] eqn:Hel; [|done]; simpl.
  pose proof (take_drop_middle _ _ _ Hel) as Hadd.
  pose proof (consume_next _ _ el Hc) as Hnext.
  assert (length (added s) > p) as Hlen by by eapply lookup_lt_Some.
  pose proof (Hnext (List.skipn (S p) (added s))) as Hall. rewrite Hadd in Hall.
  pose proof (Hnext []) as Hone. rewrite <- (take_S_r _ _ _ Hel) in Hone.
  simpl in Hall, Hone. unfold next_resume.
  destruct (take_element el) as [res|e|] eqn:Hte; [|by eapply stream_inv_at_iterator; eauto;
    unfold it_matches; simpl; rewrite Hall, app_nil_r|by destruct el].
  destruct (part_state res) as [[| |n]|] eqn:Hps; simpl in Hall, Hone.
  - eapply stream_inv_at_iterator; eauto. unfold it_matches; simpl.
    by rewrite Hall, app_nil_r.
  - destruct (it_dispatcher it) as [d|] eqn:Hdi; [|by destruct (inv_dispatcher _ Hinv)].
    pose proof (on_dispatcher_inv (Some d)
      (dispatch (Transaction_streamReq uuid_parse (it_requestId it))) st Hinv) as Hinv'.
    simpl in *. eapply stream_inv_next_begin; eauto; simpl; rewrite ?Ht; [lia|].
    by rewrite Hone, app_nil_r.
  - eapply stream_inv_at_iterator; eauto. unfold it_matches; simpl.
    by rewrite Hall, app_nil_r.
  - eapply stream_inv_at_iterator; eauto. unfold it_matches; simpl.
    rewrite Ht. split; [lia|]. by rewrite Hone.
Qed.

Lemma stream_inv_step st ev : stream_inv st → stream_inv (stream_step st ev).
Proof.
  intros Hinv. destruct ev; simpl; auto using stream_inv_single, stream_inv_stream,
    stream_inv_close, stream_inv_data, stream_inv_pull, stream_inv_resume.
  - apply (stream_inv_deliver st); simpl; auto using inv_responses, inv_parts.
    + apply (inv_response_ids _ Hinv).
    + intros id r s Hs. exists []. rewrite app_nil_r. by destruct s.
  - by apply stream_inv_close.
  - by apply stream_inv_close.
  - by apply (on_dispatcher_inv (Some r)).
Qed.

Lemma stream_inv_run evs st : stream_inv st → stream_inv (run_stream st evs).
Proof. apply foldl_invariant. intros. by apply stream_inv_step. Qed.

(** ** Deliveries *)

Lemma next_begin_frame i it st :
  responseCollector (next_begin i it st) = responseCollector st ∧
  isOpen (next_begin i it st) = isOpen st.
Proof. unfold next_begin. by destruct (queue_take _ _) as [[p|] c]. Qed.

Lemma pull_frame i st :
  responseCollector (pull i st) = responseCollector st ∧ isOpen (pull i st) = isOpen st.
Proof.
  unfold pull. destruct (iterators st !! i) as [it|]; [|done].
  destruct (it_status_of it); [apply next_begin_frame|done..].
Qed.

Lemma resume_frame i st :
  responseCollector (resume i st) = responseCollector st ∧ isOpen (resume i st) = isOpen st.
Proof.
  unfold resume. destruct (iterators st !! i) as [it|]; [|done].
  destruct (it_status_of it) as [|p|]; try done. unfold next_resume.
  destruct (response_of _ _ _) as [res| |]; try done.
  destruct (part_state res) as [[]|]; try done. unfold on_dispatcher.
  destruct (it_dispatcher it); [|done].
  match goal with |- context [next_begin _ _ ?x] => apply (next_begin_frame i it x) end.
Qed.

Lemma step_open st ev :
  stream_inv st → isOpen (stream_step st ev) = still_open (isOpen st) ev.
Proof.
  intros Hinv. destruct (dispatcher st) as [d|] eqn:Hd; [|by destruct (inv_dispatcher _ Hinv)].
  unfold still_open, stream_step, on_error, on_done. destruct ev as [rq b|rq|cb|e|res|e| |i|i|r]; simpl;
    rewrite ?andb_true_r, ?andb_false_r; try done.
  - by destruct (single_run rq b st d Hd) as (? & ? & _ & _ & _ & _ & _ & -> & _).
  - by destruct (stream_run rq st d Hd) as (_ & _ & _ & _ & -> & _).
  - by destruct (stream_close_frame e st) as (_ & _ & _ & -> & _).
  - unfold on_data. destruct (isOpen st) eqn:Ho; [|done]. simpl.
    destruct res; simpl; [| |done]; unfold collectRes, collectResPart;
      destruct (uuid_stringify _); try done; by destruct (collector_get _ _).
  - by destruct (stream_close_frame (Some (CloseWith e)) st) as (_ & _ & _ & -> & _).
  - by destruct (stream_close_frame None st) as (_ & _ & _ & -> & _).
  - by destruct (pull_frame i st) as [_ ->].
  - by destruct (resume_frame i st) as [_ ->].
Qed.

Lemma step_res st ev id r s :
  stream_inv st → holds (responseCollector st) id r s →
  holds (responseCollector (stream_step st ev)) id r
    (SQueue (added s ++ delivered_res id (isOpen st) ev) (taken s)).
Proof.
  intros Hinv Hs. destruct (dispatcher st) as [d|] eqn:Hd; [|by destruct (inv_dispatcher _ Hinv)].
  assert (holds (responseCollector st) id r (SQueue (added s ++ []) (taken s))) as Hs'
    by (rewrite app_nil_r; by destruct s).
  unfold stream_step, on_error, on_done. destruct ev as [rq b|rq|cb|e|res|e| |i|i|r']; simpl; try done.
  - destruct (single_run rq b st d Hd) as (p & c & Hc & _ & -> & _).
    pose proof (f_equal snd Hc) as Hc'. simpl in Hc'. rewrite <- Hc'.
    destruct Hs as [Hs1 Hs2]. apply holds_take_other.
    + intros <-. apply lookup_lt_Some in Hs2. exact (Nat.lt_irrefl _ Hs2).
    + apply holds_queue; [|done]. destruct (inv_response_ids _ Hinv _ _ Hs1) as (n & Hn & ->).
      intros Heq%uuid_v4_fresh. lia.
  - by destruct (stream_run rq st d Hd) as (_ & -> & _).
  - destruct (stream_close_frame e st) as (-> & _). apply holds_close; [|done].
    apply (inv_responses _ Hinv).
  - unfold on_data. destruct (isOpen st); simpl; [|by destruct res].
    destruct res as [res|res|msg]; simpl; [| |done].
    + unfold collectRes, collector_get. destruct (uuid_stringify _) as [id'| |]; simpl.
      * destruct (_ !! id') as [queue|] eqn:Hq; simpl.
        -- pose proof (holds_put _ queue _ _ _ (Value res) Hs) as Hput.
           rewrite (bool_decide_ext (queue = r) (Ret (E := exn) id' = Ret id)) in Hput; [done|].
           destruct Hs as [Hs _]. split; [intros ->; f_equal; by eapply coll_own, Hs;
             [apply (inv_responses _ Hinv)|]|congruence].
        -- rewrite bool_decide_eq_false_2; [done|]. intros [= ->]. destruct Hs. congruence.
      * done.
      * done.
    + unfold collectResPart. destruct (uuid_stringify _); simpl; try done.
      by destruct (collector_get _ _).
  - destruct (stream_close_frame (Some (CloseWith e)) st) as (-> & _).
    apply holds_close; [|done]. apply (inv_responses _ Hinv).
  - destruct (stream_close_frame None st) as (-> & _). apply holds_close; [|done].
    apply (inv_responses _ Hinv).
  - by destruct (pull_frame i st) as [-> _].
  - by destruct (resume_frame i st) as [-> _].
Qed.

Lemma run_res evs st id r s :
  stream_inv st → holds (responseCollector st) id r s →
  holds (responseCollector (run_stream st evs)) id r
    (SQueue (added s ++ deliveries (delivered_res id) (isOpen st) evs) (taken s)).
Proof.
  revert st s. induction evs as [|ev evs IH]; intros st s Hinv Hs; simpl.
  - rewrite app_nil_r. by destruct s.
  - pose proof (IH _ _ (stream_inv_step _ ev Hinv) (step_res _ ev _ _ _ Hinv Hs)) as H.
    simpl in H. by rewrite <- app_assoc, step_open in H.
Qed.

Lemma next_begin_table i it st :
  response_queues (responsePartCollector (next_begin i it st)) =
    response_queues (responsePartCollector st).
Proof.
  unfold next_begin. pose proof (queue_take_table (it_queue it) (responsePartCollector st)) as H.
  by destruct (queue_take _ _) as [[p|] c].
Qed.

Lemma next_begin_part i it st id r s :
  holds (responsePartCollector st) id r s →
  ∃ t, holds (responsePartCollector (next_begin i it st)) id r (SQueue (added s) t).
Proof.
  intros Hs. unfold next_begin. pose proof (holds_take _ _ _ _ Hs) as [_ Hsame].
  destruct (decide (it_queue it = r)) as [Heq|Hne].
  - rewrite Heq. destruct (queue_take r _) as [[p|] c]; simpl in *; [eauto|].
    exists (taken s). by destruct s.
  - pose proof (holds_take_other _ _ _ _ _ Hne Hs) as Hother.
    destruct (queue_take (it_queue it) _) as [[p|] c]; simpl in *;
      exists (taken s); by destruct s.
Qed.

Lemma step_part st ev id r s :
  stream_inv st → holds (responsePartCollector st) id r s →
  ∃ t, holds (responsePartCollector (stream_step st ev)) id r
    (SQueue (added s ++ delivered_part id (isOpen st) ev) t).
Proof.
  intros Hinv Hs. destruct (dispatcher st) as [d|] eqn:Hd; [|by destruct (inv_dispatcher _ Hinv)].
  assert (∃ t, holds (responsePartCollector st) id r (SQueue (added s ++ []) t)) as Hs'
    by (exists (taken s); rewrite app_nil_r; by destruct s).
  assert (∀ e, ∃ t, holds (responsePartCollector (stream_close e st).2) id r
            (SQueue (added s ++ [Done e]) t)) as Hclose.
  { intros e. destruct (stream_close_frame e st) as (_ & -> & _). exists (taken s).
    apply holds_close; [|done]. apply (inv_parts _ Hinv). }
  unfold stream_step, on_error, on_done.
  destruct ev as [rq b|rq|cb|e|res|e| |i|i|r']; simpl; try done.
  - by destruct (single_run rq b st d Hd) as (p & c & _ & _ & _ & -> & _).
  - destruct (stream_run rq st d Hd) as (_ & _ & -> & _). destruct Hs' as [t Hs']. exists t.
    apply holds_queue; [|done]. destruct Hs as [Hs _].
    destruct (inv_part_ids _ Hinv _ _ Hs) as (n & Hn & ->). intros Heq%uuid_v4_fresh. lia.
  - unfold on_data. destruct (isOpen st); simpl; [|by destruct res].
    destruct res as [res|res|msg]; simpl; [| |done].
    + unfold collectRes. destruct (uuid_stringify _); simpl; try done.
      by destruct (collector_get _ _).
    + unfold collectResPart, collector_get. destruct (uuid_stringify _) as [id'| |]; simpl;
        [|done..]. destruct (_ !! id') as [queue|] eqn:Hq; simpl.
      * pose proof (holds_put _ queue _ _ _ (Value res) Hs) as Hput. exists (taken s).
        rewrite (bool_decide_ext (queue = r) (Ret (E := exn) id' = Ret id)) in Hput; [done|].
        destruct Hs as [Hs _]. split; [intros ->; f_equal; by eapply coll_own, Hs;
          [apply (inv_parts _ Hinv)|]|congruence].
      * rewrite bool_decide_eq_false_2; [done|]. intros [= ->]. destruct Hs. congruence.
  - rewrite app_nil_r. unfold pull. destruct (iterators st !! i) as [it|]; [|destruct s; eauto].
    destruct (it_status_of it); [by apply next_begin_part|destruct s; eauto..].
  - rewrite app_nil_r. unfold resume. destruct (iterators st !! i) as [it|]; [|destruct s; eauto].
    destruct (it_status_of it) as [|p|]; [destruct s; eauto| |destruct s; eauto].
    unfold next_resume. destruct (response_of _ _ _) as [res|e|]; [|destruct s; simpl; eauto..].
    destruct (part_state res) as [[]|]; [destruct s; simpl; eauto| |destruct s; simpl; eauto..].
    unfold on_dispatcher. destruct (it_dispatcher it); [|destruct s; simpl; eauto].
    by apply next_begin_part.
Qed.

Lemma run_part evs st id r s :
  stream_inv st → holds (responsePartCollector st) id r s →
  ∃ t, holds (responsePartCollector (run_stream st evs)) id r
    (SQueue (added s ++ deliveries (delivered_part id) (isOpen st) evs) t).
Proof.
  revert st s. induction evs as [|ev evs IH]; intros st s Hinv Hs; simpl.
  - exists (taken s). rewrite app_nil_r. by destruct s.
  - destruct (step_part _ ev _ _ _ Hinv Hs) as [t Ht].
    destruct (IH _ _ (stream_inv_step _ ev Hinv) Ht) as [t' Ht']. exists t'.
    simpl in Ht'. by rewrite <- app_assoc, step_open in Ht'.
Qed.

(** ** Iterators keep their request *)

Definition same_request (it it' : ResponsePartIterator) : Prop :=
  it_requestId it' = it_requestId it ∧ it_queue it' = it_queue it.

(** Every iterator of [l] is in [l'], at its place and for its request. *)
Definition iterators_kept (l l' : list ResponsePartIterator) : Prop :=
  ∀ i it, l !! i = Some it → ∃ it', l' !! i = Some it' ∧ same_request it it'.

Lemma iterators_kept_refl l : iterators_kept l l.
Proof. intros i it Hi. by exists it. Qed.

Lemma iterators_kept_trans l1 l2 l3 :
  iterators_kept l1 l2 → iterators_kept l2 l3 → iterators_kept l1 l3.
Proof.
  intros H12 H23 i it Hi. destruct (H12 _ _ Hi) as (it2 & Hi2 & [E1 E2]).
  destruct (H23 _ _ Hi2) as (it3 & Hi3 & [E3 E4]). exists it3. split; [done|].
  split; congruence.
Qed.

Lemma iterators_kept_alter f i l :
  (∀ it, same_request it (f it)) → iterators_kept l (alter f i l).
Proof.
  intros Hf j it Hj. rewrite list_lookup_alter. case_decide; [subst|by exists it].
  exists (f it). split; [by rewrite Hj|apply Hf].
Qed.

Lemma next_begin_kept i it st : iterators_kept (iterators st) (iterators (next_begin i it st)).
Proof.
  unfold next_begin. destruct (queue_take _ _) as [[p|] c]; by apply iterators_kept_alter.
Qed.

Lemma step_kept st ev :
  stream_inv st → iterators_kept (iterators st) (iterators (stream_step st ev)).
Proof.
  intros Hinv. destruct (dispatcher st) as [d|] eqn:Hd; [|by destruct (inv_dispatcher _ Hinv)].
  pose proof (iterators_kept_refl (iterators st)) as Hrefl.
  unfold BiStream.stream_step, on_error, on_done.
  destruct ev as [rq b|rq|cb|e|res|e| |i|i|r']; simpl; try done.
  - by destruct (single_run rq b st d Hd) as (p & c & _ & _ & _ & _ & _ & _ & _ & ->).
  - destruct (stream_run rq st d Hd) as (_ & _ & _ & _ & _ & _ & ->).
    intros i it Hi. exists it. split; [by apply lookup_app_l_Some|done].
  - by destruct (stream_close_frame e st) as (_ & _ & _ & _ & _ & -> & _).
  - unfold on_data. destruct (isOpen st); [|done]; simpl. destruct res; simpl; [| |done];
      unfold collectRes, collectResPart; destruct (uuid_stringify _); try done;
      by destruct (collector_get _ _).
  - by destruct (stream_close_frame (Some (CloseWith e)) st) as (_ & _ & _ & _ & _ & -> & _).
  - by destruct (stream_close_frame None st) as (_ & _ & _ & _ & _ & -> & _).
  - unfold pull. destruct (iterators st !! i) as [it|]; [|done].
    destruct (it_status_of it); [apply next_begin_kept|done..].
  - unfold BiStream.resume. destruct (iterators st !! i) as [it|]; [|done].
    destruct (it_status_of it) as [|p|]; try done. unfold BiStream.next_resume.
    destruct (response_of _ _ _) as [res|e|]; [|by apply iterators_kept_alter|done].
    destruct (part_state res) as [[]|]; try by apply iterators_kept_alter.
    unfold on_dispatcher. destruct (it_dispatcher it); [|by apply iterators_kept_alter].
    eapply iterators_kept_trans; [|apply next_begin_kept]. done.
Qed.

Lemma run_kept evs st :
  stream_inv st → iterators_kept (iterators st) (iterators (run_stream st evs)).
Proof.
  revert st. induction evs as [|ev evs IH]; intros st Hinv; [apply iterators_kept_refl|].
  eapply iterators_kept_trans; [by apply step_kept|]. simpl.
  by apply IH, stream_inv_step.
Qed.

(** An iterator after a run, with its queue. *)
Lemma iterator_after evs st i it :
  stream_inv st → iterators st !! i = Some it →
  ∀ s, holds (responsePartCollector st) (it_requestId it) (it_queue it) s →
  ∃ it' t, iterators (run_stream st evs) !! i = Some it' ∧ same_request it it' ∧
    it_matches it'
      (SQueue (added s ++ deliveries (delivered_part (it_requestId it)) (isOpen st) evs) t).
Proof.
  intros Hinv Hi s Hs. destruct (run_kept evs st Hinv _ _ Hi) as (it' & Hi' & Hsame).
  destruct (run_part evs _ _ _ _ Hinv Hs) as [t Ht].
  destruct (inv_iterators _ (stream_inv_run evs _ Hinv) _ _ Hi') as (_ & s' & Hs' & Hm).
  pose proof Hsame as [E1 E2]. rewrite E1, E2 in Hs'.
  rewrite (holds_unique _ _ _ _ _ Hs' Ht) in Hm. by exists it', t.
Qed.

(** ** Draining *)

(** The consumer of iterator [i] pulls, and resumes once the promise is
    settled. *)
Definition round (i : nat) : list stream_event := [SPull i; SResume i].

(** Iterator [i], for request [id] on queue [r], has at most [n] of the
    delivered elements [ds] to consume. *)
Definition to_consume (i : nat) (id : string) (r : nat)
    (ds : list (QueueElement (TransactionResPart P))) (n : nat) (started : bool) st : Prop :=
  ∃ it t, iterators st !! i = Some it ∧ it_requestId it = id ∧ it_queue it = r ∧
    holds (responsePartCollector st) id r (SQueue ds t) ∧ it_matches it (SQueue ds t) ∧
    match it_status_of it with
    | ItIdle => started = false ∧ length ds - t ≤ n
    | ItAwaiting p => length ds - p ≤ n
    | ItFinished _ => True
    end.

Lemma matches_now st i it id r ds t :
  stream_inv st → iterators st !! i = Some it → it_requestId it = id → it_queue it = r →
  holds (responsePartCollector st) id r (SQueue ds t) → it_matches it (SQueue ds t).
Proof.
  intros Hinv Hi <- <- Hs. destruct (inv_iterators _ Hinv _ _ Hi) as (_ & s & Hs' & Hm).
  by rewrite (holds_unique _ _ _ _ _ Hs Hs').
Qed.

Lemma pull_progress st i id r ds n :
  stream_inv st → to_consume i id r ds n false st → to_consume i id r ds n true (pull i st).
Proof.
  intros Hinv (it & t & Hi & <- & <- & Hs & Hm & Hst).
  unfold pull. rewrite Hi. pose proof Hm as Hm'. unfold it_matches in Hm'.
  destruct (it_status_of it) as [|p|o] eqn:Eit.
  - destruct (next_begin_spec i it st _ Hi Hs) as (E1 & E2 & _). destruct Hm' as [Hle Hc].
    exists (set_status (ItAwaiting t) it), (S t). rewrite E1, E2. split_and!; try done.
    + apply list_lookup_insert_eq. by eapply lookup_lt_Some.
    + apply (holds_take _ _ _ _ Hs).
    + simpl. lia.
  - exists it, t. by rewrite Eit.
  - exists it, t. by rewrite Eit.
Qed.

(** Resuming with an element at hand consumes it. *)
Lemma resume_cases st i it p ds el :
  stream_inv st → iterators st !! i = Some it → it_status_of it = ItAwaiting p →
  holds (responsePartCollector st) (it_requestId it) (it_queue it) (SQueue ds (S p)) →
  ds !! p = Some el →
  ∃ it' t, iterators (resume i st) !! i = Some it' ∧ same_request it it' ∧
    holds (responsePartCollector (resume i st)) (it_requestId it) (it_queue it) (SQueue ds t) ∧
    match it_status_of it' with
    | ItIdle => t = S p
    | ItAwaiting p' => p' = S p
    | ItFinished _ => True
    end.
Proof.
  intros Hinv Hi Hst Hs Hel. destruct (inv_iterators _ Hinv _ _ Hi) as (Hd & _).
  unfold BiStream.resume. rewrite Hi, Hst, (holds_response _ _ _ _ p Hs). simpl. rewrite Hel.
  unfold BiStream.next_resume; simpl.
  assert (∀ f, same_request it (f it) →
    match it_status_of (f it) with ItIdle | ItFinished _ => True | _ => False end →
    ∃ it' t, iterators (at_iterator i f st) !! i = Some it' ∧ same_request it it' ∧
      holds (responsePartCollector (at_iterator i f st)) (it_requestId it) (it_queue it)
        (SQueue ds t) ∧
      match it_status_of it' with
      | ItIdle => t = S p | ItAwaiting p' => p' = S p | ItFinished _ => True end) as Hat.
  { intros f Hf Hk. exists (f it), (S p). simpl. rewrite list_lookup_alter, decide_True by done.
    rewrite Hi. split_and!; [done|done|done|]. by destruct (it_status_of (f it)). }
  destruct (take_element el) as [res|e|] eqn:Hte; [|by apply Hat|by destruct el].
  destruct (part_state res) as [[| |n]|]; try by apply Hat.
  destruct (it_dispatcher it) as [d|] eqn:Hdi; [|by destruct (inv_dispatcher _ Hinv)].
  cbn [on_dispatcher]. match goal with |- context [next_begin _ _ ?x] => set (st2 := x) end.
  destruct (next_begin_spec i it st2 (SQueue ds (S p)) Hi Hs) as (E1 & E2 & _).
  exists (set_status (ItAwaiting (S p)) it), (S (S p)). rewrite E1, E2.
  split_and!; [|done|apply (holds_take _ _ _ _ Hs)|done].
  apply list_lookup_insert_eq. by eapply lookup_lt_Some.
Qed.

Lemma resume_progress st i id r ds n :
  stream_inv st → to_consume i id r ds n true st →
  to_consume i id r ds (pred n) (bool_decide (n = 0)) (resume i st).
Proof.
  intros Hinv (it & t & Hi & <- & <- & Hs & Hm & Hk). pose proof Hm as Hm'.
  unfold it_matches in Hm'.
  destruct (it_status_of it) as [|p|o] eqn:Eit; [by destruct Hk| |].
  - destruct Hm' as (Ht & Hle & Hc). simpl in Ht, Hle. subst t.
    destruct (ds !! p) as [el|] eqn:Hel.
    + destruct (resume_cases _ _ _ _ _ _ Hinv Hi Eit Hs Hel)
        as (it' & t & Hi' & [E1 E2] & Hs' & Hk').
      exists it', t. split_and!; try done.
      * by eapply matches_now; [apply stream_inv_resume| | | |].
      * apply lookup_lt_Some in Hel.
        destruct (it_status_of it'); [|lia|done]. rewrite bool_decide_eq_false_2 by lia.
        split; [done|lia].
    + unfold BiStream.resume. rewrite Hi, Eit, (holds_response _ _ _ _ p Hs). simpl.
      rewrite Hel. simpl. exists it, (S p). rewrite Eit. split_and!; try done.
      apply lookup_ge_None in Hel. lia.
  - unfold BiStream.resume. rewrite Hi, Eit. exists it, t. by rewrite Eit.
Qed.

Definition rounds (i n : nat) : list stream_event := concat (replicate n (round i)).

Lemma rounds_progress i id r ds n st :
  stream_inv st → to_consume i id r ds n false st →
  to_consume i id r ds 0 true (run_stream st (rounds i (S n))).
Proof.
  revert st. induction n as [|n IH]; intros st Hinv Hc.
  - apply (resume_progress _ _ _ _ _ 0); [by apply stream_inv_pull|].
    by apply pull_progress.
  - change (rounds i (S (S n))) with (round i ++ rounds i (S n)).
    unfold BiStream.run_stream. rewrite foldl_app. apply IH.
    + by apply (stream_inv_run (round i)).
    + apply (resume_progress _ _ _ _ _ (S n)); [by apply stream_inv_pull|].
      by apply pull_progress.
Qed.

(** ** Opened streams *)

(** The iterator that [stream] hands out, for the id it draws. *)
Lemma stream_hands_out request st :
  stream_inv st →
  (stream request st).1 = Ret (length (iterators st)) ∧
  isOpen (stream request st).2 = isOpen st ∧
  ∃ it, iterators (stream request st).2 !! length (iterators st) = Some it ∧
    it_requestId it = uuid_v4 (drawn st) ∧
    holds (responsePartCollector (stream request st).2) (it_requestId it) (it_queue it)
      (SQueue [] 0).
Proof.
  intros Hinv. destruct (dispatcher st) as [d|] eqn:Hd; [|by destruct (inv_dispatcher _ Hinv)].
  destruct (stream_run request st d Hd) as (E0 & _ & E2 & _ & E4 & _ & E6).
  split_and!; [done|done|]. rewrite E6, E2. eexists. split_and!.
  - by rewrite lookup_app_r, Nat.sub_diag.
  - done.
  - apply holds_new.
Qed.

Lemma single_hands_out request batch st :
  stream_inv st →
  ∃ r, (single request batch st).1 = Ret (r, 0) ∧
    isOpen (single request batch st).2 = isOpen st ∧
    holds (responseCollector (single request batch st).2) (uuid_v4 (drawn st)) r (SQueue [] 1).
Proof.
  intros Hinv. destruct (dispatcher st) as [d|] eqn:Hd; [|by destruct (inv_dispatcher _ Hinv)].
  destruct (single_run request batch st d Hd) as (p & c & Hc & E0 & E1 & _ & _ & E4 & _).
  destruct (holds_take _ _ _ _ (holds_new (uuid_v4 (drawn st)) (responseCollector st)))
    as [Hp Ht].
  rewrite Hc in Hp, Ht. simpl in Hp, Ht. injection Hp as ->.
  eexists. split_and!; [exact E0|done|]. by rewrite E1.
Qed.

(** C2 - a unary request is settled by the first element delivered to it:
    after any run of an opened stream, a request issued by [single] and any
    later run, its promise is fulfilled with the first response that carries
    the request's id while the stream is open, is rejected with the closing
    error when the stream is closed before that, and is pending otherwise.
    Responses to other requests, later responses and callbacks never settle
    it. *)
Theorem single_settled_by_first (t : RequestTransmitter) (before : list stream_event)
    (request : pval) (batch : bool) (after : list stream_event) :
  let st := run_stream (opened t) before in
  ∃ r p, (single request batch st).1 = Ret (r, p) ∧
    response_of (responseCollector (run_stream (single request batch st).2 after)) r p =
      from_option take_element Pending
        (head (deliveries (delivered_res (uuid_v4 (drawn st))) (isOpen st) after)).
Proof.
  cbv zeta. pose proof (stream_inv_run before _ (stream_inv_opened t)) as Hinv.
  destruct (single_hands_out request batch _ Hinv) as (r & E1 & E2 & Hs).
  exists r, 0. split; [exact E1|].
  pose proof (run_res after _ _ _ _ (stream_inv_single _ _ _ Hinv) Hs) as Hrun.
  rewrite E2 in Hrun. rewrite (holds_response _ _ _ _ 0 Hrun). simpl.
  by destruct (deliveries _ _ _).
Qed.

Lemma deliveries_closed id opn evs ev error :
  ev ∈ evs → close_of ev = Some error → deliveries (delivered_res id) opn evs ≠ [].
Proof.
  intros Hev Hc. revert opn. induction evs as [|ev' evs IH]; intros opn; [by apply elem_of_nil in Hev|].
  apply elem_of_cons in Hev as [->|Hev]; simpl.
  - unfold delivered_res. destruct ev'; try done; simpl in *; by simplify_eq/=.
  - intros [_ Hd]%app_eq_nil. by apply (IH Hev (still_open opn ev')).
Qed.

(** Closing leaves no caller waiting: once a run after the request
    contains a close, a stream error or the end of the stream, the request's
    promise is settled. *)
Theorem close_settles_requests (t : RequestTransmitter) (before : list stream_event)
    (request : pval) (batch : bool) (after : list stream_event) (ev : stream_event)
    (error : option close_error) (Hev : ev ∈ after) (Hclose : close_of ev = Some error) :
  let st := run_stream (opened t) before in
  ∃ r p, (single request batch st).1 = Ret (r, p) ∧
    response_of (responseCollector (run_stream (single request batch st).2 after)) r p
      ≠ Pending.
Proof.
  cbv zeta. pose proof (stream_inv_run before _ (stream_inv_opened t)) as Hinv.
  destruct (single_hands_out request batch _ Hinv) as (r & E1 & E2 & Hs).
  exists r, 0. split; [exact E1|].
  pose proof (run_res after _ _ _ _ (stream_inv_single _ _ _ Hinv) Hs) as Hrun.
  rewrite (holds_response _ _ _ _ 0 Hrun). simpl.
  pose proof (deliveries_closed (uuid_v4 (drawn (run_stream (opened t) before)))
    (isOpen (single request batch (run_stream (opened t) before)).2) after _ _ Hev Hclose) as Hne.
  destruct (deliveries _ _ _) as [|el l]; [done|]. by destruct el.
Qed.

(** An iterator never yields a wrong part: at every moment of a run,
    what the iterator of a streamed request has yielded is an initial part
    of the answers of its own request, as delivered so far, in order and
    without the stream-state messages. *)
Theorem iterator_yields_prefix (t : RequestTransmitter) (before : list stream_event)
    (request : pval) (after : list stream_event) :
  let st := run_stream (opened t) before in
  ∃ i it, (stream request st).1 = Ret i ∧
    iterators (run_stream (stream request st).2 after) !! i = Some it ∧
    it_yielded it `prefix_of`
      (consume
         (deliveries (delivered_part (uuid_v4 (drawn st))) (isOpen st) after)).1.
Proof.
  cbv zeta. pose proof (stream_inv_run before _ (stream_inv_opened t)) as Hinv.
  destruct (stream_hands_out request _ Hinv) as (E1 & E2 & it0 & Hi & Hid & Hs).
  destruct (iterator_after after _ _ _ (stream_inv_stream request _ Hinv) Hi _ Hs)
    as (it & t' & Hit & _ & Hm).
  eexists _, it. split_and!; [exact E1|exact Hit|]. rewrite E2, Hid in Hm. simpl in Hm.
  revert Hm. generalize (deliveries (delivered_part (uuid_v4 (drawn (run_stream (opened t) before))))
    (isOpen (run_stream (opened t) before)) after). intros ds Hm.
  assert (∀ k, consume (List.firstn k ds) = (it_yielded it, None) →
            it_yielded it `prefix_of` (consume ds).1) as Hpre.
  { intros k Hk. rewrite <- (take_drop k ds), consume_app, Hk. by eexists. }
  unfold it_matches in Hm. simpl in Hm. destruct (it_status_of it); [by eapply Hpre, Hm..|].
  by rewrite Hm.
Qed.

(** C3 - a streamed request is drained: a consumer that keeps pulling its
    iterator gets, within one round per delivered element and one more, all
    the parts delivered to its request up to the end of its stream, and then
    either the end (or error) of the stream, or waits for the next element;
    this holds whatever happened to the stream in between. *)
Theorem stream_drained (t : RequestTransmitter) (before : list stream_event)
    (request : pval) (after : list stream_event) :
  let st := run_stream (opened t) before in
  let ds := deliveries (delivered_part (uuid_v4 (drawn st))) (isOpen st) after in
  ∃ i it, (stream request st).1 = Ret i ∧
    iterators (run_stream (run_stream (stream request st).2 after)
                 (rounds i (S (length ds)))) !! i = Some it ∧
    it_yielded it = (consume ds).1 ∧
    it_status_of it = from_option ItFinished (ItAwaiting (length ds)) (consume ds).2.
Proof.
  cbv zeta. pose proof (stream_inv_run before _ (stream_inv_opened t)) as Hinv.
  destruct (stream_hands_out request _ Hinv) as (E1 & E2 & it0 & Hi & Hid & Hs).
  pose proof (stream_inv_stream request _ Hinv) as Hinv1.
  destruct (run_part after _ _ _ _ Hinv1 Hs) as [t1 Hs1].
  destruct (run_kept after _ Hinv1 _ _ Hi) as (it1 & Hi1 & [Er Eq]).
  pose proof (stream_inv_run after _ Hinv1) as Hinv2.
  rewrite E2, Hid in Hs1. simpl in Hs1. rewrite Hid in Er.
  pose proof (matches_now _ _ _ _ _ _ _ Hinv2 Hi1 Er Eq Hs1) as Hm1.
  edestruct (rounds_progress (length (iterators (run_stream (opened t) before))))
    as (it & t2 & Hit & _ & _ & _ & Hm & Hk); [exact Hinv2| |].
  { exists it1, t1. split_and!; [exact Hi1|exact Er|exact Eq|exact Hs1|exact Hm1|].
    destruct (it_status_of it1); [|apply Nat.le_sub_l|done]. split; [done|apply Nat.le_sub_l]. }
  eexists _, it. split_and!; [exact E1|exact Hit| |];
    unfold it_matches in Hm; simpl in Hm;
    destruct (it_status_of it) as [|p|o]; try by destruct Hk.
  - destruct Hm as (_ & Hle & Hc). rewrite take_ge in Hc by lia. by rewrite Hc.
  - by rewrite Hm.
  - destruct Hm as (_ & Hle & Hc). rewrite take_ge in Hc by lia. rewrite Hc. simpl. f_equal. lia.
  - by rewrite Hm.
Qed.

(** ** What goes on the wire *)

(** The requests handed to the stream's dispatcher, written or buffered. *)
Definition ledger st : list pval :=
  match dispatcher st ≫= λ d, heap (requestTransmitter st) !! d with
  | Some b => sent b ++ bufferedRequests b
  | None => []
  end.

(** A request carries the id of a queue that is waiting for its answers. *)
Definition expected st (request : pval) : Prop :=
  ∃ id, get_field request "req_id" = Some (PBytes (uuid_parse id)) ∧
    (is_Some (collector_get id (responseCollector st)) ∨
     is_Some (collector_get id (responsePartCollector st))).

(** The requests of an event are message objects. *)
Definition sends_message (ev : stream_event) : Prop :=
  match ev with
  | SSingle request _ | SStream request => ∃ cls fields, request = New cls fields
  | _ => True
  end.

Lemma expected_step st ev request :
  stream_inv st → expected st request → expected (stream_step st ev) request.
Proof.
  intros Hinv (id & Hid & [[r Hr]|[r Hr]]); exists id; (split; [done|]).
  - left. exists r.
    pose proof (coll_refs _ (inv_responses _ Hinv) _ _ Hr) as [x Hx]%lookup_lt_is_Some.
    destruct (coll_repr _ (inv_responses _ Hinv) _ _ Hx) as [s ->].
    by apply (step_res st ev id r s Hinv).
  - right. exists r.
    pose proof (coll_refs _ (inv_parts _ Hinv) _ _ Hr) as [x Hx]%lookup_lt_is_Some.
    destruct (coll_repr _ (inv_parts _ Hinv) _ _ Hx) as [s ->].
    by destruct (step_part st ev id r s Hinv) as [t []].
Qed.

(** A dispatcher operation adds its requests to the ledger. *)
Lemma ledger_on_dispatcher st d r ev :
  dispatcher st = Some d → heap (requestTransmitter st) !! d ≠ None →
  ledger (on_dispatcher (Some r) (λ b, disp_step b ev) st).2 =
    ledger st ++ if bool_decide (r = d) then requested [ev] else [].
Proof.
  intros Hd Hb. unfold ledger. simpl. rewrite Hd. simpl. rewrite list_lookup_alter.
  destruct (decide (r = d)) as [->|Hne].
  - rewrite bool_decide_eq_true_2 by done.
    destruct (heap (requestTransmitter st) !! d) as [b|]; [|done]. apply sent_step.
  - rewrite bool_decide_eq_false_2, app_nil_r by done. done.
Qed.

Definition has_dispatcher st : Prop :=
  ∃ d, dispatcher st = Some d ∧ heap (requestTransmitter st) !! d ≠ None.

Lemma ledger_single request batch st :
  has_dispatcher st →
  ledger (single request batch st).2 =
    ledger st ++ [assign_id request (uuid_v4 (drawn st))] ∧
  has_dispatcher (single request batch st).2.
Proof.
  intros (d & Hd & Hb). destruct (single_run request batch st d Hd) as (p & c & Hc & _).
  assert (∃ ev, requested [ev] = [assign_id request (uuid_v4 (drawn st))] ∧
    (λ b, disp_step b ev) = if batch then dispatch (assign_id request (uuid_v4 (drawn st)))
                            else dispatchNow (assign_id request (uuid_v4 (drawn st))))
    as (ev & Hev & Hf) by (destruct batch; [by eexists (EvDispatch _)|by eexists (EvDispatchNow _)]).
  assert (requestTransmitter (single request batch st).2 =
    requestTransmitter (on_dispatcher (Some d) (λ b, disp_step b ev) st).2 ∧
    dispatcher (single request batch st).2 = dispatcher st) as [E1 E2].
  { rewrite Hf. unfold single, draw_id, queue_response, call_dispatcher, take_response, mbind,
      proc_mbind. simpl in *. destruct batch; simpl; rewrite Hd; simpl; by rewrite Hc. }
  pose proof (ledger_on_dispatcher st d d ev Hd Hb) as Hl.
  rewrite bool_decide_eq_true_2, Hev in Hl by done. rewrite <- Hl. unfold ledger, has_dispatcher.
  rewrite E1, E2. split; [done|]. exists d. split; [done|]. simpl.
  rewrite list_lookup_alter, decide_True by done. by destruct (heap _ !! d).
Qed.

Lemma ledger_stream request st :
  has_dispatcher st →
  ledger (stream request st).2 = ledger st ++ [assign_id request (uuid_v4 (drawn st))] ∧
  has_dispatcher (stream request st).2.
Proof.
  intros (d & Hd & Hb).
  assert (requestTransmitter (stream request st).2 =
    requestTransmitter (on_dispatcher (Some d) (λ b, disp_step b
      (EvDispatch (assign_id request (uuid_v4 (drawn st))))) st).2 ∧
    dispatcher (stream request st).2 = dispatcher st) as [E1 E2].
  { unfold stream, draw_id, queue_part, new_iterator, call_dispatcher, mbind, proc_mbind.
    simpl. rewrite Hd. simpl. done. }
  pose proof (ledger_on_dispatcher st d d
    (EvDispatch (assign_id request (uuid_v4 (drawn st)))) Hd Hb) as Hl.
  rewrite bool_decide_eq_true_2 in Hl by done. simpl in Hl. rewrite <- Hl.
  unfold ledger, has_dispatcher. rewrite E1, E2. split; [done|]. exists d. split; [done|].
  simpl. rewrite list_lookup_alter, decide_True by done. by destruct (heap _ !! d).
Qed.

Lemma ledger_close error st :
  has_dispatcher st →
  ledger (stream_close error st).2 = ledger st ∧ has_dispatcher (stream_close error st).2.
Proof.
  intros (d & Hd & Hb).
  destruct (stream_close_frame error st) as (_ & _ & E3 & _ & _ & _ & E7).
  pose proof (ledger_on_dispatcher st d d EvEnd Hd Hb) as Hl.
  rewrite bool_decide_eq_true_2, app_nil_r in Hl by done. rewrite <- Hl.
  unfold ledger, has_dispatcher. rewrite E3, E7. simpl. rewrite !Hd. split; [done|].
  exists d. split; [done|]. simpl. rewrite list_lookup_alter, decide_True by done. by destruct (heap _ !! d).
Qed.

(** A state change that leaves the wire alone. *)
Lemma ledger_frame st st' :
  dispatcher st' = dispatcher st → requestTransmitter st' = requestTransmitter st →
  has_dispatcher st → ledger st' = ledger st ∧ has_dispatcher st'.
Proof. intros E1 E2 H. unfold ledger, has_dispatcher. by rewrite E1, E2. Qed.

Lemma next_begin_wire i it st :
  dispatcher (next_begin i it st) = dispatcher st ∧
  requestTransmitter (next_begin i it st) = requestTransmitter st.
Proof. unfold next_begin. by destruct (queue_take _ _) as [[p|] c]. Qed.

(** An iterator sends nothing but requests to continue its own stream. *)
Lemma ledger_resume i st :
  stream_inv st → has_dispatcher st →
  has_dispatcher (resume i st) ∧
  (ledger (resume i st) = ledger st ∨
   ∃ it, iterators st !! i = Some it ∧
     ledger (resume i st) = ledger st ++ [Transaction_streamReq uuid_parse (it_requestId it)]).
Proof.
  intros Hinv Hdisp. pose proof Hdisp as (d & Hd & Hb). unfold BiStream.resume.
  destruct (iterators st !! i) as [it|] eqn:Hi; [|auto].
  destruct (it_status_of it) as [|p|]; [auto| |auto]. unfold BiStream.next_resume.
  destruct (response_of _ _ _) as [res|e|]; [|auto|auto].
  destruct (part_state res) as [[]|]; [auto| |auto|auto].
  destruct (inv_iterators _ Hinv _ _ Hi) as (-> & _). rewrite Hd. cbn [on_dispatcher].
  match goal with |- context [next_begin _ _ ?x] =>
    destruct (ledger_frame x _ (proj1 (next_begin_wire i it x)) (proj2 (next_begin_wire i it x)))
      as [-> H] end.
  - exists d. split; [done|]. simpl. rewrite list_lookup_alter, decide_True by done.
    by destruct (heap _ !! d).
  - split; [done|]. right. exists it. split; [done|].
    pose proof (ledger_on_dispatcher st d d
      (EvDispatch (Transaction_streamReq uuid_parse (it_requestId it))) Hd Hb) as Hl.
    by rewrite bool_decide_eq_true_2 in Hl.
Qed.

Lemma wire_step st ev :
  stream_inv st → has_dispatcher st → sends_message ev →
  has_dispatcher (stream_step st ev) ∧
  ∃ reqs, ledger (stream_step st ev) = ledger st ++ reqs ∧
          Forall (expected (stream_step st ev)) reqs.
Proof.
  intros Hinv Hdisp Hmsg.
  assert (∀ st', ledger st' = ledger st ∧ has_dispatcher st' → has_dispatcher st' ∧
    ∃ reqs, ledger st' = ledger st ++ reqs ∧ Forall (expected st') reqs) as Hsame.
  { intros st' [E1 E2]. split; [done|]. exists []. by rewrite app_nil_r. }
  unfold BiStream.stream_step, on_error, on_done.
  destruct ev as [rq b|rq|cb|e|res|e| |i|i|r]; simpl in Hmsg |- *;
    try (by apply Hsame, ledger_close).
  - destruct Hmsg as (cls & fields & ->).
    destruct (ledger_single (New cls fields) b st Hdisp) as [E1 E2]. split; [done|].
    eexists. split; [exact E1|]. constructor; [|done]. eexists. split; [apply get_set_field|].
    left. destruct (single_hands_out (New cls fields) b st Hinv) as (r & _ & _ & [Hr _]). by eexists.
  - destruct Hmsg as (cls & fields & ->).
    destruct (ledger_stream (New cls fields) st Hdisp) as [E1 E2]. split; [done|].
    eexists. split; [exact E1|]. constructor; [|done]. eexists. split; [apply get_set_field|].
    right. destruct (stream_hands_out (New cls fields) st Hinv) as (_ & _ & it & _ & Hid & [Hr _]).
    rewrite Hid in Hr. by eexists.
  - by apply Hsame, ledger_frame.
  - apply Hsame. unfold on_data. destruct (isOpen st); [|done]; simpl. destruct res; simpl;
      [| |done]; unfold collectRes, collectResPart; destruct (uuid_stringify _); try done;
      destruct (collector_get _ _); try done; by apply ledger_frame.
  - apply Hsame. unfold pull. destruct (iterators st !! i) as [it|]; [|done].
    destruct (it_status_of it); try done.
    apply ledger_frame; [apply next_begin_wire..|done].
  - destruct (ledger_resume i st Hinv Hdisp) as [H [E|(it & Hi & E)]]; [by apply Hsame|].
    split; [done|]. eexists. split; [exact E|]. constructor; [|done].
    destruct (run_kept [SResume i] st Hinv _ _ Hi) as (it' & Hi' & [Er _]).
    destruct (inv_iterators _ (stream_inv_resume i _ Hinv) _ _ Hi') as (_ & s & [Hr _] & _).
    exists (it_requestId it). split; [done|]. right. rewrite Er in Hr. by eexists.
  - destruct Hdisp as (d & Hd & Hb). pose proof (ledger_on_dispatcher st d r EvTimer Hd Hb) as Hl.
    apply Hsame. split.
    + etransitivity; [exact Hl|]. case_bool_decide; by rewrite app_nil_r.
    + exists d. split; [done|]. simpl. rewrite list_lookup_alter. case_decide; [|done].
      subst. by destruct (heap _ !! d).
Qed.

Lemma wire_run evs st :
  stream_inv st → has_dispatcher st → Forall sends_message evs →
  Forall (expected st) (ledger st) → Forall (expected (run_stream st evs)) (ledger (run_stream st evs)).
Proof.
  revert st. induction evs as [|ev evs IH]; intros st Hinv Hd Hevs Hl; [done|].
  apply Forall_cons in Hevs as [Hev Hevs]. destruct (wire_step st ev Hinv Hd Hev) as (Hd' & reqs & E & Hreqs).
  apply IH; [by apply stream_inv_step|done|done|]. rewrite E. apply Forall_app. split; [|done].
  eapply Forall_impl; [exact Hl|]. intros m. by apply expected_step.
Qed.

Lemma opened_has_dispatcher t : has_dispatcher (opened t) ∧ ledger (opened t) = [].
Proof.
  unfold has_dispatcher, ledger. simpl. rewrite lookup_app_r, Nat.sub_diag by done.
  split; [|done]. exists (length (heap t)). by rewrite lookup_app_r, Nat.sub_diag.
Qed.

(** C33 - no answer to a request of ours is unknown: in every run of an
    opened stream, each request written or buffered for writing, including
    the requests to continue a stream, carries the id of a queue registered
    for its answers. *)
Theorem wire_ids_registered (t : RequestTransmitter) (evs : list stream_event)
    (Hmsgs : Forall sends_message evs) :
  Forall (expected (run_stream (opened t) evs)) (ledger (run_stream (opened t) evs)).
Proof.
  destruct (opened_has_dispatcher t) as [Hd Hl].
  apply wire_run; [apply stream_inv_opened|done|done|]. by rewrite Hl.
Qed.
End spec.

(** ** Concrete ids, and the theorems at work *)

(** Numbers as ids. *)
#[local] Instance number_uuid : Uuid := {|
  uuid_v4 n := pretty n;
  uuid_parse s := String.list_byte_of_string s;
  uuid_stringify bs := Ret (String.string_of_list_byte bs);
|}.

#[local] Instance number_uuid_laws : UuidLaws number_uuid.
Proof.
  split; simpl; [intros m n; apply (inj pretty)|].
  intros n. by rewrite String.string_of_list_byte_of_string.
Qed.

Definition demo_show (s : TransactionStreamState) : string := "state".
Definition demo_res (id : string) (b : nat) : stream_event nat nat :=
  SData (ServerRes (mkRes (String.list_byte_of_string id) b)).
Definition demo_part (id : string) (s : option TransactionStreamState) (b : nat)
    : stream_event nat nat :=
  SData (ServerResPart (mkPart (String.list_byte_of_string id) s b)).
Definition demo_request : pval := New "TransactionReq" [].

(** Two requests with answers out of order; a late duplicate is ignored. *)
Definition demo_before : list (stream_event nat nat) := [SSingle demo_request true].
Definition demo_after : list (stream_event nat nat) :=
  [SStream demo_request; demo_part "2" None 4; demo_res "1" 7; demo_res "0" 5; demo_res "1" 9; SDone].

Lemma single_settled_by_first_witness :
  let st := run_stream demo_show (opened new_transmitter) demo_before in
  ∃ r p, (single demo_request false st).1 = Ret (r, p) ∧
    response_of (responseCollector
      (run_stream demo_show (single demo_request false st).2 demo_after)) r p =
      Ret (mkRes (String.list_byte_of_string "1") 7).
Proof.
  destruct (single_settled_by_first demo_show new_transmitter demo_before demo_request false
    demo_after) as (r & p & Hr & Hp).
  exists r, p. split; [exact Hr|]. rewrite Hp. vm_compute. reflexivity.
Defined.

Lemma close_settles_requests_witness :
  let st := run_stream demo_show (opened new_transmitter) demo_before in
  ∃ r p, (single demo_request false st).1 = Ret (r, p) ∧
    response_of (responseCollector
      (run_stream demo_show (single demo_request false st).2 demo_after)) r p ≠ Pending.
Proof.
  apply (close_settles_requests demo_show new_transmitter demo_before demo_request false
    demo_after SDone None); [unfold demo_after; set_solver | reflexivity].
Defined.

(** Two batches of answers with a continuation between them. *)
Definition demo_parts : list (stream_event nat nat) :=
  [demo_part "1" None 1; SPull 0; demo_part "1" None 2; demo_part "1" (Some SCONTINUE) 0;
   SResume 0; demo_part "1" None 3; demo_part "1" (Some SDONE) 0; demo_part "1" None 4].

Lemma iterator_yields_prefix_witness :
  let st := run_stream demo_show (opened new_transmitter) demo_before in
  ∃ i it, (stream demo_request st).1 = Ret i ∧
    iterators (run_stream demo_show (stream demo_request st).2 demo_parts) !! i = Some it ∧
    it_yielded it `prefix_of`
      (mkPart (String.list_byte_of_string "1") None <$> [1; 2; 3]).
Proof.
  destruct (iterator_yields_prefix demo_show new_transmitter demo_before demo_request demo_parts)
    as (i & it & Hi & Hit & Hpre).
  exists i, it. split; [exact Hi|]. split; [exact Hit|].
  vm_compute in Hpre. vm_compute. exact Hpre.
Defined.

Lemma stream_drained_witness :
  let st := run_stream demo_show (opened new_transmitter) demo_before in
  ∃ i it, (stream demo_request st).1 = Ret i ∧
    iterators (run_stream demo_show (run_stream demo_show (stream demo_request st).2 demo_parts)
      (rounds i 7)) !! i = Some it ∧
    it_yielded it = (mkPart (String.list_byte_of_string "1") None <$> [1; 2; 3]) ∧
    it_status_of it = ItFinished (Ret tt).
Proof.
  destruct (stream_drained demo_show new_transmitter demo_before demo_request demo_parts)
    as (i & it & Hi & Hit & Hy & Hs).
  exists i, it. split; [exact Hi|]. split; [exact Hit|].
  rewrite Hy, Hs. split; vm_compute; reflexivity.
Defined.

Lemma wire_ids_registered_witness :
  let st := run_stream demo_show (opened new_transmitter)
              (demo_before ++ [SStream demo_request; SPull 0] ++ demo_parts ++ rounds 0 3) in
  length (ledger st) = 3 ∧ Forall (expected st) (ledger st).
Proof.
  split; [vm_compute; reflexivity|]. apply (wire_ids_registered demo_show new_transmitter).
  repeat constructor; by exists "TransactionReq"%string, [].
Defined.
