(* ===== verification/Stub.v ===== *)
(** * The RPC stub

    Models [common/rpc/TypeDBStub.ts], [connection/TypeDBStubImpl.ts] and
    [api/connection/TypeDBCredential.ts]. The generated gRPC client is an
    interface: one operation per method, over the state of the network, with
    the address, the call metadata and the request. Stub objects live in a heap
    because their token changes. The world also records the calls made, which
    is what the theorems on token renewal speak of. *)
From S2P Require Import Prelude Errors Bytes Proto RequestBuilder.
Local Open Scope string_scope.
Local Open Scope list_scope.

(** ** Credentials *)

Record TypeDBCredential : Type := mkCredential {
  username : string;
  password : string;
  tlsRootCAPath : option string;
}.

(** [new TypeDBCredential(...)]; whether a file exists is up to the file
    system. *)
Definition new_credential (existsSync : string → bool) (user pass : string)
    (path : option string) : outcome exn TypeDBCredential :=
  match path with
  | Some p =>
      if existsSync p then Ret (mkCredential user pass (Some p))
      else Throw (driver_error CLOUD_INVALID_ROOT_CA_PATH [p])
  | None => Ret (mkCredential user pass None)
  end.

(** ** Messages of the service that the driver reads *)

Record ReplicaProto : Type := mkReplicaProto {
  rp_address : string;
  rp_term : Z;
  rp_primary : bool;
  rp_preferred : bool;
}.

Record DatabaseProto : Type := mkDatabaseProto {
  dp_name : string;
  dp_replicas : list ReplicaProto;
}.

Record SessionOpenRes : Type := mkSessionOpenRes {
  session_id : list byte;
  server_duration_millis : Z;
}.

Record UserProto : Type := mkUserProto {
  up_username : string;
  up_password_expiry_seconds : option Z;
}.

(** ** The generated client *)

Definition Metadata : Type := list (string * string).

(** A unary method: the callback gets an error or a result, or is never
    called. *)
Definition rpc (W A : Type) : Type := string → Metadata → pval → proc W ServiceError A.

(** A message-valued field that is not set is [None]. *)
Class GRPCStub (W : Type) : Type := {
  connection_open : rpc W unit;
  servers_all : rpc W (list string);
  databases_create : rpc W unit;
  databases_contains : rpc W bool;
  databases_get : rpc W (option DatabaseProto);
  databases_all : rpc W (list DatabaseProto);
  database_delete : rpc W unit;
  database_schema : rpc W string;
  database_type_schema : rpc W string;
  database_rule_schema : rpc W string;
  session_open : rpc W SessionOpenRes;
  session_close : rpc W unit;
  session_pulse : rpc W bool;
  users_all : rpc W (list UserProto);
  users_contains : rpc W bool;
  users_create : rpc W unit;
  users_delete : rpc W unit;
  users_password_set : rpc W unit;
  users_get : rpc W (option UserProto);
  user_password_update : rpc W unit;
  user_token : rpc W string;
  (** opens the duplex stream; it may throw *)
  grpc_transaction : string → Metadata → proc W exn unit;
}.

Section stub.
Context {W : Type} {G : GRPCStub W}.

(** ** State *)

Record TypeDBStubImpl : Type := mkStub {
  stub_address : string;
  stub_credential : option TypeDBCredential;
  token : option string;
  stub_closed : bool;
}.

Record rpc_call : Type := mkCall {
  call_stub : nat;
  call_method : string;
  call_metadata : Metadata;
}.

Record World : Type := mkWorld {
  net : W;
  stub_heap : list TypeDBStubImpl;
  rpc_log : list rpc_call;
}.

Local Abbreviation wproc := (proc World exn).

(** [createCallCredentials]: what the metadata generator gives for a call;
    an insecure channel sends none. *)
Definition call_credentials (s : TypeDBStubImpl) : Metadata :=
  match stub_credential s with
  | None => []
  | Some c =>
      [("username", username c);
       match token s with
       | None => ("password", password c)
       | Some t => ("token", t)
       end]
  end.

(** [new TypeDBStubImpl(address, credential)]: returns the object; reading the
    certificate may throw. *)
Definition new_stub (readFileSync : string → outcome exn unit) (address : string)
    (credential : option TypeDBCredential) : wproc nat := λ w,
  match credential ≫= tlsRootCAPath with
  | Some path =>
      match readFileSync path with
      | Ret _ => (Ret (length (stub_heap w)),
                  mkWorld (net w) (stub_heap w ++ [mkStub address credential None false])
                    (rpc_log w))
      | Throw e => (Throw e, w)
      | Pending => (Pending, w)
      end
  | None => (Ret (length (stub_heap w)),
             mkWorld (net w) (stub_heap w ++ [mkStub address credential None false]) (rpc_log w))
  end.

Definition at_stub (r : nat) (f : TypeDBStubImpl → TypeDBStubImpl) : wproc unit :=
  modify (λ w, mkWorld (net w) (alter f r (stub_heap w)) (rpc_log w)).

Definition set_token (t : option string) (s : TypeDBStubImpl) : TypeDBStubImpl :=
  mkStub (stub_address s) (stub_credential s) t (stub_closed s).

Definition credential_of (r : nat) : wproc (option TypeDBCredential) :=
  gets (λ w, stub_heap w !! r ≫= stub_credential).

(** ** Calls *)

(** [new Promise((resolve, reject) => this.stub().method(req, (err, res) => ...))] *)
Definition unary {A} (r : nat) (method : string) (f : rpc W A) (req : pval)
    (reject : ServiceError → exn) : wproc A := λ w,
  match stub_heap w !! r with
  | None => (Throw (type_error method), w)
  | Some s =>
      let md := call_credentials s in
      let '(o, n) := f (stub_address s) md req (net w) in
      let w' := mkWorld n (stub_heap w) (rpc_log w ++ [mkCall r method md]) in
      match o with
      | Ret a => (Ret a, w')
      | Throw err => (Throw (reject err), w')
      | Pending => (Pending, w')
      end
  end.

(** [reject(new TypeDBDriverError(err))] *)
Definition wrapped (err : ServiceError) : exn :=
  TypeDBDriverError (ArgError (RawServiceError err)).

Definition userToken (r : nat) (req : pval) : wproc string :=
  unary r "user_token" user_token req RawServiceError.

(** The token is cleared, fetched and stored. *)
Definition renew_token (r : nat) (c : TypeDBCredential) : wproc unit :=
  at_stub r (set_token None) ≫= λ _,
  userToken r (User_tokenReq (username c)) ≫= λ t,
  at_stub r (set_token (Some t)).

Definition mayRenewToken {A} (r : nat) (fn : wproc A) : wproc A :=
  try_catch fn (λ e,
    credential_of r ≫= λ credential,
    match credential with
    | None => throw e
    | Some c =>
        if has_template CLOUD_TOKEN_CREDENTIAL_INVALID e then
          renew_token r c ≫= λ _,
          try_catch fn (λ e2,
            if isServiceError e2 then throw (TypeDBDriverError (ArgError e2)) else throw e2)
        else throw e
    end).

(** A renewing method that wraps its errors, and one that rejects the raw
    error. *)
Definition renewing {A} (r : nat) (method : string) (f : rpc W A) (req : pval) : wproc A :=
  mayRenewToken r (unary r method f req wrapped).

Definition renewing_raw {A} (r : nat) (method : string) (f : rpc W A) (req : pval) : wproc A :=
  mayRenewToken r (unary r method f req RawServiceError).

Definition connectionOpen r req := renewing r "connection_open" connection_open req.
Definition serversAll r req := renewing r "servers_all" servers_all req.
Definition databasesCreate r req := renewing r "databases_create" databases_create req.
Definition databasesContains r req := renewing r "databases_contains" databases_contains req.
Definition databasesGet r req := renewing r "databases_get" databases_get req.
Definition databasesAll r req := renewing r "databases_all" databases_all req.
Definition databaseDelete r req := renewing_raw r "database_delete" database_delete req.
Definition databaseSchema r req := renewing_raw r "database_schema" database_schema req.
Definition databaseTypeSchema r req :=
  renewing_raw r "database_type_schema" database_type_schema req.
Definition databaseRuleSchema r req :=
  renewing_raw r "database_rule_schema" database_rule_schema req.
Definition usersAll r req := renewing r "users_all" users_all req.
Definition usersContains r req := renewing r "users_contains" users_contains req.
Definition usersCreate r req := renewing r "users_create" users_create req.
Definition usersDelete r req := renewing r "users_delete" users_delete req.
Definition usersPasswordSet r req := renewing r "users_password_set" users_password_set req.
Definition usersGet r req := renewing r "users_get" users_get req.
Definition userPasswordUpdate r req :=
  renewing r "user_password_update" user_password_update req.

Definition sessionOpen (r : nat) (req : pval) : wproc SessionOpenRes :=
  unary r "session_open" session_open req wrapped.

(** Errors are logged and dropped. *)
Definition sessionClose (r : nat) (req : pval) : wproc unit :=
  try_catch (unary r "session_close" session_close req RawServiceError)
    (λ e, if isServiceError e then mret tt else throw e).

Definition sessionPulse (r : nat) (req : pval) : wproc bool :=
  unary r "session_pulse" session_pulse req RawServiceError.

Definition stub_transaction (r : nat) : wproc unit := λ w,
  match stub_heap w !! r with
  | None => (Throw (type_error "transaction"), w)
  | Some s =>
      let md := call_credentials s in
      let '(o, n) := grpc_transaction (stub_address s) md (net w) in
      (o, mkWorld n (stub_heap w) (rpc_log w ++ [mkCall r "transaction" md]))
  end.

(** [TypeDBStubImpl.open] *)
Definition stub_open (r : nat) : wproc unit :=
  try_catch
    (connectionOpen r Connection_openReq ≫= λ _,
     credential_of r ≫= λ credential,
     match credential with
     | Some c =>
         userToken r (User_tokenReq (username c)) ≫= λ t,
         at_stub r (set_token (Some t))
     | None => mret tt
     end)
    (λ e, if negb (isServiceError e) then throw e else mret tt).

(** [close()] *)
Definition stub_close (r : nat) : wproc unit :=
  at_stub r (λ s, mkStub (stub_address s) (stub_credential s) (token s) true).

(** ** Properties *)

(** A call logs itself and leaves the stubs alone. *)
Lemma unary_run {A} r s method (f : rpc W A) req reject w :
  stub_heap w !! r = Some s →
  ∃ n, unary r method f req reject w =
    (match (f (stub_address s) (call_credentials s) req (net w)).1 with
     | Ret a => Ret a
     | Throw err => Throw (reject err)
     | Pending => Pending
     end, mkWorld n (stub_heap w) (rpc_log w ++ [mkCall r method (call_credentials s)])) ∧
    n = (f (stub_address s) (call_credentials s) req (net w)).2.
Proof.
  intros Hs. unfold unary. rewrite Hs.
  destruct (f _ _ _ _) as [o n]. exists n. split; [|done]. by destruct o.
Qed.

(** Renewing asks for a token with the password, and stores what it gets. *)
Lemma renew_token_run r s c w :
  stub_heap w !! r = Some s →
  let cleared := set_token None s in
  let '(o, n) := user_token (stub_address s) (call_credentials cleared)
                   (User_tokenReq (username c)) (net w) in
  let log := rpc_log w ++ [mkCall r "user_token" (call_credentials cleared)] in
  renew_token r c w =
    match o with
    | Ret t => (Ret tt, mkWorld n (<[r := set_token (Some t) s]> (stub_heap w)) log)
    | Throw err => (Throw (RawServiceError err), mkWorld n (<[r := cleared]> (stub_heap w)) log)
    | Pending => (Pending, mkWorld n (<[r := cleared]> (stub_heap w)) log)
    end.
Proof.
  intros Hs. cbv zeta. unfold renew_token, at_stub, modify, userToken, unary.
  unfold mbind, proc_mbind; simpl. rewrite !(list_alter_at _ _ _ _ Hs).
  rewrite list_lookup_insert_eq by by eapply lookup_lt_Some. simpl.
  destruct (user_token _ _ _ _) as [[t|err|] n]; simpl; [|done..].
  rewrite (list_alter_at _ _ _ (set_token None s)) by
    (apply list_lookup_insert_eq; by eapply lookup_lt_Some).
  by rewrite list_insert_insert_eq.
Qed.

(** What a method does after its first attempt was refused for its token. *)
Lemma mayRenewToken_run {A} r s (fn : proc World exn A) w e w1 :
  fn w = (Throw e, w1) → stub_heap w1 !! r = Some s →
  mayRenewToken r fn w =
    match stub_credential s with
    | Some c =>
        if has_template CLOUD_TOKEN_CREDENTIAL_INVALID e then
          (renew_token r c ≫= λ _, try_catch fn (λ e2,
             if isServiceError e2 then throw (TypeDBDriverError (ArgError e2))
             else throw e2)) w1
        else (Throw e, w1)
    | None => (Throw e, w1)
    end.
Proof.
  intros Hfn Hs. unfold mayRenewToken. rewrite (try_catch_run _ _ _ _ _ Hfn).
  unfold credential_of, gets. rewrite proc_bind_eq. rewrite Hs. simpl.
  destruct (stub_credential s); [|done]. by destruct (has_template _ _).
Qed.

(** What a method throws: its rejection, or the errors of a missing stub. *)
Lemma unary_throws (P : exn → Prop) {A} r method (f : rpc W A) req reject :
  P (type_error method) → (∀ err, P (reject err)) → throws_only P (unary r method f req reject).
Proof.
  intros Hm Hr w e. unfold unary. destruct (stub_heap w !! r); [|by intros [= <-]].
  destruct (f _ _ _ _) as [[a|err|] n]; simpl; [done| |done]. by intros [= <-].
Qed.

Lemma renewing_throws (P : exn → Prop) {A} r method (f : rpc W A) req :
  P (type_error method) → P (type_error "user_token") → (∀ err, P (RawServiceError err)) →
  (∀ a, P (TypeDBDriverError a)) → throws_only P (renewing r method f req).
Proof.
  intros Hm Hu Hraw Hdrv.
  assert (throws_only P (unary r method f req wrapped)) as Hfn
    by (apply unary_throws; [done|intros err; apply Hdrv]).
  eapply throws_try_catch; [exact Hfn|]. intros e He.
  apply throws_bind; [apply throws_gets|]. intros [c|]; [|by apply throws_throw].
  destruct (has_template _ _); [|by apply throws_throw].
  apply throws_bind; [|intros _; eapply throws_try_catch; [exact Hfn|]; intros e2 He2;
    destruct (isServiceError e2); by apply throws_throw].
  apply throws_bind; [apply throws_modify|]. intros _.
  apply throws_bind; [by apply unary_throws|]. intros t. apply throws_modify.
Qed.

(** The calls of one method that renews its token. *)
Definition first_call (r : nat) (method : string) (s : TypeDBStubImpl) : rpc_call :=
  mkCall r method (call_credentials s).
Definition token_call (r : nat) (s : TypeDBStubImpl) : rpc_call :=
  mkCall r "user_token" (call_credentials (set_token None s)).

(** C18 - a method renews its token at most once: it makes one call, or asks
    for a new token with the password after its own call was refused, or
    then repeats its call once with the token it was given, which the stub
    keeps. Without a credential, or when the first call was not refused for
    its token, there is one call and the token is kept. *)
Theorem renewal_at_most_once {A} (r : nat) (method : string) (f : rpc W A) (req : pval)
    (w : World) (s : TypeDBStubImpl) (Hs : stub_heap w !! r = Some s) :
  let w' := (renewing r method f req w).2 in
  ∃ calls, rpc_log w' = rpc_log w ++ calls ∧
    (calls = [first_call r method s] ∧ stub_heap w' = stub_heap w ∨
     is_Some (stub_credential s) ∧
     (∃ err, (f (stub_address s) (call_credentials s) req (net w)).1 = Throw err ∧
        has_template CLOUD_TOKEN_CREDENTIAL_INVALID (wrapped err) = true) ∧
     (calls = [first_call r method s; token_call r s] ∧
        stub_heap w' = <[r := set_token None s]> (stub_heap w) ∨
      ∃ t, calls = [first_call r method s; token_call r s;
                    first_call r method (set_token (Some t) s)] ∧
        stub_heap w' = <[r := set_token (Some t) s]> (stub_heap w))).
Proof.
  cbv zeta. unfold renewing. destruct (unary_run r s method f req wrapped w Hs) as (n & Hu & _).
  destruct (f _ _ _ _).1 as [a|err|] eqn:Hf.
  1, 3: unfold mayRenewToken; rewrite (try_catch_run _ _ _ _ _ Hu); simpl; eauto 10.
  rewrite (mayRenewToken_run r s _ _ _ _ Hu Hs).
  destruct (stub_credential s) as [c|] eqn:Hc; [|simpl; eauto 10].
  destruct (has_template _ _) eqn:Ht; [|simpl; eauto 10]. rewrite proc_bind_eq.
  match goal with |- context [renew_token r c ?x] =>
    pose proof (renew_token_run r s c x Hs) as Hr end.
  cbv zeta in Hr. destruct (user_token _ _ _ _) as [[t|err'|] n'] eqn:Hut; rewrite Hr; simpl.
  - assert (<[r := set_token (Some t) s]> (stub_heap w) !! r = Some (set_token (Some t) s)) as Hs2
      by (apply list_lookup_insert_eq; by eapply lookup_lt_Some).
    match goal with |- context [try_catch _ _ ?x] =>
      destruct (unary_run r (set_token (Some t) s) method f req wrapped x Hs2) as (n2 & Hu2 & _) end.
    rewrite (try_catch_run _ _ _ _ _ Hu2). simpl in *.
    exists [first_call r method s; token_call r s; first_call r method (set_token (Some t) s)].
    unfold wrapped. destruct (f _ _ _ n').1; rewrite ?driver_error_not_service; simpl;
      rewrite <- !app_assoc; (split; [done|]); right; eauto 10.
  - exists [first_call r method s; token_call r s]. rewrite <- app_assoc. eauto 10.
  - exists [first_call r method s; token_call r s]. rewrite <- app_assoc. eauto 10.
Qed.

(** C40 - an expired token is invisible to the caller: when a call is refused
    for its token and the server grants a new one, the method comes to what
    its second call comes to, and the stub keeps the new token. *)
Theorem refused_then_renewed {A} (r : nat) (method : string) (f : rpc W A) (req : pval)
    (w : World) (s : TypeDBStubImpl) (c : TypeDBCredential) (err : ServiceError) (t : string)
    (n1 n2 : W) (Hs : stub_heap w !! r = Some s) (Hc : stub_credential s = Some c)
    (Hf : f (stub_address s) (call_credentials s) req (net w) = (Throw err, n1))
    (Herr : has_template CLOUD_TOKEN_CREDENTIAL_INVALID (wrapped err) = true)
    (Ht : user_token (stub_address s) (call_credentials (set_token None s))
            (User_tokenReq (username c)) n1 = (Ret t, n2)) :
  let renewed := set_token (Some t) s in
  let second := f (stub_address s) (call_credentials renewed) req n2 in
  (renewing r method f req w).1 =
    match second.1 with
    | Ret a => Ret a
    | Throw e => Throw (wrapped e)
    | Pending => Pending
    end ∧
  net (renewing r method f req w).2 = second.2 ∧
  stub_heap (renewing r method f req w).2 = <[r := renewed]> (stub_heap w).
Proof.
  cbv zeta. unfold renewing. destruct (unary_run r s method f req wrapped w Hs) as (n & Hu & Hn).
  rewrite Hf in Hu, Hn. simpl in Hu, Hn. subst n.
  rewrite (mayRenewToken_run r s _ _ _ _ Hu Hs), Hc, Herr, proc_bind_eq.
  match goal with |- context [renew_token r c ?x] =>
    pose proof (renew_token_run r s c x Hs) as Hr end.
  simpl in Hr. rewrite Ht in Hr. rewrite Hr.
  assert (<[r := set_token (Some t) s]> (stub_heap w) !! r = Some (set_token (Some t) s)) as Hs2
    by (apply list_lookup_insert_eq; by eapply lookup_lt_Some).
  match goal with |- context [try_catch _ _ ?x] =>
    destruct (unary_run r (set_token (Some t) s) method f req wrapped x Hs2) as (n3 & Hu2 & Hn3) end.
  rewrite (try_catch_run _ _ _ _ _ Hu2). subst n3. unfold wrapped. simpl.
  destruct (f _ _ _ n2).1; rewrite ?driver_error_not_service; done.
Qed.

(** A method that rejects the raw error makes one call, whatever comes of it. *)
Lemma renewing_raw_run {A} r s method (f : rpc W A) req w :
  stub_heap w !! r = Some s →
  let '(o, n) := f (stub_address s) (call_credentials s) req (net w) in
  renewing_raw r method f req w =
    (match o with
     | Ret a => Ret a
     | Throw err => Throw (RawServiceError err)
     | Pending => Pending
     end, mkWorld n (stub_heap w) (rpc_log w ++ [first_call r method s])).
Proof.
  intros Hs. unfold renewing_raw.
  destruct (unary_run r s method f req RawServiceError w Hs) as (n & Hu & Hn).
  destruct (f _ _ _ _) as [[a|err|] n']; simpl in Hu, Hn; subst n'.
  1, 3: unfold mayRenewToken; by rewrite (try_catch_run _ _ _ _ _ Hu).
  rewrite (mayRenewToken_run r s _ _ _ _ Hu Hs). by destruct (stub_credential s).
Qed.

(** The database methods never renew a token: [databaseDelete] and the
    three schema methods reject the raw gRPC error, which carries no template,
    so a refused token makes one call, leaves the token as it was, and
    surfaces as a raw error. *)
Theorem raw_methods_never_renew {A} (r : nat) (method : string) (f : rpc W A) (req : pval)
    (w : World) (s : TypeDBStubImpl) (Hs : stub_heap w !! r = Some s) :
  let '(o, w') := renewing_raw r method f req w in
  rpc_log w' = rpc_log w ++ [first_call r method s] ∧ stub_heap w' = stub_heap w ∧
  ∀ e, o = Throw e → ∃ err, e = RawServiceError err.
Proof.
  pose proof (renewing_raw_run r s method f req w Hs) as H.
  destruct (f _ _ _ _) as [[a|err|] n]; rewrite H; (split_and!; [done|done|]); try done.
  intros e [= <-]. eauto.
Qed.

(** Opening once the connection is up: the login decides. *)
Lemma stub_open_login r w s c :
  stub_heap w !! r = Some s → stub_credential s = Some c →
  let first := connection_open (stub_address s) (call_credentials s) Connection_openReq (net w) in
  first.1 = Ret tt →
  let log := (rpc_log w ++ [first_call r "connection_open" s]) ++ [first_call r "user_token" s] in
  let '(o, n) := user_token (stub_address s) (call_credentials s)
                   (User_tokenReq (username c)) first.2 in
  stub_open r w =
    match o with
    | Ret t => (Ret tt, mkWorld n (<[r := set_token (Some t) s]> (stub_heap w)) log)
    | Throw _ => (Ret tt, mkWorld n (stub_heap w) log)
    | Pending => (Pending, mkWorld n (stub_heap w) log)
    end.
Proof.
  cbv zeta. intros Hs Hc Hf. unfold stub_open, connectionOpen, renewing.
  destruct (unary_run r s "connection_open" connection_open Connection_openReq wrapped w Hs)
    as (n & Hu & Hn).
  rewrite Hf in Hu. unfold try_catch at 1. rewrite proc_bind_eq.
  unfold mayRenewToken. rewrite (try_catch_run _ _ _ _ _ Hu). subst n.
  unfold credential_of, gets, userToken, unary. rewrite !proc_bind_eq. simpl. rewrite Hs. simpl.
  rewrite Hc, proc_bind_eq. simpl. rewrite Hs.
  destruct (user_token _ _ _ _) as [[t|err|] n2]; [|done..]. simpl.
  by rewrite (list_alter_at _ _ _ _ Hs).
Qed.

(** Opening a stub reports a connection failure but not a refused
    login: with a credential, a failing [connection_open] is thrown, while a
    failing token request is dropped and leaves the stub opened without a
    token; only when both succeed is the token kept. *)
Theorem stub_open_drops_login_failure (r : nat) (w : World) (s : TypeDBStubImpl)
    (c : TypeDBCredential) (Hs : stub_heap w !! r = Some s) (Hc : stub_credential s = Some c) :
  let creds := call_credentials s in
  let first := connection_open (stub_address s) creds Connection_openReq (net w) in
  let login := user_token (stub_address s) creds (User_tokenReq (username c)) first.2 in
  (∀ err, first.1 = Throw err →
     has_template CLOUD_TOKEN_CREDENTIAL_INVALID (wrapped err) = false →
     (stub_open r w).1 = Throw (wrapped err)) ∧
  (∀ err, first.1 = Ret tt → login.1 = Throw err →
     (stub_open r w).1 = Ret tt ∧ stub_heap (stub_open r w).2 = stub_heap w) ∧
  (∀ t, first.1 = Ret tt → login.1 = Ret t →
     (stub_open r w).1 = Ret tt ∧
     stub_heap (stub_open r w).2 = <[r := set_token (Some t) s]> (stub_heap w)).
Proof.
  cbv zeta. split_and!.
  - intros err Hf Herr. unfold stub_open, connectionOpen, renewing, try_catch at 1.
    destruct (unary_run r s "connection_open" connection_open Connection_openReq wrapped w Hs)
      as (n & Hu & _).
    rewrite Hf in Hu. rewrite proc_bind_eq, (mayRenewToken_run r s _ _ _ _ Hu Hs), Hc, Herr.
    unfold wrapped. by rewrite driver_error_not_service.
  - intros err Hf Hl. pose proof (stub_open_login r w s c Hs Hc Hf) as Ho.
    destruct (user_token _ _ _ _) as [o n]. simpl in Hl. subst o. by rewrite Ho.
  - intros t Hf Hl. pose proof (stub_open_login r w s c Hs Hc Hf) as Ho.
    destruct (user_token _ _ _ _) as [o n]. simpl in Hl. subst o. by rewrite Ho.
Qed.
End stub.

Arguments World : clear implicits.

(** ** A concrete server *)

(** A server that knows one password and one valid token, its state; a call
    with neither is refused, and a login gives the token. *)
Definition refused : ServiceError := mkServiceError (OTHER 16) "" "[CLS08] token expired".

Definition guarded {A} (a : string → A) : rpc string A := λ _ md _ valid,
  if bool_decide (("token", valid) ∈ md) || bool_decide (("password", "pw") ∈ md)
  then (Ret (a valid), valid) else (Throw refused, valid).

#[local] Instance demo_server : GRPCStub string := {|
  connection_open := guarded (λ _, tt);
  servers_all := guarded (λ _, ["localhost:1729"]);
  databases_create := guarded (λ _, tt);
  databases_contains := guarded (λ _, true);
  databases_get := guarded (λ _, None);
  databases_all := guarded (λ _, []);
  database_delete := guarded (λ _, tt);
  database_schema := guarded (λ _, "define");
  database_type_schema := guarded (λ _, "define");
  database_rule_schema := guarded (λ _, "define");
  session_open := guarded (λ _, mkSessionOpenRes [] 0);
  session_close := guarded (λ _, tt);
  session_pulse := guarded (λ _, true);
  users_all := guarded (λ _, []);
  users_contains := guarded (λ _, true);
  users_create := guarded (λ _, tt);
  users_delete := guarded (λ _, tt);
  users_password_set := guarded (λ _, tt);
  users_get := guarded (λ _, None);
  user_password_update := guarded (λ _, tt);
  user_token := guarded (λ valid, valid);
  grpc_transaction := λ _ _ valid, (Ret tt, valid);
|}.

Definition demo_credential : TypeDBCredential := mkCredential "admin" "pw" None.
Definition stale_stub : TypeDBStubImpl :=
  mkStub "localhost:1729" (Some demo_credential) (Some "old") false.
Definition demo_world (s : TypeDBStubImpl) : World string := mkWorld "new" [s] [].

Lemma renewal_at_most_once_witness :
  stub_heap (demo_world stale_stub) !! 0 = Some stale_stub ∧
  let w' := (databasesContains 0 (DatabaseManager_containsReq "db") (demo_world stale_stub)).2 in
  ∃ calls, rpc_log w' = [] ++ calls ∧ length calls = 3.
Proof.
  split; [reflexivity|].
  destruct (renewal_at_most_once 0 "databases_contains" databases_contains
    (DatabaseManager_containsReq "db") (demo_world stale_stub) stale_stub eq_refl)
    as (calls & Hlog & _).
  exists calls. split; [exact Hlog|].
  apply (f_equal length) in Hlog. vm_compute in Hlog. symmetry. exact Hlog.
Defined.

Lemma refused_then_renewed_witness :
  (databasesContains 0 (DatabaseManager_containsReq "db") (demo_world stale_stub)).1 = Ret true.
Proof.
  destruct (refused_then_renewed 0 "databases_contains" databases_contains
    (DatabaseManager_containsReq "db") (demo_world stale_stub) stale_stub demo_credential refused
    "new" "new" "new") as (H & _ & _); [vm_compute; reflexivity..|]. exact H.
Defined.

Lemma raw_methods_never_renew_witness :
  (databaseSchema 0 (Database_schemaReq "db") (demo_world stale_stub)).1 =
    Throw (RawServiceError refused) ∧
  let '(o, w') := databaseSchema 0 (Database_schemaReq "db") (demo_world stale_stub) in
  rpc_log w' = [first_call 0 "database_schema" stale_stub] ∧ stub_heap w' = [stale_stub] ∧
  ∀ e, o = Throw e → ∃ err, e = RawServiceError err.
Proof.
  split; [vm_compute; reflexivity|].
  exact (raw_methods_never_renew 0 "database_schema" database_schema
    (Database_schemaReq "db") (demo_world stale_stub) stale_stub eq_refl).
Defined.

(** A server that is up but refuses the login. *)
Definition wrong_password : TypeDBStubImpl :=
  mkStub "localhost:1729" (Some (mkCredential "admin" "bad" None)) None false.

#[local] Instance open_server : GRPCStub string := {|
  connection_open := λ _ _ _ n, (Ret tt, n);
  servers_all := servers_all; databases_create := databases_create;
  databases_contains := databases_contains; databases_get := databases_get;
  databases_all := databases_all; database_delete := database_delete;
  database_schema := database_schema; database_type_schema := database_type_schema;
  database_rule_schema := database_rule_schema; session_open := session_open;
  session_close := session_close; session_pulse := session_pulse; users_all := users_all;
  users_contains := users_contains; users_create := users_create; users_delete := users_delete;
  users_password_set := users_password_set; users_get := users_get;
  user_password_update := user_password_update; user_token := user_token;
  grpc_transaction := grpc_transaction;
|}.

Lemma stub_open_drops_login_failure_witness :
  (stub_open 0 (demo_world wrong_password)).1 = Ret tt ∧
  stub_heap (stub_open 0 (demo_world wrong_password)).2 = [wrong_password].
Proof.
  destruct (stub_open_drops_login_failure 0 (demo_world wrong_password) wrong_password
    (mkCredential "admin" "bad" None) eq_refl eq_refl) as (_ & H & _).
  apply (H refused); vm_compute; reflexivity.
Defined.
