(* ===== verification/Database.v ===== *)
(** * Databases and replicas

    Models [connection/TypeDBDatabaseImpl.ts]: the replicas of a database, the
    choice of the primary one, and the loops that run a task on some replica or
    on the primary one while it moves. The driver's state is a record; database
    objects live in a heap because their replicas are refreshed in place and
    the driver caches them by name. Waiting for the election of a primary
    replica is counted in [waits]. *)
From S2P Require Import Prelude Errors Bytes Proto RequestBuilder Stub.
Local Open Scope string_scope.
Local Open Scope list_scope.

Definition PRIMARY_REPLICA_TASK_MAX_RETRIES : nat := 10.
Definition FETCH_REPLICAS_MAX_RETRIES : nat := 10.
Definition WAIT_FOR_PRIMARY_REPLICA_SELECTION_MS : N := 2000.

(** Proofs treat the bounds as symbols. *)
#[global] Arguments PRIMARY_REPLICA_TASK_MAX_RETRIES : simpl never.
#[global] Arguments FETCH_REPLICAS_MAX_RETRIES : simpl never.

(** ** Data *)

(** [ServerDriver]: the stub object of a server. Each is made with a stub and a
    request transmitter of its own, so the stub names the transmitter too. *)
Record ServerDriver : Type := mkServerDriver {
  sd_address : string;
  sd_stub : nat;
}.

(** [ServerDatabase]; the driver is undefined when the address of the replica
    is not a known server. *)
Record ServerDatabase : Type := mkServerDatabase {
  sdb_name : string;
  sdb_driver : option ServerDriver;
}.

Record Replica : Type := mkReplica {
  server : string;
  database : ServerDatabase;
  term : Z;
  isPrimary : bool;
  isPreferred : bool;
}.

(** [Replica.of] *)
Definition replica_of (replica : ReplicaProto) (db : ServerDatabase) : Replica :=
  mkReplica (rp_address replica) db (rp_term replica) (rp_primary replica)
    (rp_preferred replica).

(** [Replica.toString] *)
Definition replica_toString (r : Replica) : string :=
  (server r ++ "/" ++ sdb_name (database r) ++ ":" ++ (if isPrimary r then "P" else "S")
     ++ ":" ++ pretty (term r))%string.

Record Database : Type := mkDatabase {
  db_name : string;
  replicas : list Replica;
}.

Definition primaryReplica (db : Database) : option Replica :=
  match List.filter isPrimary (replicas db) with
  | [] => None
  | first :: rest =>
      Some (foldl (λ current next, if bool_decide (term next > term current)%Z then next
                                   else current) first rest)
  end.

(** [None] is undefined: a database without replicas. *)
Definition preferredReplica (db : Database) : option Replica :=
  match List.find isPreferred (replicas db) with
  | Some rep => Some rep
  | None => head (replicas db)
  end.

(** ** Choosing the primary replica *)

Lemma primaryReplica_snoc name l x :
  primaryReplica (mkDatabase name (l ++ [x])) =
    match primaryReplica (mkDatabase name l) with
    | None => if isPrimary x then Some x else None
    | Some c => if isPrimary x && bool_decide (term x > term c)%Z then Some x else Some c
    end.
Proof.
  unfold primaryReplica; simpl. rewrite List.filter_app. simpl.
  destruct (List.filter isPrimary l) as [|f rest]; destruct (isPrimary x); simpl;
    rewrite ?app_nil_r; try done.
  rewrite foldl_app. simpl. by case_bool_decide.
Qed.

(** [p], at position [i], is the replica that claims to be primary with the
    highest term, the first such one. *)
Definition leads (l : list Replica) (i : nat) (p : Replica) : Prop :=
  l !! i = Some p ∧ isPrimary p = true ∧
  ∀ j q, l !! j = Some q → isPrimary q = true →
    (term q <= term p)%Z ∧ (j < i → (term q < term p)%Z).

Lemma leads_unique l i p j q : leads l i p → leads l j q → p = q.
Proof.
  intros (Hi & Hp & Hl) (Hj & Hq & Hl'). destruct (Nat.lt_trichotomy i j) as [H|[->|H]].
  - destruct (Hl' _ _ Hi Hp) as [_ H1], (Hl _ _ Hj Hq) as [H2 _]. specialize (H1 H). lia.
  - congruence.
  - destruct (Hl _ _ Hj Hq) as [_ H1], (Hl' _ _ Hi Hp) as [H2 _]. specialize (H1 H). lia.
Qed.

Lemma primaryReplica_leads name l :
  match primaryReplica (mkDatabase name l) with
  | Some p => ∃ i, leads l i p
  | None => ∀ i q, l !! i = Some q → isPrimary q = false
  end.
Proof.
  induction l as [|x l IH] using rev_ind; [done|]. rewrite primaryReplica_snoc.
  assert (∀ j q, (l ++ [x]) !! j = Some q → l !! j = Some q ∨ j = length l ∧ q = x) as Hsplit.
  { intros j q [Hj|[Hle [Hj <-]%list_lookup_singleton_Some]]%lookup_app_Some; [by left|].
    right. split; [lia|done]. }
  assert ((l ++ [x]) !! length l = Some x) as Hx by by rewrite lookup_app_r, Nat.sub_diag.
  destruct (primaryReplica (mkDatabase name l)) as [c|].
  - destruct IH as (i & Hi & Hc & Hl). pose proof (lookup_lt_Some _ _ _ Hi) as Hlt.
    destruct (isPrimary x) eqn:Ex; simpl; [case_bool_decide as Ht|].
    + exists (length l). split_and!; [done|done|]. intros j q [Hj|[-> ->]]%Hsplit Hq; [|lia].
      destruct (Hl _ _ Hj Hq). lia.
    + exists i. split_and!; [by apply lookup_app_l_Some|done|].
      intros j q [Hj|[-> ->]]%Hsplit Hq; [by apply (Hl j)|lia].
    + exists i. split_and!; [by apply lookup_app_l_Some|done|].
      intros j q [Hj|[-> ->]]%Hsplit Hq; [by apply (Hl j)|congruence].
  - destruct (isPrimary x) eqn:Ex.
    + exists (length l). split_and!; [done|done|]. intros j q [Hj|[-> ->]]%Hsplit Hq; [|lia].
      by rewrite (IH _ _ Hj) in Hq.
    + intros j q [Hj|[-> ->]]%Hsplit; [by eapply IH|done].
Qed.

(** The primary replica is the first of those that claim to be primary
    with the highest term; there is none exactly when no replica claims it. *)
Theorem primaryReplica_highest_term (db : Database) (p : Replica) :
  (primaryReplica db = Some p ↔ ∃ i, leads (replicas db) i p) ∧
  (primaryReplica db = None ↔ ∀ q, q ∈ replicas db → isPrimary q = false).
Proof.
  destruct db as [name l]. simpl. pose proof (primaryReplica_leads name l) as H.
  destruct (primaryReplica (mkDatabase name l)) as [p'|]; split; split.
  - intros [= <-]. done.
  - intros [i Hi]. destruct H as [j Hj]. f_equal. by eapply leads_unique.
  - done.
  - intros Hall. destruct H as (i & Hi & Hp & _). apply list_elem_of_lookup_2 in Hi.
    rewrite (Hall _ Hi) in Hp. done.
  - done.
  - intros (i & Hi & Hp & _). by rewrite (H _ _ Hi) in Hp.
  - intros _ q [i Hi]%list_elem_of_lookup_1. by eapply H.
  - done.
Qed.

Section database.
Context {W C : Type} {G : GRPCStub W}.

(** ** State *)

(** What the database classes use of the driver; [d_sessions] holds the open
    sessions by id, and [clients] is the state of the objects that tasks work
    on, such as the session being opened. *)
Record Driver : Type := mkDriver {
  d_world : World W;
  d_isOpen : bool;
  d_isCloud : bool;
  d_serverDrivers : list (string * ServerDriver);
  d_database_cache : gmap string nat;
  d_sessions : gmap string nat;
  d_databases : list Database;
  waits : nat;
  clients : C;
}.

Local Abbreviation dproc := (proc Driver exn).

Definition set_world w (d : Driver) : Driver :=
  mkDriver w (d_isOpen d) (d_isCloud d) (d_serverDrivers d) (d_database_cache d)
    (d_sessions d) (d_databases d) (waits d) (clients d).
Definition set_databases dbs (d : Driver) : Driver :=
  mkDriver (d_world d) (d_isOpen d) (d_isCloud d) (d_serverDrivers d) (d_database_cache d)
    (d_sessions d) dbs (waits d) (clients d).

(** A computation of the stub layer. *)
Definition call {A} (m : proc (World W) exn A) : dproc A := λ d,
  let '(o, w) := m (d_world d) in (o, set_world w d).

(** [serverDriver.stub] *)
Definition stub_of (sd : option ServerDriver) : dproc nat :=
  match sd with
  | Some sd => mret (sd_stub sd)
  | None => throw (type_error "stub")
  end.

(** ** Construction *)

(** [new TypeDBDatabaseImpl(name, driver, replicas)]: the object enters the
    cache. *)
Definition new_database (name : string) (reps : list Replica) : dproc nat := λ d,
  let r := length (d_databases d) in
  (Ret r, mkDriver (d_world d) (d_isOpen d) (d_isCloud d) (d_serverDrivers d)
            (<[name := r]> (d_database_cache d)) (d_sessions d)
            (d_databases d ++ [mkDatabase name reps]) (waits d) (clients d)).

(** The replicas of a database message. *)
Definition replicas_of (name : string) (protos : list ReplicaProto) (d : Driver)
    : list Replica :=
  (λ proto, replica_of proto
     (mkServerDatabase name (map_get (d_serverDrivers d) (rp_address proto)))) <$> protos.

(** One turn of the loop of [fetchReplicas]. *)
Definition fetch_from (name : string) (serverDriver : ServerDriver) : dproc (list Replica) :=
  call (databasesGet (sd_stub serverDriver) (DatabaseManager_getReq name)) ≫= λ res,
  match res with
  | Some db => gets (replicas_of name (dp_replicas db))
  | None => throw (type_error "replicas")
  end.

(** Errors after which the next server is tried. *)
Definition fetch_next (err : exn) : bool :=
  has_template DATABASE_DOES_NOT_EXIST err || has_template UNABLE_TO_CONNECT err.

Fixpoint fetch_loop (name : string) (servers : list ServerDriver) : dproc (list Replica) :=
  match servers with
  | [] => throw (driver_error UNABLE_TO_CONNECT [])
  | serverDriver :: servers' =>
      try_catch (fetch_from name serverDriver) (λ err,
        if fetch_next err then fetch_loop name servers' else throw err)
  end.

Definition fetchReplicas (name : string) : dproc (list Replica) :=
  gets (λ d, (d_serverDrivers d).*2) ≫= λ servers, fetch_loop name servers.

(** [TypeDBDatabaseImpl.get] *)
Definition database_get (name : string) : dproc nat :=
  fetchReplicas name ≫= λ reps, new_database name reps.

(** [TypeDBDatabaseImpl.of] *)
Definition database_of (protoDB : DatabaseProto) : dproc nat :=
  gets (replicas_of (dp_name protoDB) (dp_replicas protoDB)) ≫= λ reps,
  new_database (dp_name protoDB) reps.

(** ** Running tasks *)

(** A task gets the server's driver and the database on that server. *)
Definition task (A : Type) : Type := option ServerDriver → ServerDatabase → dproc A.

Definition get_database (r : nat) : dproc Database := λ d,
  match d_databases d !! r with
  | Some db => (Ret db, d)
  | None => (Throw (type_error "replicas"), d)
  end.

(** [task(this._driver.serverDrivers.get(replica.server), replica.database)] *)
Definition run_task {A} (t : task A) (replica : Replica) : dproc A :=
  gets (λ d, map_get (d_serverDrivers d) (server replica)) ≫= λ sd, t sd (database replica).

Fixpoint any_loop {A} (t : task A) (reps : list Replica) : dproc A :=
  match reps with
  | [] => throw (driver_error UNABLE_TO_CONNECT [])
  | replica :: reps' =>
      try_catch (run_task t replica) (λ e,
        if has_template UNABLE_TO_CONNECT e then any_loop t reps' else throw e)
  end.

Definition runOnAnyReplica {A} (r : nat) (t : task A) : dproc A :=
  get_database r ≫= λ db, any_loop t (replicas db).

Definition waitForPrimaryReplicaSelection : dproc unit :=
  modify (λ d, mkDriver (d_world d) (d_isOpen d) (d_isCloud d) (d_serverDrivers d)
    (d_database_cache d) (d_sessions d) (d_databases d)
    (S (waits d)) (clients d)).

(** [this._replicas = reps] *)
Definition set_replicas (r : nat) (reps : list Replica) : dproc unit :=
  modify (λ d, set_databases (alter (λ db, mkDatabase (db_name db) reps) r (d_databases d)) d).

(** The loop of [seekPrimaryReplica]: [n] turns are left. *)
Fixpoint seek_loop (n : nat) (r : nat) (name : string) : dproc Replica :=
  match n with
  | 0 => throw (driver_error UNABLE_TO_CONNECT [])
  | S n' =>
      fetchReplicas name ≫= λ reps,
      set_replicas r reps ≫= λ _,
      get_database r ≫= λ db,
      match primaryReplica db with
      | Some primary => mret primary
      | None => waitForPrimaryReplicaSelection ≫= λ _, seek_loop n' r name
      end
  end.

Definition seekPrimaryReplica (r : nat) : dproc Replica :=
  get_database r ≫= λ db, seek_loop FETCH_REPLICAS_MAX_RETRIES r (db_name db).

(** Errors after which the primary replica is looked for again. *)
Definition primary_moved (e : exn) : bool :=
  has_template UNABLE_TO_CONNECT e || has_template CLOUD_REPLICA_NOT_PRIMARY e.

(** The loop of [runOnPrimaryReplica]; a missing primary replica is read as
    null inside the [try]. *)
Fixpoint primary_loop {A} (n : nat) (r : nat) (t : task A) : dproc A :=
  match n with
  | 0 => throw (driver_error UNABLE_TO_CONNECT [])
  | S n' =>
      try_catch
        (get_database r ≫= λ db,
         match primaryReplica db with
         | Some primary => run_task t primary
         | None => throw (type_error "server")
         end)
        (λ e,
          if primary_moved e then
            waitForPrimaryReplicaSelection ≫= λ _,
            seekPrimaryReplica r ≫= λ _,
            primary_loop n' r t
          else throw e)
  end.

(** [if (!this.primaryReplica) await this.seekPrimaryReplica()] *)
Definition ensure_primary (r : nat) : dproc unit :=
  get_database r ≫= λ db,
  match primaryReplica db with
  | Some _ => mret tt
  | None => seekPrimaryReplica r ≫= λ _, mret tt
  end.

Definition runOnPrimaryReplica {A} (r : nat) (t : task A) : dproc A :=
  ensure_primary r ≫= λ _,
  primary_loop PRIMARY_REPLICA_TASK_MAX_RETRIES r t.

Definition runFailsafe {A} (r : nat) (t : task A) : dproc A :=
  try_catch (runOnAnyReplica r t) (λ e,
    if has_template CLOUD_REPLICA_NOT_PRIMARY e then runOnPrimaryReplica r t else throw e).

(** ** [ServerDatabase] and the operations of a database *)

Definition sdb_delete (db : ServerDatabase) : dproc unit :=
  stub_of (sdb_driver db) ≫= λ st, call (databaseDelete st (Database_deleteReq (sdb_name db))).
Definition sdb_schema (db : ServerDatabase) : dproc string :=
  stub_of (sdb_driver db) ≫= λ st, call (databaseSchema st (Database_schemaReq (sdb_name db))).
Definition sdb_typeSchema (db : ServerDatabase) : dproc string :=
  stub_of (sdb_driver db) ≫= λ st,
  call (databaseTypeSchema st (Database_typeSchemaReq (sdb_name db))).
Definition sdb_ruleSchema (db : ServerDatabase) : dproc string :=
  stub_of (sdb_driver db) ≫= λ st,
  call (databaseRuleSchema st (Database_ruleSchemaReq (sdb_name db))).

Definition database_delete_op (r : nat) : dproc unit :=
  runOnPrimaryReplica r (λ _ db, sdb_delete db).
Definition schema (r : nat) : dproc string := runFailsafe r (λ _ db, sdb_schema db).
Definition typeSchema (r : nat) : dproc string := runFailsafe r (λ _ db, sdb_typeSchema db).
Definition ruleSchema (r : nat) : dproc string := runFailsafe r (λ _ db, sdb_ruleSchema db).

(** ** Frame lemmas *)

Lemma call_throws P {A} (m : proc (World W) exn A) :
  throws_only P m → throws_only P (call m).
Proof. intros Hm d e. unfold call. specialize (Hm (d_world d) e). by destruct (m (d_world d)). Qed.

Lemma call_costs f {A} (m : proc (World W) exn A) :
  (∀ w d, f (set_world w d) = f d) → costs f 0 (call m).
Proof. intros Hf d. unfold call. destruct (m (d_world d)). simpl. rewrite Hf. lia. Qed.

(** Stub calls change nothing of the driver but the world. *)
Lemma call_databases {A} (m : proc (World W) exn A) d :
  d_databases (call m d).2 = d_databases d.
Proof. unfold call. by destruct (m (d_world d)). Qed.

(** ** Looking for the primary replica *)

Lemma fetch_loop_databases name servers d :
  d_databases (fetch_loop name servers d).2 = d_databases d.
Proof.
  revert d. induction servers as [|sd servers IH]; intros d; [done|]. simpl.
  unfold try_catch, fetch_from. rewrite proc_bind_eq.
  pose proof (call_databases (databasesGet (sd_stub sd) (DatabaseManager_getReq name)) d) as Hc.
  destruct (call _ d) as [[[db|]|e|] d']; simpl in *; try done.
  destruct (fetch_next e); [|done]. by rewrite IH.
Qed.

(** After a successful search the database has the replica that was found as
    its primary replica. *)
Lemma seek_loop_post n r name d p d' db :
  d_databases d !! r = Some db → seek_loop n r name d = (Ret p, d') →
  ∃ db', d_databases d' !! r = Some db' ∧ primaryReplica db' = Some p ∧
         db_name db' = db_name db.
Proof.
  revert d db. induction n as [|n IH]; intros d db Hdb; [done|]. simpl. rewrite proc_bind_eq.
  pose proof (fetch_loop_databases name (d_serverDrivers d).*2 d) as Hf.
  change (fetchReplicas name d) with (fetch_loop name (d_serverDrivers d).*2 d).
  destruct (fetch_loop _ _ d) as [[reps|e|] d1]; try done. simpl in Hf.
  assert (alter (λ db, mkDatabase (db_name db) reps) r (d_databases d1) !! r =
    Some (mkDatabase (db_name db) reps)) as Hr.
  { by rewrite list_lookup_alter, decide_True, Hf, Hdb by done. }
  unfold set_replicas, modify. rewrite !proc_bind_eq. unfold get_database. simpl. rewrite Hr.
  destruct (primaryReplica (mkDatabase (db_name db) reps)) as [p'|] eqn:Hp.
  - intros [= <- <-]. eauto.
  - rewrite proc_bind_eq. simpl. intros Hs.
    by apply (IH _ (mkDatabase (db_name db) reps)) in Hs.
Qed.

Lemma seekPrimaryReplica_post r d p d' db :
  d_databases d !! r = Some db → seekPrimaryReplica r d = (Ret p, d') →
  ∃ db', d_databases d' !! r = Some db' ∧ primaryReplica db' = Some p ∧
         db_name db' = db_name db.
Proof.
  intros Hdb. unfold seekPrimaryReplica. rewrite proc_bind_eq. unfold get_database.
  rewrite Hdb. by apply seek_loop_post.
Qed.

(** Reading a property of a missing primary replica. *)
Definition null_primary : exn := type_error "server".

Lemma driver_error_not_null a : TypeDBDriverError a ≠ null_primary.
Proof.
  destruct a as [?|?|[]]; try done. unfold TypeDBDriverError. repeat case_match; done.
Qed.

Lemma databasesGet_not_null r req : throws_only (λ e, e ≠ null_primary) (databasesGet r req).
Proof. apply renewing_throws; try done. apply driver_error_not_null. Qed.

Lemma fetchReplicas_not_null name : throws_only (λ e, e ≠ null_primary) (fetchReplicas name).
Proof.
  apply throws_bind; [apply throws_gets|]. intros servers.
  induction servers as [|sd servers IH]; simpl; [by apply throws_throw|].
  apply (throws_try_catch _ (λ e, e ≠ null_primary));
    [|intros e He; destruct (fetch_next e); [exact IH|by apply throws_throw]].
  apply throws_bind; [apply call_throws, databasesGet_not_null|].
  intros [db|]; [apply throws_gets|by apply throws_throw].
Qed.

Lemma get_database_not_null r : throws_only (λ e, e ≠ null_primary) (get_database r).
Proof. intros d e. unfold get_database. by destruct (d_databases d !! r); [|intros [= <-]]. Qed.

Lemma seek_not_null r : throws_only (λ e, e ≠ null_primary) (seekPrimaryReplica r).
Proof.
  apply throws_bind; [apply get_database_not_null|]. intros db.
  induction FETCH_REPLICAS_MAX_RETRIES as [|n IH]; simpl; [by apply throws_throw|].
  apply throws_bind; [apply fetchReplicas_not_null|]. intros reps.
  apply throws_bind; [apply throws_modify|]. intros _.
  apply throws_bind; [apply get_database_not_null|]. intros db'. destruct (primaryReplica db'); [apply throws_ret|].
  apply throws_bind; [apply throws_modify|]. intros _. exact IH.
Qed.

Lemma ensure_primary_post r d d' db :
  d_databases d !! r = Some db → ensure_primary r d = (Ret tt, d') →
  ∃ db' p, d_databases d' !! r = Some db' ∧ primaryReplica db' = Some p ∧
           db_name db' = db_name db.
Proof.
  intros Hdb. unfold ensure_primary. rewrite proc_bind_eq. unfold get_database at 1. rewrite Hdb.
  destruct (primaryReplica db) as [p|] eqn:Hp; [intros [= <-]; eauto|].
  rewrite proc_bind_eq. pose proof (seekPrimaryReplica_post r d) as Hpost.
  destruct (seekPrimaryReplica r d) as [[p'|e'|] d2]; [|done..]. intros [= <-].
  destruct (Hpost _ _ _ Hdb eq_refl) as (db2 & ?). eauto.
Qed.

Lemma ensure_primary_not_null r : throws_only (λ e, e ≠ null_primary) (ensure_primary r).
Proof.
  apply throws_bind; [apply get_database_not_null|]. intros db.
  destruct (primaryReplica db); [apply throws_ret|].
  apply throws_bind; [apply seek_not_null|]. intros. apply throws_ret.
Qed.

Lemma primary_loop_not_null {A} n r (t : task A) d db p :
  (∀ sd sdb, throws_only (λ e, e ≠ null_primary) (t sd sdb)) →
  (∀ sd sdb d, is_Some (d_databases d !! r) → is_Some (d_databases (t sd sdb d).2 !! r)) →
  d_databases d !! r = Some db → primaryReplica db = Some p →
  (primary_loop n r t d).1 ≠ Throw null_primary.
Proof.
  intros Ht Hkeep. revert d db p. induction n as [|n IH]; intros d db p Hdb Hp; [done|].
  simpl. unfold try_catch. rewrite proc_bind_eq. unfold get_database at 1. rewrite Hdb, Hp.
  unfold run_task. rewrite proc_bind_eq. simpl.
  specialize (Hkeep (map_get (d_serverDrivers d) (server p)) (database p) d).
  specialize (Ht (map_get (d_serverDrivers d) (server p)) (database p) d).
  destruct (t _ _ d) as [[a|e|] d1]; simpl in *; [done| |done].
  destruct (primary_moved e); [|intros [= ->]; by apply (Ht null_primary)].
  destruct Hkeep as [db1 Hdb1]; [by rewrite Hdb|].
  rewrite proc_bind_eq. simpl. rewrite proc_bind_eq.
  match goal with |- context [seekPrimaryReplica r ?x] =>
    pose proof (seek_not_null r x) as Hs; pose proof (seekPrimaryReplica_post r x) as Hpost end.
  destruct (seekPrimaryReplica r _) as [[p'|e'|] d2]; simpl in *; [|intros [= ->]; by apply (Hs null_primary)|done].
  destruct (Hpost _ _ _ Hdb1 eq_refl) as (db2 & Hdb2 & Hp2 & _). by eapply IH.
Qed.

(** C29 - a missing primary replica is never dereferenced: when a task that
    itself reads no missing replica runs on the primary replica, and database
    objects are not discarded, the run never ends in reading a property of a
    null primary replica, however often the primary replica moves, as long as
    no other call changes the database object meanwhile. *)
Theorem runOnPrimaryReplica_never_null {A} (r : nat) (t : task A) (d : Driver)
    (db : Database) (Hdb : d_databases d !! r = Some db)
    (Ht : ∀ sd sdb, throws_only (λ e, e ≠ null_primary) (t sd sdb))
    (Hkeep : ∀ sd sdb d, is_Some (d_databases d !! r) →
                         is_Some (d_databases (t sd sdb d).2 !! r)) :
  (runOnPrimaryReplica r t d).1 ≠ Throw null_primary.
Proof.
  unfold runOnPrimaryReplica. rewrite proc_bind_eq.
  pose proof (ensure_primary_not_null r d) as Hs.
  pose proof (ensure_primary_post r d) as Hpost.
  destruct (ensure_primary r d) as [[[]|e'|] d2]; cbn [fst] in *;
    [|intros [= ->]; by apply (Hs null_primary)|done].
  destruct (Hpost _ _ Hdb eq_refl) as (db2 & p & Hdb2 & Hp2 & _).
  by eapply primary_loop_not_null.
Qed.

(** ** Bounded waiting *)

(** The time spent waiting for elections. *)
Definition waited_ms (d : Driver) : N :=
  N.of_nat (waits d) * WAIT_FOR_PRIMARY_REPLICA_SELECTION_MS.

Lemma fetchReplicas_waits name : costs waits 0 (fetchReplicas name).
Proof.
  apply (costs_bind _ 0 0); [apply costs_gets|]. intros servers.
  induction servers as [|sd servers IH]; simpl; [apply costs_throw|].
  apply (costs_try_catch _ 0 0).
  - apply (costs_bind _ 0 0); [by apply call_costs|].
    intros [db|]; [apply costs_gets|apply costs_throw].
  - intros e. destruct (fetch_next e); [exact IH|apply costs_throw].
Qed.

Lemma get_database_waits r : costs waits 0 (get_database r).
Proof. intros d. unfold get_database. destruct (d_databases d !! r); simpl; lia. Qed.

Lemma wait_waits : costs waits 1 waitForPrimaryReplicaSelection.
Proof. intros d. simpl. lia. Qed.

Lemma seek_loop_waits n r name : costs waits n (seek_loop n r name).
Proof.
  induction n as [|n IH]; cbn [seek_loop]; [apply costs_throw|].
  apply (costs_bind _ 0 (S n)); [apply fetchReplicas_waits|]. intros reps.
  apply (costs_bind _ 0 (S n)); [intros d; simpl; lia|]. intros _.
  apply (costs_bind _ 0 (S n)); [apply get_database_waits|]. intros db'.
  destruct (primaryReplica db'); [eapply costs_weaken; [|apply costs_ret]; lia|].
  apply (costs_bind _ 1 n); [apply wait_waits|]. intros _. exact IH.
Qed.

Lemma seek_waits r : costs waits FETCH_REPLICAS_MAX_RETRIES (seekPrimaryReplica r).
Proof.
  apply (costs_bind _ 0 FETCH_REPLICAS_MAX_RETRIES); [apply get_database_waits|].
  intros db. apply seek_loop_waits.
Qed.

Lemma primary_loop_waits {A} n r (t : task A) :
  (∀ sd sdb, costs waits 0 (t sd sdb)) →
  costs waits (n * (1 + FETCH_REPLICAS_MAX_RETRIES)) (primary_loop n r t).
Proof.
  intros Ht. induction n as [|n IH]; cbn [primary_loop]; [apply costs_throw|].
  apply (costs_try_catch _ 0).
  - apply (costs_bind _ 0 0); [apply get_database_waits|]. intros db.
    destruct (primaryReplica db); [|apply costs_throw].
    apply (costs_bind _ 0 0); [apply costs_gets|]. intros sd. apply Ht.
  - intros e. destruct (primary_moved e); [|eapply costs_weaken; [|apply costs_throw]; lia].
    apply (costs_bind _ 1 (FETCH_REPLICAS_MAX_RETRIES + n * (1 + FETCH_REPLICAS_MAX_RETRIES)));
      [apply wait_waits|]. intros _.
    apply costs_bind; [apply seek_waits|]. intros _. exact IH.
Qed.

(** C30 - the search for a primary replica is bounded: running a task that
    does not itself wait on the primary replica waits at most four minutes
    for elections (10 searches of 10 waits, one initial search and one wait
    before each repeat, of 2 seconds each). *)
Theorem runOnPrimaryReplica_bounded_wait {A} (r : nat) (t : task A) (d : Driver)
    (Ht : ∀ sd sdb, costs waits 0 (t sd sdb)) :
  (waited_ms (runOnPrimaryReplica r t d).2 <= waited_ms d + 240000)%N.
Proof.
  assert (costs waits (FETCH_REPLICAS_MAX_RETRIES + PRIMARY_REPLICA_TASK_MAX_RETRIES *
    (1 + FETCH_REPLICAS_MAX_RETRIES)) (runOnPrimaryReplica r t)) as H.
  { apply costs_bind; [|intros _; by apply primary_loop_waits].
    apply (costs_bind _ 0 FETCH_REPLICAS_MAX_RETRIES); [apply get_database_waits|]. intros db.
    destruct (primaryReplica db); [eapply costs_weaken; [|apply costs_ret]; lia|].
    rewrite <- (Nat.add_0_r FETCH_REPLICAS_MAX_RETRIES).
    apply costs_bind; [apply seek_waits|]. intros _. apply costs_ret. }
  specialize (H d). unfold FETCH_REPLICAS_MAX_RETRIES, PRIMARY_REPLICA_TASK_MAX_RETRIES in H.
  unfold waited_ms, WAIT_FOR_PRIMARY_REPLICA_SELECTION_MS. lia.
Qed.

(** ** Failover *)

(** Outcomes after which the next replica is tried. *)
Definition unreachable {A} (o : outcome exn A) : bool :=
  match o with
  | Throw e => has_template UNABLE_TO_CONNECT e
  | _ => false
  end.

Lemma any_loop_first {A} (t : task A) (f : Replica → outcome exn A) reps d :
  (∀ rep, rep ∈ reps → run_task t rep d = (f rep, d)) →
  any_loop t reps d =
    (match List.find (λ rep, negb (unreachable (f rep))) reps with
     | Some rep => f rep
     | None => Throw (driver_error UNABLE_TO_CONNECT [])
     end, d).
Proof.
  induction reps as [|rep reps IH]; intros Hf; [done|]. simpl. unfold try_catch at 1.
  rewrite (Hf rep) by by left. destruct (f rep) as [a|e|] eqn:Er; simpl; rewrite ?Er; try done.
  destruct (has_template UNABLE_TO_CONNECT e); simpl; rewrite ?Er; [|done].
  apply IH. intros rep' Hr. apply Hf. by right.
Qed.

(** Failover to a reachable replica: a task whose outcome on each
    replica is fixed comes to its outcome on the first replica that can be
    reached, and fails with a connection error only when none can; that
    error carries no template, so callers do not take it for one. *)
Theorem runOnAnyReplica_first_reachable {A} (r : nat) (t : task A) (d : Driver)
    (db : Database) (f : Replica → outcome exn A)
    (Hdb : d_databases d !! r = Some db)
    (Hf : ∀ rep, rep ∈ replicas db → run_task t rep d = (f rep, d)) :
  runOnAnyReplica r t d =
    (match List.find (λ rep, negb (unreachable (f rep))) (replicas db) with
     | Some rep => f rep
     | None => Throw (driver_error UNABLE_TO_CONNECT [])
     end, d) ∧
  has_template UNABLE_TO_CONNECT (driver_error UNABLE_TO_CONNECT []) = false.
Proof.
  split; [|done]. unfold runOnAnyReplica. rewrite proc_bind_eq. unfold get_database.
  rewrite Hdb. by apply any_loop_first.
Qed.

(** The task could not reach any of the replicas, tried one after the other. *)
Inductive passed {A} (t : task A) : list Replica → Driver → Driver → Prop :=
  | passed_none d : passed t [] d d
  | passed_one rep reps d e d1 d2 :
      run_task t rep d = (Throw e, d1) → has_template UNABLE_TO_CONNECT e = true →
      passed t reps d1 d2 → passed t (rep :: reps) d d2.

Lemma passed_loop {A} (t : task A) bad rest d d1 :
  passed t bad d d1 → any_loop t (bad ++ rest) d = any_loop t rest d1.
Proof.
  induction 1 as [d|rep reps d e d1 d2 Hrun He _ IH]; [done|]. cbn [app any_loop].
  by rewrite (try_catch_run _ _ _ _ _ Hrun), He.
Qed.

(** The replica says that it is not the primary one. *)
Definition wants_primary {A} (o : outcome exn A) : bool :=
  match o with Throw e => has_template CLOUD_REPLICA_NOT_PRIMARY e | _ => false end.

(** C14 - tasks are run on the first replica that can be reached: the replicas are
    tried in order, each once and each in the state that the one before left.
    The run comes to exactly what the task comes to on the first that can be
    reached, be it a result, an error or a wait for ever, unless the task needs
    the primary replica, on which it is then run; and it fails, unable to
    connect, when no replica can be reached. *)
Theorem runFailsafe_tries_in_order {A} (r : nat) (t : task A) (d d1 : Driver) (db : Database)
    (bad rest : list Replica) (Hdb : d_databases d !! r = Some db)
    (Hreps : replicas db = bad ++ rest) (Hbad : passed t bad d d1) :
  (rest = [] → runFailsafe r t d = (Throw (driver_error UNABLE_TO_CONNECT []), d1)) ∧
  ∀ rep others o d2, rest = rep :: others → run_task t rep d1 = (o, d2) → unreachable o = false →
    runFailsafe r t d = if wants_primary o then runOnPrimaryReplica r t d2 else (o, d2).
Proof.
  assert (runOnAnyReplica r t d = any_loop t rest d1) as Hany.
  { unfold runOnAnyReplica. rewrite proc_bind_eq. unfold get_database. rewrite Hdb, Hreps.
    by apply passed_loop. }
  unfold runFailsafe. split.
  - intros ->. by rewrite (try_catch_run _ _ _ _ _ Hany).
  - intros rep others o d2 -> Hrun Ho. cbn [any_loop] in Hany.
    rewrite (try_catch_run _ _ _ _ _ Hrun) in Hany. destruct o as [a|e|]; cbn in Ho.
    + by rewrite (try_catch_run _ _ _ _ _ Hany).
    + rewrite Ho in Hany. rewrite (try_catch_run _ _ _ _ _ Hany). cbn [wants_primary]. by destruct (has_template CLOUD_REPLICA_NOT_PRIMARY e).
    + by rewrite (try_catch_run _ _ _ _ _ Hany).
Qed.

Lemma sdb_schema_run sdb sd s d :
  sdb_driver sdb = Some sd → stub_heap (d_world d) !! sd_stub sd = Some s →
  let '(o, n) := database_schema (stub_address s) (call_credentials s)
                   (Database_schemaReq (sdb_name sdb)) (net (d_world d)) in
  sdb_schema sdb d =
    (match o with
     | Ret a => Ret a
     | Throw err => Throw (RawServiceError err)
     | Pending => Pending
     end, set_world (mkWorld n (stub_heap (d_world d))
            (rpc_log (d_world d) ++ [first_call (sd_stub sd) "database_schema" s])) d).
Proof.
  intros Hsd Hs. pose proof (renewing_raw_run (sd_stub sd) s "database_schema" database_schema
    (Database_schemaReq (sdb_name sdb)) (d_world d) Hs) as H.
  destruct (database_schema _ _ _ _) as [o n]. unfold sdb_schema, stub_of. rewrite Hsd.
  rewrite proc_bind_eq. simpl. unfold call, databaseSchema. by rewrite H.
Qed.

(** Reading a schema never fails over: the stub rejects the raw error,
    which neither failover test recognises, so the schema is asked of the
    first replica only, by one call, and an unreachable first replica makes
    the read fail even when others are up. *)
Theorem schema_asks_first_replica_only (r : nat) (d : Driver) (db : Database) (rep : Replica)
    (rest : list Replica) (sd : ServerDriver) (s : TypeDBStubImpl)
    (Hdb : d_databases d !! r = Some db) (Hreps : replicas db = rep :: rest)
    (Hsd : sdb_driver (database rep) = Some sd)
    (Hs : stub_heap (d_world d) !! sd_stub sd = Some s) :
  let d' := (schema r d).2 in
  rpc_log (d_world d') = rpc_log (d_world d) ++ [first_call (sd_stub sd) "database_schema" s] ∧
  (∀ err, (database_schema (stub_address s) (call_credentials s)
             (Database_schemaReq (sdb_name (database rep))) (net (d_world d))).1 = Throw err →
     (schema r d).1 = Throw (RawServiceError err)).
Proof.
  pose proof (sdb_schema_run (database rep) sd s d Hsd Hs) as H. cbv zeta.
  destruct (database_schema _ _ _ _) as [o n]. simpl in H.
  assert (runOnAnyReplica r (λ _ db, sdb_schema db) d = sdb_schema (database rep) d) as E.
  { unfold runOnAnyReplica. rewrite proc_bind_eq. unfold get_database. rewrite Hdb, Hreps. simpl.
    unfold try_catch, run_task. rewrite proc_bind_eq. simpl. rewrite H. by destruct o. }
  unfold schema, runFailsafe, try_catch. rewrite E, H.
  destruct o; simpl; (split; [done|]); intros err' [= <-]; done.
Qed.

(** One turn of the loop. *)
Lemma primary_loop_turn {A} n r (t : task A) d db p o d1 :
  d_databases d !! r = Some db → primaryReplica db = Some p → run_task t p d = (o, d1) →
  primary_loop (S n) r t d =
    match o with
    | Throw e =>
        if primary_moved e then
          (waitForPrimaryReplicaSelection ≫= λ _, seekPrimaryReplica r ≫= λ _,
           primary_loop n r t) d1
        else (Throw e, d1)
    | _ => (o, d1)
    end.
Proof.
  intros Hdb Hp Hrun. cbn [primary_loop]. erewrite try_catch_run;
    [|rewrite proc_bind_eq; unfold get_database; rewrite Hdb; cbn; rewrite Hp; exact Hrun].
  destruct o as [a|e|]; [done| |done]. by destruct (primary_moved e).
Qed.

(** A search that succeeds at once. *)
Lemma seek_first r d db reps d1 p :
  d_databases d !! r = Some db → fetchReplicas (db_name db) d = (Ret reps, d1) →
  primaryReplica (mkDatabase (db_name db) reps) = Some p →
  seekPrimaryReplica r d = (Ret p, (set_replicas r reps d1).2) ∧
  d_databases (set_replicas r reps d1).2 !! r = Some (mkDatabase (db_name db) reps).
Proof.
  intros Hdb Hfetch Hp.
  pose proof (fetch_loop_databases (db_name db) (d_serverDrivers d).*2 d) as Hsame.
  change (fetch_loop (db_name db) (d_serverDrivers d).*2 d) with (fetchReplicas (db_name db) d)
    in Hsame. rewrite Hfetch in Hsame. simpl in Hsame.
  assert (d_databases (set_replicas r reps d1).2 !! r = Some (mkDatabase (db_name db) reps))
    as Hnew by (simpl; by rewrite list_lookup_alter, decide_True, Hsame, Hdb by done).
  split; [|done]. unfold seekPrimaryReplica. rewrite proc_bind_eq. unfold get_database at 1.
  rewrite Hdb. unfold FETCH_REPLICAS_MAX_RETRIES. cbn [seek_loop].
  rewrite (proc_bind_run _ _ _ _ _ Hfetch).
  erewrite proc_bind_run; [|apply surjective_pairing].
  change ((set_replicas r reps d1).1) with (Ret (E := exn) tt). cbn beta iota.
  rewrite proc_bind_eq. unfold get_database at 1. rewrite Hnew. cbn beta iota. by rewrite Hp.
Qed.

(** From [d] on, the task was refused [n] times, each time on the primary
    replica known then, because it moved or could not be reached; after a wait
    the servers were asked for the replicas and named a primary one. That has led
    to the given state, in which the database is known as it was last fetched. *)
Inductive refused {A} (r : nat) (t : task A) (d : Driver) : nat → Database → Driver → Prop :=
  | refused_never db : d_databases d !! r = Some db → refused r t d 0 db d
  | refused_again n db d1 p e d2 db2 reps d3 :
      refused r t d n db d1 → primaryReplica db = Some p →
      run_task t p d1 = (Throw e, d2) → primary_moved e = true →
      d_databases d2 !! r = Some db2 →
      fetchReplicas (db_name db2) (waitForPrimaryReplicaSelection d2).2 = (Ret reps, d3) →
      is_Some (primaryReplica (mkDatabase (db_name db2) reps)) →
      refused r t d (S n) (mkDatabase (db_name db2) reps) (set_replicas r reps d3).2.

(** Each refusal is a turn of the loop. *)
Lemma refused_turns {A} r (t : task A) d n db d1 :
  refused r t d n db d1 →
  d_databases d1 !! r = Some db ∧ ∀ m, primary_loop (n + m) r t d = primary_loop m r t d1.
Proof.
  induction 1 as [db Hdb|n db d1 p e d2 db2 reps d3 H [IH1 IH2] Hp Hrun Hmoved Hdb2 Hfetch [p' Hp']];
    [done|].
  destruct (seek_first r (waitForPrimaryReplicaSelection d2).2 db2 reps d3 p' Hdb2 Hfetch Hp')
    as [Hseek Hnew].
  split; [done|]. intros m. change (S n + m) with (S (n + m)). rewrite plus_n_Sm, IH2.
  rewrite (primary_loop_turn m r t d1 db p _ _ IH1 Hp Hrun), Hmoved.
  rewrite proc_bind_eq. cbn [waitForPrimaryReplicaSelection modify].
  by rewrite (proc_bind_run _ _ _ _ _ Hseek).
Qed.

(** The search that a run may start with is not needed. *)
Lemma refused_start {A} r (t : task A) d n db d1 :
  refused r t d n db d1 → is_Some (primaryReplica db) →
  ensure_primary r d = (Ret tt, d).
Proof.
  intros H Hp. enough (∃ db0, d_databases d !! r = Some db0 ∧ is_Some (primaryReplica db0))
    as (db0 & Hdb & [p Hp0]).
  { unfold ensure_primary. rewrite proc_bind_eq. unfold get_database. rewrite Hdb. cbn.
    by rewrite Hp0. }
  revert Hp. induction H as [db Hdb|n db d1 p e d2 db2 reps d3 H IH Hp0]; intros Hp; [by exists db|].
  apply IH. by exists p.
Qed.

(** A task that is not refused: it returns, waits or throws another error. *)
Definition accepted {A} (o : outcome exn A) : bool :=
  match o with Throw e => negb (primary_moved e) | _ => true end.

(** C16 - failover to the new primary replica: after any number of refusals, each
    because the primary replica moved or could not be reached and each followed
    by a fetch in which the servers name a primary replica, the database has the
    replicas that were fetched last, and the task runs on the primary one of
    them. If it is not refused there, the run comes to exactly what it comes to,
    be it a result, another error or a wait for ever; after as many refusals as
    the loop has turns the run fails, unable to connect. *)
Theorem runOnPrimaryReplica_follows {A} (r : nat) (t : task A) (d d1 : Driver) (n : nat)
    (db : Database) (Hrefused : refused r t d n db d1) :
  d_databases d1 !! r = Some db ∧
  (∀ p o d2, n < PRIMARY_REPLICA_TASK_MAX_RETRIES → primaryReplica db = Some p →
     run_task t p d1 = (o, d2) → accepted o = true → runOnPrimaryReplica r t d = (o, d2)) ∧
  (n = PRIMARY_REPLICA_TASK_MAX_RETRIES →
     runOnPrimaryReplica r t d = (Throw (driver_error UNABLE_TO_CONNECT []), d1)).
Proof.
  destruct (refused_turns r t d n db d1 Hrefused) as [Hdb Hturns]. split; [done|].
  split.
  - intros p o d2 Hn Hp Hrun Hacc. unfold runOnPrimaryReplica.
    rewrite (proc_bind_run _ _ _ _ _ (refused_start r t d n db d1 Hrefused (mk_is_Some _ _ Hp))).
    replace PRIMARY_REPLICA_TASK_MAX_RETRIES
      with (n + S (PRIMARY_REPLICA_TASK_MAX_RETRIES - S n)) by lia.
    rewrite Hturns, (primary_loop_turn _ r t d1 db p _ _ Hdb Hp Hrun).
    destruct o as [a|e|]; cbn in Hacc; [done| |done]. apply negb_true_iff in Hacc. by rewrite Hacc.
  - intros ->. unfold runOnPrimaryReplica.
    assert (is_Some (primaryReplica db)) as Hp by by inversion Hrefused.
    rewrite (proc_bind_run _ _ _ _ _ (refused_start r t d _ db d1 Hrefused Hp)).
    specialize (Hturns 0). rewrite Nat.add_0_r in Hturns. by rewrite Hturns.
Qed.

(** ** The cache of database objects *)

Definition cache_ok (d : Driver) : Prop :=
  ∀ name r, d_database_cache d !! name = Some r →
    ∃ db, d_databases d !! r = Some db ∧ db_name db = name.

Lemma call_cache_ok {A} (m : proc (World W) exn A) : preserves cache_ok (call m).
Proof. intros d Hd. unfold call. by destruct (m (d_world d)). Qed.

Lemma new_database_cache_ok name reps : preserves cache_ok (new_database name reps).
Proof.
  intros d Hd name' r. simpl. intros [[<- <-]|[_ Hr]]%lookup_insert_Some.
  - eexists. split; [by rewrite lookup_app_r, Nat.sub_diag|done].
  - destruct (Hd _ _ Hr) as (db & Hdb & Hn). exists db. split; [by apply lookup_app_l_Some|done].
Qed.

Lemma set_replicas_cache_ok r reps : preserves cache_ok (set_replicas r reps).
Proof.
  intros d Hd name r'. simpl. intros Hr. destruct (Hd _ _ Hr) as (db & Hdb & Hn).
  rewrite list_lookup_alter. case_decide; [subst|by exists db]. rewrite Hdb. simpl. eauto.
Qed.

Lemma wait_cache_ok : preserves cache_ok waitForPrimaryReplicaSelection.
Proof. intros d Hd. exact Hd. Qed.

Lemma get_database_cache_ok r : preserves cache_ok (get_database r).
Proof. intros d Hd. unfold get_database. by destruct (d_databases d !! r). Qed.

Lemma fetchReplicas_cache_ok name : preserves cache_ok (fetchReplicas name).
Proof.
  apply preserves_bind; [apply preserves_gets|]. intros servers.
  induction servers as [|sd servers IH]; simpl; [apply preserves_throw|].
  apply preserves_try_catch; [|intros e; destruct (fetch_next e); auto with drv].
  apply preserves_bind; [apply call_cache_ok|]. intros [db|]; auto with drv.
Qed.

Lemma database_get_cache_ok name : preserves cache_ok (database_get name).
Proof.
  apply preserves_bind; [apply fetchReplicas_cache_ok|]. intros. apply new_database_cache_ok.
Qed.

Lemma seek_cache_ok r : preserves cache_ok (seekPrimaryReplica r).
Proof.
  apply preserves_bind; [apply get_database_cache_ok|]. intros db.
  induction FETCH_REPLICAS_MAX_RETRIES as [|n IH]; cbn [seek_loop]; [apply preserves_throw|].
  apply preserves_bind; [apply fetchReplicas_cache_ok|]. intros reps.
  apply preserves_bind; [apply set_replicas_cache_ok|]. intros _.
  apply preserves_bind; [apply get_database_cache_ok|]. intros db'.
  destruct (primaryReplica db'); [apply preserves_ret|].
  apply preserves_bind; [apply wait_cache_ok|]. intros _. exact IH.
Qed.

Lemma primary_loop_cache_ok {A} n r (t : task A) :
  (∀ sd sdb, preserves cache_ok (t sd sdb)) → preserves cache_ok (primary_loop n r t).
Proof.
  intros Ht. induction n as [|n IH]; cbn [primary_loop]; [apply preserves_throw|].
  apply preserves_try_catch.
  - apply preserves_bind; [apply get_database_cache_ok|]. intros db.
    destruct (primaryReplica db); [|apply preserves_throw].
    apply preserves_bind; [apply preserves_gets|]. intros sd. apply Ht.
  - intros e. destruct (primary_moved e); [|apply preserves_throw].
    apply preserves_bind; [apply wait_cache_ok|]. intros _.
    apply preserves_bind; [apply seek_cache_ok|]. intros _. exact IH.
Qed.

Lemma runOnPrimaryReplica_cache_ok {A} r (t : task A) :
  (∀ sd sdb, preserves cache_ok (t sd sdb)) → preserves cache_ok (runOnPrimaryReplica r t).
Proof.
  intros Ht. apply preserves_bind; [|intros _; by apply primary_loop_cache_ok].
  apply preserves_bind; [apply get_database_cache_ok|]. intros db.
  destruct (primaryReplica db); [apply preserves_ret|].
  apply preserves_bind; [apply seek_cache_ok|]. intros. apply preserves_ret.
Qed.
End database.

Arguments Driver : clear implicits.
Arguments task : clear implicits.

(** ** A concrete cluster *)

(** Two servers; the state names the primary one, and the other refuses. The
    schema is served by the primary one and the other is down. *)
Definition not_primary : ServiceError := mkServiceError INTERNAL "" "[RPL01] not primary".
Definition down : ServiceError := mkServiceError UNAVAILABLE "" "14 UNAVAILABLE".

Definition at_primary {A} (a : A) (err : ServiceError) : rpc string A := λ addr _ _ primary,
  if bool_decide (addr = primary) then (Ret a, primary) else (Throw err, primary).

#[local] Instance cluster : GRPCStub string := {|
  databases_contains := at_primary true not_primary;
  databases_get := λ _ _ _ primary, (Ret (Some (mkDatabaseProto "db"
    [mkReplicaProto "a" 2 (bool_decide (primary = "a")) false;
     mkReplicaProto "b" 2 (bool_decide (primary = "b")) true])), primary);
  database_schema := at_primary "define" down;
  connection_open := @connection_open _ demo_server; servers_all := @servers_all _ demo_server;
  databases_create := @databases_create _ demo_server;
  databases_all := @databases_all _ demo_server;
  database_delete := @database_delete _ demo_server;
  database_type_schema := @database_type_schema _ demo_server;
  database_rule_schema := @database_rule_schema _ demo_server;
  session_open := @session_open _ demo_server; session_close := @session_close _ demo_server;
  session_pulse := @session_pulse _ demo_server; users_all := @users_all _ demo_server;
  users_contains := @users_contains _ demo_server; users_create := @users_create _ demo_server;
  users_delete := @users_delete _ demo_server;
  users_password_set := @users_password_set _ demo_server;
  users_get := @users_get _ demo_server;
  user_password_update := @user_password_update _ demo_server;
  user_token := @user_token _ demo_server; grpc_transaction := @grpc_transaction _ demo_server;
|}.

Definition sd_a : ServerDriver := mkServerDriver "a" 0.
Definition sd_b : ServerDriver := mkServerDriver "b" 1.
Definition rep_a : Replica := mkReplica "a" (mkServerDatabase "db" (Some sd_a)) 1 true false.
Definition rep_b : Replica := mkReplica "b" (mkServerDatabase "db" (Some sd_b)) 1 false true.

(** The driver believes that [a] is primary. *)
Definition demo_driver (primary : string) : Driver string unit :=
  mkDriver (mkWorld primary [mkStub "a" None None false; mkStub "b" None None false] [])
    true true [("a", sd_a); ("b", sd_b)] {[ "db" := 0 ]} ∅ [mkDatabase "db" [rep_a; rep_b]] 0 tt.

Definition contains_task : task string unit bool := λ sd _,
  stub_of sd ≫= λ st, call (databasesContains st (DatabaseManager_containsReq "db")).

Lemma contains_task_not_null sd sdb :
  throws_only (λ e, e ≠ null_primary) (contains_task sd sdb).
Proof.
  apply throws_bind; [destruct sd; [apply throws_ret|by apply throws_throw]|].
  intros st. apply call_throws, renewing_throws; try done. apply driver_error_not_null.
Qed.

Lemma runOnPrimaryReplica_never_null_witness :
  d_databases (demo_driver "b") !! 0 = Some (mkDatabase "db" [rep_a; rep_b]) ∧
  (runOnPrimaryReplica 0 contains_task (demo_driver "b")).1 ≠ Throw null_primary.
Proof.
  split; [reflexivity|].
  apply (runOnPrimaryReplica_never_null 0 contains_task (demo_driver "b") _ eq_refl).
  - apply contains_task_not_null.
  - intros [sd|] sdb d Hd; [|done]. unfold contains_task, stub_of. rewrite proc_bind_eq.
    cbn -[call]. by rewrite call_databases.
Defined.

Lemma runOnPrimaryReplica_bounded_wait_witness :
  (waited_ms (runOnPrimaryReplica 0 contains_task (demo_driver "b")).2 <= 240000)%N.
Proof.
  apply (runOnPrimaryReplica_bounded_wait 0 contains_task (demo_driver "b")).
  intros [sd|] sdb; [|apply costs_throw]. intros d. unfold contains_task.
  rewrite proc_bind_eq. cbn -[call]. pose proof (call_costs waits
    (databasesContains (sd_stub sd) (DatabaseManager_containsReq "db")) (λ _ _, eq_refl) d). lia.
Defined.

Lemma runOnPrimaryReplica_follows_witness :
  let r := runOnPrimaryReplica 0 contains_task (demo_driver "b") in
  r.1 = Ret true ∧ d_databases r.2 !! 0 = Some (mkDatabase "db"
    [mkReplica "a" (mkServerDatabase "db" (Some sd_a)) 2 false false;
     mkReplica "b" (mkServerDatabase "db" (Some sd_b)) 2 true true]).
Proof.
  pose (d1 := (run_task contains_task rep_a (demo_driver "b")).2).
  pose (d2 := (fetchReplicas "db" (waitForPrimaryReplicaSelection d1).2).2).
  pose (reps := [mkReplica "a" (mkServerDatabase "db" (Some sd_a)) 2 false false;
                 mkReplica "b" (mkServerDatabase "db" (Some sd_b)) 2 true true]).
  pose (p2 := mkReplica "b" (mkServerDatabase "db" (Some sd_b)) 2 true true).
  destruct (runOnPrimaryReplica_follows 0 contains_task (demo_driver "b") (set_replicas 0 reps d2).2 1
    (mkDatabase "db" reps)) as (_ & H & _).
  - apply (refused_again 0 contains_task _ 0 (mkDatabase "db" [rep_a; rep_b]) (demo_driver "b") rep_a
      (wrapped not_primary) d1 (mkDatabase "db" [rep_a; rep_b])); try (vm_compute; reflexivity).
    + constructor. vm_compute. reflexivity.
    + vm_compute. by eexists.
  - cbv zeta. rewrite (H p2 (Ret true) (run_task contains_task p2 (set_replicas 0 reps d2).2).2);
      [split; vm_compute; reflexivity|unfold PRIMARY_REPLICA_TASK_MAX_RETRIES; lia|
       vm_compute; reflexivity..].
Defined.

(** A task whose outcome depends on the replica alone. *)
Definition name_task : task string unit string := λ _ sdb,
  match sdb_driver sdb with
  | Some sd => if bool_decide (sd_address sd = "a") then throw (wrapped down)
               else mret (sd_address sd)
  | None => throw (wrapped down)
  end.

Lemma runFailsafe_tries_in_order_witness :
  runFailsafe 0 name_task (demo_driver "a") = (Ret "b", demo_driver "a") ∧
  (runFailsafe 0 contains_task (demo_driver "b")).1 = Ret true.
Proof.
  split.
  - assert (passed name_task [rep_a] (demo_driver "a") (demo_driver "a")) as Hbad.
    { apply (passed_one _ _ _ _ (wrapped down) (demo_driver "a"));
        [vm_compute; reflexivity|reflexivity|apply passed_none]. }
    exact (proj2 (runFailsafe_tries_in_order 0 name_task (demo_driver "a") (demo_driver "a")
      (mkDatabase "db" [rep_a; rep_b]) [rep_a] [rep_b] eq_refl eq_refl Hbad)
      rep_b [] (Ret "b") (demo_driver "a") eq_refl eq_refl eq_refl).
  - rewrite (proj2 (runFailsafe_tries_in_order 0 contains_task (demo_driver "b") (demo_driver "b")
      (mkDatabase "db" [rep_a; rep_b]) [] [rep_a; rep_b] eq_refl eq_refl (passed_none _ _))
      rep_a [rep_b] (Throw (wrapped not_primary)) (run_task contains_task rep_a (demo_driver "b")).2
      eq_refl); vm_compute; reflexivity.
Defined.

Lemma runOnAnyReplica_first_reachable_witness :
  runOnAnyReplica 0 name_task (demo_driver "a") = (Ret "b", demo_driver "a").
Proof.
  refine (proj1 (runOnAnyReplica_first_reachable 0 name_task (demo_driver "a")
    (mkDatabase "db" [rep_a; rep_b])
    (λ rep, (run_task name_task rep (demo_driver "a")).1) eq_refl _)).
  intros rep [->|[->|[]%elem_of_nil]%elem_of_cons]%elem_of_cons; vm_compute; reflexivity.
Defined.

Lemma schema_asks_first_replica_only_witness :
  (schema 0 (demo_driver "b")).1 = Throw (RawServiceError down).
Proof.
  apply (schema_asks_first_replica_only 0 (demo_driver "b") (mkDatabase "db" [rep_a; rep_b]) rep_a
    [rep_b] sd_a (mkStub "a" None None false) eq_refl eq_refl eq_refl eq_refl).
  vm_compute. reflexivity.
Defined.
