(* ===== verification/Managers.v ===== *)
(** * The database and user managers

    Models [connection/TypeDBDatabaseManagerImpl.ts], [user/UserManagerImpl.ts]
    and [user/UserImpl.ts]: the operations that find a server to talk to, the
    cache of database objects by name, and the guards on user management. *)
From S2P Require Import Prelude Errors Bytes Proto RequestBuilder Stub Database.
Local Open Scope string_scope.
Local Open Scope list_scope.

(** The names that every object literal answers to, by [in] and by index,
    without having been set. *)
Definition Object_prototype : list string :=
  ["constructor"; "__defineGetter__"; "__defineSetter__"; "hasOwnProperty";
   "__lookupGetter__"; "__lookupSetter__"; "isPrototypeOf"; "propertyIsEnumerable";
   "toString"; "valueOf"; "__proto__"; "toLocaleString"].

Section managers.
Context {W C : Type} {G : GRPCStub W}.
Local Abbreviation dproc := (proc (Driver W C) exn).

(** ** [TypeDBDatabaseManagerImpl] *)

(** A task of a manager: it gets the server's driver. *)
Definition manager_task (A : Type) : Type := option ServerDriver → dproc A.

(** [`- ${serverDriver.address}: ${e}\n`] *)
Definition error_line (sd : ServerDriver) (e : exn) : string :=
  ("- " ++ sd_address sd ++ ": " ++ exn_to_string e ++ newline)%string.

(** The loop of [runFailsafe]. *)
Fixpoint manager_loop {A} (name : string) (t : manager_task A) (servers : list ServerDriver)
    (errors : string) : dproc A :=
  match servers with
  | [] => throw (driver_error CLOUD_ALL_NODES_FAILED [errors])
  | serverDriver :: servers' =>
      try_catch (t (Some serverDriver)) (λ e,
        if has_template CLOUD_REPLICA_NOT_PRIMARY e then
          database_get name ≫= λ db, runOnPrimaryReplica db (λ sd _, t sd)
        else manager_loop name t servers' (errors ++ error_line serverDriver e)%string)
  end.

Definition manager_runFailsafe {A} (name : string) (t : manager_task A) : dproc A :=
  gets (λ d, (d_serverDrivers d).*2) ≫= λ servers, manager_loop name t servers "".

Definition contains_call (name : string) : manager_task bool := λ sd,
  stub_of sd ≫= λ st, call (databasesContains st (DatabaseManager_containsReq name)).
Definition create_call (name : string) : manager_task unit := λ sd,
  stub_of sd ≫= λ st, call (databasesCreate st (DatabaseManager_createReq name)).

Definition manager_contains (name : string) : dproc bool :=
  manager_runFailsafe name (contains_call name).
Definition manager_create (name : string) : dproc unit :=
  manager_runFailsafe name (create_call name).

(** What indexing the cache gives: a database object, or a property that the
    cache inherits. *)
Inductive cached : Type :=
  | CachedDatabase (r : nat)
  | Inherited (key : string).

Definition manager_get (name : string) : dproc cached :=
  manager_contains name ≫= λ known,
  if negb known then throw (driver_error DATABASE_DOES_NOT_EXIST [name])
  else
    gets (λ d, d_database_cache d !! name) ≫= λ entry,
    match entry with
    | Some r => mret (CachedDatabase r)
    | None =>
        if bool_decide (name ∈ Object_prototype) then mret (Inherited name)
        else database_get name ≫= λ r, mret (CachedDatabase r)
    end.

(** [dbs.databases.map(db => TypeDBDatabaseImpl.of(db, this._driver))] *)
Fixpoint databases_of (protos : list DatabaseProto) : dproc (list nat) :=
  match protos with
  | [] => mret []
  | p :: protos' =>
      database_of p ≫= λ r, databases_of protos' ≫= λ rs, mret (r :: rs)
  end.

Fixpoint all_loop (servers : list ServerDriver) (errors : string) : dproc (list nat) :=
  match servers with
  | [] => throw (driver_error CLOUD_ALL_NODES_FAILED [errors])
  | serverDriver :: servers' =>
      try_catch
        (call (databasesAll (sd_stub serverDriver) DatabaseManager_allReq) ≫= λ dbs,
         databases_of dbs)
        (λ e, all_loop servers' (errors ++ error_line serverDriver e)%string)
  end.

Definition manager_all : dproc (list nat) :=
  gets (λ d, (d_serverDrivers d).*2) ≫= λ servers, all_loop servers "".

(** ** [UserManagerImpl] and [UserImpl] *)

Record User : Type := mkUser {
  user_username : string;
  passwordExpirySeconds : option Z;
}.

(** [UserImpl.of] *)
Definition user_of (user : UserProto) : User :=
  match up_password_expiry_seconds user with
  | Some n => mkUser (up_username user) (Some n)
  | None => mkUser (up_username user) None
  end.

Definition SYSTEM_DB : string := "_system".

Definition users_runFailsafe {A} (t : manager_task A) : dproc A :=
  gets d_isCloud ≫= λ isCloud : bool,
  if negb isCloud then throw (TypeDBDriverError (ArgTemplate USER_MANAGEMENT_CLOUD_ONLY))
  else database_get SYSTEM_DB ≫= λ db, runOnPrimaryReplica db (λ sd _, t sd).

Definition users_all_op : dproc (list User) :=
  users_runFailsafe (λ sd, stub_of sd ≫= λ st, call (usersAll st UserManager_allReq) ≫= λ users,
    mret (user_of <$> users)).
Definition users_contains_op (name : string) : dproc bool :=
  users_runFailsafe (λ sd, stub_of sd ≫= λ st,
    call (usersContains st (UserManager_containsReq name))).
Definition users_create_op (name pass : string) : dproc unit :=
  users_runFailsafe (λ sd, stub_of sd ≫= λ st,
    call (usersCreate st (UserManager_createReq name pass))).
Definition users_delete_op (name : string) : dproc unit :=
  users_runFailsafe (λ sd, stub_of sd ≫= λ st,
    call (usersDelete st (UserManager_deleteReq name))).
Definition users_get_op (name : string) : dproc User :=
  users_runFailsafe (λ sd, stub_of sd ≫= λ st,
    call (usersGet st (UserManager_getReq name))) ≫= λ user,
  match user with
  | Some u => mret (user_of u)
  | None => throw (type_error "has_password_expiry_seconds")
  end.
Definition users_passwordSet_op (name pass : string) : dproc unit :=
  users_runFailsafe (λ sd, stub_of sd ≫= λ st,
    call (usersPasswordSet st (UserManager_passwordSetReq name pass))).

(** [driver.users], then a method of it: the manager exists only once a cloud
    connection was opened, so on a core driver the method is read of
    undefined. *)
Definition driver_users {A} (method : string) (m : dproc A) : dproc A :=
  gets d_isOpen ≫= λ opn : bool,
  if negb opn then throw (TypeDBDriverError (ArgTemplate DRIVER_NOT_OPEN))
  else gets d_isCloud ≫= λ isCloud : bool,
       if isCloud then m else throw (type_error method).

(** [driver.user()], for the credential that the driver was made with. *)
Definition driver_user (credential : option TypeDBCredential) : dproc User :=
  driver_users "get"
    match credential with
    | Some c => users_get_op (username c)
    | None => throw (type_error "username")
    end.

Definition passwordUpdate (u : User) (oldPassword newPassword : string) : dproc unit :=
  driver_users "runFailsafe"
    (users_runFailsafe (λ sd, stub_of sd ≫= λ st,
      call (userPasswordUpdate st
        (User_passwordUpdateReq (user_username u) oldPassword newPassword)))).

(** ** Properties *)

(** Outcomes after which the manager tries the next server. *)
Definition tries_next {A} (o : outcome exn A) : bool :=
  match o with
  | Throw e => negb (has_template CLOUD_REPLICA_NOT_PRIMARY e)
  | _ => false
  end.

Definition error_of {A} (o : outcome exn A) : option exn :=
  match o with Throw e => Some e | _ => None end.

(** The report: a line per server that failed. *)
Definition report {A} (f : ServerDriver → outcome exn A) (servers : list ServerDriver) : string :=
  foldl String.append "" (omap (λ sd, error_line sd <$> error_of (f sd)) servers).

Lemma foldl_append acc l : foldl String.append acc l = (acc ++ foldl String.append "" l)%string.
Proof.
  revert acc. induction l as [|x l IH]; intros acc; simpl.
  - by rewrite append_nil_r.
  - change ("" ++ x)%string with x. rewrite IH, (IH x). by rewrite append_assoc.
Qed.

Lemma manager_loop_report {A} name (t : manager_task A) (f : ServerDriver → outcome exn A)
    servers errors d :
  (∀ sd, sd ∈ servers → t (Some sd) d = (f sd, d) ∧ tries_next (f sd) = true) →
  manager_loop name t servers errors d =
    (Throw (driver_error CLOUD_ALL_NODES_FAILED [(errors ++ report f servers)%string]), d).
Proof.
  revert errors. induction servers as [|sd servers IH]; intros errors Hf.
  - simpl. unfold report. simpl. by rewrite append_nil_r.
  - destruct (Hf sd) as [Ht Hn]; [by left|]. simpl.
    rewrite (try_catch_run _ _ _ _ _ Ht). unfold tries_next in Hn.
    destruct (f sd) as [a|e|] eqn:Hfd; try done. apply negb_true_iff in Hn. rewrite Hn.
    rewrite IH by (intros sd' Hsd; apply Hf; by right). unfold report. simpl. rewrite Hfd. simpl.
    change ("" ++ error_line sd e)%string with (error_line sd e).
    by rewrite (foldl_append (error_line sd e)), append_assoc.
Qed.

(** A manager operation fails only after every server failed, and its
    error reports each of them: when the task fails on every server without
    naming another primary replica, the operation throws the error that lists
    all servers and their errors in order. *)
Theorem manager_reports_all_failures {A} (name : string) (t : manager_task A)
    (f : ServerDriver → outcome exn A) (d : Driver W C)
    (Hf : ∀ sd, sd ∈ (d_serverDrivers d).*2 →
            t (Some sd) d = (f sd, d) ∧ tries_next (f sd) = true) :
  manager_runFailsafe name t d =
    (Throw (driver_error CLOUD_ALL_NODES_FAILED [report f (d_serverDrivers d).*2]), d).
Proof.
  unfold manager_runFailsafe. rewrite proc_bind_eq. simpl.
  by rewrite (manager_loop_report name t f _ "" d Hf).
Qed.

Lemma manager_loop_cache_ok {A} name (t : manager_task A) servers errors :
  (∀ sd, preserves cache_ok (t sd)) → preserves cache_ok (manager_loop name t servers errors).
Proof.
  intros Ht. revert errors. induction servers as [|sd servers IH]; intros errors; simpl;
    [apply preserves_throw|].
  apply preserves_try_catch; [apply Ht|]. intros e. destruct (has_template _ _); [|apply IH].
  apply preserves_bind; [apply database_get_cache_ok|]. intros db.
  by apply runOnPrimaryReplica_cache_ok.
Qed.

Lemma stub_call_cache_ok {A} sd (m : nat → proc (World W) exn A) :
  preserves (cache_ok (C := C)) (stub_of sd ≫= λ st, call (m st)).
Proof.
  apply preserves_bind; [|intros; apply call_cache_ok].
  destruct sd; [apply preserves_ret|apply preserves_throw].
Qed.

Lemma manager_contains_cache_ok name : preserves cache_ok (manager_contains name).
Proof.
  apply preserves_bind; [apply preserves_gets|]. intros servers.
  apply manager_loop_cache_ok. intros sd. apply stub_call_cache_ok.
Qed.

Lemma database_get_named name (d : Driver W C) r d' :
  database_get name d = (Ret r, d') →
  ∃ db, d_databases d' !! r = Some db ∧ db_name db = name.
Proof.
  unfold database_get. rewrite proc_bind_eq. destruct (fetchReplicas name d) as [[reps|e|] d1];
    [|done..]. simpl. intros [= <- <-]. simpl. eexists.
  split; [by rewrite lookup_app_r, Nat.sub_diag|done].
Qed.

(** A database object is what it is called: with a consistent cache,
    [get] throws, or returns an object of that name, cached or new, and keeps
    the cache consistent. *)
Theorem manager_get_named (name : string) (d d' : Driver W C) (r : nat)
    (Hcache : cache_ok d) (Hget : manager_get name d = (Ret (CachedDatabase r), d')) :
  cache_ok d' ∧ ∃ db, d_databases d' !! r = Some db ∧ db_name db = name.
Proof.
  revert Hget. unfold manager_get. rewrite proc_bind_eq.
  pose proof (manager_contains_cache_ok name d Hcache) as Hc.
  destruct (manager_contains name d) as [[known|e|] d1]; [|done..]. simpl in Hc.
  destruct known; [|done]. simpl. rewrite proc_bind_eq. simpl.
  destruct (d_database_cache d1 !! name) as [r'|] eqn:Hn; [intros [= <- <-]; eauto|].
  case_bool_decide; [done|]. rewrite proc_bind_eq.
  pose proof (database_get_cache_ok name d1 Hc) as Hc'.
  destruct (database_get name d1) as [[r'|e|] d2] eqn:Hg; [|done..].
  intros [= <- <-]. split; [done|]. by eapply database_get_named.
Qed.

(** The cache is an object literal and [in] sees inherited properties:
    a database that exists and has the name of one, such as [constructor],
    is not fetched, and the inherited property is returned in its place. *)
Theorem manager_get_inherited (name : string) (d d' : Driver W C)
    (Hname : name ∈ Object_prototype) (Hknown : manager_contains name d = (Ret true, d'))
    (Hnew : d_database_cache d' !! name = None) :
  manager_get name d = (Ret (Inherited name), d').
Proof.
  unfold manager_get. rewrite (proc_bind_run _ _ _ _ _ Hknown). simpl. rewrite proc_bind_eq.
  simpl. rewrite Hnew. by rewrite bool_decide_eq_true_2.
Qed.

(** User management on a core connection: the manager refuses every
    operation with its own error and asks no server, but on an open core
    driver there is no manager, so an operation reached through
    [driver.users] is a TypeError instead. *)
Theorem users_need_cloud {A} (method : string) (t : manager_task A) (d : Driver W C)
    (Hcore : d_isCloud d = false) :
  users_runFailsafe t d =
    (Throw (TypeDBDriverError (ArgTemplate USER_MANAGEMENT_CLOUD_ONLY)), d) ∧
  driver_users method (users_runFailsafe t) d =
    (Throw (if d_isOpen d then type_error method
            else TypeDBDriverError (ArgTemplate DRIVER_NOT_OPEN)), d).
Proof.
  split.
  - unfold users_runFailsafe. rewrite proc_bind_eq. simpl. by rewrite Hcore.
  - unfold driver_users. rewrite proc_bind_eq. simpl. destruct (d_isOpen d); [|done]. simpl.
    rewrite proc_bind_eq. simpl. by rewrite Hcore.
Qed.
End managers.

(** ** Concrete runs *)

#[local] Existing Instance cluster.

(** A task that fails on both servers. *)
Definition down_task : manager_task (W := string) (C := unit) unit := λ _, throw (wrapped down).

Lemma manager_reports_all_failures_witness :
  (manager_runFailsafe "db" down_task (demo_driver "a")).1 =
    Throw (driver_error CLOUD_ALL_NODES_FAILED
      [(error_line sd_a (wrapped down) ++ error_line sd_b (wrapped down))%string]).
Proof.
  rewrite (manager_reports_all_failures "db" down_task (λ _, Throw (wrapped down))
    (demo_driver "a")); [vm_compute; reflexivity|].
  intros sd _. split; vm_compute; reflexivity.
Defined.

Lemma demo_cache_ok primary : cache_ok (demo_driver primary).
Proof.
  intros name r. simpl. intros [<- <-]%lookup_singleton_Some. by eexists.
Qed.

Lemma manager_get_named_witness :
  ∃ r d', manager_get "db" (demo_driver "b") = (Ret (CachedDatabase r), d') ∧
    ∃ db, d_databases d' !! r = Some db ∧ db_name db = "db".
Proof.
  exists 1, (manager_get "db" (demo_driver "b")).2. split; [vm_compute; reflexivity|].
  refine (proj2 (manager_get_named "db" (demo_driver "b") _ 1 (demo_cache_ok "b") _)).
  vm_compute. reflexivity.
Defined.

Lemma manager_get_inherited_witness :
  (manager_get "constructor" (demo_driver "a")).1 = Ret (Inherited "constructor").
Proof.
  rewrite (manager_get_inherited "constructor" (demo_driver "a")
    (manager_contains "constructor" (demo_driver "a")).2); [reflexivity|left|..];
    vm_compute; reflexivity.
Defined.

Definition core_driver : Driver string unit :=
  mkDriver (d_world (demo_driver "a")) true false [("a", sd_a)] ∅ ∅ [] 0 tt.

Lemma users_need_cloud_witness :
  (users_runFailsafe down_task core_driver).1 =
    Throw (TypeDBDriverError (ArgTemplate USER_MANAGEMENT_CLOUD_ONLY)) ∧
  (driver_users "all" (users_runFailsafe down_task) core_driver).1 = Throw (type_error "all").
Proof.
  destruct (users_need_cloud "all" down_task core_driver eq_refl) as [-> ->].
  split; reflexivity.
Defined.
