(* ===== verification/DriverImpl.v ===== *)
(** * The driver

    Models [connection/TypeDBDriverImpl.ts]: the addresses it accepts, opening
    a core or a cloud connection, the address translation, and closing. The
    concurrent opening of the cloud stubs is run one stub after the other; the
    order does not matter to [Promise.any], which looks at all of them. *)
From S2P Require Import Prelude Errors Bytes Proto RequestBuilder Stub Database.
Local Open Scope string_scope.
Local Open Scope list_scope.

(** ** Addresses *)

(** [string | string[] | Record<string, string>]; the entries of an object are
    in insertion order. *)
Inductive Addresses : Type :=
  | AddressString (a : string)
  | AddressArray (l : list string)
  | AddressRecord (t : list (string * string)).

Definition is_digit (c : Ascii.ascii) : bool :=
  let n := Ascii.nat_of_ascii c in Nat.leb 48 n && Nat.leb n 57.

(** [/:\d+/.test(address)] *)
Fixpoint has_port (address : string) : bool :=
  match address with
  | "" => false
  | String c rest =>
      (bool_decide (c = ":"%char) &&
       match rest with String d _ => is_digit d | "" => false end)
      || has_port rest
  end.

(** [Object.values(addresses)] *)
Definition address_values (a : Addresses) : list string :=
  match a with
  | AddressString s => [s]
  | AddressArray l => l
  | AddressRecord t => t.*2
  end.

(** The immutable fields of a driver. *)
Record DriverConfig : Type := mkConfig {
  initAddresses : Addresses;
  d_credential : option TypeDBCredential;
}.

(** The checks of the constructor, up to the first bad address. *)
Fixpoint check_ports (l : list string) : outcome exn unit :=
  match l with
  | [] => Ret tt
  | address :: l' =>
      if has_port address then check_ports l'
      else Throw (driver_error MISSING_PORT [address])
  end.

(** [new TypeDBDriverImpl(addresses, credential)] *)
Definition new_config (addresses : Addresses) (credential : option TypeDBCredential)
    : outcome exn DriverConfig :=
  let addresses := match addresses with AddressString s => AddressArray [s] | a => a end in
  outcome_bind (check_ports (address_values addresses)) (λ _,
    Ret (mkConfig addresses credential)).

Definition isSome_credential (c : DriverConfig) : bool :=
  match d_credential c with Some _ => true | None => false end.

(** [array.join(sep)] *)
Definition join (sep : string) (l : list string) : string := String.concat sep l.

(** ** Address translation *)

(** The private addresses of the translation that no server has. *)
Definition unknown_addresses (t : list (string * string)) (servers : list string)
    : list string :=
  List.filter (λ a, negb (bool_decide (a ∈ servers))) t.*2.

(** [Object.keys(t).find(key => t[key] == privateAddress)] *)
Definition public_of (t : list (string * string)) (privateAddress : string) : option string :=
  fst <$> List.find (λ e, bool_decide (e.2 = privateAddress)) t.

(** [!publicAddress]: undefined or empty. *)
Definition falsy (s : option string) : bool :=
  match s with None | Some "" => true | _ => false end.

Definition unmapped_addresses (t : list (string * string)) (servers : list string)
    : list string :=
  List.filter (λ a, falsy (public_of t a)) servers.

Definition addressTranslation (c : DriverConfig) (servers : list string)
    : outcome exn (list (string * string)) :=
  match initAddresses c with
  | AddressRecord t =>
      let unknown := unknown_addresses t servers in
      let unmapped := unmapped_addresses t servers in
      match unknown, unmapped with
      | [], [] => Ret t
      | _, _ => Throw (driver_error ADDRESS_TRANSLATION_MISMATCH
                         [join ", " unknown; join ", " unmapped])
      end
  | _ => Ret (foldl (λ m a, map_set m a a) [] servers)
  end.

(** ** Properties of the configuration *)

Lemma has_port_spec a :
  has_port a = true ↔
  ∃ before d after, a = (before ++ ":" ++ String d after)%string ∧ is_digit d = true.
Proof.
  split.
  - induction a as [|c a IH]; [done|]. cbn [has_port].
    intros [[Hc Hd]%andb_true_iff|Hrest]%orb_true_iff.
    + apply bool_decide_eq_true in Hc as ->. destruct a as [|d a]; [done|].
      by exists "", d, a.
    + destruct (IH Hrest) as (b & d & e & -> & Hd). by exists (String c b), d, e.
  - intros (b & d & e & -> & Hd). induction b as [|c b IH].
    + change ("" ++ ":" ++ String d e)%string with (String ":" (String d e)). cbn [has_port].
      by rewrite Hd.
    + change (String c b ++ ":" ++ String d e)%string
        with (String c (b ++ ":" ++ String d e)). cbn [has_port]. rewrite IH. apply orb_true_r.
Qed.

Lemma check_ports_spec l : check_ports l = Ret tt ↔ ∀ a, a ∈ l → has_port a = true.
Proof.
  induction l as [|a l IH]; simpl; [split; [set_solver|done]|].
  destruct (has_port a) eqn:Ha.
  - rewrite IH. set_solver.
  - split; [done|]. intros Hall. rewrite (Hall a) in Ha; [done|]. by left.
Qed.

(** The constructor accepts exactly the address lists in which every
    address (for a translation, every address translated to) has a colon
    followed by a digit. *)
Theorem constructor_requires_ports (addresses : Addresses) (cred : option TypeDBCredential) :
  (∃ c, new_config addresses cred = Ret c) ↔
  ∀ a, a ∈ address_values addresses →
    ∃ before d after, a = (before ++ ":" ++ String d after)%string ∧ is_digit d = true.
Proof.
  assert (address_values (match addresses with AddressString s => AddressArray [s] | a => a end)
    = address_values addresses) as Hv by by destruct addresses.
  unfold new_config. rewrite Hv. setoid_rewrite <- has_port_spec. rewrite <- check_ports_spec.
  destruct (check_ports _) as [[]|e|]; simpl; split; try done; [eauto|by intros [c Hc]..].
Qed.

Lemma public_of_spec t a : falsy (public_of t a) = false → a ∈ t.*2.
Proof.
  unfold public_of. destruct (List.find _ t) as [[k v]|] eqn:Hf; [|done]. intros _.
  apply List.find_some in Hf as [Hin Hv%bool_decide_eq_true]. simpl in Hv. subst v.
  apply list_elem_of_fmap. exists (k, a). by rewrite list_elem_of_In.
Qed.

Lemma filter_nil {A} (f : A → bool) l : List.filter f l = [] ↔ ∀ x, x ∈ l → f x = false.
Proof.
  split; [|apply filter_none]. intros Hf x Hx. destruct (f x) eqn:Ex; [|done].
  assert (x ∈ List.filter f l) as Hin
    by (apply list_elem_of_In, List.filter_In; by rewrite <- list_elem_of_In).
  by rewrite Hf in Hin; apply elem_of_nil in Hin.
Qed.

(** An address translation is accepted exactly when it covers the
    servers: with public addresses that are not empty, the addresses
    translated to are those the servers advertise, no more and no fewer. *)
Theorem translation_covers_servers (c : DriverConfig) (t : list (string * string))
    (servers : list string) (Hc : initAddresses c = AddressRecord t)
    (Hkeys : "" ∉ t.*1) :
  addressTranslation c servers = Ret t ↔ ∀ a, a ∈ t.*2 ↔ a ∈ servers.
Proof.
  assert (unknown_addresses t servers = [] ↔ ∀ a, a ∈ t.*2 → a ∈ servers) as Hunknown.
  { unfold unknown_addresses. rewrite filter_nil. split; intros H a Ha; specialize (H a Ha).
    - by apply negb_false_iff, bool_decide_eq_true in H.
    - by apply negb_false_iff, bool_decide_eq_true. }
  assert (unmapped_addresses t servers = [] ↔ ∀ a, a ∈ servers → a ∈ t.*2) as Hunmapped.
  { unfold unmapped_addresses. rewrite filter_nil. split; intros H a Ha; specialize (H a Ha).
    - by apply public_of_spec.
    - unfold public_of. destruct (List.find _ t) as [[k v]|] eqn:Hf; simpl.
      + destruct k; [|done]. apply List.find_some in Hf as [Hin _]. exfalso. apply Hkeys.
        apply list_elem_of_fmap. exists ("", v). by rewrite list_elem_of_In.
      + apply list_elem_of_fmap in H as ([k v] & -> & Hin%list_elem_of_In).
        pose proof (List.find_none _ _ Hf _ Hin) as Hn. simpl in Hn.
        by apply bool_decide_eq_false in Hn. }
  unfold addressTranslation. rewrite Hc.
  destruct (unknown_addresses t servers) as [|u us], (unmapped_addresses t servers) as [|m ms];
    split; try done; intros H; try (exfalso; naive_solver).
  intros a. naive_solver.
Qed.

Section driver.
Context {W C : Type} {G : GRPCStub W}.
(** Reading the certificate file. *)
Context (readFileSync : string → outcome exn unit).
Local Abbreviation dproc := (proc (Driver W C) exn).

(** The state of a new driver, in the world it is made in. *)
Definition new_driver (c : DriverConfig) (w : World W) (cl : C) : Driver W C :=
  mkDriver w false (isSome_credential c) [] ∅ ∅ [] 0 cl.

Definition set_isOpen (b : bool) (d : Driver W C) : Driver W C :=
  mkDriver (d_world d) b (d_isCloud d) (d_serverDrivers d) (d_database_cache d) (d_sessions d)
    (d_databases d) (waits d) (clients d).

(** [this.serverDrivers.set(id, new ServerDriver(address, stub))] *)
Definition set_serverDriver (id : string) (sd : ServerDriver) : dproc unit :=
  modify (λ d, mkDriver (d_world d) (d_isOpen d) (d_isCloud d)
    (map_set (d_serverDrivers d) id sd) (d_database_cache d) (d_sessions d) (d_databases d)
    (waits d) (clients d)).

(** ** Opening *)

(** A client of an undefined address cannot be made. *)
Definition no_target : exn := JsError "TypeError" "Channel target must be a string".

Definition openCore (c : DriverConfig) : dproc unit :=
  match initAddresses c with
  | AddressArray (serverAddress :: _) =>
      call (new_stub readFileSync serverAddress (d_credential c)) ≫= λ serverStub,
      call (stub_open serverStub) ≫= λ _,
      call (serversAll serverStub ServerManager_allReq) ≫= λ servers,
      match servers with
      | advertisedAddress :: _ =>
          set_serverDriver advertisedAddress (mkServerDriver serverAddress serverStub) ≫= λ _,
          modify (set_isOpen true)
      | [] => throw (type_error "address")
      end
  | _ => throw no_target
  end.

(** One turn of the loop of [fetchCloudServerAddresses]. *)
Definition fetch_members (c : DriverConfig) (address : string) : dproc (list string) :=
  call (new_stub readFileSync address (d_credential c)) ≫= λ stub,
  call (stub_open stub) ≫= λ _,
  call (serversAll stub ServerManager_allReq).

Fixpoint fetch_members_loop (c : DriverConfig) (l : list string) (all : list string)
    : dproc (list string) :=
  match l with
  | [] => throw (driver_error CLOUD_UNABLE_TO_CONNECT [join "," all])
  | address :: l' =>
      try_catch (fetch_members c address) (λ _, fetch_members_loop c l' all)
  end.

Definition fetchCloudServerAddresses (c : DriverConfig) : dproc (list string) :=
  let initPrivateAddresses := address_values (initAddresses c) in
  fetch_members_loop c initPrivateAddresses initPrivateAddresses.

(** The promise of [serverStub.open()]: its outcome is kept, not thrown. *)
Definition settled {A} (m : dproc A) : dproc (outcome exn A) := λ d,
  let '(o, d') := m d in (Ret o, d').

Fixpoint open_stubs (c : DriverConfig) (t : list (string * string))
    : dproc (list (outcome exn unit)) :=
  match t with
  | [] => mret []
  | (serverID, address) :: t' =>
      call (new_stub readFileSync address (d_credential c)) ≫= λ serverStub,
      settled (call (stub_open serverStub)) ≫= λ openReq,
      set_serverDriver serverID (mkServerDriver address serverStub) ≫= λ _,
      open_stubs c t' ≫= λ openReqs,
      mret (openReq :: openReqs)
  end.

Definition is_ret {A} (o : outcome exn A) : bool := match o with Ret _ => true | _ => false end.
Definition is_pending {A} (o : outcome exn A) : bool :=
  match o with Pending => true | _ => false end.

(** [Promise.any] *)
Definition promise_any {A} (l : list (outcome exn A)) : outcome exn unit :=
  if List.existsb is_ret l then Ret tt
  else if List.existsb is_pending l then Pending
  else Throw (JsError "AggregateError" "All promises were rejected").

Definition openCloud (c : DriverConfig) : dproc unit :=
  fetchCloudServerAddresses c ≫= λ servers,
  lift_outcome (addressTranslation c servers) ≫= λ t,
  open_stubs c t ≫= λ openReqs,
  try_catch (lift_outcome (promise_any openReqs)) (λ e,
    throw (driver_error CLOUD_UNABLE_TO_CONNECT [exn_to_string e])) ≫= λ _,
  modify (set_isOpen true).

Definition driver_open (c : DriverConfig) : dproc unit :=
  gets d_isCloud ≫= λ isCloud : bool, if isCloud then openCloud c else openCore c.

(** ** Closing *)

(** [Object.values(map)] of a [Map]: its entries are not properties. *)
Definition Object_values_of_Map {A} (m : list (string * A)) : list A := [].

Definition serverDriver_close (sd : ServerDriver) : dproc unit := call (stub_close (sd_stub sd)).

Definition driver_close : dproc unit :=
  gets d_isOpen ≫= λ opn : bool,
  if opn then
    modify (set_isOpen false) ≫= λ _,
    gets d_serverDrivers ≫= λ m,
    for_each serverDriver_close (Object_values_of_Map m)
  else mret tt.

Definition closeSession (id : string) (d : Driver W C) : Driver W C :=
  mkDriver (d_world d) (d_isOpen d) (d_isCloud d) (d_serverDrivers d) (d_database_cache d)
    (delete id (d_sessions d)) (d_databases d) (waits d) (clients d).

(** The guard of the [databases] and [users] accessors. *)
Definition require_open : dproc unit :=
  gets d_isOpen ≫= λ opn : bool,
  if negb opn then throw (TypeDBDriverError (ArgTemplate DRIVER_NOT_OPEN)) else mret tt.

(** ** Frame lemmas *)

Lemma call_serverDrivers {A} (m : proc (World W) exn A) x :
  preserves (λ d : Driver W C, d_serverDrivers d = x) (call m).
Proof. intros d Hd. unfold call. by destruct (m (d_world d)). Qed.

Lemma fetch_members_servers c l all x :
  preserves (λ d : Driver W C, d_serverDrivers d = x) (fetch_members_loop c l all).
Proof.
  induction l as [|a l IH]; simpl; [apply preserves_throw|].
  apply preserves_try_catch; [|done]. unfold fetch_members.
  apply preserves_bind; [apply call_serverDrivers|]. intros st.
  apply preserves_bind; [apply call_serverDrivers|]. intros _. apply call_serverDrivers.
Qed.

Lemma open_stubs_servers c t (d : Driver W C) l d' :
  open_stubs c t d = (Ret l, d') →
  ∀ id, is_Some (map_get (d_serverDrivers d') id) ↔
        id ∈ t.*1 ∨ is_Some (map_get (d_serverDrivers d) id).
Proof.
  revert d l. induction t as [|[sid addr] t IH]; intros d l; simpl.
  - intros [= <- <-] id. rewrite elem_of_nil. tauto.
  - rewrite proc_bind_eq.
    pose proof (call_serverDrivers (new_stub readFileSync addr (d_credential c)) _ d eq_refl) as H1.
    destruct (call _ d) as [[st|e|] d1]; [|done..]. simpl in H1. rewrite proc_bind_eq.
    pose proof (call_serverDrivers (stub_open st) _ d1 eq_refl) as H2. unfold settled.
    destruct (call _ d1) as [o d2]. simpl in H2. rewrite proc_bind_eq. simpl. rewrite proc_bind_eq.
    destruct (open_stubs c t _) as [[reqs|e|] d3] eqn:Ho; [|done..]. intros [= <- <-] id.
    rewrite (IH _ _ Ho id). simpl. rewrite map_get_set, H2, H1, elem_of_cons.
    case_bool_decide as Hid; [subst|]; naive_solver.
Qed.

(** ** Properties *)

Lemma map_set_servers servers m id :
  is_Some (map_get (foldl (λ m a, map_set m a a) m servers) id) ↔
  id ∈ servers ∨ is_Some (map_get m id).
Proof.
  revert m. induction servers as [|a servers IH]; intros m; simpl; [set_solver|].
  rewrite IH, map_get_set, elem_of_cons. case_bool_decide; naive_solver.
Qed.

Lemma map_get_keys {A} (m : list (string * A)) id : is_Some (map_get m id) ↔ id ∈ m.*1.
Proof.
  induction m as [|[k v] m IH]; simpl; [set_solver|]. rewrite elem_of_cons.
  case_bool_decide; naive_solver.
Qed.

(** What a cloud driver knows after opening: some stub opened, and the
    servers are filed under the keys of the address map: the advertised
    addresses when the driver was given a list, but the public addresses when
    it was given a translation. A replica is looked up by the address it
    advertises, so under a translation no server is found for it unless the
    two addresses are the same. *)
Theorem openCloud_files_by_key (c : DriverConfig) (d d' : Driver W C)
    (Hfresh : d_serverDrivers d = []) (Hopen : openCloud c d = (Ret tt, d')) :
  d_isOpen d' = true ∧
  ∃ servers, (fetchCloudServerAddresses c d).1 = Ret servers ∧
    match initAddresses c with
    | AddressRecord t =>
        (∀ a, is_Some (map_get (d_serverDrivers d') a) ↔ a ∈ t.*1) ∧
        ∀ p, rp_address p ∉ t.*1 →
          sdb_driver ∘ database <$> replicas_of "db" [p] d' = [None]
    | _ => ∀ a, is_Some (map_get (d_serverDrivers d') a) ↔ a ∈ servers
    end.
Proof.
  revert Hopen. unfold openCloud. rewrite proc_bind_eq.
  pose proof (fetch_members_servers c (address_values (initAddresses c))
    (address_values (initAddresses c)) [] d Hfresh) as H1.
  change (fetch_members_loop c (address_values (initAddresses c))
    (address_values (initAddresses c)) d) with (fetchCloudServerAddresses c d) in H1.
  destruct (fetchCloudServerAddresses c d) as [[servers|e|] d1]; [|done..]. simpl in H1.
  rewrite proc_bind_eq. unfold lift_outcome at 1.
  destruct (addressTranslation c servers) as [t| |] eqn:Ht; [|done..]. rewrite proc_bind_eq.
  destruct (open_stubs c t d1) as [[reqs| |] d2] eqn:Ho; [|done..]. rewrite proc_bind_eq.
  unfold lift_outcome, try_catch. destruct (promise_any reqs) as [[]| |]; [|done..]. intros [= <-].
  split; [done|]. exists servers. split; [done|].
  pose proof (open_stubs_servers c t d1 reqs d2 Ho) as Hs. rewrite H1 in Hs. simpl in Hs.
  assert (∀ a, is_Some (map_get (d_serverDrivers d2) a) ↔ a ∈ t.*1) as Hkeys
    by (intros a; rewrite Hs, is_Some_alt; tauto).
  unfold addressTranslation in Ht.
  destruct (initAddresses c) as [a|l|tr]; simpl.
  1, 2: injection Ht as <-; intros x; rewrite Hkeys, <- map_get_keys, map_set_servers; simpl;
    rewrite is_Some_alt; tauto.
  assert (t = tr) as ->.
  { by destruct (unknown_addresses tr servers), (unmapped_addresses tr servers);
      simplify_eq. }
  split; [exact Hkeys|]. intros p Hp. simpl.
  destruct (map_get (d_serverDrivers d2) (rp_address p)) eqn:Hm; [|done].
  exfalso. apply Hp, Hkeys. by rewrite Hm.
Qed.

(** Closing a driver does not close its servers: the loop runs over
    [Object.values] of a [Map], which is empty, so every stub is left as it
    was and only the flag changes. *)
Theorem driver_close_leaves_stubs (d : Driver W C) :
  driver_close d = (Ret tt, set_isOpen false d).
Proof.
  unfold driver_close. rewrite proc_bind_eq. simpl. destruct (d_isOpen d) eqn:Ho; simpl.
  - done.
  - unfold set_isOpen. rewrite <- Ho. by destruct d.
Qed.
End driver.

(** ** Concrete runs *)

#[local] Existing Instance demo_server.

Definition demo_translation : list (string * string) := [("public:80", "localhost:1729")].
Definition demo_config : DriverConfig :=
  mkConfig (AddressRecord demo_translation) (Some demo_credential).

Lemma translation_covers_servers_witness :
  addressTranslation demo_config ["localhost:1729"] = Ret demo_translation.
Proof.
  apply (translation_covers_servers demo_config demo_translation ["localhost:1729"] eq_refl).
  - vm_compute. intros H. inversion H as [|? ? ? H']. inversion H'.
  - intros a. reflexivity.
Defined.

Lemma openCloud_files_by_key_witness :
  let d := new_driver demo_config (mkWorld "tok" [] []) tt in
  (openCloud (λ _, Ret tt) demo_config d).1 = Ret tt ∧
  is_Some (map_get (d_serverDrivers (openCloud (λ _, Ret tt) demo_config d).2) "public:80") ∧
  ¬ is_Some (map_get (d_serverDrivers (openCloud (λ _, Ret tt) demo_config d).2) "localhost:1729").
Proof.
  cbv zeta. pose (d := new_driver demo_config (mkWorld "tok" [] []) tt).
  destruct (openCloud_files_by_key (λ _, Ret tt) demo_config d
    (openCloud (λ _, Ret tt) demo_config d).2 eq_refl) as (_ & servers & _ & Hk & _);
    [vm_compute; reflexivity|].
  split; [vm_compute; reflexivity|]. split.
  - apply Hk. left.
  - intros H%Hk. vm_compute in H. inversion H as [|? ? ? H']. inversion H'.
Defined.
