(* ===== verification/Options.v ===== *)
(** * Session and transaction options

    Models [api/connection/TypeDBOptions.ts]. An options object is a bag of
    properties; assigning a property runs its setter, also when the
    constructor assigns the properties of its argument with [Object.assign].
    How a number is printed is a parameter. *)
From Stdlib Require Import Floats.SpecFloat.
From S2P Require Import Prelude Errors Bytes Proto.
Local Open Scope string_scope.

Inductive Opt : Type :=
  | infer | traceInference | explain | parallel | prefetchSize | prefetch
  | sessionIdleTimeoutMillis | transactionTimeoutMillis | schemaLockAcquireTimeoutMillis
  | readAnyReplica.

#[export] Instance Opt_eq_dec : EqDecision Opt.
Proof. solve_decision. Defined.

(** The options whose setters check their value. *)
Definition is_numeric (k : Opt) : bool :=
  match k with
  | prefetchSize | sessionIdleTimeoutMillis | transactionTimeoutMillis
  | schemaLockAcquireTimeoutMillis => true
  | _ => false
  end.

(** The properties that have been set. *)
Definition TypeDBOptions : Type := Opt → option jsval.

Definition no_options : TypeDBOptions := λ _, None.

Definition with_option (k : Opt) (v : jsval) (o : TypeDBOptions) : TypeDBOptions :=
  λ k', if bool_decide (k' = k) then Some v else o k'.

(** [value < 1] on numbers *)
Definition below_one (v : jsval) : bool :=
  match v with
  | JNum f => SFltb f (number_of_Z 1)
  | _ => false
  end.

Section options.
Context (show_value : jsval → string).

(** [options.k = value] *)
Definition set_option (k : Opt) (value : jsval) (o : TypeDBOptions)
    : outcome exn TypeDBOptions :=
  if is_numeric k && below_one value then
    Throw (driver_error NEGATIVE_VALUE_NOT_ALLOWED [show_value value])
  else Ret (with_option k value o).

Fixpoint assign (obj : list (Opt * jsval)) (o : TypeDBOptions) : outcome exn TypeDBOptions :=
  match obj with
  | [] => Ret o
  | (k, v) :: obj' => outcome_bind (set_option k v o) (assign obj')
  end.

(** [new TypeDBOptions(obj)] *)
Definition new_options (obj : list (Opt * jsval)) : outcome exn TypeDBOptions :=
  assign obj no_options.

(** The field of the message that carries an option. *)
Definition option_field (k : Opt) : string :=
  match k with
  | infer => "infer"
  | traceInference => "trace_inference"
  | explain => "explain"
  | parallel => "parallel"
  | prefetchSize => "prefetch_size"
  | prefetch => "prefetch"
  | sessionIdleTimeoutMillis => "session_idle_timeout_millis"
  | transactionTimeoutMillis => "transaction_timeout_millis"
  | schemaLockAcquireTimeoutMillis => "schema_lock_acquire_timeout_millis"
  | readAnyReplica => "read_any_replica"
  end.

(** [if (options.k != null) optionsProto.field = options.k] *)
Definition copy_option (o : TypeDBOptions) (k : Opt) (optionsProto : pval) : pval :=
  match o k with
  | Some v => set_field optionsProto (option_field k) (PVal v)
  | None => optionsProto
  end.

(** The order in which [Opts.proto] copies the options. *)
Definition proto_order : list Opt :=
  [infer; traceInference; explain; parallel; prefetchSize; prefetch; sessionIdleTimeoutMillis;
   transactionTimeoutMillis; schemaLockAcquireTimeoutMillis; readAnyReplica].

(** [Opts.proto] *)
Definition options_proto (o : TypeDBOptions) : pval :=
  foldl (λ optionsProto k, copy_option o k optionsProto) (New "Options" []) proto_order.

(** ** Properties *)

Definition options_ok (o : TypeDBOptions) : Prop :=
  ∀ k v, is_numeric k = true → o k = Some v → below_one v = false.

Lemma set_option_ok k v o o' : options_ok o → set_option k v o = Ret o' → options_ok o'.
Proof.
  intros Ho. unfold set_option. destruct (is_numeric k && below_one v) eqn:Hb; [done|].
  intros [= <-] k' v' Hk. unfold with_option. case_bool_decide; [subst|by apply Ho].
  intros [= <-]. by rewrite Hk in Hb.
Qed.

Lemma assign_ok obj o o' : options_ok o → assign obj o = Ret o' → options_ok o'.
Proof.
  revert o. induction obj as [|[k v] obj IH]; intros o Ho; simpl; [by intros [= <-]|].
  destruct (set_option k v o) as [o1|e|] eqn:Hs; [|done..]. simpl. apply IH.
  by eapply set_option_ok.
Qed.

Lemma option_field_inj k k' : option_field k = option_field k' → k = k'.
Proof. by destruct k, k'. Qed.

Lemma copy_options_field o l cls fields k :
  get_field (foldl (λ p k, copy_option o k p) (New cls fields) l) (option_field k) =
    if bool_decide (k ∈ l) && bool_decide (is_Some (o k)) then PVal <$> o k
    else get_field (New cls fields) (option_field k).
Proof.
  revert fields. induction l as [|k' l IH]; intros fields; [done|]. simpl.
  assert (∃ fields', copy_option o k' (New cls fields) = New cls fields' ∧
    field_in fields' (option_field k) =
      if bool_decide (k = k') && bool_decide (is_Some (o k)) then PVal <$> o k
      else field_in fields (option_field k)) as (fields' & -> & Hf).
  { unfold copy_option. destruct (o k') as [v|] eqn:Hk'; simpl.
    - eexists. split; [done|]. rewrite field_in_set_in.
      destruct (decide (k = k')) as [->|Hne].
      + rewrite Hk'. by rewrite !bool_decide_eq_true_2.
      + rewrite (bool_decide_eq_false_2 (k = k')) by done.
        rewrite bool_decide_eq_false_2; [done|]. intros H. by apply Hne, option_field_inj.
    - eexists. split; [done|]. destruct (decide (k = k')) as [->|Hne].
      + rewrite Hk'. by rewrite (bool_decide_eq_false_2 (is_Some _)), andb_false_r
          by (by intros []).
      + by rewrite (bool_decide_eq_false_2 (k = k')). }
  rewrite IH. simpl. rewrite Hf.
  destruct (decide (k = k')) as [->|Hne].
  - rewrite (bool_decide_eq_true_2 (k' = k')), (bool_decide_eq_true_2 (k' ∈ k' :: l)) by set_solver.
    by destruct (bool_decide (k' ∈ l)), (bool_decide (is_Some (o k'))).
  - rewrite (bool_decide_eq_false_2 (k = k')) by done.
    by rewrite (bool_decide_ext (k ∈ k' :: l) (k ∈ l)) by set_solver.
Qed.

Lemma options_proto_field o k : get_field (options_proto o) (option_field k) = PVal <$> o k.
Proof.
  unfold options_proto. rewrite copy_options_field.
  assert (k ∈ proto_order) as Hk by (destruct k; vm_compute; repeat constructor).
  rewrite (bool_decide_eq_true_2 _ Hk). simpl.
  case_bool_decide as Ho; [done|]. apply eq_None_not_Some in Ho. by rewrite Ho.
Qed.

(** Options are checked however they are set, and exactly the options
    that were set are sent: the constructor and the setters never yield an
    object with a size or timeout below one, and each field of the message is
    set when its option is, to the same value. *)
Theorem options_checked_and_sent (obj : list (Opt * jsval)) (o : TypeDBOptions)
    (Hnew : new_options obj = Ret o) :
  options_ok o ∧ ∀ k, get_field (options_proto o) (option_field k) = PVal <$> o k.
Proof.
  split; [by eapply assign_ok; [|exact Hnew]|]. intros k. apply options_proto_field.
Qed.
End options.

Lemma options_checked_and_sent_witness :
  ∃ o, new_options (λ _, "") [(infer, JBool true); (prefetchSize, JNum (number_of_Z 50))] = Ret o ∧
    options_ok o ∧ get_field (options_proto o) "prefetch_size" = Some (PVal (JNum (number_of_Z 50))).
Proof.
  eexists. split; [vm_compute; reflexivity|].
  match goal with |- options_ok ?o ∧ _ =>
    destruct (options_checked_and_sent (λ _, "")
      [(infer, JBool true); (prefetchSize, JNum (number_of_Z 50))] o) as [H1 H2];
      [vm_compute; reflexivity|] end.
  split; [exact H1|]. exact (H2 prefetchSize).
Defined.
