(* ===== verification/Transaction.v ===== *)
(** * Transactions

    Models [connection/TypeDBTransactionImpl.ts]: a transaction guards a
    transaction stream, so that nothing is asked of a closed stream. The state
    is the stream, whether the session still tracks the transaction, and the
    promises handed to callers, which the main theorem is about. *)
From Stdlib Require Import Floats.SpecFloat.
From S2P Require Import Prelude Errors Bytes Proto RequestBuilder BlockingQueue Dispatcher Collector BiStream BiStreamSpec Options.

Section transaction.
Context {U : Uuid} {R P : Type}.
Context (show_state : TransactionStreamState → string).

(** ** State *)

Record TypeDBTransactionImpl : Type := mkTx {
  bidirectionalStream : BidirectionalStream R P;
  (** the session's set contains the transaction *)
  tracked : bool;
  (** the promises that [rpcExecute] returned *)
  issued : list (nat * nat);
}.

Local Abbreviation tproc := (proc TypeDBTransactionImpl exn).

Definition set_stream (st : BidirectionalStream R P) (tx : TypeDBTransactionImpl)
    : TypeDBTransactionImpl :=
  mkTx st (tracked tx) (issued tx).

Definition on_stream {A} (m : proc (BidirectionalStream R P) exn A) : tproc A := λ tx,
  let '(o, st) := m (bidirectionalStream tx) in (o, set_stream st tx).

(** [!error]: null or the empty string. *)
Definition error_falsy (error : option close_error) : bool :=
  match error with
  | None | Some (CloseString EmptyString) => true
  | _ => false
  end.

(** What [throwTransactionClosed] throws. *)
Definition transaction_closed (st : BidirectionalStream R P) : exn :=
  if isOpen st then TypeDBDriverError (ArgTemplate ILLEGAL_STATE)
  else if error_falsy (getError st) then TypeDBDriverError (ArgTemplate TRANSACTION_CLOSED)
  else driver_error TRANSACTION_CLOSED_WITH_ERRORS
         [from_option close_error_string EmptyString (getError st)].

Definition throwTransactionClosed {A} : tproc A := λ tx,
  (Throw (transaction_closed (bidirectionalStream tx)), tx).

(** The promise is noted. *)
Definition note (p : nat * nat) : tproc (nat * nat) := λ tx,
  (Ret p, mkTx (bidirectionalStream tx) (tracked tx) (issued tx ++ [p])).

(** ** Operations *)

(** [batch !== false] *)
Definition useBatch (batch : option bool) : bool :=
  match batch with Some false => false | _ => true end.

(** Up to the await of the response: returns its promise. *)
Definition rpcExecute (request : pval) (batch : option bool) : tproc (nat * nat) :=
  gets (λ tx, isOpen (bidirectionalStream tx)) ≫= λ opn : bool,
  if negb opn then throwTransactionClosed
  else on_stream (single request (useBatch batch)) ≫= note.

Definition rpcStream (request : pval) : tproc nat :=
  gets (λ tx, isOpen (bidirectionalStream tx)) ≫= λ opn : bool,
  if negb opn then throwTransactionClosed else on_stream (stream request).

(** [this._session.closed(this)] *)
Definition session_closed : tproc unit :=
  modify (λ tx, mkTx (bidirectionalStream tx) false (issued tx)).

Definition tx_close : tproc unit :=
  on_stream (stream_close None) ≫= λ _, session_closed.

Definition tx_onClose (cb : callback) : tproc unit :=
  modify (λ tx, set_stream (onClose cb (bidirectionalStream tx)) tx).

(** [open()] up to the await of the response to the open request. *)
Definition tx_open (connection : outcome exn unit) (sessionId : string)
    (type_ : TransactionTypeProto) (options : TypeDBOptions) (latency : spec_float)
    : tproc (nat * nat) :=
  on_stream (stream_open connection) ≫= λ _,
  lift_outcome (Transaction_openReq sessionId type_ (options_proto options) latency) ≫= λ openReq,
  rpcExecute openReq (Some false).

(** [rollback()] up to its await. *)
Definition rollback : tproc (nat * nat) := rpcExecute Transaction_rollbackReq (Some false).

(** What awaiting a promise comes to after the events [evs]. *)
Definition await_response (evs : list (stream_event R P)) (p : nat * nat) : tproc unit := λ tx,
  let st := run_stream show_state (bidirectionalStream tx) evs in
  (outcome_map (λ _, tt) (response_of (responseCollector st) p.1 p.2), set_stream st tx).

(** [commit()]: [evs] is what happens while it awaits the response. *)
Definition commit (evs : list (stream_event R P)) : tproc unit :=
  try_finally
    (rpcExecute Transaction_commitReq (Some false) ≫= λ p, await_response evs p)
    tx_close.

(** ** Runs *)

(** Calls of the transaction, and what happens to its stream by itself. *)
Inductive tx_event : Type :=
  | TExecute (request : pval) (batch : option bool)
  | TStream (request : pval)
  | TOnClose (cb : callback)
  | TClose
  | TData (res : TransactionServer R P)
  | TError (err : exn)
  | TDone
  | TPull (i : nat)
  | TResume (i : nat)
  | TTimer (r : nat).

Definition tx_step (tx : TypeDBTransactionImpl) (ev : tx_event) : TypeDBTransactionImpl :=
  match ev with
  | TExecute request batch => (rpcExecute request batch tx).2
  | TStream request => (rpcStream request tx).2
  | TOnClose cb => (tx_onClose cb tx).2
  | TClose => (tx_close tx).2
  | TData res => (on_stream (on_data res) tx).2
  | TError err => (on_stream (on_error err) tx).2
  | TDone => (on_stream on_done tx).2
  | TPull i => set_stream (pull i (bidirectionalStream tx)) tx
  | TResume i => set_stream (resume show_state i (bidirectionalStream tx)) tx
  | TTimer r => (on_stream (on_dispatcher (Some r) timer_fires) tx).2
  end.

(** A transaction whose stream was just opened. *)
Definition new_tx (t : RequestTransmitter) : TypeDBTransactionImpl := mkTx (opened t) true [].

Definition run_tx : TypeDBTransactionImpl → list tx_event → TypeDBTransactionImpl :=
  foldl tx_step.

(** ** The stream under the transaction's guard *)

(** The stream event a transaction event amounts to, if the guard lets it
    through. *)
Definition guarded_event (opn : bool) (ev : tx_event) : option (stream_event R P) :=
  match ev with
  | TExecute request batch => if opn then Some (SSingle request (useBatch batch)) else None
  | TStream request => if opn then Some (SStream request) else None
  | TOnClose cb => Some (SOnClose cb)
  | TClose => Some (SClose None)
  | TData res => Some (SData res)
  | TError err => Some (SError err)
  | TDone => Some SDone
  | TPull i => Some (SPull i)
  | TResume i => Some (SResume i)
  | TTimer r => Some (STimer r)
  end.

Lemma tx_step_stream tx ev :
  bidirectionalStream (tx_step tx ev) =
    match guarded_event (isOpen (bidirectionalStream tx)) ev with
    | Some sev => stream_step show_state (bidirectionalStream tx) sev
    | None => bidirectionalStream tx
    end.
Proof.
  destruct ev as [rq b|rq|cb| |res|e| |i|i|r]; simpl.
  - unfold rpcExecute. rewrite proc_bind_eq. simpl.
    destruct (isOpen (bidirectionalStream tx)); [|done]. simpl. rewrite proc_bind_eq.
    unfold on_stream. by destruct (single _ _ _) as [[]].
  - unfold rpcStream. rewrite proc_bind_eq. simpl.
    destruct (isOpen (bidirectionalStream tx)); [|done]. simpl. unfold on_stream.
    by destruct (stream _ _) as [[]].
  - done.
  - unfold tx_close. rewrite proc_bind_eq. unfold on_stream.
    by destruct (stream_close None _) as [[]].
  - unfold on_stream. by destruct (on_data _ _).
  - unfold on_stream. by destruct (on_error _ _).
  - unfold on_stream. by destruct (on_done _).
  - done.
  - done.
  - done.
Qed.

Context {UL : UuidLaws U}.
Implicit Types tx : TypeDBTransactionImpl.

(** A queue to which the end of the stream was delivered. *)
Definition ended_queue {T} (s : squeue (QueueElement T)) : Prop := ∃ e, Done e ∈ added s.

(** Once the stream is closed every queue has its end, and every promise that
    was returned is the first of a registered queue. *)
Record tx_inv (tx : TypeDBTransactionImpl) : Prop := {
  txi_stream : stream_inv show_state (bidirectionalStream tx);
  txi_responses : isOpen (bidirectionalStream tx) = false →
    ∀ id r s, holds (responseCollector (bidirectionalStream tx)) id r s → ended_queue s;
  txi_parts : isOpen (bidirectionalStream tx) = false →
    ∀ id r s, holds (responsePartCollector (bidirectionalStream tx)) id r s → ended_queue s;
  txi_issued : ∀ r p, (r, p) ∈ issued tx →
    p = 0 ∧ ∃ id s, holds (responseCollector (bidirectionalStream tx)) id r s;
}.

(** Only [single] and [stream] register queues. *)
Lemma step_tables (st : BidirectionalStream R P) ev :
  stream_inv show_state st →
  match ev with SSingle _ _ | SStream _ => True | _ =>
    response_queues (responseCollector (stream_step show_state st ev)) =
      response_queues (responseCollector st) ∧
    response_queues (responsePartCollector (stream_step show_state st ev)) =
      response_queues (responsePartCollector st)
  end.
Proof.
  intros Hinv.
  assert (∀ e, response_queues (responseCollector (stream_close e st).2) =
      response_queues (responseCollector st) ∧
    response_queues (responsePartCollector (stream_close e st).2) =
      response_queues (responsePartCollector st)) as Hclose.
  { intros e. destruct (stream_close_frame e st) as (-> & -> & _).
    split; apply collector_close_spec; [apply (inv_responses _ _ Hinv)|apply (inv_parts _ _ Hinv)]. }
  destruct ev as [rq b|rq|cb|e|res|e| |i|i|r]; simpl; try done; try apply Hclose.
  - unfold on_data. destruct (isOpen st); [|done]. simpl. destruct res; simpl; [| |done];
      unfold collectRes, collectResPart; destruct (uuid_stringify _); try done;
      by destruct (collector_get _ _).
  - destruct (pull_frame i st) as [-> _]. split; [done|]. unfold pull.
    destruct (iterators st !! i) as [it|]; [|done]. destruct (it_status_of it); try done.
    apply next_begin_table.
  - destruct (resume_frame show_state i st) as [-> _]. split; [done|]. unfold resume.
    destruct (iterators st !! i) as [it|]; [|done]. destruct (it_status_of it) as [|p|]; try done.
    unfold next_resume. destruct (response_of _ _ _) as [res| |]; try done.
    destruct (part_state res) as [[]|]; try done. unfold on_dispatcher.
    destruct (it_dispatcher it); [|done].
    match goal with |- context [next_begin _ _ ?x] => exact (next_begin_table i it x) end.
Qed.

(** A registered queue stands for an abstract one. *)
Lemma table_holds {T} (c : ResponseCollector T) id r :
  coll_inv c → response_queues c !! id = Some r → ∃ s, holds c id r s.
Proof.
  intros Hc Hr. pose proof (coll_refs _ Hc _ _ Hr) as [q Hq]%lookup_lt_is_Some.
  destruct (coll_repr _ Hc _ _ Hq) as [s ->]. by exists s.
Qed.

(** Queues keep or get their end when the stream is, or becomes, closed. *)
Lemma step_ended (st : BidirectionalStream R P) ev :
  stream_inv show_state st →
  match ev with SSingle _ _ | SStream _ => False | _ => True end →
  isOpen (stream_step show_state st ev) = false →
  (isOpen st = false →
     (∀ id r s, holds (responseCollector st) id r s → ended_queue s) ∧
     (∀ id r s, holds (responsePartCollector st) id r s → ended_queue s)) →
  (∀ id r s, holds (responseCollector (stream_step show_state st ev)) id r s → ended_queue s) ∧
  (∀ id r s, holds (responsePartCollector (stream_step show_state st ev)) id r s →
     ended_queue s).
Proof.
  intros Hinv Hev Hclosed Hold. rewrite (step_open show_state st ev Hinv) in Hclosed.
  assert (∃ e, (∀ id, delivered_res id (isOpen st) ev = [Done e]) ∧
               (∀ id, delivered_part id (isOpen st) ev = [Done e]) ∨ isOpen st = false)
    as [e Hor].
  { unfold still_open in Hclosed. destruct (isOpen st); [|exists None; by right].
    destruct ev; try done; simpl in *; by eexists; left. }
  pose proof (step_tables st ev Hinv) as Ht.
  assert (response_queues (responseCollector (stream_step show_state st ev)) =
      response_queues (responseCollector st) ∧
    response_queues (responsePartCollector (stream_step show_state st ev)) =
      response_queues (responsePartCollector st)) as [Ht1 Ht2] by by destruct ev.
  split; intros id r s' Hs'.
  - pose proof Hs' as [Hr _]. rewrite Ht1 in Hr.
    destruct (table_holds _ _ _ (inv_responses _ _ Hinv) Hr) as [s Hs].
    pose proof (step_res show_state st ev _ _ _ Hinv Hs) as Hs2.
    rewrite <- (holds_unique _ _ _ _ _ Hs2 Hs'). destruct Hor as [[Hd _]|Ho]; simpl.
    + exists e. simpl. rewrite Hd. set_solver.
    + destruct (proj1 (Hold Ho) _ _ _ Hs) as [e' He']. exists e'. simpl. set_solver.
  - pose proof Hs' as [Hr _]. rewrite Ht2 in Hr.
    destruct (table_holds _ _ _ (inv_parts _ _ Hinv) Hr) as [s Hs].
    destruct (step_part show_state st ev _ _ _ Hinv Hs) as [t Hs2].
    rewrite <- (holds_unique _ _ _ _ _ Hs2 Hs'). destruct Hor as [[_ Hd]|Ho]; simpl.
    + exists e. simpl. rewrite Hd. set_solver.
    + destruct (proj2 (Hold Ho) _ _ _ Hs) as [e' He']. exists e'. simpl. set_solver.
Qed.

Lemma tx_step_issued tx ev :
  tx_inv tx → ∀ r p, (r, p) ∈ issued (tx_step tx ev) →
    p = 0 ∧ ∃ id s, holds (responseCollector (bidirectionalStream (tx_step tx ev))) id r s.
Proof.
  intros [Hinv _ _ Hi] r p Hin.
  assert ((r, p) ∈ issued tx → p = 0 ∧
    ∃ id s, holds (responseCollector (bidirectionalStream (tx_step tx ev))) id r s) as Hkeep.
  { intros [-> (id & s & Hs)]%Hi. split; [done|]. exists id.
    rewrite tx_step_stream. destruct (guarded_event _ ev) as [sev|]; [|eauto].
    eexists. by apply step_res. }
  destruct ev as [rq b|rq|cb| |res|e| |i|i|r']; try (apply Hkeep; revert Hin; simpl;
    unfold rpcStream, tx_close, on_stream, throwTransactionClosed; rewrite ?proc_bind_eq; simpl;
    repeat case_match; simplify_eq/=; done).
  revert Hin Hkeep. simpl. unfold rpcExecute. rewrite proc_bind_eq. simpl.
  destruct (isOpen (bidirectionalStream tx)); [|auto]. simpl. rewrite proc_bind_eq.
  unfold on_stream. destruct (single_hands_out show_state rq (useBatch b) _ Hinv) as (r0 & E1 & _ & Hs).
  destruct (single _ _ _) as [o st]. simpl in E1, Hs. subst o. simpl.
  rewrite elem_of_app, list_elem_of_singleton. intros [Hin|[= -> ->]]; [auto|].
  intros _. split; [done|]. eauto.
Qed.

Lemma tx_inv_step tx ev : tx_inv tx → tx_inv (tx_step tx ev).
Proof.
  intros Htx. pose proof Htx as [Hinv Hr Hp Hi]. pose proof (tx_step_issued tx ev Htx) as Hi'.
  pose proof (tx_step_stream tx ev) as Hs. revert Hi'. generalize (tx_step tx ev), Hs.
  clear Hs. intros tx' Hs Hi'.
  destruct (guarded_event (isOpen (bidirectionalStream tx)) ev) as [sev|] eqn:Hg;
    [|split; rewrite ?Hs; try done; by rewrite Hs in Hi'].
  assert (match sev with SSingle _ _ | SStream _ => isOpen (bidirectionalStream tx) = true
          | _ => True end) as Hguard.
  { destruct ev, (isOpen (bidirectionalStream tx)); simplify_eq/=; done. }
  assert (isOpen (bidirectionalStream tx') = false →
    (∀ id r s, holds (responseCollector (bidirectionalStream tx')) id r s → ended_queue s) ∧
    (∀ id r s, holds (responsePartCollector (bidirectionalStream tx')) id r s → ended_queue s))
    as Hend.
  { rewrite Hs. intros Hc. apply step_ended; [done| |done|by intros Ho; split; [apply Hr|apply Hp]].
    rewrite (step_open show_state _ sev Hinv) in Hc. unfold still_open in Hc.
    destruct sev; try done; by rewrite Hguard in Hc. }
  split; [rewrite Hs; by apply stream_inv_step|apply Hend|apply Hend|done].
Qed.

Lemma tx_inv_run t evs : tx_inv (run_tx (new_tx t) evs).
Proof.
  apply (foldl_invariant tx_step tx_inv); [intros; by apply tx_inv_step|].
  split; simpl; [apply stream_inv_opened|done|done|intros r p H; by apply elem_of_nil in H].
Qed.

Lemma consume_ended (l : list (QueueElement (TransactionResPart P))) e :
  Done e ∈ l → (consume show_state l).2 ≠ None.
Proof.
  induction l as [|el l IH]; [by intros ?%elem_of_nil|]. intros [<-|Hin]%elem_of_cons; [done|].
  simpl. destruct (take_element el) as [res| |]; [|done..].
  destruct (part_state res) as [[]|]; try done; by apply IH.
Qed.

(** C5 - a closed transaction leaves nothing pending: after any run of calls
    and server events, if the transaction is closed then every promise that
    [rpcExecute] ever returned is settled, and every answer stream that awaits
    an element has it. *)
Theorem closed_transaction_settles_all (t : RequestTransmitter)
    (evs : list tx_event)
    (Hclosed : isOpen (bidirectionalStream (run_tx (new_tx t) evs)) = false) :
  let st := bidirectionalStream (run_tx (new_tx t) evs) in
  (∀ r p, (r, p) ∈ issued (run_tx (new_tx t) evs) →
     response_of (responseCollector st) r p ≠ Pending) ∧
  (∀ i it p, iterators st !! i = Some it → it_status_of it = ItAwaiting p →
     response_of (responsePartCollector st) (it_queue it) p ≠ Pending).
Proof.
  cbv zeta. destruct (tx_inv_run t evs) as [Hinv Hr Hp Hi]. split.
  - intros r p [-> (id & s & Hs)]%Hi. rewrite (holds_response _ _ _ _ 0 Hs).
    destruct (Hr Hclosed _ _ _ Hs) as [e He]. destruct (added s) as [|el l];
      [by apply elem_of_nil in He|]. by destruct el.
  - intros i it p Hit Hst. destruct (inv_iterators _ _ Hinv _ _ Hit) as (_ & s & Hs & Hm).
    unfold it_matches in Hm. rewrite Hst in Hm. destruct Hm as (_ & Hle & Hc).
    destruct (Hp Hclosed _ _ _ Hs) as [e He]. rewrite (holds_response _ _ _ _ p Hs).
    destruct (added s !! p) as [el|] eqn:Hel; [by destruct el|].
    apply lookup_ge_None in Hel. rewrite take_ge in Hc by lia.
    pose proof (consume_ended _ _ He) as Hne. by rewrite Hc in Hne.
Qed.

(** A closed transaction refuses every request and says why: the request
    is not registered or sent, and the error is the closed-transaction
    template when the stream was closed without an error, and otherwise names
    the error that closed it. *)
Theorem closed_transaction_refuses tx (request : pval) (batch : option bool)
    (Hclosed : isOpen (bidirectionalStream tx) = false) :
  let refusal := transaction_closed (bidirectionalStream tx) in
  rpcExecute request batch tx = (Throw refusal, tx) ∧
  rpcStream request tx = (Throw refusal, tx) ∧
  (has_template TRANSACTION_CLOSED refusal = error_falsy (getError (bidirectionalStream tx))) ∧
  (∀ e, getError (bidirectionalStream tx) = Some (CloseWith e) →
     refusal = driver_error TRANSACTION_CLOSED_WITH_ERRORS [exn_to_string e]).
Proof.
  cbv zeta. unfold rpcExecute, rpcStream. rewrite !proc_bind_eq. simpl. rewrite Hclosed.
  split_and!; try done; unfold transaction_closed; rewrite Hclosed.
  - by destruct (error_falsy _).
  - by intros e ->.
Qed.

(** A stream closes whatever its callbacks do. *)
Lemma tx_close_closed tx : isOpen (bidirectionalStream (tx_close tx).2) = false.
Proof.
  unfold tx_close. rewrite proc_bind_eq. unfold on_stream.
  destruct (stream_close_frame None (bidirectionalStream tx)) as (_ & _ & _ & Ho & _).
  by destruct (stream_close None _) as [[] st].
Qed.

(** A commit always closes the transaction: whatever the server answers,
    and also when the transaction was closed before, a commit that does not
    wait forever leaves the transaction closed. *)
Theorem commit_closes tx (evs : list (stream_event R P))
    (Hdone : (commit evs tx).1 ≠ Pending) :
  isOpen (bidirectionalStream (commit evs tx).2) = false.
Proof.
  revert Hdone. unfold commit, try_finally.
  destruct ((rpcExecute _ _ ≫= _) tx) as [[a|e|] tx1]; [| |done]; intros _;
    rewrite proc_bind_eq; pose proof (tx_close_closed tx1) as Hc;
    by destruct (tx_close tx1) as [[] tx2].
Qed.
End transaction.

Arguments TypeDBTransactionImpl : clear implicits.
Arguments tx_event : clear implicits.

(** ** Concrete runs *)

#[local] Existing Instance number_uuid.
#[local] Existing Instance number_uuid_laws.

(** A request is answered, another is not before the server ends the stream. *)
Definition demo_tx_events : list (tx_event nat nat) :=
  [TExecute demo_request None; TStream demo_request; TPull 0; TExecute demo_request (Some false);
   TData (ServerRes (mkRes (String.list_byte_of_string "0") 7)); TDone;
   TExecute demo_request None].

Lemma closed_transaction_settles_all_witness :
  let tx := run_tx demo_show (new_tx new_transmitter) demo_tx_events in
  issued tx = [(0, 0); (1, 0)] ∧
  response_of (responseCollector (bidirectionalStream tx)) 1 0 ≠ Pending.
Proof.
  split; [vm_compute; reflexivity|].
  apply (closed_transaction_settles_all demo_show new_transmitter demo_tx_events);
    [vm_compute; reflexivity|]. vm_compute. right. left.
Defined.

Lemma closed_transaction_refuses_witness :
  let tx := run_tx demo_show (new_tx new_transmitter) demo_tx_events in
  rpcStream demo_request tx = (Throw (TypeDBDriverError (ArgTemplate TRANSACTION_CLOSED)), tx).
Proof.
  destruct (closed_transaction_refuses (run_tx demo_show (new_tx new_transmitter) demo_tx_events)
    demo_request None) as (_ & H & _); [vm_compute; reflexivity|].
  cbv zeta. rewrite H. f_equal.
Defined.

Lemma commit_closes_witness :
  isOpen (bidirectionalStream (commit demo_show
    [SData (ServerRes (mkRes (String.list_byte_of_string "0") 7))]
    (new_tx (P := nat) new_transmitter)).2) = false.
Proof.
  apply (commit_closes demo_show (new_tx new_transmitter)
    [SData (ServerRes (mkRes (String.list_byte_of_string "0") 7))]).
  vm_compute. discriminate.
Defined.
