(* ===== verification/Shared.v ===== *)
(** * Transactions that share a transmitter

    All transactions that are opened on one server use the request transmitter
    of its [ServerDriver] ([requestTransmitter] of
    [connection/TypeDBSessionImpl.ts]): each attaches a dispatcher of its own to
    it. This file runs any number of transactions over one transmitter, with
    their calls, their messages and the timers of the dispatchers interleaved
    in any order, and shows that each of them behaves as if it were alone: the
    projection of a shared run to one transaction is the run of that
    transaction by itself. What is proved of single transactions elsewhere
    holds of shared ones by this. *)
From S2P Require Import Prelude Errors Bytes Proto RequestBuilder BlockingQueue Dispatcher Collector BiStream BiStreamSpec Options Transaction.

Create HintDb isolation.

Section isolation.
Context {U : Uuid} {R P : Type}.
Context (show_state : TransactionStreamState → string).
Local Abbreviation BS := (BidirectionalStream R P).
Local Abbreviation Tx := (TypeDBTransactionImpl R P).
Local Abbreviation sproc := (proc BS exn).
Implicit Types (st : BS) (t : RequestTransmitter) (d : nat).

(** ** The view of one stream *)

(** The iterator, for a stream whose dispatcher is the only one. *)
Definition alone_it (it : ResponsePartIterator P) : ResponsePartIterator P :=
  mkIterator (it_requestId it) (it_queue it) (Some 0) (it_status_of it) (it_yielded it).

(** The transmitter, with dispatcher [d] alone. *)
Definition alone_tr d t : RequestTransmitter :=
  mkTransmitter (if bool_decide (d ∈ dispatchers t) then [0] else []) (tr_isOpen t)
    (if heap t !! d is Some x then [x] else []).

Definition alone d st : BS :=
  mkStream (responseCollector st) (responsePartCollector st) (Some 0) (isOpen st) (getError st)
    (onClose_list st) (called st) (drawn st) (alone_tr d (requestTransmitter st))
    (alone_it <$> iterators st).

(** The stream uses dispatcher [d], and so do its iterators. *)
Record owns d st : Prop := mkOwns {
  own_dispatcher : dispatcher st = Some d;
  own_heap : d < length (heap (requestTransmitter st));
  own_iterators : Forall (λ it, it_dispatcher it = Some d) (iterators st);
}.

(** ** Computations that use only their own dispatcher *)

(** Nothing but dispatcher [d] changed in the transmitter. *)
Record spares d t t' : Prop := mkSpares {
  sp_length : length (heap t') = length (heap t);
  sp_open : tr_isOpen t' = tr_isOpen t;
  sp_others : ∀ d', d' ≠ d → alone_tr d' t' = alone_tr d' t;
}.

#[export] Instance spares_preorder d : PreOrder (spares d).
Proof.
  split; [by split|]. intros t1 t2 t3 [L1 O1 S1] [L2 O2 S2].
  split; [congruence..|]. intros d' Hd. by rewrite S2, S1.
Qed.

(** [m] does on a stream that uses [d] what [m'] does on the stream alone, and
    spares the other dispatchers. *)
Definition isolates {A} d (m m' : sproc A) : Prop := ∀ st, owns d st →
  m' (alone d st) = ((m st).1, alone d (m st).2) ∧ owns d (m st).2 ∧
  spares d (requestTransmitter st) (requestTransmitter (m st).2).

(** A computation that reads its dispatcher of the stream. *)
Definition isolated {A} d (m : sproc A) : Prop := isolates d m m.

Lemma isolated_ret {A} d (a : A) : isolated d (mret a).
Proof. intros st H. by split_and!. Qed.
Lemma isolated_lift {A} d (o : outcome exn A) : isolated d (lift_outcome o).
Proof. intros st H. by split_and!. Qed.
Lemma isolated_gets {A} d (f : BS → A) :
  (∀ st, owns d st → f (alone d st) = f st) → isolated d (gets f).
Proof. intros Hf st H. unfold gets. cbn. rewrite Hf by done. by split_and!. Qed.

Lemma isolated_bind {A B} d (m : sproc A) (k : A → sproc B) :
  isolated d m → (∀ a, isolated d (k a)) → isolated d (m ≫= k).
Proof.
  intros Hm Hk st H. destruct (Hm st H) as (E & H1 & S1). rewrite !proc_bind_eq, E.
  destruct (m st) as [[a|e|] st1]; cbn [fst snd] in *; [|by split_and!..].
  destruct (Hk a st1 H1) as (E2 & H2 & S2). rewrite E2. split_and!; [done|done|by etransitivity].
Qed.

(** A change of the stream that leaves dispatcher, transmitter and iterators. *)
Lemma isolated_own {A} d (m : sproc A) :
  (∀ st, m (alone d st) = ((m st).1, alone d (m st).2)) →
  (∀ st, dispatcher (m st).2 = dispatcher st ∧
     requestTransmitter (m st).2 = requestTransmitter st ∧ iterators (m st).2 = iterators st) →
  isolated d m.
Proof.
  intros H1 H2 st [Hd Hh Hi]. destruct (H2 st) as (E1 & E2 & E3).
  split_and!; [done|split; rewrite ?E1, ?E2, ?E3; done|by rewrite E2].
Qed.

Lemma alone_tr_heap d t x :
  heap t !! d = Some x →
  alone_tr d t = mkTransmitter (if bool_decide (d ∈ dispatchers t) then [0] else []) (tr_isOpen t) [x].
Proof. intros H. unfold alone_tr. by rewrite H. Qed.

(** ** The operations of a stream *)

Lemma isolates_on_dispatcher d f :
  isolates d (on_dispatcher (Some d) f) (on_dispatcher (Some 0) f).
Proof.
  intros st [Hd Hh Hi]. unfold on_dispatcher. cbn [fst snd].
  destruct (lookup_lt_is_Some_2 _ _ Hh) as [x Hx]. split_and!.
  - unfold alone. cbn. rewrite (alone_tr_heap _ _ _ Hx). unfold alone_tr. cbn.
    by rewrite list_lookup_alter, decide_True, Hx.
  - split; cbn; [done|by rewrite length_alter|done].
  - split; cbn; [by rewrite length_alter|done|]. intros d' Hne. unfold alone_tr. cbn.
    by rewrite list_lookup_alter_ne.
Qed.

Lemma isolated_call_dispatcher d f : isolated d (call_dispatcher f).
Proof.
  intros st H. unfold call_dispatcher. rewrite (own_dispatcher _ _ H).
  exact (isolates_on_dispatcher d f st H).
Qed.

Lemma isolated_draw_id d : isolated d draw_id.
Proof. by apply isolated_own. Qed.
Lemma isolated_queue_response d id : isolated d (queue_response id).
Proof. apply isolated_own; intros st; unfold queue_response; cbn; by repeat case_match. Qed.
Lemma isolated_queue_part d id : isolated d (queue_part id).
Proof. apply isolated_own; intros st; unfold queue_part; cbn; by repeat case_match. Qed.
Lemma isolated_take_response d r : isolated d (take_response r).
Proof. apply isolated_own; intros st; unfold take_response; cbn; by repeat case_match. Qed.
Lemma isolated_invoke d i cb e : isolated d (invoke i cb e).
Proof. by apply isolated_own. Qed.

Lemma isolated_new_iterator d id q : isolated d (new_iterator id q).
Proof.
  intros st [Hd Hh Hi]. unfold new_iterator. cbn [fst snd]. split_and!.
  - unfold alone, set_iterators. cbn. by rewrite length_fmap, fmap_app.
  - split; cbn; [done|done|]. apply Forall_app. by repeat constructor.
  - done.
Qed.

Lemma isolated_close_dispatcher d : isolated d close_dispatcher.
Proof.
  intros st [Hd Hh Hi]. unfold close_dispatcher. rewrite Hd. cbn [fst snd alone dispatcher].
  destruct (lookup_lt_is_Some_2 _ _ Hh) as [x Hx]. split_and!.
  - unfold alone, set_transmitter, dispatcher_close, alone_tr. cbn.
    rewrite list_lookup_alter, decide_True, Hx by done. cbn.
    rewrite (bool_decide_eq_false_2 (d ∈ List.filter _ _)); [by case_bool_decide|].
    by intros [_ H]%list_elem_of_In%List.filter_In; rewrite bool_decide_eq_true_2 in H.
  - split; cbn; [done|by rewrite length_alter|done].
  - split; cbn; [by rewrite length_alter|done|]. intros d' Hne. unfold alone_tr. cbn.
    rewrite list_lookup_alter_ne by done. f_equal.
    rewrite (bool_decide_ext (d' ∈ List.filter _ _) (d' ∈ dispatchers (requestTransmitter st)));
      [done|].
    rewrite !list_elem_of_In, List.filter_In, bool_decide_eq_false_2 by done. tauto.
Qed.

#[local] Hint Resolve isolated_ret isolated_lift isolated_bind isolated_call_dispatcher
  isolated_draw_id isolated_queue_response isolated_queue_part isolated_take_response
  isolated_invoke isolated_new_iterator isolated_close_dispatcher : isolation.

Lemma isolated_single d request batch : isolated d (single request batch).
Proof. unfold single. destruct batch; eauto 10 with isolation. Qed.

Lemma isolated_stream d request : isolated d (stream request).
Proof. unfold stream. eauto 10 with isolation. Qed.

Lemma isolated_call_back d i cbs e : isolated d (call_back i cbs e).
Proof. revert i. induction cbs; intros i; simpl; auto with isolation. Qed.

Lemma isolated_stream_close d e : isolated d (stream_close e).
Proof.
  apply isolated_bind; [by apply isolated_own|]. intros _.
  apply isolated_bind; [apply isolated_close_dispatcher|]. intros _.
  apply isolated_bind; [by apply isolated_gets|]. intros cbs. apply isolated_call_back.
Qed.

Lemma isolated_on_data d res : isolated d (on_data res).
Proof.
  apply isolated_own; intros st; unfold on_data, collectRes, collectResPart; cbn;
    by repeat case_match.
Qed.

(** ** Iterators *)

(** The same for a step of the state. *)
Definition evolves d (f f' : BS → BS) : Prop := ∀ st, owns d st →
  f' (alone d st) = alone d (f st) ∧ owns d (f st) ∧
  spares d (requestTransmitter st) (requestTransmitter (f st)).

Lemma evolves_proc {A} d (m m' : sproc A) :
  isolates d m m' → evolves d (λ st, (m st).2) (λ st, (m' st).2).
Proof. intros H st Hst. destruct (H st Hst) as (E & H1 & H2). cbn. by rewrite E. Qed.

Lemma evolves_at_iterator d i (g : ResponsePartIterator P → ResponsePartIterator P) :
  (∀ it, alone_it (g it) = g (alone_it it)) → (∀ it, it_dispatcher (g it) = it_dispatcher it) →
  evolves d (at_iterator i g) (at_iterator i g).
Proof.
  intros Hg Hd st [H1 H2 H3]. cbn. split_and!.
  - unfold alone, at_iterator, set_iterators. cbn. f_equal. symmetry.
    apply list_fmap_alter, Forall_true. done.
  - split; cbn; [done|done|]. apply Forall_alter; [done|]. intros it Hit Hdit. by rewrite Hd.
  - done.
Qed.

Lemma evolves_next_begin d i it :
  evolves d (next_begin i it) (next_begin i (alone_it it)).
Proof.
  intros st H. unfold next_begin. cbn [alone responsePartCollector it_queue alone_it].
  destruct (queue_take _ _) as [[p|] c].
  - assert (owns d (set_parts c st)) as H' by (destruct H; by split).
    exact (evolves_at_iterator d i (set_status (ItAwaiting p)) (λ _, eq_refl) (λ _, eq_refl)
      (set_parts c st) H').
  - exact (evolves_at_iterator d i (set_status _) (λ _, eq_refl) (λ _, eq_refl) st H).
Qed.

Lemma evolves_next_resume d i it res :
  it_dispatcher it = Some d →
  evolves d (next_resume show_state i it res) (next_resume show_state i (alone_it it) res).
Proof.
  intros Hd st H. unfold next_resume. destruct res as [res|e|]; [|by apply evolves_at_iterator|by split_and!].
  destruct (part_state res) as [[]|]; try by apply evolves_at_iterator.
  cbn [it_dispatcher alone_it it_requestId]. rewrite Hd.
  destruct (isolates_on_dispatcher d (dispatch (Transaction_streamReq uuid_parse (it_requestId it)))
    st H) as (E & H1 & S1).
  rewrite E. unfold on_dispatcher in *. cbn [fst snd] in *.
  destruct (evolves_next_begin d i it _ H1) as (E2 & H2 & S2). split_and!; [done|done|].
  by etransitivity.
Qed.

Lemma evolves_pull d i : evolves d (pull i) (pull i).
Proof.
  intros st H. unfold pull. cbn [alone iterators]. rewrite list_lookup_fmap.
  destruct (iterators st !! i) as [it|]; [|by split_and!]. cbn.
  destruct (it_status_of it); [by apply evolves_next_begin|by split_and!..].
Qed.

Lemma evolves_resume d i : evolves d (resume show_state i) (resume show_state i).
Proof.
  intros st H. unfold resume. cbn [alone iterators]. rewrite list_lookup_fmap.
  destruct (iterators st !! i) as [it|] eqn:Hi; [|by split_and!]. cbn.
  destruct (it_status_of it); [by split_and!| |by split_and!].
  apply evolves_next_resume; [|done]. by apply (Forall_lookup_1 _ _ _ _ (own_iterators _ _ H) Hi).
Qed.

(** ** Transactions *)

Definition alone_tx d (tx : Tx) : Tx :=
  mkTx (alone d (bidirectionalStream tx)) (tracked tx) (issued tx).

Definition tx_transmitter (tx : Tx) : RequestTransmitter :=
  requestTransmitter (bidirectionalStream tx).

(** The same for computations of a transaction. *)
Definition isolated_tx {A} d (m : proc Tx exn A) : Prop := ∀ tx, owns d (bidirectionalStream tx) →
  m (alone_tx d tx) = ((m tx).1, alone_tx d (m tx).2) ∧ owns d (bidirectionalStream (m tx).2) ∧
  spares d (tx_transmitter tx) (tx_transmitter (m tx).2).

Lemma isolated_tx_lift {A} d (o : outcome exn A) : isolated_tx d (lift_outcome o).
Proof. intros tx H. by split_and!. Qed.

Lemma isolated_tx_bind {A B} d (m : proc Tx exn A) (k : A → proc Tx exn B) :
  isolated_tx d m → (∀ a, isolated_tx d (k a)) → isolated_tx d (m ≫= k).
Proof.
  intros Hm Hk tx H. destruct (Hm tx H) as (E & H1 & S1). rewrite !proc_bind_eq, E.
  destruct (m tx) as [[a|e|] tx1]; cbn [fst snd] in *; [|by split_and!..].
  destruct (Hk a tx1 H1) as (E2 & H2 & S2). rewrite E2. split_and!; [done|done|by etransitivity].
Qed.

Lemma on_stream_alone {A} d (m : sproc A) : isolated d m → isolated_tx d (on_stream m).
Proof.
  intros Hm tx H. destruct (Hm _ H) as (E & H1 & H2). unfold on_stream. cbn [alone_tx bidirectionalStream].
  rewrite E. unfold tx_transmitter. by destruct (m (bidirectionalStream tx)).
Qed.

Lemma rpcExecute_alone d request batch : isolated_tx d (rpcExecute request batch).
Proof.
  intros tx H. unfold rpcExecute. rewrite !proc_bind_eq. cbn [gets].
  change (isOpen (bidirectionalStream (alone_tx d tx))) with (isOpen (bidirectionalStream tx)).
  destruct (isOpen (bidirectionalStream tx)); cbn [negb]; [|by split_and!].
  revert tx H. apply isolated_tx_bind; [apply on_stream_alone, isolated_single|].
  intros p tx H. by split_and!.
Qed.

Lemma tx_close_alone d : isolated_tx d tx_close.
Proof.
  apply isolated_tx_bind; [apply on_stream_alone, isolated_stream_close|].
  intros _ tx H. by split_and!.
Qed.

(** The timers of dispatchers are events of the transmitter. *)
Definition no_timer (ev : tx_event R P) : bool := match ev with TTimer _ => false | _ => true end.

Lemma tx_step_alone d (tx : Tx) ev :
  no_timer ev = true → owns d (bidirectionalStream tx) →
  tx_step show_state (alone_tx d tx) ev = alone_tx d (tx_step show_state tx ev) ∧
  owns d (bidirectionalStream (tx_step show_state tx ev)) ∧
  spares d (requestTransmitter (bidirectionalStream tx))
    (requestTransmitter (bidirectionalStream (tx_step show_state tx ev))).
Proof.
  intros Ht H. destruct ev as [rq b|rq|cb| |res|e| |i|i|r]; try done; cbn [tx_step].
  - destruct (rpcExecute_alone d rq b tx H) as (E & H1 & H2). by rewrite E.
  - unfold rpcStream. rewrite !proc_bind_eq. cbn [gets alone_tx bidirectionalStream].
    cbn [alone isOpen]. destruct (isOpen (bidirectionalStream tx)); cbn [negb]; [|by split_and!].
    destruct (on_stream_alone d _ (isolated_stream d rq) tx H) as (E & H1 & H2).
    fold (alone d (bidirectionalStream tx)). fold (alone_tx d tx). by rewrite E.
  - destruct H. by split_and!.
  - destruct (tx_close_alone d tx H) as (E & H1 & H2). by rewrite E.
  - destruct (on_stream_alone d _ (isolated_on_data d res) tx H) as (E & H1 & H2). by rewrite E.
  - destruct (on_stream_alone d _ (isolated_stream_close d (Some (CloseWith e))) tx H) as (E & H1 & H2).
    unfold on_error. by rewrite E.
  - destruct (on_stream_alone d _ (isolated_stream_close d None) tx H) as (E & H1 & H2).
    unfold on_done. by rewrite E.
  - destruct (evolves_pull d i _ H) as (E & H1 & H2). unfold set_stream, alone_tx. cbn. by rewrite E.
  - destruct (evolves_resume d i _ H) as (E & H1 & H2). unfold set_stream, alone_tx. cbn. by rewrite E.
Qed.

(** *** Awaiting a response *)

(** The events are no timers of dispatchers. *)
Definition no_stream_timer (ev : stream_event R P) : bool :=
  match ev with STimer _ => false | _ => true end.

Lemma stream_step_alone d ev :
  no_stream_timer ev = true →
  evolves d (λ st, stream_step show_state st ev) (λ st, stream_step show_state st ev).
Proof.
  intros Ht. destruct ev as [rq b|rq|cb|e|res|e| |i|i|r]; try done; cbn [stream_step].
  - apply evolves_proc, isolated_single.
  - apply evolves_proc, isolated_stream.
  - intros st []. by split_and!.
  - apply evolves_proc, isolated_stream_close.
  - apply evolves_proc, isolated_on_data.
  - apply evolves_proc, isolated_stream_close.
  - apply evolves_proc, isolated_stream_close.
  - apply evolves_pull.
  - apply evolves_resume.
Qed.

Lemma run_stream_alone d evs :
  Forall (λ ev, no_stream_timer ev = true) evs →
  evolves d (λ st, run_stream show_state st evs) (λ st, run_stream show_state st evs).
Proof.
  induction 1 as [|ev evs Hev _ IH]; intros st H; [by split_and!|].
  destruct (stream_step_alone d ev Hev st H) as (E & H1 & S1). cbn [run_stream foldl] in *.
  rewrite E. destruct (IH _ H1) as (E2 & H2 & S2). split_and!; [exact E2|exact H2|by etransitivity].
Qed.

Lemma await_response_alone d evs p :
  Forall (λ ev, no_stream_timer ev = true) evs → isolated_tx d (await_response show_state evs p).
Proof.
  intros Hevs tx H. destruct (run_stream_alone d evs Hevs _ H) as (E & H1 & H2).
  unfold await_response. cbn [alone_tx bidirectionalStream fst snd]. rewrite E. by split_and!.
Qed.

(** ** The transactions of a server *)

(** The transmitter of a [ServerDriver] and the transactions opened over it;
    the transmitter recorded in a transaction is only as new as its last
    step, so that the shared one is put in its place before the next. *)
Record Server : Type := mkServer {
  sv_transmitter : RequestTransmitter;
  sv_transactions : list Tx;
}.

Inductive server_event : Type :=
  | VOpen
  | VTx (i : nat) (ev : tx_event R P)
  | VTimer (r : nat).

Definition put_transmitter t (tx : Tx) : Tx :=
  Transaction.set_stream (set_transmitter t (bidirectionalStream tx)) tx.

(** The timer of dispatcher [r] fires. *)
Definition fire_timer (r : nat) t : RequestTransmitter :=
  mkTransmitter (dispatchers t) (tr_isOpen t) (alter timer_fires r (heap t)).

Definition server_step (sv : Server) (ev : server_event) : Server :=
  let t := sv_transmitter sv in
  match ev with
  | VOpen =>
      let tx := new_tx t in mkServer (tx_transmitter tx) (sv_transactions sv ++ [tx])
  | VTx i (TTimer r) => mkServer (fire_timer r t) (sv_transactions sv)
  | VTx i ev =>
      match sv_transactions sv !! i with
      | Some tx =>
          let tx' := tx_step show_state (put_transmitter t tx) ev in
          mkServer (tx_transmitter tx') (<[i := tx']> (sv_transactions sv))
      | None => sv
      end
  | VTimer r => mkServer (fire_timer r t) (sv_transactions sv)
  end.

Definition new_server : Server := mkServer new_transmitter [].
Definition run_server : list server_event → Server := foldl server_step new_server.

(** Transaction [i], as it is now. *)
Definition view (sv : Server) (i : nat) : option Tx :=
  put_transmitter (sv_transmitter sv) <$> sv_transactions sv !! i.

(** The events of transaction [i], when [n] transactions have been opened:
    what is asked of it before it is opened is asked of nothing. *)
Fixpoint project (i n : nat) (evs : list server_event) : list (tx_event R P) :=
  match evs with
  | [] => []
  | VOpen :: evs' => project i (S n) evs'
  | VTx _ (TTimer r) :: evs' | VTimer r :: evs' =>
      (if bool_decide (r = i ∧ i < n) then [TTimer 0] else []) ++ project i n evs'
  | VTx j ev :: evs' =>
      (if bool_decide (j = i ∧ i < n) then [ev] else []) ++ project i n evs'
  end.

(** Transaction [i] owns dispatcher [i]. *)
Record server_inv (sv : Server) : Prop := mkServerInv {
  si_heap : length (heap (sv_transmitter sv)) = length (sv_transactions sv);
  si_open : tr_isOpen (sv_transmitter sv) = true;
  si_owns : ∀ i tx, view sv i = Some tx → owns i (bidirectionalStream tx);
}.

Local Abbreviation solo := (foldl (tx_step show_state)).

Lemma view_lookup sv i tx :
  view sv i = Some tx →
  ∃ tx0, sv_transactions sv !! i = Some tx0 ∧ tx = put_transmitter (sv_transmitter sv) tx0.
Proof. intros (tx0 & H & ->)%fmap_Some. by exists tx0. Qed.

(** Transaction [i] does not see what spares its dispatcher. *)
Lemma alone_spared i j t t' (tx : Tx) :
  i ≠ j → spares j t t' → alone_tx i (put_transmitter t' tx) = alone_tx i (put_transmitter t tx).
Proof.
  intros Hne [_ _ Hs]. unfold alone_tx, put_transmitter, alone. cbn. by rewrite Hs.
Qed.

Lemma owns_put i t t' (tx : Tx) :
  length (heap t) <= length (heap t') →
  owns i (bidirectionalStream (put_transmitter t tx)) →
  owns i (bidirectionalStream (put_transmitter t' tx)).
Proof. intros Hl [H1 H2 H3]. split; [done| |done]. cbn in *. lia. Qed.

Lemma fire_timer_spares r t : spares r t (fire_timer r t).
Proof.
  split; cbn; [by rewrite length_alter|done|]. intros d' Hne. unfold alone_tr. cbn.
  by rewrite list_lookup_alter_ne.
Qed.

Lemma fire_timer_own i t (tx : Tx) :
  alone_tx i (put_transmitter (fire_timer i t) tx) =
    tx_step show_state (alone_tx i (put_transmitter t tx)) (TTimer 0).
Proof.
  unfold alone_tx, put_transmitter, alone, tx_step, on_stream, on_dispatcher, Transaction.set_stream.
  cbn. do 2 f_equal. unfold alone_tr, fire_timer, set_transmitter. cbn.
  rewrite list_lookup_alter, decide_True by done. f_equal. f_equal. by destruct (heap t !! i).
Qed.

(** One event of the server, as transaction [i] sees it. *)
Definition seen (i n : nat) (ev : server_event) : list (tx_event R P) := project i n [ev].

Lemma timer_step i r sv :
  server_inv sv →
  let sv' := mkServer (fire_timer r (sv_transmitter sv)) (sv_transactions sv) in
  server_inv sv' ∧
  ∀ tx, view sv i = Some tx → ∃ tx', view sv' i = Some tx' ∧
    alone_tx i tx' = solo (alone_tx i tx) (if bool_decide (r = i) then [TTimer 0] else []).
Proof.
  intros [Hh Ho Hown]. cbv zeta. pose proof (fire_timer_spares r (sv_transmitter sv)) as Hs. split.
  - split; cbn [sv_transmitter sv_transactions]; [by rewrite (sp_length _ _ _ Hs)|done|].
    intros j tx (tx0 & Hj & ->)%view_lookup. cbn [sv_transmitter sv_transactions] in *.
    apply (owns_put _ (sv_transmitter sv)); [rewrite (sp_length _ _ _ Hs); lia|apply Hown].
    unfold view. by rewrite Hj.
  - intros tx (tx0 & Hi & ->)%view_lookup. unfold view. cbn. rewrite Hi. cbn.
    eexists. split; [done|]. case_bool_decide as Hr; [subst|].
    + by rewrite fire_timer_own.
    + cbn. by apply (alone_spared i r).
Qed.

Lemma put_own (tx : Tx) : put_transmitter (tx_transmitter tx) tx = tx.
Proof. by destruct tx as [ []]. Qed.

(** Transaction [j] goes on: the others do not see it. *)
Lemma server_update j (tx tx' : Tx) sv :
  server_inv sv → view sv j = Some tx → owns j (bidirectionalStream tx') →
  spares j (tx_transmitter tx) (tx_transmitter tx') →
  let sv' := mkServer (tx_transmitter tx') (<[j := tx']> (sv_transactions sv)) in
  server_inv sv' ∧ view sv' j = Some tx' ∧
  ∀ i txi, i ≠ j → view sv i = Some txi →
    ∃ txi', view sv' i = Some txi' ∧ alone_tx i txi' = alone_tx i txi.
Proof.
  intros [Hh Ho Hown] (tx0 & Hj & ->)%view_lookup Hj' Hs. cbv zeta.
  change (tx_transmitter (put_transmitter _ _)) with (sv_transmitter sv) in Hs.
  pose proof (lookup_lt_Some _ _ _ Hj) as Hlt. split_and!.
  - split; cbn [sv_transmitter sv_transactions].
    + by rewrite length_insert, (sp_length _ _ _ Hs).
    + by rewrite (sp_open _ _ _ Hs).
    + intros i' tx (tx1 & Hi' & ->)%view_lookup. cbn [sv_transmitter sv_transactions] in *.
      destruct (decide (i' = j)) as [->|Hne].
      * rewrite list_lookup_insert_eq in Hi' by done. injection Hi' as <-. by rewrite put_own.
      * rewrite list_lookup_insert_ne in Hi' by done.
        apply (owns_put _ (sv_transmitter sv)); [rewrite (sp_length _ _ _ Hs); lia|apply Hown].
        unfold view. by rewrite Hi'.
  - unfold view. cbn. rewrite list_lookup_insert_eq by done. cbn. by rewrite put_own.
  - intros i txi Hne (tx1 & Hi & ->)%view_lookup. unfold view. cbn.
    rewrite list_lookup_insert_ne by done. rewrite Hi. cbn. eexists. split; [done|].
    by apply (alone_spared i j).
Qed.

Lemma tx_event_step i j ev sv :
  no_timer ev = true → server_inv sv →
  let sv' := server_step sv (VTx j ev) in
  server_inv sv' ∧ length (sv_transactions sv') = length (sv_transactions sv) ∧
  ∀ tx, view sv i = Some tx → ∃ tx', view sv' i = Some tx' ∧
    alone_tx i tx' = solo (alone_tx i tx) (if bool_decide (j = i) then [ev] else []).
Proof.
  intros Hev Hsv. cbv zeta.
  assert (server_step sv (VTx j ev) = match sv_transactions sv !! j with
    | Some tx => let tx' := tx_step show_state (put_transmitter (sv_transmitter sv) tx) ev in
        mkServer (tx_transmitter tx') (<[j := tx']> (sv_transactions sv))
    | None => sv end) as -> by by destruct ev.
  destruct (sv_transactions sv !! j) as [txj|] eqn:Hj; cycle 1.
  { split_and!; [done|done|]. intros tx Hi. exists tx. split; [done|].
    rewrite bool_decide_eq_false_2; [done|]. intros ->. unfold view in Hi. by rewrite Hj in Hi. }
  assert (view sv j = Some (put_transmitter (sv_transmitter sv) txj)) as Hvj
    by (unfold view; by rewrite Hj).
  destruct (tx_step_alone j _ ev Hev (si_owns _ Hsv _ _ Hvj)) as (E & H1 & Hs). cbv zeta.
  set (tx' := tx_step show_state (put_transmitter (sv_transmitter sv) txj) ev) in *.
  destruct (server_update j _ tx' sv Hsv Hvj H1 Hs) as (I1 & V1 & K1). split_and!.
  - done.
  - cbn. apply length_insert.
  - intros tx Hi. case_bool_decide as Hij; [subst j|].
    + exists tx'. split; [done|]. rewrite Hvj in Hi. injection Hi as <-. by rewrite <- E.
    + by apply K1.
Qed.

(** The transmitter with a new dispatcher: the old transactions do not see it,
    and it is there alone for the new one. *)
Lemma attached_old i t : i < length (heap t) → alone_tr i (transmitter_dispatcher t).2 = alone_tr i t.
Proof.
  intros Hi. unfold alone_tr. cbn. rewrite lookup_app_l by lia. f_equal.
  rewrite (bool_decide_ext (i ∈ dispatchers t ++ [length (heap t)]) (i ∈ dispatchers t)); [done|].
  rewrite elem_of_app, list_elem_of_singleton. split; [intros [H|H]; [done|lia]|auto].
Qed.

Lemma attached_new t :
  tr_isOpen t = true →
  alone_tr (length (heap t)) (transmitter_dispatcher t).2 = (transmitter_dispatcher new_transmitter).2.
Proof.
  intros Ho. unfold alone_tr. cbn. rewrite lookup_app_r, Nat.sub_diag, Ho by done. cbn.
  rewrite bool_decide_eq_true_2; [done|]. apply elem_of_app. right. by apply list_elem_of_singleton.
Qed.

(** A transaction joins that has used nothing but its new dispatcher. *)
Lemma server_extend (tx' : Tx) sv :
  let n := length (sv_transactions sv) in
  server_inv sv → owns n (bidirectionalStream tx') →
  spares n (transmitter_dispatcher (sv_transmitter sv)).2 (tx_transmitter tx') →
  let sv' := mkServer (tx_transmitter tx') (sv_transactions sv ++ [tx']) in
  server_inv sv' ∧ view sv' n = Some tx' ∧
  ∀ i txi, view sv i = Some txi → ∃ txi', view sv' i = Some txi' ∧ alone_tx i txi' = alone_tx i txi.
Proof.
  cbv zeta. intros [Hh Ho Hown] Hn Hs. set (n := length (sv_transactions sv)) in *.
  set (t := sv_transmitter sv) in *.
  assert (length (heap (tx_transmitter tx')) = S n) as Hlen
    by (rewrite (sp_length _ _ _ Hs); cbn; rewrite length_app, Hh; cbn; lia).
  split_and!.
  - split; cbn [sv_transmitter sv_transactions].
    + rewrite Hlen, length_app. cbn. unfold n. lia.
    + rewrite (sp_open _ _ _ Hs). done.
    + intros i tx0 (tx1 & Hi & ->)%view_lookup. cbn [sv_transmitter sv_transactions] in *.
      apply lookup_app_Some in Hi as [Hi|[Hle [Hi <-]%list_lookup_singleton_Some]].
      * apply (owns_put _ t); [lia|apply Hown]. unfold view. by rewrite Hi.
      * assert (i = n) as -> by (unfold n; lia). by rewrite put_own.
  - unfold view. cbn. unfold n. rewrite lookup_app_r, Nat.sub_diag by done. cbn. by rewrite put_own.
  - intros i txi (tx1 & Hi & ->)%view_lookup. unfold view. cbn [sv_transmitter sv_transactions].
    rewrite (lookup_app_l_Some _ _ _ _ Hi). cbn. eexists. split; [done|].
    pose proof (lookup_lt_Some _ _ _ Hi) as Hlt. fold n in Hlt.
    unfold alone_tx, put_transmitter, alone. cbn [bidirectionalStream Transaction.set_stream
      set_transmitter requestTransmitter]. fold t.
    rewrite (sp_others _ _ _ Hs) by lia. by rewrite attached_old by lia.
Qed.

(** A stream that was just opened owns its dispatcher. *)
Lemma opened_owns t : owns (length (heap t)) (opened (R := R) (P := P) t).
Proof.
  split; [done| |by constructor]. change (length (heap t) < length (heap t ++ [new_dispatcher])).
  rewrite length_app. cbn. lia.
Qed.

Lemma opened_alone t :
  tr_isOpen t = true → alone (length (heap t)) (opened (R := R) (P := P) t) = opened new_transmitter.
Proof.
  intros Ho. unfold alone.
  change (requestTransmitter (opened t)) with (transmitter_dispatcher t).2.
  by rewrite attached_new.
Qed.

Lemma open_step sv :
  server_inv sv →
  let n := length (sv_transactions sv) in
  let sv' := server_step sv VOpen in
  server_inv sv' ∧ length (sv_transactions sv') = S n ∧
  (∃ tx, view sv' n = Some tx ∧ alone_tx n tx = new_tx new_transmitter) ∧
  ∀ i tx, view sv i = Some tx → ∃ tx', view sv' i = Some tx' ∧ alone_tx i tx' = alone_tx i tx.
Proof.
  intros Hsv. pose proof Hsv as [Hh Ho _]. cbv zeta.
  pose proof (opened_owns (sv_transmitter sv)) as Hown. pose proof (opened_alone _ Ho) as Hal.
  rewrite Hh in Hown, Hal.
  destruct (server_extend (new_tx (sv_transmitter sv)) sv Hsv Hown) as (H1 & H2 & H3); [done|].
  split_and!; [exact H1| | |exact H3].
  - cbn. rewrite length_app. cbn. lia.
  - eexists. split; [exact H2|]. unfold alone_tx. cbn [new_tx bidirectionalStream tracked issued].
    by rewrite Hal.
Qed.

Lemma server_inv_new : server_inv new_server.
Proof. by split. Qed.

Lemma view_some sv i : i < length (sv_transactions sv) ↔ is_Some (view sv i).
Proof. unfold view. by rewrite fmap_is_Some, lookup_lt_is_Some. Qed.

(** Transaction [i] alone; one that is not opened yet is taken as it will be
    when it is. *)
Definition start (sv : Server) (i : nat) : Tx :=
  from_option (alone_tx i) (new_tx new_transmitter) (view sv i).

(** How many transactions there are after an event. *)
Definition opened_after (n : nat) (ev : server_event) : nat :=
  match ev with VOpen => S n | _ => n end.

Lemma server_step_start sv ev i :
  server_inv sv →
  let n := length (sv_transactions sv) in
  server_inv (server_step sv ev) ∧
  length (sv_transactions (server_step sv ev)) = opened_after n ev ∧
  start (server_step sv ev) i = solo (start sv i) (seen i n ev).
Proof.
  intros Hsv. cbv zeta.
  assert (∀ (g : bool) sv' l, length (sv_transactions sv') = length (sv_transactions sv) →
    (∀ tx, view sv i = Some tx → ∃ tx', view sv' i = Some tx' ∧
       alone_tx i tx' = solo (alone_tx i tx) (if g then l else [])) →
    start sv' i = solo (start sv i)
      ((if g && bool_decide (i < length (sv_transactions sv)) then l else []) ++ [])) as Hstep.
  { intros g sv' l Hlen H. rewrite app_nil_r. unfold start.
    destruct (view sv i) as [tx|] eqn:Hi.
    - destruct (H _ eq_refl) as (tx' & -> & E). cbn. rewrite E.
      rewrite bool_decide_eq_true_2, andb_true_r by (apply view_some; by rewrite Hi). done.
    - assert (¬ i < length (sv_transactions sv)) as Hge
        by (rewrite view_some, Hi; by intros [? ?]).
      rewrite bool_decide_eq_false_2, andb_false_r by done.
      destruct (view sv' i) eqn:Hi'; [|done]. exfalso. apply Hge. rewrite <- Hlen.
      apply view_some. by rewrite Hi'. }
  destruct ev as [|j ev|r].
  - destruct (open_step sv Hsv) as (H1 & H2 & (tx & Hn & En) & H3). split_and!; [done..|].
    cbn [seen project]. unfold start at 2. destruct (view sv i) as [tx0|] eqn:Hi; cbn [from_option foldl].
    + destruct (H3 _ _ Hi) as (tx' & E & <-). unfold start. by rewrite E.
    + destruct (decide (i = length (sv_transactions sv))) as [->|Hne].
      * unfold start. by rewrite Hn.
      * unfold start. destruct (view (server_step sv VOpen) i) eqn:Hi'; [|done]. exfalso.
        assert (i < S (length (sv_transactions sv)))
          by (rewrite <- H2; apply view_some; by rewrite Hi').
        assert (¬ i < length (sv_transactions sv)) by (rewrite view_some, Hi; by intros [? ?]). lia.
  - destruct (no_timer ev) eqn:Hev.
    + destruct (tx_event_step i j ev sv Hev Hsv) as (H1 & H2 & H3). split_and!; [done..|].
      rewrite (Hstep (bool_decide (j = i)) _ [ev] H2 H3). f_equal.
      rewrite <- bool_decide_and. by destruct ev.
    + destruct ev as [| | | | | | | | |r]; try done.
      destruct (timer_step i r sv Hsv) as [H1 H2]. split_and!; [done..|].
      refine (eq_trans (Hstep _ (mkServer _ _) [TTimer 0] eq_refl H2) _).
      by rewrite <- bool_decide_and.
  - destruct (timer_step i r sv Hsv) as [H1 H2]. split_and!; [done..|].
    refine (eq_trans (Hstep _ (mkServer _ _) [TTimer 0] eq_refl H2) _).
    by rewrite <- bool_decide_and.
Qed.

Lemma project_cons i n ev evs :
  project i n (ev :: evs) = seen i n ev ++ project i (opened_after n ev) evs.
Proof.
  unfold seen. destruct ev as [|j ev|r]; [done| |]; cbn; [destruct ev; cbn|];
    by rewrite app_nil_r.
Qed.

Lemma run_start evs sv i :
  server_inv sv →
  start (foldl server_step sv evs) i =
    solo (start sv i) (project i (length (sv_transactions sv)) evs).
Proof.
  revert sv. induction evs as [|ev evs IH]; intros sv Hsv; [done|].
  destruct (server_step_start sv ev i Hsv) as (H1 & H2 & H3).
  rewrite project_cons, foldl_app, <- H3, <- H2. by apply IH.
Qed.

(** C7 - transactions over a shared transmitter do not interfere: in every
    interleaving of the calls, messages and timers of any number of
    transactions of one server, each transaction is in the state, with the
    same promises, the same elements yielded and the same batches written to
    its stream, that its own events alone would have brought it to. *)
Theorem transactions_isolated (evs : list server_event) (i : nat) (tx : Tx)
    (Hi : view (run_server evs) i = Some tx) :
  alone_tx i tx = run_tx show_state (new_tx new_transmitter) (project i 0 evs).
Proof.
  pose proof (run_start evs new_server i server_inv_new) as H. unfold start in H.
  unfold run_server in Hi. rewrite Hi in H. exact H.
Qed.
End isolation.

(** ** A concrete run *)

#[local] Existing Instance number_uuid.

(** Two transactions, whose requests, answers and timers are mixed. *)
Definition demo_shared : list (server_event (R := nat) (P := nat)) :=
  [VOpen; VTx 0 (TExecute demo_request None); VOpen; VTx 1 (TExecute demo_request (Some false));
   VTx 1 (TStream demo_request); VTimer 1;
   VTx 0 (TData (ServerRes (mkRes (String.list_byte_of_string "0") 7)));
   VTx 1 (TData (ServerRes (mkRes (String.list_byte_of_string "0") 8))); VTx 0 TClose; VTimer 0].

Lemma transactions_isolated_witness :
  ∃ tx, view (run_server demo_show demo_shared) 1 = Some tx ∧
    alone_tx 1 tx = run_tx demo_show (new_tx new_transmitter)
      [TExecute demo_request (Some false); TStream demo_request; TTimer 0;
       TData (ServerRes (mkRes (String.list_byte_of_string "0") 8))] ∧
    response_of (responseCollector (bidirectionalStream tx)) 0 0 =
      Ret (mkRes (String.list_byte_of_string "0") 8).
Proof.
  destruct (view (run_server demo_show demo_shared) 1) as [tx|] eqn:Hi; [|vm_compute in Hi; discriminate].
  exists tx. split; [reflexivity|].
  pose proof (transactions_isolated demo_show demo_shared 1 tx Hi) as H. split; [exact H|].
  apply (f_equal (λ tx, response_of (responseCollector (bidirectionalStream tx)) 0 0)) in H.
  refine (eq_trans H _). vm_compute. reflexivity.
Defined.
