(* ===== verification/Session.v ===== *)
(** * Sessions

    Models [connection/TypeDBSessionImpl.ts] and [TypeDBDriverImpl.session]:
    opening on some replica, the keep-alive pulse, transactions with
    reconnection, and closing. Transactions are an interface, which
    [Transaction.v] implements. The clock is a parameter, since only the
    milliseconds within the second are read of it. *)
From S2P Require Import Prelude Errors Bytes Proto RequestBuilder BlockingQueue Dispatcher Collector BiStream BiStreamSpec Options Transaction Stub Database Managers DriverImpl.
Local Open Scope string_scope.
Local Open Scope list_scope.

(** ** The interface to transactions *)

Class TransactionOps (X : Type) : Type := {
  (** opens a transaction over a stub whose stream came to the outcome that is
      given, for a session id and its latency *)
  txop_open : nat → outcome exn unit → string → TransactionTypeProto → TypeDBOptions → Z →
    proc X exn nat;
  txop_close : nat → proc X exn unit;
  txop_closed : nat → X → bool;
}.

(** Closing closes, and reopens nothing. *)
Class TransactionLaws (X : Type) {T : TransactionOps X} : Prop := {
  txop_close_closes : ∀ r x, (txop_close r x).1 = Ret tt → txop_closed r (txop_close r x).2 = true;
  txop_close_keeps : ∀ r r' x, txop_closed r' x = true → txop_closed r' (txop_close r x).2 = true;
}.

Section session.
Context {W X : Type} {G : GRPCStub W} {T : TransactionOps X}.
(** The n-th reading of [(new Date()).getMilliseconds()]. *)
Context (clock : nat → Z).

(** ** State *)

(** A function that the user registers with a session: it is told from others
    by its number, and its promise comes to an outcome. *)
Record session_callback : Type := mkSessionCallback {
  callback_number : nat;
  callback_outcome : outcome exn unit;
}.

Record Session : Type := mkSession {
  s_databaseName : string;
  s_type : SessionTypeProto;
  s_options : TypeDBOptions;
  s_id : string;
  s_database : option nat;
  s_isOpen : bool;
  s_serverDriver : option ServerDriver;
  (** the pulse timer last set *)
  s_pulse : option nat;
  s_latency : Z;
  s_transactions : list nat;
  s_onClose : list session_callback;
  s_onReopen : list session_callback;
  (** the callbacks that were called so far *)
  s_called : list nat;
}.

(** The session, the transactions, the clock readings made, and the timers
    pending and set so far. *)
Record Clients : Type := mkClients {
  session : Session;
  transactions : X;
  readings : nat;
  pending_timers : list nat;
  timers_set : nat;
}.

Local Abbreviation State := (Driver W Clients).
Local Abbreviation sproc := (proc State exn).

(** [new TypeDBSessionImpl(...)] *)
Definition new_session (name : string) (type_ : SessionTypeProto) (options : TypeDBOptions)
    : Session :=
  mkSession name type_ options "" None false None None 0 [] [] [] [].

Definition set_clients (c : Clients) (d : State) : State :=
  mkDriver (d_world d) (d_isOpen d) (d_isCloud d) (d_serverDrivers d) (d_database_cache d)
    (d_sessions d) (d_databases d) (waits d) c.

Definition modify_session (f : Session → Session) : sproc unit :=
  modify (λ d, let c := clients d in
    set_clients (mkClients (f (session c)) (transactions c) (readings c) (pending_timers c)
      (timers_set c)) d).

Definition get_session : sproc Session := gets (λ d, session (clients d)).

(** A computation of the transactions. *)
Definition on_transactions {A} (m : proc X exn A) : sproc A := λ d,
  let c := clients d in
  let '(o, x) := m (transactions c) in
  (o, set_clients (mkClients (session c) x (readings c) (pending_timers c) (timers_set c)) d).

Definition getMilliseconds : sproc Z := λ d,
  let c := clients d in
  (Ret (clock (readings c)),
   set_clients (mkClients (session c) (transactions c) (S (readings c)) (pending_timers c)
     (timers_set c)) d).

(** [setTimeout(() => this.pulse(), 5000)] *)
Definition schedule_pulse : sproc unit := λ d,
  let c := clients d in let s := session c in
  (Ret tt, set_clients
    (mkClients (mkSession (s_databaseName s) (s_type s) (s_options s) (s_id s) (s_database s)
        (s_isOpen s) (s_serverDriver s) (Some (timers_set c)) (s_latency s) (s_transactions s)
        (s_onClose s) (s_onReopen s) (s_called s))
      (transactions c) (readings c) (pending_timers c ++ [timers_set c]) (S (timers_set c))) d).

(** [clearTimeout(this._pulse)] *)
Definition clear_pulse : sproc unit := modify (λ d,
  let c := clients d in
  set_clients (mkClients (session c) (transactions c) (readings c)
    (List.filter (λ t, negb (bool_decide (Some t = s_pulse (session c)))) (pending_timers c))
    (timers_set c)) d).

Definition set_open (b : bool) (s : Session) : Session :=
  mkSession (s_databaseName s) (s_type s) (s_options s) (s_id s) (s_database s) b
    (s_serverDriver s) (s_pulse s) (s_latency s) (s_transactions s) (s_onClose s) (s_onReopen s) (s_called s).
Definition set_transactions (l : list nat) (s : Session) : Session :=
  mkSession (s_databaseName s) (s_type s) (s_options s) (s_id s) (s_database s) (s_isOpen s)
    (s_serverDriver s) (s_pulse s) (s_latency s) l (s_onClose s) (s_onReopen s) (s_called s).
Definition set_database (r : nat) (s : Session) : Session :=
  mkSession (s_databaseName s) (s_type s) (s_options s) (s_id s) (Some r) (s_isOpen s)
    (s_serverDriver s) (s_pulse s) (s_latency s) (s_transactions s) (s_onClose s) (s_onReopen s) (s_called s).

(** [session.onClose(callback)] and [session.onReopen(callback)] *)
Definition session_onClose (cb : session_callback) : sproc unit := modify_session (λ s,
  mkSession (s_databaseName s) (s_type s) (s_options s) (s_id s) (s_database s) (s_isOpen s)
    (s_serverDriver s) (s_pulse s) (s_latency s) (s_transactions s) (s_onClose s ++ [cb])
    (s_onReopen s) (s_called s)).
Definition session_onReopen (cb : session_callback) : sproc unit := modify_session (λ s,
  mkSession (s_databaseName s) (s_type s) (s_options s) (s_id s) (s_database s) (s_isOpen s)
    (s_serverDriver s) (s_pulse s) (s_latency s) (s_transactions s) (s_onClose s)
    (s_onReopen s ++ [cb]) (s_called s)).

(** ** Opening *)

(** [Math.max((end - start) - res.server_duration_millis, 1)] *)
Definition network_latency (start end_ : Z) (res : SessionOpenRes) : Z :=
  Z.max (end_ - start - server_duration_millis res) 1.

Definition openAt (sd : option ServerDriver) : sproc unit :=
  get_session ≫= λ s,
  let openReq := Session_openReq (s_databaseName s) (s_type s) (options_proto (s_options s)) in
  getMilliseconds ≫= λ start,
  stub_of sd ≫= λ st,
  call (sessionOpen st openReq) ≫= λ res,
  getMilliseconds ≫= λ end_,
  modify_session (λ s,
    mkSession (s_databaseName s) (s_type s) (s_options s)
      ("0x" ++ buffer_to_hex (session_id res))%string (s_database s) true sd (s_pulse s)
      (network_latency start end_ res) (s_transactions s) (s_onClose s) (s_onReopen s) (s_called s)) ≫= λ _,
  schedule_pulse.

Definition record_call (n : nat) (s : Session) : Session :=
  mkSession (s_databaseName s) (s_type s) (s_options s) (s_id s) (s_database s) (s_isOpen s)
    (s_serverDriver s) (s_pulse s) (s_latency s) (s_transactions s) (s_onClose s) (s_onReopen s)
    (s_called s ++ [n]).

(** [await callback()] *)
Definition run_callback (cb : session_callback) : sproc unit :=
  modify_session (record_call (callback_number cb)) ≫= λ _, lift_outcome (callback_outcome cb).

(** [for (const callback of callbacks) await callback()] *)
Definition run_callbacks (l : list session_callback) : sproc unit := for_each run_callback l.

Definition reopenAt (sd : option ServerDriver) : sproc unit :=
  openAt sd ≫= λ _, get_session ≫= λ s, run_callbacks (s_onReopen s).

(** [this._database.runFailsafe]; a property that the cache inherits has no
    such method. *)
Definition database_runFailsafe {A} (db : option nat) (t : task W Clients A) : sproc A :=
  match db with
  | Some r => runFailsafe r t
  | None => throw (type_error "runFailsafe")
  end.

Definition session_open_op : sproc unit :=
  get_session ≫= λ s,
  require_open ≫= λ _,
  manager_get (s_databaseName s) ≫= λ db,
  match db with
  | CachedDatabase r =>
      modify_session (set_database r) ≫= λ _, runFailsafe r (λ sd _, openAt sd)
  | Inherited _ => throw (JsError "TypeError" "this._database.runFailsafe is not a function")
  end.

(** ** Closing *)

(** [tx.close()]: the transaction then leaves the session's set. *)
Definition close_transaction (tx : nat) : sproc unit :=
  on_transactions (txop_close tx) ≫= λ _,
  modify_session (λ s, set_transactions
    (List.filter (λ t, negb (bool_decide (t = tx))) (s_transactions s)) s).

Definition closeResources : sproc unit :=
  modify_session (set_open false) ≫= λ _,
  get_session ≫= λ s,
  for_each close_transaction (s_transactions s) ≫= λ _,
  run_callbacks (s_onClose s) ≫= λ _,
  modify (λ d, closeSession (s_id (session (clients d))) d) ≫= λ _,
  clear_pulse.

Definition session_close_op : sproc unit :=
  get_session ≫= λ s,
  if s_isOpen s then
    closeResources ≫= λ _,
    get_session ≫= λ s,
    lift_outcome (Session_closeReq (s_id s)) ≫= λ req,
    stub_of (s_serverDriver s) ≫= λ st,
    call (sessionClose st req)
  else mret tt.

(** ** Transactions *)

(** [new TypeDBTransactionImpl(this, type, options)] and its [open()], which
    asks the stub for a stream first. *)
Definition open_transaction (type_ : TransactionTypeProto) (options : TypeDBOptions)
    : sproc nat :=
  get_session ≫= λ s,
  stub_of (s_serverDriver s) ≫= λ st,
  settled (call (stub_transaction st)) ≫= λ connection,
  on_transactions (txop_open st connection (s_id s) type_ options (s_latency s)).

Definition add_transaction (tx : nat) : sproc unit :=
  modify_session (λ s, set_transactions
    (if bool_decide (tx ∈ s_transactions s) then s_transactions s
     else s_transactions s ++ [tx]) s).

Definition transaction (type_ : TransactionTypeProto) (options : option TypeDBOptions)
    : sproc nat :=
  get_session ≫= λ s,
  if negb (s_isOpen s) then throw (TypeDBDriverError (ArgTemplate SESSION_CLOSED))
  else
    let options := default no_options options in
    try_catch (open_transaction type_ options) (λ _,
      session_close_op ≫= λ _,
      get_session ≫= λ s,
      database_runFailsafe (s_database s) (λ sd _,
        reopenAt sd ≫= λ _, open_transaction type_ options)) ≫= λ tx,
    add_transaction tx ≫= λ _, mret tx.

(** ** The pulse *)

Definition pulse : sproc unit :=
  get_session ≫= λ s,
  if negb (s_isOpen s) then mret tt
  else
    lift_outcome (Session_pulseReq (s_id s)) ≫= λ req,
    try_catch
      (stub_of (s_serverDriver s) ≫= λ st,
       call (sessionPulse st req) ≫= λ isAlive : bool,
       if negb isAlive then closeResources else schedule_pulse)
      (λ _, modify_session (set_open false)).

(** A pulse timer fires: it is gone, and the pulse runs. *)
Definition pulse_timer (t : nat) : sproc unit :=
  modify (λ d, let c := clients d in
    set_clients (mkClients (session c) (transactions c) (readings c)
      (List.filter (λ t', negb (bool_decide (t' = t))) (pending_timers c)) (timers_set c)) d)
  ≫= λ _, pulse.

(** ** [TypeDBDriverImpl.session] *)

(** Opens the session [ref] of the state and files it under its id. *)
Definition driver_session (ref : nat) : sproc unit :=
  require_open ≫= λ _,
  session_open_op ≫= λ _,
  get_session ≫= λ s,
  gets (λ d, d_sessions d !! s_id s) ≫= λ taken_by,
  match taken_by with
  | Some _ => throw (driver_error SESSION_ID_EXISTS [s_id s])
  | None =>
      modify (λ d, mkDriver (d_world d) (d_isOpen d) (d_isCloud d) (d_serverDrivers d)
        (d_database_cache d) (<[s_id s := ref]> (d_sessions d)) (d_databases d) (waits d)
        (clients d))
  end.

(** ** Closing closes everything *)

Context {TL : TransactionLaws X}.

(** Closing the transactions one after the other meets no error. *)
Fixpoint closes_cleanly (l : list nat) (x : X) : Prop :=
  match l with
  | [] => True
  | tx :: l' => (txop_close tx x).1 = Ret tt ∧ closes_cleanly l' (txop_close tx x).2
  end.

Lemma close_transaction_run tx (d : State) :
  (txop_close tx (transactions (clients d))).1 = Ret tt →
  ∃ x', x' = (txop_close tx (transactions (clients d))).2 ∧ close_transaction tx d =
    (Ret tt, set_clients (mkClients (set_transactions
       (List.filter (λ t, negb (bool_decide (t = tx))) (s_transactions (session (clients d))))
       (session (clients d))) x' (readings (clients d)) (pending_timers (clients d))
       (timers_set (clients d))) d) ∧
    txop_closed tx x' = true ∧
    ∀ t, txop_closed t (transactions (clients d)) = true → txop_closed t x' = true.
Proof using TL.
  intros Hc. unfold close_transaction. rewrite proc_bind_eq. unfold on_transactions.
  pose proof (txop_close_closes tx (transactions (clients d)) Hc) as H1.
  pose proof (λ t, txop_close_keeps tx t (transactions (clients d))) as H2.
  destruct (txop_close tx (transactions (clients d))) as [o x']. simpl in *. subst o.
  exists x'. by split_and!.
Qed.

(** Closing a list of transactions takes them out of the set and closes each. *)
Lemma close_transactions_run l (d : State) :
  closes_cleanly l (transactions (clients d)) →
  ∃ x', for_each close_transaction l d =
    (Ret tt, set_clients (mkClients (set_transactions
       (List.filter (λ t, negb (bool_decide (t ∈ l))) (s_transactions (session (clients d))))
       (session (clients d))) x' (readings (clients d)) (pending_timers (clients d))
       (timers_set (clients d))) d) ∧
    (∀ t, t ∈ l → txop_closed t x' = true) ∧
    ∀ t, txop_closed t (transactions (clients d)) = true → txop_closed t x' = true.
Proof using TL.
  revert d. induction l as [|tx l IH]; intros d Hc; simpl.
  - exists (transactions (clients d)). split_and!; [|by intros t ?%elem_of_nil|done].
    replace (List.filter _ _) with (s_transactions (session (clients d)));
      [by destruct d as [? ? ? ? ? ? ? ? [[] ? ? ? ?]]|].
    induction (s_transactions _) as [|t ts IHt]; [done|]. simpl. by rewrite <- IHt.
  - destruct Hc as [Hc Hrest].
    destruct (close_transaction_run tx d Hc) as (x1 & Hx1 & E1 & H1 & K1).
    rewrite (proc_bind_run _ _ _ _ _ E1).
    match goal with |- context [for_each close_transaction l ?y] =>
      destruct (IH y) as (x2 & E2 & H2 & K2); [by simpl; rewrite Hx1|] end.
    exists x2. rewrite E2. simpl in *. split_and!.
    + unfold set_clients, set_transactions; simpl. rewrite filter_filter. do 3 f_equal.
      f_equal. apply List.filter_ext. intros t.
      destruct (decide (t = tx)) as [->|Hne].
      * rewrite (bool_decide_eq_true_2 (tx = tx)) by done.
        by rewrite (bool_decide_eq_true_2 (tx ∈ tx :: l)) by by left.
      * rewrite (bool_decide_eq_false_2 (t = tx)) by done. simpl.
        by rewrite (bool_decide_ext (t ∈ tx :: l) (t ∈ l))
          by (split; [by intros [->|?]%elem_of_cons|by right]).
    + intros t [->|Ht]%elem_of_cons; [by apply K2|by apply H2].
    + intros t Ht. by apply K2, K1.
Qed.

(** Callbacks that succeed are all called, in order, and change nothing else. *)
Definition called_all (l : list session_callback) (s : Session) : Session :=
  mkSession (s_databaseName s) (s_type s) (s_options s) (s_id s) (s_database s) (s_isOpen s)
    (s_serverDriver s) (s_pulse s) (s_latency s) (s_transactions s) (s_onClose s) (s_onReopen s)
    (s_called s ++ (callback_number <$> l)).

Definition on_session (f : Session → Session) (d : State) : State :=
  let c := clients d in
  set_clients (mkClients (f (session c)) (transactions c) (readings c) (pending_timers c)
    (timers_set c)) d.

Lemma run_callbacks_run l (d : State) :
  Forall (λ cb, callback_outcome cb = Ret tt) l →
  run_callbacks l d = (Ret tt, on_session (called_all l) d).
Proof using Type.
  intros Hl. revert d. induction Hl as [|cb l Hcb Hl IH]; intros d.
  - unfold on_session, called_all. cbn. rewrite app_nil_r.
    by destruct d as [? ? ? ? ? ? ? ? [[] ? ? ? ?]].
  - unfold run_callbacks in *. cbn [for_each]. rewrite proc_bind_eq. unfold run_callback at 1.
    rewrite proc_bind_eq. cbn -[for_each]. unfold lift_outcome. rewrite Hcb, IH.
    unfold on_session, called_all, record_call. cbn. by rewrite <- app_assoc.
Qed.

(** C31 - closing a session releases all it holds: when its transactions close
    and its callbacks succeed, the session is marked closed, every
    transaction it had is closed and gone from its set, its callbacks were all
    called in order, it is no longer filed in the driver while other sessions
    are, and its pulse timer is gone. *)
Theorem closeResources_releases_all (d : State)
    (Hcleanly : closes_cleanly (s_transactions (session (clients d))) (transactions (clients d)))
    (Hcallbacks : Forall (λ cb, callback_outcome cb = Ret tt) (s_onClose (session (clients d)))) :
  let s := session (clients d) in
  let '(o, d') := closeResources d in
  let s' := session (clients d') in
  o = Ret tt ∧ s_isOpen s' = false ∧ s_transactions s' = [] ∧
  (∀ tx, tx ∈ s_transactions s → txop_closed tx (transactions (clients d')) = true) ∧
  s_called s' = s_called s ++ (callback_number <$> s_onClose s) ∧
  d_sessions d' = delete (s_id s) (d_sessions d) ∧
  (∀ t, s_pulse s = Some t → t ∉ pending_timers (clients d')).
Proof using TL.
  cbv zeta. unfold closeResources. rewrite proc_bind_eq. cbn -[for_each run_callbacks].
  rewrite proc_bind_eq. cbn -[for_each run_callbacks].
  match goal with |- context [(for_each close_transaction ?l ≫= _) ?y] =>
    destruct (close_transactions_run l y Hcleanly) as (x' & E & Hcl & _) end.
  rewrite (proc_bind_run _ _ _ _ _ E). rewrite proc_bind_eq, run_callbacks_run by exact Hcallbacks.
  rewrite proc_bind_eq. simpl. split_and!; try done.
  - apply filter_none. intros t Ht. by rewrite bool_decide_eq_true_2.
  - intros t Ht Hin%list_elem_of_In%List.filter_In. destruct Hin as [_ Hin]. rewrite Ht in Hin.
    by rewrite bool_decide_eq_true_2 in Hin.
Qed.

(** ** What a session knows once open *)

Lemma call_clients {A} (m : proc (World W) exn A) (d : State) :
  clients (call m d).2 = clients d.
Proof. unfold call. by destruct (m (d_world d)). Qed.

(** C32 - an opened session can name itself to the server: its id prints the
    bytes the server gave, so that the requests to close it, to keep it alive
    and to open transactions in it can always be built; the recorded latency
    is between 1 and 999 ms, whatever time really passed, and a pulse is
    scheduled. *)
Theorem openAt_names_the_session (sd : option ServerDriver) (d d' : State)
    (Hclock : ∀ n, (0 <= clock n < 1000)%Z)
    (Hduration : ∀ st req w res, (sessionOpen st req w).1 = Ret res →
                 (0 <= server_duration_millis res)%Z)
    (Hopen : openAt sd d = (Ret tt, d')) :
  let s := session (clients d') in
  s_isOpen s = true ∧ s_serverDriver s = sd ∧
  (∃ bytes, hexStringToBytes (s_id s) = Ret bytes ∧
     Session_closeReq (s_id s) = Ret (New "SessionCloseReq" [("session_id", PBytes bytes)]) ∧
     Session_pulseReq (s_id s) = Ret (New "SessionPulseReq" [("session_id", PBytes bytes)])) ∧
  (1 <= s_latency s <= 999)%Z ∧
  ∃ t, s_pulse s = Some t ∧ t ∈ pending_timers (clients d').
Proof.
  revert Hopen. unfold openAt. rewrite proc_bind_eq. cbn -[call]. rewrite proc_bind_eq.
  cbn -[call]. rewrite proc_bind_eq. unfold stub_of. destruct sd as [sd|]; [|done].
  cbn -[call]. rewrite proc_bind_eq.
  match goal with |- context [call ?m ?y] =>
    pose proof (call_clients m y) as Hcl; pose proof (Hduration (sd_stub sd)) as Hd;
    unfold call in Hcl |- * end.
  destruct (sessionOpen _ _ _) as [[res|e|] w] eqn:Hres; [|done..]. simpl in Hcl.
  specialize (Hd _ _ res (f_equal fst Hres)). cbn. intros [= <-]. simpl.
  assert (hexStringToBytes ("0x" ++ buffer_to_hex (session_id res))%string =
    Ret (session_id res)) as Hhex by apply hexStringToBytes_print.
  split_and!; [done|done| | | |].
  - exists (session_id res). unfold Session_closeReq, Session_pulseReq. by rewrite Hhex.
  - unfold network_latency. lia.
  - unfold network_latency. pose proof (Hclock (readings (clients d))).
    pose proof (Hclock (S (readings (clients d)))). lia.
  - eexists. split; [done|]. apply elem_of_app. right. by left.
Qed.

(** The pulse: on an open session whose server is known, an answer that
    the session is alive schedules the next pulse; a failed call only marks
    the session closed, so that its transactions stay open, the driver still
    files it, and a later [close] does nothing. *)
Theorem pulse_failure_leaves_resources (d : State) (sd : ServerDriver) (req : pval)
    (Hopen : s_isOpen (session (clients d)) = true)
    (Hsd : s_serverDriver (session (clients d)) = Some sd)
    (Hreq : Session_pulseReq (s_id (session (clients d))) = Ret req) :
  let answer := (sessionPulse (sd_stub sd) req (d_world d)).1 in
  let d' := (pulse d).2 in
  (answer = Ret true →
     s_isOpen (session (clients d')) = true ∧
     pending_timers (clients d') = pending_timers (clients d) ++ [timers_set (clients d)]) ∧
  (∀ e, answer = Throw e →
     s_isOpen (session (clients d')) = false ∧
     transactions (clients d') = transactions (clients d) ∧
     s_transactions (session (clients d')) = s_transactions (session (clients d)) ∧
     d_sessions d' = d_sessions d ∧ session_close_op d' = (Ret tt, d')).
Proof.
  cbv zeta. unfold pulse, get_session, gets, lift_outcome, stub_of, try_catch, mbind, proc_mbind.
  cbn -[call]. rewrite Hopen, Hreq, Hsd. cbn -[call]. unfold call.
  destruct (sessionPulse _ _ _) as [[b|e|] w]; simpl; split; try done.
  by intros [= ->].
Qed.
End session.

Arguments Clients : clear implicits.

(** ** Transactions as the session sees them *)

Section implementation.
Context {U : Uuid} {R P : Type} (show_state : TransactionStreamState → string).
(** What happens while the open request is awaited. *)
Context (answers : list (stream_event R P)).

Local Abbreviation Heap := (list (TypeDBTransactionImpl R P)).

Definition at_tx {A} (r : nat) (m : proc (TypeDBTransactionImpl R P) exn A) : proc Heap exn A :=
  λ h, match h !! r with
       | Some tx => let '(o, tx') := m tx in (o, <[r := tx']> h)
       | None => (Throw (type_error "close"), h)
       end.

(** [transaction = new TypeDBTransactionImpl(...); await transaction.open()], where
    the call for a stream came to [connection] *)
Definition heap_open (connection : outcome exn unit) (sessionId : string) (type_ : TransactionTypeProto)
    (options : TypeDBOptions) (latency : Z) : proc Heap exn nat := λ h,
  let tx := mkTx (new_stream new_transmitter) false [] in
  match (tx_open connection sessionId type_ options (number_of_Z latency) ≫= λ p,
         await_response show_state answers p) tx with
  | (Ret _, tx') => (Ret (length h), h ++ [mkTx (bidirectionalStream tx') true (issued tx')])
  | (Throw e, tx') => (Throw e, h ++ [tx'])
  | (Pending, tx') => (Pending, h ++ [tx'])
  end.

#[export] Instance heap_transactions : TransactionOps Heap := {|
  txop_open _ := heap_open;
  txop_close r := at_tx r tx_close;
  txop_closed r h :=
    match h !! r with
    | Some tx => negb (isOpen (bidirectionalStream tx))
    | None => false
    end;
|}.

#[export] Instance heap_transactions_laws : TransactionLaws Heap.
Proof.
  split; simpl.
  - intros r h. unfold at_tx. destruct (h !! r) as [tx|] eqn:Hr; [|done].
    pose proof (tx_close_closed tx) as Hc. destruct (tx_close tx) as [o tx']. simpl in *. intros _.
    rewrite list_lookup_insert_eq by by eapply lookup_lt_Some. by rewrite Hc.
  - intros r r' h. unfold at_tx. destruct (h !! r) as [tx|] eqn:Hr; [|done].
    pose proof (tx_close_closed tx) as Hc. destruct (tx_close tx) as [o tx']. simpl in *.
    destruct (decide (r = r')) as [<-|Hne].
    + rewrite list_lookup_insert_eq by by eapply lookup_lt_Some. by rewrite Hc.
    + by rewrite list_lookup_insert_ne.
Qed.
End implementation.

(** ** Concrete runs *)

#[local] Existing Instance number_uuid.
#[local] Existing Instance cluster.
#[local] Instance demo_transactions : TransactionOps (list (TypeDBTransactionImpl nat nat)) :=
  heap_transactions demo_show [].
#[local] Instance demo_transactions_laws :
  TransactionLaws (list (TypeDBTransactionImpl nat nat)) :=
  heap_transactions_laws demo_show [].

(** An open session with two transactions and a pulse timer. *)
Definition demo_session : Session :=
  mkSession "db" DATA no_options "0x0a" (Some 0) true (Some sd_a) (Some 3) 1 [0; 1]
    [mkSessionCallback 7 (Ret tt)] [] [].
Definition demo_clients : Clients (list (TypeDBTransactionImpl nat nat)) :=
  mkClients demo_session [new_tx new_transmitter; new_tx new_transmitter] 0 [3] 4.
Definition demo_state : Driver string (Clients (list (TypeDBTransactionImpl nat nat))) :=
  mkDriver (mkWorld "a" [mkStub "a" (Some demo_credential) None false;
                         mkStub "b" (Some demo_credential) None false] [])
    true true [("a", sd_a); ("b", sd_b)] ∅ {[ "0x0a" := 0; "0x0b" := 1 ]}
    [mkDatabase "db" [rep_a; rep_b]] 0 demo_clients.

Lemma closeResources_releases_all_witness :
  let '(o, d') := closeResources demo_state in
  o = Ret tt ∧ s_transactions (session (clients d')) = [] ∧ s_called (session (clients d')) = [7] ∧
  txop_closed 1 (transactions (clients d')) = true.
Proof.
  pose proof (closeResources_releases_all demo_state) as H.
  destruct (closeResources demo_state) as [o d'].
  destruct H as (Ho & _ & Hs & Ht & Hc & _); [vm_compute; auto|vm_compute; by repeat constructor|].
  split; [exact Ho|]. split; [exact Hs|]. split; [exact Hc|]. apply Ht. vm_compute. right. left.
Defined.

Lemma openAt_names_the_session_witness :
  let d' := (openAt (λ _, 5%Z) (Some sd_a) demo_state).2 in
  (1 <= s_latency (session (clients d')) <= 999)%Z.
Proof.
  apply (openAt_names_the_session (λ _, 5%Z) (Some sd_a) demo_state).
  - intros n. lia.
  - intros st req w res. unfold sessionOpen, unary. destruct (stub_heap w !! st); [|done]. simpl.
    unfold guarded. destruct (_ || _); [|done]. simpl. by intros [= <-].
  - vm_compute. reflexivity.
Defined.

(** A server that no longer answers pulses. *)
#[local] Instance lost_server : GRPCStub string := {|
  session_pulse := λ _ _ _ n, (Throw down, n);
  databases_contains := databases_contains; databases_get := databases_get;
  database_schema := database_schema; connection_open := connection_open;
  servers_all := servers_all; databases_create := databases_create;
  databases_all := databases_all; database_delete := database_delete;
  database_type_schema := database_type_schema; database_rule_schema := database_rule_schema;
  session_open := session_open; session_close := session_close; users_all := users_all;
  users_contains := users_contains; users_create := users_create; users_delete := users_delete;
  users_password_set := users_password_set; users_get := users_get;
  user_password_update := user_password_update; user_token := user_token;
  grpc_transaction := grpc_transaction;
|}.

Lemma pulse_failure_leaves_resources_witness :
  let d' := (pulse demo_state).2 in
  s_isOpen (session (clients d')) = false ∧ s_transactions (session (clients d')) = [0; 1] ∧
  session_close_op d' = (Ret tt, d').
Proof.
  destruct (pulse_failure_leaves_resources demo_state sd_a
    (New "SessionPulseReq" [("session_id", PBytes [Byte.x0a])]) eq_refl eq_refl) as [_ H];
    [vm_compute; reflexivity|].
  destruct (H (RawServiceError down)) as (H1 & _ & H2 & _ & H3); [vm_compute; reflexivity|].
  split; [exact H1|]. split; [exact H2|exact H3].
Defined.
