(* ===== verification/Settling.v ===== *)
(** * Calls that settle

    The retry and search loops of the driver (over servers, replicas and
    turns), the renewal of tokens and the reopening of sessions come to an end:
    when every call of the generated client settles, so does every operation
    of the driver, the managers, the databases, the users and the sessions. A
    logic of settling computations carries the proofs; an operation may rely on
    an invariant of the state, such as that the callbacks of a session settle. *)
From S2P Require Import Prelude Errors Bytes Proto RequestBuilder BlockingQueue Dispatcher Collector BiStream BiStreamSpec Options Transaction Stub Database Managers DriverImpl Session.

(** From states with [I], the computation settles, in a state with [I]. *)
Definition settles {S E A} (I : S → Prop) (m : proc S E A) : Prop :=
  ∀ s, I s → (m s).1 ≠ Pending ∧ I (m s).2.

Create HintDb settling.

Section rules.
Context {S E : Type} (I : S → Prop).

Lemma settles_ret {A} (a : A) : settles I (mret a : proc S E A).
Proof. by intros s Hs. Qed.

Lemma settles_throw {A} (e : E) : settles I (throw e : proc S E A).
Proof. by intros s Hs. Qed.

Lemma settles_gets {A} (f : S → A) : settles I (gets f : proc S E A).
Proof. by intros s Hs. Qed.

Lemma settles_modify (f : S → S) : (∀ s, I s → I (f s)) → settles I (modify f : proc S E unit).
Proof. intros H s Hs. by split; [|apply H]. Qed.

Lemma settles_lift {A} (o : outcome E A) : o ≠ Pending → settles I (lift_outcome o : proc S E A).
Proof. by intros H s Hs. Qed.

Lemma settles_bind {A B} (m : proc S E A) (k : A → proc S E B) :
  settles I m → (∀ a, settles I (k a)) → settles I (m ≫= k).
Proof.
  intros Hm Hk s Hs. destruct (Hm s Hs) as [H1 H2]. rewrite proc_bind_eq.
  destruct (m s) as [[a|e|] s']; [by apply Hk|done|done].
Qed.

(** What is read of a state may be relied on. *)
Lemma settles_gets_bind {A B} (f : S → A) (k : A → proc S E B) :
  (∀ s, I s → settles I (k (f s))) → settles I (gets f ≫= k).
Proof. intros H s Hs. rewrite proc_bind_eq. by apply H. Qed.

Lemma settles_try_catch {A} (m : proc S E A) (h : E → proc S E A) :
  settles I m → (∀ e, settles I (h e)) → settles I (try_catch m h).
Proof.
  intros Hm Hh s Hs. destruct (Hm s Hs) as [H1 H2]. unfold try_catch.
  destruct (m s) as [[a|e|] s']; [done|by apply Hh|done].
Qed.

Lemma settles_for_each {A} (f : A → proc S E unit) l :
  (∀ x, x ∈ l → settles I (f x)) → settles I (for_each f l).
Proof.
  induction l as [|x l IH]; intros H; [apply settles_ret|]. cbn [for_each].
  apply settles_bind; [apply H; by left|]. intros _. apply IH. intros y Hy. apply H. by right.
Qed.
End rules.

#[export] Hint Resolve settles_ret settles_throw settles_gets settles_modify settles_lift
  settles_bind settles_try_catch settles_for_each : settling.

(** Applies the rules along the structure of a computation. *)
Ltac settling :=
  repeat first
    [ match goal with |- ∀ _, _ => intro end
    | solve [auto 5 with settling]
    | simple apply settles_bind | simple apply settles_try_catch
    | match goal with |- settles _ (match ?x with _ => _ end) => destruct x eqn:? end ].

(** ** The client *)

Definition rpc_settles {W A} (f : rpc W A) : Prop := ∀ a md req w, (f a md req w).1 ≠ Pending.

(** Every call of the generated client calls back. *)
Class GRPCSettles (W : Type) {G : GRPCStub W} : Prop := {
  connection_open_settles : rpc_settles connection_open;
  servers_all_settles : rpc_settles servers_all;
  databases_create_settles : rpc_settles databases_create;
  databases_contains_settles : rpc_settles databases_contains;
  databases_get_settles : rpc_settles databases_get;
  databases_all_settles : rpc_settles databases_all;
  database_delete_settles : rpc_settles database_delete;
  database_schema_settles : rpc_settles database_schema;
  database_type_schema_settles : rpc_settles database_type_schema;
  database_rule_schema_settles : rpc_settles database_rule_schema;
  session_open_settles : rpc_settles session_open;
  session_close_settles : rpc_settles session_close;
  session_pulse_settles : rpc_settles session_pulse;
  users_all_settles : rpc_settles users_all;
  users_contains_settles : rpc_settles users_contains;
  users_create_settles : rpc_settles users_create;
  users_delete_settles : rpc_settles users_delete;
  users_password_set_settles : rpc_settles users_password_set;
  users_get_settles : rpc_settles users_get;
  user_password_update_settles : rpc_settles user_password_update;
  user_token_settles : rpc_settles user_token;
  grpc_transaction_settles : ∀ a md w, (grpc_transaction a md w).1 ≠ Pending;
}.
#[export] Hint Resolve connection_open_settles servers_all_settles databases_create_settles
  databases_contains_settles databases_get_settles databases_all_settles database_delete_settles
  database_schema_settles database_type_schema_settles database_rule_schema_settles
  session_open_settles session_close_settles session_pulse_settles users_all_settles
  users_contains_settles users_create_settles users_delete_settles users_password_set_settles
  users_get_settles user_password_update_settles user_token_settles : settling.

Section stub.
Context {W : Type} {G : GRPCStub W} {GS : GRPCSettles W}.
Local Abbreviation any := (λ _ : World W, True).

Lemma unary_settles {A} r method (f : rpc W A) req reject :
  rpc_settles f → settles any (unary r method f req reject).
Proof.
  intros Hf w _. split; [|done]. unfold unary. destruct (stub_heap w !! r) as [s|]; [|done].
  pose proof (Hf (stub_address s) (call_credentials s) req (net w)) as H.
  by destruct (f _ _ _ _) as [[a|e|] n].
Qed.

Lemma mayRenewToken_settles {A} r (fn : proc (World W) exn A) :
  settles any fn → settles any (mayRenewToken r fn).
Proof.
  intros Hf. unfold mayRenewToken, credential_of, renew_token, userToken, at_stub. settling.
  by apply unary_settles, user_token_settles.
Qed.

Lemma renewing_settles {A} r method (f : rpc W A) req :
  rpc_settles f → settles any (renewing r method f req).
Proof. intros Hf. by apply mayRenewToken_settles, unary_settles. Qed.

Lemma renewing_raw_settles {A} r method (f : rpc W A) req :
  rpc_settles f → settles any (renewing_raw r method f req).
Proof. intros Hf. by apply mayRenewToken_settles, unary_settles. Qed.

Lemma sessionClose_settles r req : settles any (sessionClose r req).
Proof. unfold sessionClose. settling. apply unary_settles, session_close_settles. Qed.

Lemma stub_transaction_settles r : settles any (stub_transaction r).
Proof.
  intros w _. split; [|done]. unfold stub_transaction. destruct (stub_heap w !! r) as [s|]; [|done].
  pose proof (grpc_transaction_settles (stub_address s) (call_credentials s) (net w)) as H.
  by destruct (grpc_transaction _ _ _).
Qed.
End stub.
#[export] Hint Resolve sessionClose_settles stub_transaction_settles unary_settles renewing_settles renewing_raw_settles : settling.

(** ** Databases, managers and the driver *)

Section driver.
Context {W C : Type} {G : GRPCStub W} {GS : GRPCSettles W} (J : C → Prop).
Local Abbreviation I := (λ d : Driver W C, J (clients d)).
Local Abbreviation dproc := (proc (Driver W C) exn).

Lemma call_settles {A} (m : proc (World W) exn A) :
  settles (λ _, True) m → settles I (call m).
Proof.
  intros Hm d Hd. unfold call. destruct (Hm (d_world d) Logic.I) as [H _].
  by destruct (m (d_world d)) as [o w].
Qed.
Hint Resolve call_settles : settling.

Lemma stub_of_settles sd : settles I (stub_of sd).
Proof. destruct sd; [apply settles_ret|apply settles_throw]. Qed.
Hint Resolve stub_of_settles : settling.

Lemma new_database_settles name reps : settles I (new_database name reps).
Proof. by intros d Hd. Qed.
Hint Resolve new_database_settles : settling.

Lemma get_database_settles r : settles I (get_database r).
Proof. intros d Hd. unfold get_database. by destruct (d_databases d !! r). Qed.
Hint Resolve get_database_settles : settling.

Lemma set_replicas_settles r reps : settles I (set_replicas r reps).
Proof. by apply settles_modify. Qed.
Hint Resolve set_replicas_settles : settling.

Lemma wait_settles : settles I waitForPrimaryReplicaSelection.
Proof. by apply settles_modify. Qed.
Hint Resolve wait_settles : settling.

Lemma fetch_loop_settles name servers : settles I (fetch_loop name servers).
Proof.
  induction servers as [|sd servers IH]; cbn [fetch_loop]; unfold fetch_from, databasesGet; settling.
Qed.

Lemma fetchReplicas_settles name : settles I (fetchReplicas name).
Proof. unfold fetchReplicas. settling. apply fetch_loop_settles. Qed.
Hint Resolve fetchReplicas_settles : settling.

Lemma database_get_settles name : settles I (database_get name).
Proof. unfold database_get. settling. Qed.
Hint Resolve database_get_settles : settling.

Lemma seekPrimaryReplica_settles r : settles I (seekPrimaryReplica r).
Proof.
  unfold seekPrimaryReplica. settling. generalize FETCH_REPLICAS_MAX_RETRIES.
  intros n. induction n as [|n IH]; cbn [seek_loop]; settling.
Qed.
Hint Resolve seekPrimaryReplica_settles : settling.

Lemma runOnPrimaryReplica_settles {A} r (t : task W C A) :
  (∀ sd db, settles I (t sd db)) → settles I (runOnPrimaryReplica r t).
Proof.
  intros Ht. unfold runOnPrimaryReplica, ensure_primary. settling.
  generalize PRIMARY_REPLICA_TASK_MAX_RETRIES. intros n.
  induction n as [|n IH]; cbn [primary_loop]; unfold run_task; settling.
Qed.

Lemma runFailsafe_settles {A} r (t : task W C A) :
  (∀ sd db, settles I (t sd db)) → settles I (runFailsafe r t).
Proof.
  intros Ht. unfold runFailsafe, runOnAnyReplica. settling; [|by apply runOnPrimaryReplica_settles].
  generalize (replicas a). intros reps. induction reps as [|p reps IH]; cbn [any_loop];
    unfold run_task; settling.
Qed.

Lemma manager_runFailsafe_settles {A} name (t : manager_task A) :
  (∀ sd, settles I (t sd)) → settles I (manager_runFailsafe name t).
Proof.
  intros Ht. unfold manager_runFailsafe. settling. generalize ""%string.
  induction a as [|sd servers IH]; intros errors; cbn [manager_loop]; settling.
  by apply runOnPrimaryReplica_settles.
Qed.

Lemma users_runFailsafe_settles {A} (t : manager_task A) :
  (∀ sd, settles I (t sd)) → settles I (users_runFailsafe t).
Proof. intros Ht. unfold users_runFailsafe. settling. by apply runOnPrimaryReplica_settles. Qed.
Hint Resolve runOnPrimaryReplica_settles runFailsafe_settles manager_runFailsafe_settles
  users_runFailsafe_settles : settling.

Lemma manager_get_settles name : settles I (manager_get name).
Proof.
  unfold manager_get, manager_contains. settling.
  apply manager_runFailsafe_settles. unfold contains_call, databasesContains. settling.
Qed.

Lemma manager_all_settles : settles I manager_all.
Proof.
  unfold manager_all. settling. generalize ""%string.
  induction a as [|sd servers IH]; intros errors; cbn [all_loop]; unfold databasesAll; settling.
  induction a as [|p protos IHp]; cbn [databases_of]; unfold database_of; settling.
Qed.

(** *** Opening the driver *)

Context (readFileSync : string → outcome exn unit).
Hypothesis read_settles : ∀ path, readFileSync path ≠ Pending.

Lemma new_stub_settles address cred :
  settles (λ _ : World W, True) (new_stub readFileSync address cred).
Proof using read_settles.
  intros w _. split; [|done]. unfold new_stub. destruct (cred ≫= tlsRootCAPath) as [p|]; [|done].
  pose proof (read_settles p). by destruct (readFileSync p).
Qed.

Lemma stub_open_settles r : settles (λ _ : World W, True) (stub_open r).
Proof.
  unfold stub_open, connectionOpen, credential_of, userToken, at_stub. settling.
Qed.
Hint Resolve new_stub_settles stub_open_settles : settling.

Lemma set_serverDriver_settles id sd : settles I (set_serverDriver id sd).
Proof. by apply settles_modify. Qed.
Hint Resolve set_serverDriver_settles : settling.

Lemma openCore_settles c : settles I (openCore readFileSync c).
Proof using read_settles GS.
  unfold openCore, serversAll. settling.
Qed.

Lemma fetchCloudServerAddresses_settles c : settles I (fetchCloudServerAddresses readFileSync c).
Proof using read_settles GS.
  unfold fetchCloudServerAddresses. generalize (address_values (initAddresses c)) at 2. intros all.
  induction (address_values (initAddresses c)) as [|a l IH]; cbn [fetch_members_loop];
    unfold fetch_members, serversAll; settling.
Qed.

(** None of the promises of the stubs is left pending. *)
Lemma open_stubs_settles c t d :
  J (clients d) →
  (open_stubs readFileSync c t d).1 ≠ Pending ∧ J (clients (open_stubs readFileSync c t d).2) ∧
  ∀ l, (open_stubs readFileSync c t d).1 = Ret l → Forall (λ o, o ≠ Pending) l.
Proof using read_settles GS.
  revert d. induction t as [|[id a] t IH]; intros d Hd; cbn [open_stubs].
  - split_and!; [done|done|]. by intros l [= <-].
  - rewrite !proc_bind_eq.
    destruct (call_settles _ (new_stub_settles a (d_credential c)) d Hd) as [H1 H2].
    destruct (call (new_stub readFileSync a (d_credential c)) d) as [[st|e|] d1]; [|done..].
    rewrite proc_bind_eq. unfold settled.
    destruct (call_settles _ (stub_open_settles st) d1 H2) as [H3 H4].
    destruct (call (stub_open st) d1) as [o d2]. cbn [fst snd] in *. rewrite !proc_bind_eq.
    destruct (set_serverDriver_settles id (mkServerDriver a st) d2 H4) as [H5 H6].
    destruct (set_serverDriver id (mkServerDriver a st) d2) as [[[]|e|] d3]; [|done..].
    rewrite proc_bind_eq. destruct (IH d3 H6) as (H7 & H8 & H9).
    destruct (open_stubs readFileSync c t d3) as [[l|e|] d4]; [|done..].
    split_and!; [done|done|]. intros l' [= <-]. constructor; [done|by apply H9].
Qed.

Lemma promise_any_settles {A} (l : list (outcome exn A)) :
  Forall (λ o, o ≠ Pending) l → promise_any l ≠ Pending.
Proof.
  intros Hl. unfold promise_any. destruct (List.existsb is_ret l); [done|].
  assert (List.existsb is_pending l = false) as ->; [|done].
  induction Hl as [|o l Ho _ IH]; [done|]. cbn. rewrite IH. by destruct o.
Qed.

Lemma addressTranslation_settles c servers : addressTranslation c servers ≠ Pending.
Proof. unfold addressTranslation. by repeat case_match. Qed.

Lemma openCloud_settles c : settles I (openCloud readFileSync c).
Proof using read_settles GS.
  unfold openCloud. apply settles_bind; [apply fetchCloudServerAddresses_settles|]. intros servers.
  apply settles_bind; [apply settles_lift, addressTranslation_settles|]. intros t d Hd.
  rewrite proc_bind_eq. destruct (open_stubs_settles c t d Hd) as (H1 & H2 & H3).
  destruct (open_stubs readFileSync c t d) as [[l|e|] d1]; [|done..]. cbn [fst snd] in *.
  assert (settles I (try_catch (lift_outcome (promise_any l)) (λ e,
    throw (driver_error CLOUD_UNABLE_TO_CONNECT [exn_to_string e])) ≫= λ _,
    modify (set_isOpen true))) as Hs; [|exact (Hs d1 H2)].
  apply settles_bind; [|intros _; by apply settles_modify].
  apply settles_try_catch; [|settling]. by apply settles_lift, promise_any_settles, H3.
Qed.

Lemma driver_open_settles c : settles I (driver_open readFileSync c).
Proof using read_settles GS.
  unfold driver_open. apply settles_bind; [settling|]. intros []; [apply openCloud_settles|
    apply openCore_settles].
Qed.
End driver.

(** ** Sessions *)

(** Transactions that open, once the call for a stream settled, and close in
    the states with [K]. *)
Class TransactionSettles (X : Type) {T : TransactionOps X} (K : X → Prop) : Prop := {
  txop_open_settles : ∀ st connection id type_ options latency, connection ≠ Pending →
    settles K (txop_open st connection id type_ options latency);
  txop_close_settles : ∀ r, settles K (txop_close r);
}.

#[export] Hint Resolve txop_open_settles txop_close_settles : settling.

Section session.
Context {W X : Type} {G : GRPCStub W} {GS : GRPCSettles W} {T : TransactionOps X}
  (K : X → Prop) {TS : TransactionSettles X K} (clock : nat → Z).

(** The callbacks of the session settle. *)
Definition callbacks_settle (c : Clients X) : Prop :=
  Forall (λ cb, callback_outcome cb ≠ Pending) (s_onClose (session c)) ∧
  Forall (λ cb, callback_outcome cb ≠ Pending) (s_onReopen (session c)) ∧ K (transactions c).

Local Abbreviation J := (λ d : Driver W (Clients X), callbacks_settle (clients d)).

Lemma modify_session_settles f :
  (∀ s, s_onClose (f s) = s_onClose s) → (∀ s, s_onReopen (f s) = s_onReopen s) →
  settles J (modify_session f).
Proof.
  intros H1 H2. apply settles_modify. intros d (Hc & Hr & Hk). unfold callbacks_settle. simpl.
  by rewrite H1, H2.
Qed.
Hint Resolve modify_session_settles : settling.

Lemma on_transactions_settles {A} (m : proc X exn A) : settles K m → settles J (on_transactions m).
Proof.
  intros Hm d (Hc & Hr & Hk). unfold on_transactions. destruct (Hm _ Hk) as [H1 H2].
  by destruct (m (transactions (clients d))) as [o x].
Qed.
Hint Resolve on_transactions_settles : settling.

Lemma getMilliseconds_settles : settles J (getMilliseconds clock).
Proof. by intros d Hd. Qed.
Lemma schedule_pulse_settles : settles J schedule_pulse.
Proof. by intros d Hd. Qed.
Lemma clear_pulse_settles : settles J clear_pulse.
Proof. by apply settles_modify. Qed.
Hint Resolve getMilliseconds_settles schedule_pulse_settles clear_pulse_settles
  call_settles stub_of_settles : settling.

Lemma openAt_settles sd : settles J (openAt clock sd).
Proof. unfold openAt, get_session, sessionOpen. settling. Qed.
Hint Resolve openAt_settles : settling.

Lemma run_callbacks_settles l :
  Forall (λ cb, callback_outcome cb ≠ Pending) l → settles J (run_callbacks l).
Proof.
  intros Hl. apply settles_for_each. intros cb Hcb. unfold run_callback.
  apply settles_bind; [settling|]. intros _. apply settles_lift.
  by apply (proj1 (Forall_forall _ _) Hl).
Qed.

Lemma reopenAt_settles sd : settles J (reopenAt clock sd).
Proof.
  unfold reopenAt. apply settles_bind; [settling|]. intros _. apply settles_gets_bind.
  intros d (_ & Hr & _). by apply run_callbacks_settles.
Qed.
Hint Resolve reopenAt_settles run_callbacks_settles : settling.

Lemma closeResources_settles : settles J closeResources.
Proof.
  unfold closeResources. apply settles_bind; [settling|]. intros _. apply settles_gets_bind.
  intros d (Hc & _). apply settles_bind; [|settling].
  apply settles_for_each. intros tx _. unfold close_transaction. settling.
Qed.
Hint Resolve closeResources_settles : settling.

Lemma hexStringToBytes_settles s : hexStringToBytes s ≠ Pending.
Proof. unfold hexStringToBytes. by repeat case_match. Qed.

Lemma session_requests_settle id :
  Session_closeReq id ≠ Pending ∧ Session_pulseReq id ≠ Pending.
Proof.
  unfold Session_closeReq, Session_pulseReq. pose proof (hexStringToBytes_settles id).
  by destruct (hexStringToBytes id).
Qed.

Lemma session_close_op_settles : settles J session_close_op.
Proof.
  unfold session_close_op, get_session. settling.
  apply settles_lift, session_requests_settle.
Qed.
Hint Resolve session_close_op_settles : settling.

Lemma pulse_settles : settles J pulse.
Proof.
  unfold pulse, get_session, sessionPulse. settling. apply settles_lift, session_requests_settle.
Qed.

(** What a computation that settles comes to may be relied on. *)
Lemma settles_settled_bind {A B} (m : proc (Driver W (Clients X)) exn A)
    (k : outcome exn A → proc (Driver W (Clients X)) exn B) :
  settles J m → (∀ o, o ≠ Pending → settles J (k o)) → settles J (settled m ≫= k).
Proof.
  intros Hm Hk d Hd. rewrite proc_bind_eq. unfold settled. destruct (Hm d Hd) as [H1 H2].
  destruct (m d) as [o d']. by apply Hk.
Qed.

Lemma open_transaction_settles type_ options : settles J (open_transaction type_ options).
Proof.
  unfold open_transaction, get_session. apply settles_bind; [settling|]. intros s.
  apply settles_bind; [settling|]. intros st. apply settles_settled_bind; [settling|].
  intros o Ho. apply on_transactions_settles. by apply txop_open_settles.
Qed.
Hint Resolve open_transaction_settles : settling.

Lemma require_open_settles : settles J require_open.
Proof. unfold require_open. settling. Qed.
Hint Resolve require_open_settles manager_get_settles runFailsafe_settles : settling.

Lemma session_open_op_settles : settles J (session_open_op clock).
Proof. unfold session_open_op, get_session. settling. Qed.

Lemma transaction_settles type_ options : settles J (transaction clock type_ options).
Proof. unfold transaction, get_session, database_runFailsafe, add_transaction. settling. Qed.

Lemma driver_session_settles ref : settles J (driver_session clock ref).
Proof. unfold driver_session, get_session. settling. apply session_open_op_settles. Qed.

Lemma driver_close_settles : settles J driver_close.
Proof. unfold driver_close, serverDriver_close. settling. Qed.

(** Registering a callback that settles. *)
Lemma session_onClose_settles cb : callback_outcome cb ≠ Pending → settles J (session_onClose cb).
Proof.
  intros Hcb. apply settles_modify. intros d (Hc & Hr & Hk). unfold callbacks_settle. cbn.
  split_and!; [|done..]. apply Forall_app. split; [done|by constructor].
Qed.

Lemma session_onReopen_settles cb : callback_outcome cb ≠ Pending → settles J (session_onReopen cb).
Proof.
  intros Hcb. apply settles_modify. intros d (Hc & Hr & Hk). unfold callbacks_settle. cbn.
  split_and!; [done| |done]. apply Forall_app. split; [done|by constructor].
Qed.

(** C20 - nothing the driver does waits for ever by itself: when every call of
    the generated client settles, transactions open and close, certificates can
    be read and the callbacks of the session settle, then opening the driver,
    every operation of the database manager, of databases, of the user manager
    and of users (the update of a password among them), and
    opening, using, pulsing and closing a session, registering callbacks that
    settle, and closing the driver all settle, however often they retry, and the
    callbacks of the session still settle. *)
Theorem calls_settle (readFileSync : string → outcome exn unit)
    (Hread : ∀ path, readFileSync path ≠ Pending) :
  (∀ c, settles J (driver_open readFileSync c)) ∧
  (∀ name, settles J (manager_get name) ∧ settles J (manager_contains name) ∧
           settles J (manager_create name)) ∧
  settles J manager_all ∧
  (∀ r, settles J (database_delete_op r) ∧ settles J (schema r) ∧ settles J (typeSchema r) ∧
        settles J (ruleSchema r)) ∧
  (∀ name pass, settles J users_all_op ∧ settles J (users_contains_op name) ∧
     settles J (users_create_op name pass) ∧ settles J (users_delete_op name) ∧
     settles J (users_get_op name) ∧ settles J (users_passwordSet_op name pass)) ∧
  (∀ user old new credential, settles J (passwordUpdate user old new) ∧
     settles J (driver_user credential)) ∧
  (∀ ref, settles J (driver_session clock ref)) ∧ settles J session_close_op ∧
  (∀ type_ options, settles J (transaction clock type_ options)) ∧ settles J pulse ∧
  (∀ cb, callback_outcome cb ≠ Pending →
     settles J (session_onClose cb) ∧ settles J (session_onReopen cb)) ∧ settles J driver_close.
Proof.
  repeat match goal with |- _ ∧ _ => split | |- ∀ _, _ => intro end;
    auto using driver_close_settles, session_onClose_settles, session_onReopen_settles;
    unfold manager_contains, manager_create, contains_call, create_call, database_delete_op, schema,
      typeSchema, ruleSchema, sdb_delete, sdb_schema, sdb_typeSchema, sdb_ruleSchema, passwordUpdate,
      driver_user, driver_users, users_all_op,
      users_contains_op, users_create_op, users_delete_op, users_get_op, users_passwordSet_op;
    auto using driver_open_settles, manager_get_settles,
      manager_all_settles, driver_session_settles, session_close_op_settles,
      transaction_settles, pulse_settles.
  all: repeat first [apply manager_runFailsafe_settles | apply runFailsafe_settles
    | apply runOnPrimaryReplica_settles | apply users_runFailsafe_settles | progress settling].
  all: apply call_settles; first [apply renewing_settles | apply renewing_raw_settles];
    auto with settling.
Qed.
End session.

(** ** Transactions over a stream settle *)

Section implementation.
Context {U : Uuid} {UL : UuidLaws U} {R P : Type} (show_state : TransactionStreamState → string).
Implicit Types st : BidirectionalStream R P.

(** The callbacks of a stream settle. *)
Definition stream_settles (st : BidirectionalStream R P) : Prop :=
  Forall (λ cb : callback, ∀ e, cb e ≠ Pending) (onClose_list st).

Definition event_settles (ev : stream_event R P) : Prop :=
  match ev with SOnClose cb => ∀ e, cb e ≠ Pending | _ => True end.

Lemma call_back_settles i cbs error :
  Forall (λ cb : callback, ∀ e, cb e ≠ Pending) cbs →
  settles stream_settles (call_back (R := R) (P := P) i cbs error).
Proof.
  intros H. revert i. induction H as [|cb cbs Hcb _ IH]; intros i; cbn [call_back];
    [apply settles_ret|]. apply settles_bind; [|intros _; apply IH].
  intros st Hst. by split; [apply Hcb|].
Qed.

Lemma stream_close_settles error : settles stream_settles (stream_close (R := R) (P := P) error).
Proof.
  unfold stream_close. apply settles_bind; [by apply settles_modify|]. intros _.
  apply settles_bind.
  - intros st Hst. unfold close_dispatcher. by destruct (dispatcher st).
  - intros _. apply settles_gets_bind. intros st Hst. by apply call_back_settles.
Qed.

Lemma next_begin_callbacks i it st : onClose_list (next_begin i it st) = onClose_list st.
Proof. unfold next_begin. by destruct (queue_take _ _) as [[]]. Qed.

Lemma single_callbacks request batch st :
  onClose_list (single request batch st).2 = onClose_list st.
Proof.
  unfold single, draw_id, queue_response, call_dispatcher, take_response, mbind, proc_mbind.
  destruct batch; simpl; destruct (dispatcher st) as [d|]; simpl; try done;
    match goal with |- context [queue_take ?r ?c] => by destruct (queue_take r c) as [[]] end.
Qed.

Lemma stream_step_settles st ev :
  stream_settles st → event_settles ev → stream_settles (stream_step show_state st ev).
Proof.
  intros Hst Hev. unfold stream_settles in *.
  destruct ev as [rq b|rq|cb|e|res|e| |i|i|r]; cbn [stream_step].
  - by rewrite single_callbacks.
  - unfold stream, call_dispatcher, on_dispatcher. rewrite !proc_bind_eq. cbn.
    by destruct (dispatcher st).
  - cbn. apply Forall_app. split; [done|]. by constructor.
  - by apply stream_close_settles.
  - unfold on_data. destruct (isOpen st); cbn; [|done]. destruct res; cbn; [| |done];
      unfold collectRes, collectResPart; destruct (uuid_stringify _); cbn; try done;
      by destruct (collector_get _ _).
  - by apply stream_close_settles.
  - by apply stream_close_settles.
  - unfold pull. destruct (iterators st !! i) as [it|]; [|done].
    destruct (it_status_of it); try done. by rewrite next_begin_callbacks.
  - unfold resume. destruct (iterators st !! i) as [it|]; [|done].
    destruct (it_status_of it); try done. unfold next_resume.
    destruct (response_of _ _ _) as [res| |]; try done.
    destruct (part_state res) as [[]|]; try done. unfold on_dispatcher.
    destruct (it_dispatcher it); [|done]. by rewrite next_begin_callbacks.
  - done.
Qed.

Lemma run_stream_settles evs st :
  stream_settles st → Forall event_settles evs → stream_settles (run_stream show_state st evs).
Proof.
  intros Hst Hevs. revert st Hst. induction Hevs as [|ev evs Hev _ IH]; intros st Hst; [done|].
  apply IH. by apply stream_step_settles.
Qed.

(** The open request is answered. *)
Context (answers : list (stream_event R P)).
Hypothesis answered : deliveries (delivered_res (uuid_v4 0)) true answers ≠ [].
Hypothesis answers_settle : Forall event_settles answers.

Definition heap_settles (h : list (TypeDBTransactionImpl R P)) : Prop :=
  Forall (λ t, stream_settles (bidirectionalStream t)) h.

Lemma tx_open_answered connection sessionId type_ options latency :
  connection ≠ Pending →
  ∃ o t, (tx_open connection sessionId type_ options latency ≫= λ p,
            await_response show_state answers p) (mkTx (new_stream new_transmitter) false []) = (o, t) ∧
    o ≠ Pending ∧ stream_settles (bidirectionalStream t).
Proof using UL answered answers_settle.
  intros connects. unfold tx_open. rewrite !proc_bind_eq.
  destruct connection as [[]|e|]; [|eexists _, _; split; [reflexivity|]; by split; [|constructor]|done].
  change (on_stream (stream_open (Ret tt)) (mkTx (new_stream new_transmitter) false []))
    with (Ret (E := exn) tt, mkTx (opened (R := R) (P := P) new_transmitter) false []).
  cbv iota beta. rewrite !proc_bind_eq. unfold lift_outcome at 1.
  assert (Transaction_openReq sessionId type_ (options_proto options) latency ≠ Pending) as Hreq.
  { unfold Transaction_openReq. pose proof (hexStringToBytes_settles sessionId).
    by destruct (hexStringToBytes sessionId). }
  destruct (Transaction_openReq _ _ _ _) as [req|e|];
    [|eexists _, _; split; [reflexivity|]; by split; [|constructor]|done].
  unfold rpcExecute. rewrite !proc_bind_eq. cbn [gets]. cbn [set_stream bidirectionalStream].
  change (isOpen (opened new_transmitter)) with true. cbn [negb]. rewrite !proc_bind_eq.
  unfold on_stream. cbn [set_stream bidirectionalStream useBatch].
  pose proof (stream_inv_opened (R := R) (P := P) show_state new_transmitter) as Hinv.
  destruct (single_hands_out show_state req false _ Hinv) as (r & E1 & E2 & Hs).
  pose proof (stream_inv_single show_state req false _ Hinv) as Hinv'.
  assert (stream_settles (single req false (opened new_transmitter)).2) as Hset
    by (apply (stream_step_settles (opened new_transmitter) (SSingle req false)); [constructor|done]).
  destruct (single req false (opened new_transmitter)) as [o st]. cbn [fst snd] in *. subst o.
  cbn [note]. unfold await_response. cbn [fst snd set_stream bidirectionalStream].
  eexists _, _. split; [reflexivity|]. split.
  - pose proof (run_res show_state answers _ _ _ _ Hinv' Hs) as Hrun.
    rewrite (holds_response _ _ _ _ 0 Hrun). cbn [added app]. rewrite E2.
    change (isOpen (opened new_transmitter)) with true.
    destruct (deliveries (delivered_res (uuid_v4 (drawn (opened new_transmitter)))) true answers)
      as [|el l] eqn:Hd; [done|]. by destruct el.
  - exact (run_stream_settles answers st Hset answers_settle).
Qed.

(** Opening a transaction over a stream settles when its open request is
    answered, and closing one always settles. *)
#[export] Instance heap_transactions_settle :
  TransactionSettles (T := heap_transactions show_state answers) _ heap_settles.
Proof using UL answered answers_settle.
  split; simpl.
  - intros _ connection id type_ options latency Hcon h Hh. unfold heap_open.
    destruct (tx_open_answered connection id type_ options (number_of_Z latency) Hcon) as (o & t & -> & H1 & H2).
    destruct o as [a|e|]; [| |done]; (split; [done|]; apply Forall_app; split; [done|];
      by constructor).
  - intros r h Hh. unfold at_tx. destruct (h !! r) as [t|] eqn:Hr; [|done].
    assert (settles (λ t, stream_settles (bidirectionalStream t)) (tx_close (R := R) (P := P))) as Hc.
    { unfold tx_close. apply settles_bind; [|intros _; by apply settles_modify].
      intros t' Ht'. unfold on_stream. destruct (stream_close_settles None _ Ht') as [H1 H2].
      by destruct (stream_close None _). }
    destruct (Hc t) as [H1 H2]; [by apply (Forall_lookup_1 _ _ _ _ Hh Hr)|].
    destruct (tx_close t) as [o t']. cbn in *. split; [done|]. by apply Forall_insert.
Qed.
End implementation.

(** ** Concrete runs *)

#[local] Existing Instance number_uuid.
#[local] Existing Instance number_uuid_laws.
#[local] Existing Instance cluster.

#[local] Instance cluster_settles : GRPCSettles string.
Proof.
  split; repeat intro; simpl in *; unfold at_primary, guarded in *;
    repeat case_match; done.
Qed.

(** The open request of every transaction is answered. *)
Definition demo_answers : list (stream_event nat nat) := [demo_res "0" 5].

#[local] Instance answered_transactions : TransactionOps (list (TypeDBTransactionImpl nat nat)) :=
  heap_transactions demo_show demo_answers.

#[local] Instance answered_transactions_settle :
  TransactionSettles (list (TypeDBTransactionImpl nat nat)) heap_settles.
Proof. apply heap_transactions_settle; [done|by repeat constructor]. Qed.

Lemma calls_settle_witness :
  callbacks_settle heap_settles demo_clients ∧
  (transaction (λ _, 0%Z) READ None demo_state).1 ≠ Pending ∧
  (transaction (λ _, 0%Z) READ None demo_state).1 = Ret 2.
Proof.
  assert (callbacks_settle heap_settles demo_clients) as Hc.
  { split_and!; repeat constructor; vm_compute; discriminate. }
  split; [exact Hc|]. split; [|vm_compute; reflexivity].
  destruct (calls_settle (W := string) heap_settles (λ _, 0%Z) (λ _, Ret tt))
    as (_ & _ & _ & _ & _ & _ & _ & _ & Ht & _); [intros; discriminate|].
  apply (Ht READ None demo_state Hc).
Defined.
