(* ===== verification/Hoare.v ===== *)
(** * Triples for driver computations

    A Hoare logic for computations that read and change state, throw and wait:
    a triple says what holds of the result and the state when a computation
    returns, and what holds of the state when it throws or waits for ever. The
    loops of the driver over servers, replicas and turns are then covered once
    and for all, for assertions about the objects that tasks work on and about
    the sessions filed in the driver, which these loops do not touch. *)
From S2P Require Import Prelude Errors Bytes Proto RequestBuilder Stub Database Managers DriverImpl.

(** From states with [P], the computation returns as [Q] says, or ends in a
    state with [R]. *)
Definition triple {S E A} (P : S → Prop) (m : proc S E A) (Q : A → S → Prop) (R : S → Prop)
    : Prop :=
  ∀ s, P s → match m s with
             | (Ret a, s') => Q a s'
             | (_, s') => R s'
             end.

Create HintDb hoare.

Section rules.
Context {S E : Type}.
Implicit Types P R : S → Prop.

Lemma triple_ret {A} (a : A) P (Q : A → S → Prop) R :
  (∀ s, P s → Q a s) → triple P (mret a : proc S E A) Q R.
Proof. intros H s Hs. by apply H. Qed.

Lemma triple_throw {A} (e : E) P (Q : A → S → Prop) R :
  (∀ s, P s → R s) → triple P (throw e : proc S E A) Q R.
Proof. intros H s Hs. by apply H. Qed.

Lemma triple_gets {A} (f : S → A) P R :
  triple P (gets f : proc S E A) (λ a s, P s ∧ a = f s) R.
Proof. by intros s Hs. Qed.

Lemma triple_modify (f : S → S) P (Q : unit → S → Prop) R :
  (∀ s, P s → Q tt (f s)) → triple P (modify f : proc S E unit) Q R.
Proof. intros H s Hs. by apply H. Qed.

Lemma triple_lift {A} (o : outcome E A) P R :
  (∀ s, P s → R s) → triple P (lift_outcome o : proc S E A) (λ a s, P s ∧ o = Ret a) R.
Proof. intros H s Hs. unfold lift_outcome. destruct o; [done|by apply H..]. Qed.

Lemma triple_bind {A B} (m : proc S E A) (k : A → proc S E B) P Q (Q' : B → S → Prop) R :
  triple P m Q R → (∀ a, triple (Q a) (k a) Q' R) → triple P (m ≫= k) Q' R.
Proof.
  intros Hm Hk s Hs. specialize (Hm s Hs). rewrite proc_bind_eq.
  destruct (m s) as [[a|e|] s']; [by apply Hk|done|done].
Qed.

(** What is read of a state may be relied on. *)
Lemma triple_gets_bind {A B} (f : S → A) (k : A → proc S E B) P (Q : B → S → Prop) R :
  (∀ s, P s → triple (λ s', s' = s) (k (f s)) Q R) → triple P (gets f ≫= k) Q R.
Proof. intros H s Hs. rewrite proc_bind_eq. by apply (H s Hs s). Qed.

(** The handler starts where the body threw; a body that waits is not
    resumed. *)
Lemma triple_try_catch {A} (m : proc S E A) (h : E → proc S E A) P Q P' R :
  triple P m Q P' → (∀ e, triple P' (h e) Q R) → (∀ s, P' s → R s) →
  triple P (try_catch m h) Q R.
Proof.
  intros Hm Hh Hr s Hs. specialize (Hm s Hs). unfold try_catch.
  destruct (m s) as [[a|e|] s']; [done|by apply Hh|by apply Hr].
Qed.

Lemma triple_conseq {A} (m : proc S E A) P P' (Q Q' : A → S → Prop) R R' :
  triple P' m Q' R' → (∀ s, P s → P' s) → (∀ a s, Q' a s → Q a s) → (∀ s, R' s → R s) →
  triple P m Q R.
Proof.
  intros H HP HQ HR s Hs. specialize (H s (HP s Hs)).
  destruct (m s) as [[a|e|] s']; [by apply HQ|by apply HR..].
Qed.

Lemma triple_for_each {A} (f : A → proc S E unit) l P :
  (∀ x, x ∈ l → triple P (f x) (λ _, P) P) → triple P (for_each f l) (λ _, P) P.
Proof.
  induction l as [|x l IH]; intros H; [by apply triple_ret|]. cbn [for_each].
  apply (triple_bind _ _ _ (λ _, P)); [apply H; by left|]. intros _. apply IH.
  intros y Hy. apply H. by right.
Qed.

Lemma triple_and {A} (m : proc S E A) P1 P2 Q1 Q2 R1 R2 :
  triple P1 m Q1 R1 → triple P2 m Q2 R2 →
  triple (λ s, P1 s ∧ P2 s) m (λ a s, Q1 a s ∧ Q2 a s) (λ s, R1 s ∧ R2 s).
Proof.
  intros H1 H2 s [Hs1 Hs2]. specialize (H1 s Hs1). specialize (H2 s Hs2).
  by destruct (m s) as [[a|e|] s'].
Qed.
End rules.

(** An assertion that a computation keeps, however it ends. *)
Definition keeps {S E A} (P : S → Prop) (m : proc S E A) : Prop := triple P m (λ _, P) P.

Section keeps.
Context {S E : Type} (P : S → Prop).

Lemma keeps_spec {A} (m : proc S E A) : keeps P m ↔ preserves P m.
Proof.
  split; intros H s Hs; specialize (H s Hs); by destruct (m s) as [[a|e|] s'].
Qed.

Lemma keeps_ret {A} (a : A) : keeps P (mret a : proc S E A).
Proof. by apply triple_ret. Qed.
Lemma keeps_throw {A} (e : E) : keeps P (throw e : proc S E A).
Proof. by apply triple_throw. Qed.
Lemma keeps_gets {A} (f : S → A) : keeps P (gets f : proc S E A).
Proof. by intros s Hs. Qed.
Lemma keeps_lift {A} (o : outcome E A) : keeps P (lift_outcome o : proc S E A).
Proof. intros s Hs. unfold lift_outcome. by destruct o. Qed.
Lemma keeps_modify (f : S → S) : (∀ s, P s → P (f s)) → keeps P (modify f : proc S E unit).
Proof. intros H. by apply triple_modify. Qed.
Lemma keeps_bind {A B} (m : proc S E A) (k : A → proc S E B) :
  keeps P m → (∀ a, keeps P (k a)) → keeps P (m ≫= k).
Proof. intros Hm Hk. by apply (triple_bind _ _ _ (λ _, P)). Qed.
Lemma keeps_try_catch {A} (m : proc S E A) (h : E → proc S E A) :
  keeps P m → (∀ e, keeps P (h e)) → keeps P (try_catch m h).
Proof. intros Hm Hh. by apply (triple_try_catch _ _ _ _ P). Qed.
Lemma keeps_for_each {A} (f : A → proc S E unit) l :
  (∀ x, x ∈ l → keeps P (f x)) → keeps P (for_each f l).
Proof. apply triple_for_each. Qed.
End keeps.

#[export] Hint Resolve keeps_ret keeps_throw keeps_gets keeps_lift keeps_modify : hoare.

(** Follows the structure of a computation that keeps an assertion. *)
Ltac keeping :=
  repeat first
    [ match goal with |- ∀ _, _ => intro end
    | solve [auto 4 with hoare]
    | simple apply keeps_bind | simple apply keeps_try_catch
    | match goal with |- keeps _ (match ?x with _ => _ end) => destruct x eqn:? end ].

(** ** The loops of the driver *)

Section driver.
Context {W C : Type} {G : GRPCStub W}.
Local Abbreviation State := (Driver W C).

(** An assertion about the tasks' objects and the sessions filed. *)
Definition on_clients (P : C → gmap string nat → Prop) (d : State) : Prop :=
  P (clients d) (d_sessions d).

Context (P : C → gmap string nat → Prop).
Local Abbreviation I := (on_clients P).

Lemma call_keeps {A} (m : proc (World W) exn A) : keeps I (call m).
Proof. intros d Hd. unfold call. by destruct (m (d_world d)) as [[] w]. Qed.
Lemma stub_of_keeps sd : keeps I (stub_of sd).
Proof. destruct sd; [apply keeps_ret|apply keeps_throw]. Qed.
Lemma new_database_keeps name reps : keeps I (new_database name reps).
Proof. by intros d Hd. Qed.
Lemma get_database_keeps r : keeps I (get_database r).
Proof. intros d Hd. unfold get_database. by destruct (d_databases d !! r). Qed.
Lemma set_replicas_keeps r reps : keeps I (set_replicas r reps).
Proof. by apply keeps_modify. Qed.
Lemma wait_keeps : keeps I waitForPrimaryReplicaSelection.
Proof. by apply keeps_modify. Qed.
Lemma require_open_keeps : keeps I require_open.
Proof. unfold require_open. keeping. Qed.
Lemma settled_keeps {A} (m : proc State exn A) : keeps I m → keeps I (settled m).
Proof. intros Hm d Hd. specialize (Hm d Hd). unfold settled. by destruct (m d) as [[] d']. Qed.
Hint Resolve call_keeps stub_of_keeps new_database_keeps get_database_keeps set_replicas_keeps
  wait_keeps settled_keeps : hoare.

Lemma fetchReplicas_keeps name : keeps I (fetchReplicas name).
Proof.
  unfold fetchReplicas. keeping.
  match goal with |- keeps _ (fetch_loop _ ?l) => induction l as [|sd servers IH] end;
    cbn [fetch_loop]; unfold fetch_from, databasesGet; keeping.
Qed.
Hint Resolve fetchReplicas_keeps : hoare.

Lemma database_get_keeps name : keeps I (database_get name).
Proof. unfold database_get. keeping. Qed.
Hint Resolve database_get_keeps : hoare.

Lemma seekPrimaryReplica_keeps r : keeps I (seekPrimaryReplica r).
Proof.
  unfold seekPrimaryReplica. keeping. generalize FETCH_REPLICAS_MAX_RETRIES.
  intros n. induction n as [|n IH]; cbn [seek_loop]; keeping.
Qed.
Hint Resolve seekPrimaryReplica_keeps : hoare.

Section tasks.
Context {A : Type} (Q : A → C → gmap string nat → Prop).
Local Abbreviation post := (λ a, on_clients (Q a)).

Lemma primary_loop_triple n r (t : task W C A) :
  (∀ sd db, triple I (t sd db) post I) → triple I (primary_loop n r t) post I.
Proof.
  intros Ht. induction n as [|n IH]; cbn [primary_loop]; [by apply triple_throw|].
  apply (triple_try_catch _ _ _ _ I); [| |done].
  - apply (triple_bind _ _ _ (λ _, I)); [apply get_database_keeps|]. intros db.
    destruct (primaryReplica db); [|by apply triple_throw].
    apply (triple_bind _ _ _ (λ _, I)); [apply keeps_gets|]. intros sd. apply Ht.
  - intros e. destruct (primary_moved e); [|by apply triple_throw].
    apply (triple_bind _ _ _ (λ _, I)); [apply wait_keeps|]. intros _.
    apply (triple_bind _ _ _ (λ _, I)); [apply seekPrimaryReplica_keeps|]. intros _. exact IH.
Qed.

Lemma runOnPrimaryReplica_triple r (t : task W C A) :
  (∀ sd db, triple I (t sd db) post I) → triple I (runOnPrimaryReplica r t) post I.
Proof.
  intros Ht. apply (triple_bind _ _ _ (λ _, I)); [|intros _; by apply primary_loop_triple].
  change (keeps I (ensure_primary r)). unfold ensure_primary. keeping.
Qed.

Lemma any_loop_triple (t : task W C A) reps :
  (∀ sd db, triple I (t sd db) post I) → triple I (any_loop t reps) post I.
Proof.
  intros Ht. induction reps as [|p reps IH]; cbn [any_loop]; [by apply triple_throw|].
  apply (triple_try_catch _ _ _ _ I); [| |done].
  - apply (triple_bind _ _ _ (λ _, I)); [apply keeps_gets|]. intros sd. apply Ht.
  - intros e. destruct (has_template _ _); [exact IH|by apply triple_throw].
Qed.

(** A task on some replica: whatever each attempt leaves behind, the next one
    starts from. *)
Lemma runFailsafe_triple r (t : task W C A) :
  (∀ sd db, triple I (t sd db) post I) → triple I (runFailsafe r t) post I.
Proof.
  intros Ht. apply (triple_try_catch _ _ _ _ I); [| |done].
  - apply (triple_bind _ _ _ (λ _, I)); [apply get_database_keeps|].
    intros db. by apply any_loop_triple.
  - intros e. destruct (has_template _ _); [|by apply triple_throw].
    by apply runOnPrimaryReplica_triple.
Qed.
End tasks.

Lemma runFailsafe_keeps {A} r (t : task W C A) :
  (∀ sd db, keeps I (t sd db)) → keeps I (runFailsafe r t).
Proof. apply (runFailsafe_triple (λ _, P)). Qed.

Lemma runOnPrimaryReplica_keeps {A} r (t : task W C A) :
  (∀ sd db, keeps I (t sd db)) → keeps I (runOnPrimaryReplica r t).
Proof. apply (runOnPrimaryReplica_triple (λ _, P)). Qed.

Lemma manager_get_keeps name : keeps I (manager_get name).
Proof.
  unfold manager_get, manager_contains, manager_runFailsafe. keeping.
  match goal with |- keeps _ (manager_loop _ _ ?l ?e) =>
    generalize e; induction l as [|sd servers IH] end;
    intros errors; cbn [manager_loop]; unfold contains_call; keeping.
  apply runOnPrimaryReplica_keeps. keeping.
Qed.
End driver.

#[export] Hint Resolve call_keeps stub_of_keeps require_open_keeps manager_get_keeps
  runFailsafe_keeps settled_keeps : hoare.
