(* ===== verification/Fleet.v ===== *)
(** * The sessions of a driver

    A driver keeps any number of sessions ([_sessions] of
    [connection/TypeDBDriverImpl.ts]). They share the driver's server stubs,
    its databases, the transactions' objects and the timers of the runtime.
    This file runs the operations of all sessions of a driver in any order,
    with the pulses in the background: the timers fire and the server answers
    the pulses at any time between the operations. (An operation that is not a
    pulse runs to its end before the next starts.) It shows that sessions do not
    disturb each other, that a session that is open is kept alive, and that the
    pulses of a closed one come to rest. What goes on in the transactions and in
    the rest of the driver meanwhile is left free. *)
From S2P Require Import Prelude Errors Bytes Proto RequestBuilder BlockingQueue Dispatcher Collector BiStream BiStreamSpec Options Transaction Stub Database Managers DriverImpl Session Settling Hoare.
Local Open Scope string_scope.
Local Open Scope list_scope.

(** ** Transactions as separate objects *)

(** The transactions made so far are numbered; opening makes a new one, and
    closing one changes no other, in the states that are well formed. *)
Class TransactionObjects (X : Type) {T : TransactionOps X} : Type := {
  tx_object : Type;
  txop_ok : X → Prop;
  txop_made : X → nat;
  txop_object : nat → X → option tx_object;
  txop_open_ok : ∀ st connection id type_ options latency x,
    txop_ok x → txop_ok (txop_open st connection id type_ options latency x).2;
  txop_open_made : ∀ st connection id type_ options latency x,
    txop_ok x → txop_made x <= txop_made (txop_open st connection id type_ options latency x).2;
  txop_open_new : ∀ st connection id type_ options latency x r,
    txop_ok x → (txop_open st connection id type_ options latency x).1 = Ret r →
    txop_made x <= r < txop_made (txop_open st connection id type_ options latency x).2;
  txop_open_others : ∀ st connection id type_ options latency x r, txop_ok x → r < txop_made x →
    txop_object r (txop_open st connection id type_ options latency x).2 = txop_object r x;
  txop_close_ok : ∀ r x, txop_ok x → txop_ok (txop_close r x).2;
  txop_close_made : ∀ r x, txop_ok x → txop_made (txop_close r x).2 = txop_made x;
  txop_close_others : ∀ r r' x, txop_ok x → r' ≠ r →
    txop_object r' (txop_close r x).2 = txop_object r' x;
}.

Section fleet.
Context {W X : Type} {G : GRPCStub W} {T : TransactionOps X} {TO : TransactionObjects X}.
Context (clock : nat → Z).

(** ** State *)

(** All sessions made so far, the transactions of all of them, the readings of
    the clock, the timers pending, the session that set each timer, and the
    pulses that await their answers, each with its session and with what the
    server answers. *)
Record Fleet : Type := mkFleet {
  f_sessions : list Session;
  f_transactions : X;
  f_readings : nat;
  f_timers : list nat;
  f_owners : list nat;
  f_inflight : list (nat * outcome exn bool);
}.

Local Abbreviation State := (Driver W (Clients X)).
Local Abbreviation FState := (Driver W Fleet).
Local Abbreviation sproc := (proc State exn).
Local Abbreviation fproc := (proc FState exn).

Definition with_clients {C C'} (c : C') (d : Driver W C) : Driver W C' :=
  mkDriver (d_world d) (d_isOpen d) (d_isCloud d) (d_serverDrivers d) (d_database_cache d)
    (d_sessions d) (d_databases d) (waits d) c.

(** What the methods of session object [s] see. *)
Definition focus (s : Session) (f : Fleet) : Clients X :=
  mkClients s (f_transactions f) (f_readings f) (f_timers f) (length (f_owners f)).

(** ... and what they leave: new timers belong to session [i]. *)
Definition unfocus (i : nat) (c : Clients X) (f : Fleet) : Fleet :=
  mkFleet (<[i := session c]> (f_sessions f)) (transactions c) (readings c) (pending_timers c)
    (f_owners f ++ replicate (timers_set c - length (f_owners f)) i) (f_inflight f).

(** A method of session [i]. *)
Definition at_session {A} (i : nat) (m : sproc A) : fproc A := λ d,
  let f := clients d in
  match f_sessions f !! i with
  | Some s => let '(o, d') := m (with_clients (focus s f) d) in
              (o, with_clients (unfocus i (clients d') f) d')
  | None => (Throw (type_error "session"), d)
  end.

(** ** Pulses in two halves *)

(** [pulse] up to its await: what the server answers to the pulse that was
    sent, if one was. *)
Definition pulse_begin : sproc (option (outcome exn bool)) :=
  get_session ≫= λ s,
  if negb (s_isOpen s) then mret None
  else
    lift_outcome (Session_pulseReq (s_id s)) ≫= λ req,
    try_catch
      (stub_of (s_serverDriver s) ≫= λ st,
       settled (call (sessionPulse st req)) ≫= λ o, mret (Some o))
      (λ _, modify_session (set_open false) ≫= λ _, mret None).

(** ... and from the await on. *)
Definition pulse_resume (o : outcome exn bool) : sproc unit :=
  try_catch
    (lift_outcome o ≫= λ isAlive : bool, if negb isAlive then closeResources else schedule_pulse)
    (λ _, modify_session (set_open false)).

(** The halves make up the method. *)
Lemma pulse_halves :
  pulse ≡ pulse_begin ≫= λ sent,
    match sent with Some o => pulse_resume o | None => mret tt end.
Proof.
  intros d. unfold pulse, pulse_begin, get_session. rewrite !proc_bind_eq. cbn [gets].
  destruct (s_isOpen (session (clients d))); cbn [negb]; [|done]. rewrite !proc_bind_eq.
  unfold lift_outcome at 1 2. destruct (Session_pulseReq _) as [req|e|]; [|done..].
  unfold try_catch. rewrite !proc_bind_eq.
  destruct (s_serverDriver (session (clients d))) as [sd|]; [|done].
  cbn -[mbind call closeResources schedule_pulse modify_session sessionPulse pulse_resume].
  rewrite !proc_bind_eq. unfold settled, pulse_resume, try_catch.
  match goal with |- context [call ?m d] => destruct (call m d) as [[b|e|] d'] end; [|done..].
  cbn -[closeResources schedule_pulse modify_session]. done.
Qed.

(** ** Events *)

(** [new TypeDBSessionImpl(...)] *)
Definition add_session (s : Session) (d : FState) : FState :=
  let f := clients d in
  with_clients (mkFleet (f_sessions f ++ [s]) (f_transactions f) (f_readings f) (f_timers f)
    (f_owners f) (f_inflight f)) d.

(** [driver.session(databaseName, type, options)]: the session object is made,
    opened and filed. *)
Definition open_session (databaseName : string) (type_ : SessionTypeProto)
    (options : option TypeDBOptions) : fproc unit := λ d,
  if negb (d_isOpen d) then (Throw (TypeDBDriverError (ArgTemplate DRIVER_NOT_OPEN)), d)
  else
    let i := length (f_sessions (clients d)) in
    at_session i (driver_session clock i)
      (add_session (new_session databaseName type_ (default no_options options)) d).

(** The pulse timer [t] is no longer pending. *)
Definition unset_timer (t : nat) (f : Fleet) : Fleet :=
  mkFleet (f_sessions f) (f_transactions f) (f_readings f)
    (List.filter (λ t', negb (bool_decide (t' = t))) (f_timers f)) (f_owners f) (f_inflight f).

Definition set_inflight (l : list (nat * outcome exn bool)) (f : Fleet) : Fleet :=
  mkFleet (f_sessions f) (f_transactions f) (f_readings f) (f_timers f) (f_owners f) l.

(** A timer that is pending fires: the session that set it sends a pulse. *)
Definition fire_pulse (t : nat) (d : FState) : FState :=
  match f_owners (clients d) !! t with
  | Some i =>
      if bool_decide (t ∈ f_timers (clients d)) then
        let '(o, d') := at_session i pulse_begin (with_clients (unset_timer t (clients d)) d) in
        match o with
        | Ret (Some answer) =>
            with_clients (set_inflight (f_inflight (clients d') ++ [(i, answer)]) (clients d')) d'
        | _ => d'
        end
      else d
  | None => d
  end.

(** The [k]-th of the pulses that await an answer gets it; one that the server
    never answers stays as it is. *)
Definition answer_pulse (k : nat) (d : FState) : FState :=
  match f_inflight (clients d) !! k with
  | Some (i, o) =>
      if is_pending o then d
      else (at_session i (pulse_resume o)
              (with_clients (set_inflight (delete k (f_inflight (clients d))) (clients d)) d)).2
  | None => d
  end.

(** [tx.close()] of a transaction that is still in the set of its session. *)
Definition close_own_transaction (tx : nat) : sproc unit :=
  get_session ≫= λ s,
  if bool_decide (tx ∈ s_transactions s) then close_transaction tx else mret tt.

Inductive fleet_event : Type :=
  | FSession (databaseName : string) (type_ : SessionTypeProto) (options : option TypeDBOptions)
  | FTransaction (i : nat) (type_ : TransactionTypeProto) (options : option TypeDBOptions)
  | FCloseTransaction (i tx : nat)
  | FClose (i : nat)
  | FOnClose (i : nat) (cb : session_callback)
  | FOnReopen (i : nat) (cb : session_callback)
  | FTimer (t : nat)
  | FAnswer (k : nat)
  | FDriverClose.

Definition fleet_step (d : FState) (ev : fleet_event) : FState :=
  match ev with
  | FSession name type_ options => (open_session name type_ options d).2
  | FTransaction i type_ options => (at_session i (transaction clock type_ options) d).2
  | FCloseTransaction i tx => (at_session i (close_own_transaction tx) d).2
  | FClose i => (at_session i session_close_op d).2
  | FOnClose i cb => (at_session i (session_onClose cb) d).2
  | FOnReopen i cb => (at_session i (session_onReopen cb) d).2
  | FTimer t => fire_pulse t d
  | FAnswer k => answer_pulse k d
  | FDriverClose => (driver_close d).2
  end.

(** The session whose method an event runs. *)
Definition acts (d : FState) (ev : fleet_event) : option nat :=
  match ev with
  | FSession _ _ _ => Some (length (f_sessions (clients d)))
  | FTransaction i _ _ | FCloseTransaction i _ | FClose i | FOnClose i _ | FOnReopen i _ => Some i
  | FTimer t => f_owners (clients d) !! t
  | FAnswer k => fst <$> f_inflight (clients d) !! k
  | FDriverClose => None
  end.

(** Between the operations of the sessions the transactions go on by
    themselves, and so does the rest of the driver. *)
Inductive elsewhere (d : FState) : FState → Prop :=
  | elsewhere_transactions x :
      txop_ok x → txop_made x = txop_made (f_transactions (clients d)) →
      elsewhere d (with_clients (mkFleet (f_sessions (clients d)) x (f_readings (clients d))
        (f_timers (clients d)) (f_owners (clients d)) (f_inflight (clients d))) d)
  | elsewhere_driver d' :
      d_sessions d' = d_sessions d → clients d' = clients d → elsewhere d d'.

(** What a driver that was just opened comes to. *)
Inductive reachable (d0 : FState) : FState → Prop :=
  | reach_start : reachable d0 d0
  | reach_step d ev : reachable d0 d → reachable d0 (fleet_step d ev)
  | reach_elsewhere d d' : reachable d0 d → elsewhere d d' → reachable d0 d'.

(** No session was made yet. *)
Definition no_sessions (d : FState) : Prop :=
  d_sessions d = ∅ ∧ f_sessions (clients d) = [] ∧ f_timers (clients d) = [] ∧
  f_owners (clients d) = [] ∧ f_inflight (clients d) = [] ∧ txop_ok (f_transactions (clients d)).

(** ** What a method of one session changes *)

Section one_session.
Context (i : nat) (c0 : Clients X) (f0 : gmap string nat).
Local Abbreviation s0 := (session c0).
Hypothesis timers_known : ∀ t, t ∈ pending_timers c0 → t < timers_set c0.

(** The session may use transaction [tx]: it is in its set, or new. *)
Definition usable (tx : nat) : Prop :=
  tx ∈ s_transactions s0 ∨ txop_made (transactions c0) <= tx.

(** The session, which started at [c0] with the filings [f0], set new timers
    and cleared at most its own pulse; it opened new transactions and touched
    no others than its own; it removed at most the filing under its id, and
    added none. *)
Record within (c : Clients X) (f : gmap string nat) : Prop := mkWithin {
  w_set : timers_set c0 <= timers_set c;
  w_new : ∀ t, t ∈ pending_timers c → t ∈ pending_timers c0 ∨ timers_set c0 <= t < timers_set c;
  w_keep : ∀ t, t ∈ pending_timers c0 → s_pulse s0 ≠ Some t → t ∈ pending_timers c;
  w_pulse : s_pulse (session c) = s_pulse s0 ∨
    ∃ t, s_pulse (session c) = Some t ∧ timers_set c0 <= t < timers_set c;
  w_ok : txop_ok (transactions c);
  w_made : txop_made (transactions c0) <= txop_made (transactions c);
  w_tx : ∀ tx, tx ∈ s_transactions (session c) → tx ∈ s_transactions s0 ∨
    txop_made (transactions c0) <= tx < txop_made (transactions c);
  w_object : ∀ tx, tx < txop_made (transactions c0) → tx ∉ s_transactions s0 →
    txop_object tx (transactions c) = txop_object tx (transactions c0);
  w_filed : ∀ id j, f !! id = Some j → f0 !! id = Some j ∧ (j = i → id = s_id (session c));
  w_unfiled : ∀ id j, f0 !! id = Some j → id ≠ s_id s0 → f !! id = Some j;
}.

(** An assertion that follows from [within] and facts about the id and the
    filings. *)
Definition about (F : string → gmap string nat → Prop) (c : Clients X) (f : gmap string nat) : Prop :=
  within c f ∧ F (s_id (session c)) f.

(** ... and a transaction was opened. *)
Definition opened_new (F : string → gmap string nat → Prop) (tx : nat) (c : Clients X)
    (f : gmap string nat) : Prop :=
  about F c f ∧ txop_made (transactions c0) <= tx < txop_made (transactions c).

Local Abbreviation on P := (on_clients (W := W) P).

Local Abbreviation any := (about (λ _ _, True)).
(** The id is still the one the session had. *)
Local Abbreviation same_id := (about (λ id _, id = s_id s0)).
(** The session is not filed. *)
Local Abbreviation unfiled := (about (λ _ f, ∀ id, f !! id ≠ Some i)).

Section parts.
Context (F : string → gmap string nat → Prop).

Lemma modify_session_about g :
  (∀ s, s_pulse (g s) = s_pulse s) → (∀ s, s_id (g s) = s_id s) →
  (∀ s tx, tx ∈ s_transactions (g s) → tx ∈ s_transactions s) →
  keeps (on (about F)) (modify_session g).
Proof.
  intros Hp Hi Ht. apply keeps_modify. intros d [ [] HF]. split; [|by cbn; rewrite Hi].
  split; cbn; rewrite ?Hp, ?Hi; auto.
Qed.

Lemma getMilliseconds_about : keeps (on (about F)) (getMilliseconds clock).
Proof. intros d [ [] HF]. by split. Qed.

Lemma schedule_pulse_about : keeps (on (about F)) schedule_pulse.
Proof.
  intros d [ [] HF]. split; [|done]. split; cbn; auto; try lia.
  - intros t [H| ->%list_elem_of_singleton]%elem_of_app; [|lia].
    destruct (w_new0 _ H) as [|]; [auto|lia].
  - intros t H1 H2. apply elem_of_app. auto.
  - right. eexists. split; [done|lia].
Qed.

Lemma clear_pulse_about : keeps (on (about F)) clear_pulse.
Proof.
  apply keeps_modify. intros d [ [] HF]. split; [|done]. split; cbn; auto.
  - intros t [Ht _]%list_elem_of_In%List.filter_In. by apply w_new0, list_elem_of_In.
  - intros t H1 H2. apply list_elem_of_In, List.filter_In. split; [by apply list_elem_of_In, w_keep0|].
    rewrite bool_decide_eq_false_2; [done|]. specialize (timers_known _ H1).
    destruct w_pulse0 as [->|(t' & -> & ?)]; [congruence|]. intros [= ->]. lia.
Qed.

Lemma close_transaction_about tx : usable tx → keeps (on (about F)) (close_transaction tx).
Proof.
  intros Hu. unfold close_transaction. apply keeps_bind; cycle 1.
  { intros _. apply modify_session_about; [done|done|]. cbn.
    intros s t [H _]%list_elem_of_In%List.filter_In. by apply list_elem_of_In. }
  intros d [ [] HF]. unfold on_transactions.
  pose proof (txop_close_ok tx _ w_ok0) as Hk.
  pose proof (txop_close_made tx _ w_ok0) as Hm.
  pose proof (λ r', txop_close_others tx r' _ w_ok0) as Ho.
  destruct (txop_close tx _) as [o x]. cbn in *.
  assert (on (about F) (set_clients (mkClients (session (clients d)) x (readings (clients d))
    (pending_timers (clients d)) (timers_set (clients d))) d)) as H; [|by destruct o].
  split; [|done]. split; cbn; rewrite ?Hm; auto.
  intros t H1 H2. rewrite Ho; [by apply w_object0|]. intros ->. destruct Hu; [done|lia].
Qed.

(** Callbacks keep what does not depend on which of them were called. *)
Lemma run_callbacks_keeps (P : Clients X → gmap string nat → Prop) l :
  (∀ n, keeps (on P) (modify_session (record_call n))) → keeps (on P) (run_callbacks l).
Proof.
  intros H. apply keeps_for_each. intros cb _. apply keeps_bind; [apply H|]. intros _.
  apply keeps_lift.
Qed.

Lemma run_callbacks_about l : keeps (on (about F)) (run_callbacks l).
Proof. apply run_callbacks_keeps. intros n. by apply modify_session_about. Qed.

Lemma on_transactions_open st connection id type_ options latency :
  triple (on (about F)) (on_transactions (txop_open st connection id type_ options latency))
    (λ tx, on (opened_new F tx)) (on (about F)).
Proof.
  intros d [ [] HF]. unfold on_transactions.
  pose proof (txop_open_ok st connection id type_ options latency _ w_ok0) as Hk.
  pose proof (txop_open_made st connection id type_ options latency _ w_ok0) as Hm.
  pose proof (λ r, txop_open_new st connection id type_ options latency _ r w_ok0) as Hn.
  pose proof (λ r, txop_open_others st connection id type_ options latency _ r w_ok0) as Ho.
  destruct (txop_open st connection id type_ options latency _) as [o x]. cbn in *.
  assert (on (about F) (set_clients (mkClients (session (clients d)) x (readings (clients d))
    (pending_timers (clients d)) (timers_set (clients d))) d)) as H.
  { split; [|done]. split; cbn; auto; [lia| |].
    - intros tx [|]%w_tx0; [auto|lia].
    - intros tx H1 H2. rewrite Ho by lia. by apply w_object0. }
  destruct o as [r|e|]; [|done..]. split; [done|]. cbn. specialize (Hn r eq_refl). lia.
Qed.

Lemma open_transaction_about type_ options :
  triple (on (about F)) (open_transaction type_ options) (λ tx, on (opened_new F tx)) (on (about F)).
Proof.
  unfold open_transaction. apply (triple_bind _ _ _ (λ _, on (about F))); [apply keeps_gets|].
  intros s. apply (triple_bind _ _ _ (λ _, on (about F))); [apply stub_of_keeps|].
  intros st. apply (triple_bind _ _ _ (λ _, on (about F))); [apply settled_keeps, call_keeps|].
  intros connection. apply on_transactions_open.
Qed.

(** A transaction that was opened joins the set. *)
Lemma add_transaction_about tx :
  triple (on (opened_new F tx)) (add_transaction tx) (λ _, on (about F)) (on (about F)).
Proof.
  apply triple_modify. intros d [ [ [] HF] Htx]. split; [|done]. split; cbn; auto.
  intros t. case_bool_decide; [apply w_tx0|].
  intros [H1| ->%list_elem_of_singleton]%elem_of_app; [by apply w_tx0|]. by right.
Qed.

(** The transactions that a session closes are its own. *)
Lemma close_transactions_about d :
  on (about F) d → keeps (on (about F)) (for_each close_transaction (s_transactions (session (clients d)))).
Proof.
  intros [ [] _]. apply keeps_for_each. intros tx Htx. apply close_transaction_about.
  unfold usable. destruct (w_tx0 _ Htx); [auto|right; lia].
Qed.
End parts.
Hint Resolve schedule_pulse_about getMilliseconds_about run_callbacks_about : hoare.

(** Opening gives the session a new id: it must not be filed yet. *)
Lemma openAt_unfiled sd : keeps (on unfiled) (openAt clock sd).
Proof.
  unfold openAt, get_session. keeping. apply keeps_modify. intros d [ [] HF]. split; [|done].
  split; cbn; auto. intros id j Hj. split; [by apply w_filed0|]. intros ->. by destruct (HF id).
Qed.
Hint Resolve openAt_unfiled : hoare.

Lemma reopenAt_unfiled sd : keeps (on unfiled) (reopenAt clock sd).
Proof. unfold reopenAt, get_session. keeping. Qed.

(** Weakening what is known, along an assertion about the id and the filings. *)
Lemma about_weaken (F F' : string → gmap string nat → Prop) (d : State) :
  (∀ id f, F id f → F' id f) → on (about F) d → on (about F') d.
Proof. intros H [Hw HF]. split; [done|by apply H]. Qed.

Local Ltac weaken :=
  intros;
  match goal with H : _ |- on_clients (about _) ?d =>
    refine (about_weaken _ _ d _ H); intros; destruct_and?; done end.

Local Abbreviation closed_with_id :=
  (about (λ id f, id = s_id s0 ∧ ∀ id', f !! id' ≠ Some i)).

Lemma closeSession_within :
  triple (on same_id) (modify (λ d, closeSession (s_id (session (clients d))) d) : sproc unit)
    (λ _, on closed_with_id) (on same_id).
Proof.
  apply triple_modify. intros d [ [] HF]. cbn in *. split; cbn.
  - split; cbn; auto.
    + intros id j [Hne Hj]%lookup_delete_Some. by apply w_filed0.
    + intros id j Hj Hne. rewrite lookup_delete_ne by congruence. by apply w_unfiled0.
  - split; [done|]. intros id [Hne Hj]%lookup_delete_Some. apply Hne. symmetry.
    by apply (w_filed0 id i).
Qed.

Lemma closeResources_within :
  triple (on same_id) closeResources (λ _, on closed_with_id) (on same_id).
Proof using timers_known.
  unfold closeResources. apply (triple_bind _ _ _ (λ _, on same_id));
    [by apply modify_session_about|]. intros _.
  apply triple_gets_bind. intros d Hd.
  apply (triple_conseq _ _ (on same_id) _ (λ _, on closed_with_id) _ (on same_id));
    [|by intros ? ->|done..].
  apply (triple_bind _ _ _ (λ _, on same_id)); [by apply close_transactions_about|]. intros _.
  apply (triple_bind _ _ _ (λ _, on same_id)); [apply run_callbacks_about|]. intros _.
  apply (triple_bind _ _ _ (λ _, on closed_with_id)); [apply closeSession_within|]. intros _.
  apply (triple_conseq _ _ (on closed_with_id) _ (λ _, on closed_with_id) _ (on closed_with_id));
    [apply clear_pulse_about|done..|]. weaken.
Qed.

Lemma session_close_op_within :
  triple (λ d, on same_id d ∧ s_isOpen (session (clients d)) = true) session_close_op
    (λ _, on closed_with_id) (on same_id).
Proof using timers_known.
  unfold session_close_op. apply triple_gets_bind. intros d [Hd ->].
  apply (triple_conseq _ _ (on same_id) _ (λ _, on closed_with_id) _ (on same_id));
    [|by intros ? ->|done..].
  apply (triple_bind _ _ _ (λ _, on closed_with_id)); [apply closeResources_within|]. intros _.
  eapply triple_conseq with (P' := on closed_with_id) (Q' := λ _, on closed_with_id)
    (R' := on closed_with_id); [|done|done|weaken].
  change (keeps (on closed_with_id) (get_session ≫= λ s : Session,
    lift_outcome (Session_closeReq (s_id s)) ≫= λ req,
    stub_of (s_serverDriver s) ≫= λ st, call (sessionClose st req))).
  unfold get_session. keeping.
Qed.

Lemma session_close_op_about : keeps (on same_id) session_close_op.
Proof using timers_known.
  intros d Hd. destruct (s_isOpen (session (clients d))) eqn:Ho.
  - pose proof (session_close_op_within d (conj Hd Ho)) as H.
    destruct (session_close_op d) as [[a|e|] d']; [|done..]. weaken.
  - unfold session_close_op, get_session. rewrite proc_bind_eq. cbn. by rewrite Ho.
Qed.

(** Opening a transaction leaves it open whether the session is. *)
Lemma open_transaction_open type_ options b :
  keeps (on (λ c _, s_isOpen (session c) = b)) (open_transaction type_ options).
Proof.
  unfold open_transaction, get_session. keeping. intros d Hd. unfold on_transactions.
  by destruct (txop_open _ _ _ _ _ _ _) as [[] x].
Qed.

Lemma transaction_within type_ options :
  triple (on same_id) (transaction clock type_ options) (λ _, on any) (on any).
Proof using timers_known.
  unfold transaction. apply triple_gets_bind. intros d Hd.
  destruct (s_isOpen (session (clients d))) eqn:Ho; cbn [negb]; cycle 1.
  { apply triple_throw. intros ? ->. weaken. }
  set (known := λ d : State, on same_id d ∧ on (λ c _, s_isOpen (session c) = true) d).
  apply (triple_conseq _ _ known _ (λ _, on any) _ (on any)); [|by intros ? ->|done..].
  apply (triple_bind _ _ _ (λ tx, on (opened_new (λ _ _, True) tx))); cycle 1.
  { intros tx. apply (triple_bind _ _ _ (λ _, on any)); [apply add_transaction_about|].
    intros _. by apply triple_ret. }
  assert (∀ F tx (d : State), on (opened_new F tx) d → on (opened_new (λ _ _, True) tx) d) as Hany
    by (intros F tx d' [ [Hw _] Ht]; by split).
  apply (triple_try_catch _ _ _ _ known).
  - eapply triple_conseq; [apply triple_and; [apply open_transaction_about|
      apply (open_transaction_open _ _ true)]|done| |done].
    intros tx d' [H _]. by eapply Hany.
  - intros _. apply (triple_bind _ _ _ (λ _, on unfiled)).
    + eapply triple_conseq; [apply session_close_op_within|done|..]; weaken.
    + intros _. apply (triple_bind _ _ _ (λ _, on unfiled)).
      { eapply triple_conseq; [apply keeps_gets|done..|]. weaken. }
      intros s. eapply triple_conseq with (P' := on unfiled) (R' := on unfiled)
        (Q' := λ tx, on (opened_new (λ _ f, ∀ id, f !! id ≠ Some i) tx)); [|done|by apply Hany|
        weaken].
      unfold database_runFailsafe. destruct (s_database s); [|by apply triple_throw].
      apply runFailsafe_triple. intros sd _.
      apply (triple_bind _ _ _ (λ _, on unfiled)); [apply reopenAt_unfiled|]. intros _.
      apply open_transaction_about.
  - intros d' [H _]. weaken.
Qed.

Lemma pulse_begin_within : keeps (on same_id) pulse_begin.
Proof using Type.
  unfold pulse_begin, get_session. keeping. by apply modify_session_about.
Qed.

Lemma pulse_resume_within o : keeps (on same_id) (pulse_resume o).
Proof using timers_known.
  unfold pulse_resume. keeping; [|by apply modify_session_about].
  apply (triple_conseq _ _ (on same_id) _ (λ _, on closed_with_id) _ (on same_id));
    [apply closeResources_within|done|weaken|done].
Qed.

Lemma close_own_transaction_within tx : keeps (on same_id) (close_own_transaction tx).
Proof using Type.
  unfold close_own_transaction. apply triple_gets_bind. intros d Hd.
  apply (triple_conseq _ _ (on same_id) _ (λ _, on same_id) _ (on same_id));
    [|by intros ? ->|done..].
  change (keeps (on same_id) (if bool_decide (tx ∈ s_transactions (session (clients d)))
    then close_transaction tx else mret tt)).
  case_bool_decide as Htx; [|apply keeps_ret]. apply close_transaction_about.
  destruct Hd as [ [] _]. unfold usable. destruct (w_tx0 _ Htx); [auto|right; lia].
Qed.

Lemma session_open_op_unfiled : keeps (on unfiled) (session_open_op clock).
Proof.
  unfold session_open_op, get_session. keeping.
  by apply modify_session_about.
Qed.

(** The session was filed, under its id, which was not taken. *)
Definition filed (c : Clients X) (f : gmap string nat) : Prop :=
  ∃ f', unfiled c f' ∧ f' !! s_id (session c) = None ∧ f = <[s_id (session c) := i]> f'.

Lemma driver_session_within :
  triple (on unfiled) (driver_session clock i) (λ _, on filed) (on unfiled).
Proof.
  unfold driver_session.
  apply (triple_bind _ _ _ (λ _, on unfiled)); [apply require_open_keeps|]. intros _.
  apply (triple_bind _ _ _ (λ _, on unfiled)); [apply session_open_op_unfiled|]. intros _.
  apply triple_gets_bind. intros d Hd. apply triple_gets_bind. intros ? ->.
  destruct (d_sessions d !! s_id (session (clients d))) eqn:Hid.
  - apply triple_throw. by intros ? ->.
  - apply triple_modify. intros ? ->. by exists (d_sessions d).
Qed.

Lemma within_start : txop_ok (transactions c0) → (∀ id, f0 !! id = Some i → id = s_id s0) → same_id c0 f0.
Proof.
  intros Hk H. split; [|done]. split; auto. intros id j Hj. split; [done|]. intros ->. by apply H.
Qed.
End one_session.

(** Everything a method of session [i] may do: stay within its means, and file
    the session under its id. *)
Definition changed (i : nat) (c0 : Clients X) (f0 : gmap string nat) (c : Clients X)
    (f : gmap string nat) : Prop :=
  ∃ f', within i c0 f0 c f' ∧ f' ⊆ f ∧
    ∀ id j, f !! id = Some j → f' !! id = Some j ∨ j = i ∧ id = s_id (session c).

Lemma within_changed i c0 f0 c f : within i c0 f0 c f → changed i c0 f0 c f.
Proof. intros H. exists f. by split_and!; [| |left]. Qed.

Lemma filed_changed i c0 f0 c f : filed i c0 f0 c f → changed i c0 f0 c f.
Proof.
  intros (f' & [Hw _] & Hn & ->). exists f'. split_and!; [done|by apply insert_subseteq|].
  intros id j [[<- <-]|[? ?]]%lookup_insert_Some; auto.
Qed.

(** ** Keeping a session alive *)

(** A session that is open can name itself in the requests of the pulse. *)
Definition nameable (s : Session) : Prop :=
  s_isOpen s = true → ∃ bytes, hexStringToBytes (s_id s) = Ret bytes.

(** ... and its pulse awaits an answer or is scheduled. *)
Definition alive (waiting : Prop) (s : Session) (timers : list nat) : Prop :=
  nameable s ∧ (s_isOpen s = true → waiting ∨ ∃ t, s_pulse s = Some t ∧ t ∈ timers).

Section awake.
Context (waiting : Prop).

Local Abbreviation awake :=
  (on_clients (W := W) (λ (c : Clients X) _, alive waiting (session c) (pending_timers c))).
Local Abbreviation shut := (on_clients (W := W) (λ (c : Clients X) _, s_isOpen (session c) = false)).

Lemma shut_awake (d : State) : shut d → awake d.
Proof. unfold on_clients, alive, nameable. by intros ->. Qed.

Lemma modify_session_awake g :
  (∀ s, s_isOpen (g s) = s_isOpen s) → (∀ s, s_pulse (g s) = s_pulse s) →
  (∀ s, s_id (g s) = s_id s) → keeps awake (modify_session g).
Proof.
  intros H1 H2 H3. apply keeps_modify. intros d. unfold on_clients, alive, nameable. cbn.
  by rewrite H1, H2, H3.
Qed.

Lemma on_transactions_keeps {A} (P : Session → list nat → Prop) (m : proc X exn A) :
  keeps (on_clients (W := W) (λ (c : Clients X) _, P (session c) (pending_timers c)))
    (on_transactions m).
Proof. intros d Hd. unfold on_transactions. by destruct (m _) as [[] x]. Qed.

Lemma openAt_awake sd : keeps awake (openAt clock sd).
Proof.
  unfold openAt, get_session.
  apply keeps_bind; [apply keeps_gets|]. intros s. apply keeps_bind; [by intros d Hd|]. intros start.
  apply keeps_bind; [apply stub_of_keeps|]. intros st.
  apply keeps_bind; [apply call_keeps|]. intros res.
  apply keeps_bind; [by intros d Hd|]. intros end_ d Hd. rewrite proc_bind_eq. cbn.
  split; intros _; cbn.
  - exists (session_id res). apply hexStringToBytes_print.
  - right. eexists. split; [done|]. apply elem_of_app. right. by left.
Qed.

(** Closing marks the session closed before anything else. *)
Lemma closeResources_shut (P : State → Prop) : triple P closeResources (λ _, shut) shut.
Proof.
  unfold closeResources. apply (triple_bind _ _ _ (λ _, shut)); [by apply triple_modify|].
  intros _. change (keeps shut (get_session ≫= λ s : Session,
    for_each close_transaction (s_transactions s) ≫= λ _, run_callbacks (s_onClose s) ≫= λ _,
    modify (λ d, closeSession (s_id (session (clients d))) d) ≫= λ _, clear_pulse)).
  unfold get_session. keeping.
  - apply keeps_for_each. intros tx _. unfold close_transaction. keeping.
    + apply (on_transactions_keeps (λ s _, s_isOpen s = false)).
    + by apply keeps_modify.
  - apply run_callbacks_keeps. intros n. by apply keeps_modify.
  - by apply keeps_modify.
Qed.

Lemma session_close_op_shut (P : State → Prop) : triple P session_close_op (λ _, shut) shut.
Proof.
  unfold session_close_op. apply triple_gets_bind. intros d Hd.
  destruct (s_isOpen (session (clients d))) eqn:Ho; [|by apply triple_ret; intros ? ->].
  apply (triple_bind _ _ _ (λ _, shut)); [apply closeResources_shut|]. intros _.
  change (keeps shut (get_session ≫= λ s : Session,
    lift_outcome (Session_closeReq (s_id s)) ≫= λ req,
    stub_of (s_serverDriver s) ≫= λ st, call (sessionClose st req))).
  unfold get_session. keeping.
Qed.

Lemma open_transaction_awake type_ options : keeps awake (open_transaction type_ options).
Proof. unfold open_transaction, get_session. keeping. apply (on_transactions_keeps (alive waiting)). Qed.

Lemma run_callbacks_awake l : keeps awake (run_callbacks l).
Proof. apply run_callbacks_keeps. intros n. by apply modify_session_awake. Qed.

Lemma transaction_awake type_ options : keeps awake (transaction clock type_ options).
Proof.
  unfold transaction, get_session, database_runFailsafe, reopenAt, get_session. keeping;
    auto using open_transaction_awake, openAt_awake, run_callbacks_awake.
  - eapply triple_conseq; [apply (session_close_op_shut awake)|done|..]; intros; by apply shut_awake.
  - apply runFailsafe_keeps. keeping; auto using open_transaction_awake, openAt_awake, run_callbacks_awake.
  - unfold add_transaction. by apply modify_session_awake.
Qed.

(** Opening a session takes no filing away. *)
Lemma driver_session_files ref f0 :
  triple (on_clients (W := W) (λ (_ : Clients X) f, f = f0)) (driver_session clock ref)
    (λ _, on_clients (λ _ f, f0 ⊆ f)) (on_clients (λ _ f, f0 ⊆ f)).
Proof.
  set (P := λ (_ : Clients X) f, f = f0).
  assert (∀ d, on_clients (W := W) P d → on_clients (λ _ f, f0 ⊆ f) d) as HP
    by (intros d Hd; unfold P, on_clients in *; by subst).
  assert (keeps (on_clients P) (session_open_op clock)) as Hopen.
  { assert (∀ sd, keeps (on_clients P) (openAt clock sd)) as Hat
      by (intros sd; unfold openAt, get_session; keeping; by intros d Hd).
    unfold session_open_op, get_session. keeping; by intros d Hd. }
  unfold driver_session.
  apply (triple_bind _ _ _ (λ _, on_clients P)); [by eapply triple_conseq; [apply require_open_keeps| | |exact HP]|]. intros _.
  apply (triple_bind _ _ _ (λ _, on_clients P)); [by eapply triple_conseq; [apply Hopen| | |exact HP]|]. intros _.
  apply triple_gets_bind. intros d Hd. apply triple_gets_bind. intros ? ->.
  destruct (d_sessions d !! s_id (session (clients d))) eqn:Hid.
  - apply triple_throw. intros ? ->. by apply HP.
  - apply triple_modify. intros ? ->. unfold P, on_clients in Hd. subst f0.
    by apply insert_subseteq.
Qed.

Lemma driver_session_awake ref : keeps awake (driver_session clock ref).
Proof.
  unfold driver_session, session_open_op, get_session. keeping; auto using openAt_awake.
  - by apply modify_session_awake.
  - apply runFailsafe_keeps. auto using openAt_awake.
Qed.

(** An answer schedules the next pulse or marks the session closed. *)
Lemma pulse_resume_awake o (d : State) :
  o ≠ Pending → nameable (session (clients d)) → awake (pulse_resume o d).2.
Proof.
  intros Ho Hn.
  assert (∀ d : State, awake (modify_session (set_open false) d).2) as Hshut
    by (intros d'; by apply shut_awake).
  unfold pulse_resume, try_catch, lift_outcome. rewrite proc_bind_eq.
  destruct o as [[]|e|]; cbn [negb]; [| |apply Hshut|done].
  - cbn. split; [exact Hn|]. intros _. right. eexists. split; [done|].
    apply elem_of_app. right. by left.
  - pose proof (closeResources_shut (λ _, True) d Logic.I) as Hc.
    destruct (closeResources d) as [[a|e|] d']; [by apply shut_awake|apply Hshut|by apply shut_awake].
Qed.
End awake.

(** A session that can name itself sends a pulse when it is open. *)
Lemma pulse_begin_sends (d : State) :
  nameable (session (clients d)) →
  match pulse_begin d with
  | (Ret (Some _), d') => nameable (session (clients d'))
  | (Ret None, d') => s_isOpen (session (clients d')) = false
  | _ => False
  end.
Proof.
  intros Hn. unfold pulse_begin, get_session. rewrite proc_bind_eq. cbn [gets].
  destruct (s_isOpen (session (clients d))) eqn:Ho; cbn [negb]; [|done].
  destruct (Hn Ho) as [bytes Hid]. unfold Session_pulseReq, lift_outcome. rewrite Hid.
  rewrite proc_bind_eq. cbn [outcome_bind]. unfold try_catch. rewrite proc_bind_eq.
  destruct (s_serverDriver (session (clients d))) as [sd|]; [|done]. cbn -[mbind call sessionPulse].
  rewrite proc_bind_eq. unfold settled.
  pose proof (λ m, call_clients (A := bool) m d) as Hc.
  match goal with |- context [call ?m d] => specialize (Hc m); destruct (call m d) as [o d'] end.
  cbn in *. by rewrite Hc.
Qed.
End fleet.

Arguments Fleet : clear implicits.

(** ** Transactions over streams are such objects *)

Section implementation.
Context {U : Uuid} {R P : Type} (show_state : TransactionStreamState → string).
Context (answers : list (stream_event R P)).

Lemma heap_open_grows connection id type_ options latency (h : list (TypeDBTransactionImpl R P)) :
  ∃ tx, (heap_open show_state answers connection id type_ options latency h).2 = h ++ [tx] ∧
    ∀ r, (heap_open show_state answers connection id type_ options latency h).1 = Ret r →
      r = length h.
Proof.
  unfold heap_open. set (run := tx_open _ _ _ _ _ ≫= _).
  destruct (run _) as [[a|e|] tx]; eexists; split; try done.
  by intros r [= <-].
Qed.

#[export] Instance heap_transaction_objects :
  TransactionObjects (T := heap_transactions show_state answers) _.
Proof.
  refine {| tx_object := TypeDBTransactionImpl R P; txop_ok _ := True; txop_made h := length h;
            txop_object r h := h !! r |}; [done|..| |].
  - intros st connection id type_ options latency h _. cbn.
    destruct (heap_open_grows connection id type_ options latency h) as (tx & -> & _). rewrite length_app. lia.
  - intros st connection id type_ options latency h r _ Hr. cbn in *.
    destruct (heap_open_grows connection id type_ options latency h) as (tx & -> & H). rewrite length_app.
    rewrite (H r Hr). cbn. lia.
  - intros st connection id type_ options latency h r _ Hr. cbn.
    destruct (heap_open_grows connection id type_ options latency h) as (tx & -> & _). by apply lookup_app_l.
  - done.
  - intros r h _. cbn. unfold at_tx. destruct (h !! r) as [tx|]; [|done].
    destruct (tx_close tx) as [o tx']. apply length_insert.
  - intros r r' h _ Hne. cbn. unfold at_tx. destruct (h !! r) as [tx|]; [|done].
    destruct (tx_close tx) as [o tx']. by apply list_lookup_insert_ne.
Defined.
End implementation.
