(* ===== verification/FleetSafety.v ===== *)
(** * Sessions together

    The invariant of the sessions of a driver, kept by every operation, timer
    and answer, and what follows from it: open sessions are kept alive, sessions
    do not disturb each other, and closed ones come to rest. *)
From S2P Require Import Prelude Errors Bytes Proto RequestBuilder BlockingQueue Dispatcher Collector BiStream BiStreamSpec Options Transaction Stub Database Managers DriverImpl Session Settling Hoare Fleet.
Local Open Scope string_scope.
Local Open Scope list_scope.

Section fleet.
Context {W X : Type} {G : GRPCStub W} {T : TransactionOps X} {TO : TransactionObjects X}.
Context (clock : nat → Z).
Local Abbreviation State := (Driver W (Clients X)).
Local Abbreviation FState := (Driver W (Fleet X)).
Local Abbreviation sproc := (proc State exn).
Local Abbreviation fleet_step := (fleet_step clock).
Local Abbreviation reachable := (reachable clock).

(** ** The invariant *)

Implicit Types d : FState.

(** Pending timers were set, the pulse of a session is one that it set, open
    sessions are kept alive (except [but], whose pulse is under way), sessions
    are filed under their ids, and no transaction is in two sessions. *)
Record fleet_ok (but : option nat) d : Prop := mkFleetOk {
  ok_timers : ∀ t, t ∈ f_timers (clients d) → t < length (f_owners (clients d));
  ok_pulse : ∀ i s t, f_sessions (clients d) !! i = Some s → s_pulse s = Some t →
    f_owners (clients d) !! t = Some i;
  ok_nameable : ∀ i s, f_sessions (clients d) !! i = Some s → nameable s;
  ok_alive : ∀ i s, f_sessions (clients d) !! i = Some s → but ≠ Some i →
    alive (i ∈ (f_inflight (clients d)).*1) s (f_timers (clients d));
  ok_filed : ∀ id i, d_sessions d !! id = Some i →
    ∃ s, f_sessions (clients d) !! i = Some s ∧ s_id s = id;
  ok_transactions : txop_ok (f_transactions (clients d));
  ok_tx : ∀ i s tx, f_sessions (clients d) !! i = Some s → tx ∈ s_transactions s →
    tx < txop_made (f_transactions (clients d));
  ok_disjoint : ∀ i j s s' tx, f_sessions (clients d) !! i = Some s →
    f_sessions (clients d) !! j = Some s' → tx ∈ s_transactions s → tx ∈ s_transactions s' → i = j;
}.

Lemma owners_unfocus i (c : Clients X) (f : Fleet X) t :
  length (f_owners f) <= t < timers_set c → f_owners (unfocus i c f) !! t = Some i.
Proof. intros Ht. cbn. rewrite lookup_app_r by lia. apply lookup_replicate. split; [done|lia]. Qed.

Lemma owners_unfocus_old i (c : Clients X) (f : Fleet X) t j :
  f_owners f !! t = Some j → f_owners (unfocus i c f) !! t = Some j.
Proof. intros Ht. cbn. by rewrite lookup_app_l by by eapply lookup_lt_Some. Qed.

(** The id that session [i] had, if it was open once. *)
Definition id_of (i : nat) (f : Fleet X) : option string := s_id <$> f_sessions f !! i.

(** The sessions other than [i] are where they were, with what they use: their
    pulses stay scheduled or awaiting their answers, and their transactions are as they were; they are
    filed as they were, unless session [i] had the same id. *)
Definition undisturbed (i : nat) d d' : Prop :=
  ∀ j s, j ≠ i → f_sessions (clients d) !! j = Some s →
    f_sessions (clients d') !! j = Some s ∧
    (∀ t, s_pulse s = Some t → t ∈ f_timers (clients d) → t ∈ f_timers (clients d')) ∧
    (∀ o, (j, o) ∈ f_inflight (clients d) → (j, o) ∈ f_inflight (clients d')) ∧
    (∀ tx, tx ∈ s_transactions s → txop_object tx (f_transactions (clients d')) =
       txop_object tx (f_transactions (clients d))) ∧
    (∀ id, d_sessions d' !! id = Some j → d_sessions d !! id = Some j) ∧
    (∀ id, d_sessions d !! id = Some j → id_of i (clients d) ≠ Some id →
       d_sessions d' !! id = Some j).

Section step.
Context {A : Type} (but : option nat) (i : nat) (s : Session) (m : sproc A) (d : FState).
Hypothesis Hok : fleet_ok but d.
Hypothesis Hbut : but = None ∨ but = Some i.
Hypothesis Hs : f_sessions (clients d) !! i = Some s.
Local Abbreviation d1 := (m (with_clients (focus s (clients d)) d)).2.
Hypothesis Hch : changed i (focus s (clients d)) (d_sessions d) (clients d1) (d_sessions d1).
Hypothesis Hname : nameable (session (clients d1)).

Lemma at_session_run : (at_session i m d).2 = with_clients (unfocus i (clients d1) (clients d)) d1.
Proof using Hs. clear Hch Hname. unfold at_session. rewrite Hs. by destruct (m _). Qed.

(** A session afterwards is the one that acted, or one from before. *)
Lemma sessions_after j s' :
  f_sessions (unfocus i (clients d1) (clients d)) !! j = Some s' →
  j = i ∧ s' = session (clients d1) ∨ j ≠ i ∧ f_sessions (clients d) !! j = Some s'.
Proof using Hs. intros [(<- & <- & _)|[? ?]]%list_lookup_insert_Some; auto. Qed.

Lemma at_session_ok : fleet_ok (Some i) (at_session i m d).2.
Proof using Hok Hbut Hs Hch Hname.
  rewrite at_session_run. destruct Hok, Hch as (f' & [] & Hsub & Hextra). cbn in *.
  split; cbn [clients with_clients d_sessions].
  - intros t Ht. cbn in Ht |- *. rewrite length_app, length_replicate.
    destruct (w_new _ Ht) as [H|H]; [specialize (ok_timers0 _ H)|]; lia.
  - intros j s' t [[-> ->]|[Hne Hj]]%sessions_after Ht.
    + destruct w_pulse as [E|(t' & E & Hr)]; rewrite E in Ht.
      * eapply owners_unfocus_old, ok_pulse0; eauto.
      * injection Ht as ->. by apply owners_unfocus.
    + eapply owners_unfocus_old, ok_pulse0; eauto.
  - intros j s' [[-> ->]|[Hne Hj]]%sessions_after; [done|by eapply ok_nameable0].
  - intros j s' [[-> ->]|[Hne Hj]]%sessions_after Hne'; [done|]. split; [by eapply ok_nameable0|].
    intros Ho. destruct (ok_alive0 j s' Hj) as [_ [H|(t & Ht & Hin)]];
      [destruct Hbut; congruence|done|by left|right].
    exists t. split; [done|]. apply w_keep; [done|]. intros E.
    pose proof (ok_pulse0 _ _ _ Hs E) as H1. rewrite (ok_pulse0 _ _ _ Hj Ht) in H1. congruence.
  - intros id j Hid. cbn in Hid |- *.
    assert (j = i → id = s_id (session (clients d1))) as Hown.
    { intros ->. destruct (Hextra _ _ Hid) as [H|[_ H]]; [by apply (w_filed _ _ H)|done]. }
    destruct (decide (j = i)) as [->|Hne].
    + eexists. rewrite list_lookup_insert_eq by by eapply lookup_lt_Some. split; [done|].
      symmetry. by apply Hown.
    + rewrite list_lookup_insert_ne by done. destruct (Hextra _ _ Hid) as [H|[H _]]; [|done].
      apply ok_filed0. by apply (w_filed _ _ H).
  - done.
  - intros j s' tx [[-> ->]|[Hne Hj]]%sessions_after Htx.
    + destruct (w_tx _ Htx) as [H|H]; [|cbn; lia]. specialize (ok_tx0 _ _ _ Hs H). cbn. lia.
    + specialize (ok_tx0 _ _ _ Hj Htx). cbn. lia.
  - assert (∀ j s' tx, j ≠ i → f_sessions (clients d) !! j = Some s' → tx ∈ s_transactions s' →
      tx ∉ s_transactions (session (clients d1))) as Hdis.
    { intros j s' tx Hne Hj Htx Hin. destruct (w_tx _ Hin) as [H|H].
      - by destruct Hne; eapply ok_disjoint0.
      - specialize (ok_tx0 _ _ _ Hj Htx). lia. }
    intros j k s1 s2 tx [[-> ->]|[Hj H1]]%sessions_after [[-> ->]|[Hk H2]]%sessions_after T1 T2.
    + done.
    + by destruct (Hdis _ _ _ Hk H2 T2).
    + by destruct (Hdis _ _ _ Hj H1 T1).
    + by eapply ok_disjoint0.
Qed.

Lemma at_session_undisturbed : undisturbed i d (at_session i m d).2.
Proof using Hok Hs Hch.
  rewrite at_session_run. destruct Hok, Hch as (f' & [] & Hsub & Hextra).
  intros j s' Hne Hj. cbn in *. split_and!.
  - by rewrite list_lookup_insert_ne.
  - intros t Ht Hin. apply w_keep; [done|]. intros E.
    pose proof (ok_pulse0 _ _ _ Hs E) as H1. rewrite (ok_pulse0 _ _ _ Hj Ht) in H1. congruence.
  - done.
  - intros tx Htx. apply w_object; [by eapply ok_tx0|]. intros Hin.
    by destruct Hne; eapply ok_disjoint0.
  - intros id Hid. destruct (Hextra _ _ Hid) as [H|[H _]]; [|done]. by apply w_filed.
  - intros id Hid Hne'. eapply lookup_weaken; [|exact Hsub]. apply w_unfiled; [done|].
    intros ->. apply Hne'. unfold id_of. by rewrite Hs.
Qed.
End step.

(** The session that acted is well when it is alive. *)
Lemma ok_awake i d :
  fleet_ok (Some i) d →
  (∀ s, f_sessions (clients d) !! i = Some s →
     alive (i ∈ (f_inflight (clients d)).*1) s (f_timers (clients d))) →
  fleet_ok None d.
Proof.
  intros [] Hi. split; try done. intros j s Hj _.
  destruct (decide (j = i)) as [->|Hne]; [by apply Hi|]. apply ok_alive0; [done|congruence].
Qed.

(** *** The events *)

Lemma undisturbed_refl i d : undisturbed i d d.
Proof. by intros j s Hne Hj. Qed.

Lemma triple_state {S E A} (P Q : S → Prop) (m : proc S E A) s :
  triple P m (λ _, Q) Q → P s → Q (m s).2.
Proof. intros H Hs. specialize (H s Hs). by destruct (m s) as [[a|e|] s']. Qed.

(** The view of a session of a fleet that is well is where its methods start. *)
Lemma focus_known but d s t :
  fleet_ok but d → t ∈ pending_timers (focus s (clients d)) → t < timers_set (focus s (clients d)).
Proof. intros Hok. apply (ok_timers _ _ Hok). Qed.

Lemma focus_same_id but i s d :
  fleet_ok but d → f_sessions (clients d) !! i = Some s →
  on_clients (about i (focus s (clients d)) (d_sessions d) (λ id _, id = s_id s))
    (with_clients (focus s (clients d)) d).
Proof.
  intros Hok Hs. apply within_start; [apply (ok_transactions _ _ Hok)|]. intros id Hid.
  destruct (ok_filed _ _ Hok _ _ Hid) as (s' & Hs' & <-). cbn. congruence.
Qed.

(** What an event must come to. *)
Definition fine (i : nat) d d' : Prop := fleet_ok None d' ∧ undisturbed i d d'.

(** A method that, as session [i], stays within its means. *)
Definition modest {A} (i : nat) (m : sproc A) : Prop :=
  ∀ c0 f0, (∀ t, t ∈ pending_timers c0 → t < timers_set c0) →
    triple (on_clients (about i c0 f0 (λ id _, id = s_id (session c0)))) m
      (λ _, on_clients (about i c0 f0 (λ _ _, True))) (on_clients (about i c0 f0 (λ _ _, True))).

Section method.
Context {A : Type} (but : option nat) (i : nat) (m : sproc A) (d : FState) (s : Session).
Hypothesis Hok : fleet_ok but d.
Hypothesis Hbut : but = None ∨ but = Some i.
Hypothesis Hs : f_sessions (clients d) !! i = Some s.
Local Abbreviation d1 := (m (with_clients (focus s (clients d)) d)).2.
Hypothesis Hm : modest i m.

Lemma method_changed :
  changed i (focus s (clients d)) (d_sessions d) (clients d1) (d_sessions d1).
Proof using Hok Hs Hm.
  apply within_changed. by apply (triple_state _ _ _ _ (Hm _ _ (λ t, focus_known but d s t Hok))
    (focus_same_id _ _ _ _ Hok Hs)).
Qed.

Lemma method_undisturbed : undisturbed i d (at_session i m d).2.
Proof using Hok Hs Hm. apply (at_session_undisturbed but i s); [done|done|apply method_changed]. Qed.

Lemma method_named : nameable (session (clients d1)) → fleet_ok (Some i) (at_session i m d).2.
Proof using Hok Hbut Hs Hm. intros Hn. by apply (at_session_ok but i s); [..|apply method_changed|]. Qed.

Lemma method_awake :
  alive (i ∈ (f_inflight (clients d)).*1) (session (clients d1)) (pending_timers (clients d1)) →
  fleet_ok None (at_session i m d).2.
Proof using Hok Hbut Hs Hm.
  intros Ha. apply (ok_awake i); [apply method_named, Ha|]. rewrite (at_session_run i s) by done.
  cbn. rewrite list_lookup_insert_eq by by eapply lookup_lt_Some. by intros s' [= <-].
Qed.
End method.

Lemma keeps_modest {A} i (m : sproc A) :
  (∀ c0 f0, (∀ t, t ∈ pending_timers c0 → t < timers_set c0) →
     keeps (on_clients (about i c0 f0 (λ id _, id = s_id (session c0)))) m) → modest i m.
Proof.
  intros H c0 f0 Ht. eapply triple_conseq; [apply (H c0 f0 Ht)|done|..]; cbv beta; intros;
    by eapply about_weaken; [|eassumption].
Qed.

(** A method of an existing session, or of none. *)
Lemma method_fine {A} i (m : sproc A) d :
  modest i m →
  (∀ waiting, keeps (on_clients (λ c _, alive waiting (session c) (pending_timers c))) m) →
  fleet_ok None d → fine i d (at_session i m d).2.
Proof.
  intros Hm Ha Hok. destruct (f_sessions (clients d) !! i) as [s|] eqn:Hs; cycle 1.
  { unfold at_session. rewrite Hs. by split; [|apply undisturbed_refl]. }
  split; [|by apply (method_undisturbed None i m d s)].
  apply (method_awake None i m d s); [done|by left|done|done|].
  apply (triple_state _ _ _ _ (Ha _)). by apply (ok_alive _ _ Hok i).
Qed.

Lemma close_awake waiting :
  keeps (on_clients (W := W) (λ c _, alive waiting (session c) (pending_timers c))) session_close_op.
Proof.
  eapply triple_conseq; [apply (session_close_op_shut (λ _, True))|done|..]; intros; by apply shut_awake.
Qed.

Lemma close_own_awake waiting tx :
  keeps (on_clients (W := W) (λ c _, alive waiting (session c) (pending_timers c)))
    (close_own_transaction tx).
Proof.
  unfold close_own_transaction, get_session, close_transaction. keeping;
    [apply (on_transactions_keeps (alive waiting))|by apply modify_session_awake].
Qed.

Lemma elem_of_unset t t' (f : Fleet X) :
  t' ∈ f_timers (unset_timer t f) ↔ t' ∈ f_timers f ∧ t' ≠ t.
Proof.
  cbn. rewrite !list_elem_of_In, List.filter_In, negb_true_iff, bool_decide_eq_false. done.
Qed.

(** Only the session that set a timer misses it. *)
Lemma unset_ok t i d :
  fleet_ok None d → f_owners (clients d) !! t = Some i →
  let d' := with_clients (unset_timer t (clients d)) d in
  fleet_ok (Some i) d' ∧ undisturbed i d d'.
Proof.
  intros [] Hi. cbv zeta.
  assert (∀ j s t', j ≠ i → f_sessions (clients d) !! j = Some s → s_pulse s = Some t' →
    t' ∈ f_timers (clients d) → t' ∈ f_timers (unset_timer t (clients d))) as Hkeep.
  { intros j s t' Hne Hj Ht' Hin. apply elem_of_unset. split; [done|]. intros ->.
    rewrite (ok_pulse0 _ _ _ Hj Ht') in Hi. congruence. }
  split; [split|]; try done.
  - intros t' [H _]%elem_of_unset. by apply ok_timers0.
  - intros j s Hj Hne. split; [by eapply ok_nameable0|]. intros Ho.
    destruct (ok_alive0 j s Hj) as [_ [H|(t' & Ht' & Hin)]]; [done..|by left|right].
    exists t'. split; [done|]. eapply Hkeep; [|done..]. congruence.
  - intros j s Hne Hj. split_and!; try done. by intros t' Ht'; eapply Hkeep.
Qed.

(** Only the session whose pulse is answered no longer awaits it. *)
Lemma elem_of_answered {A} k i (o : A) (l : list (nat * A)) j o' :
  l !! k = Some (i, o) → j ≠ i → (j, o') ∈ l → (j, o') ∈ delete k l.
Proof.
  intros Hk Hne Hin. rewrite <- (take_drop_middle l k _ Hk) in Hin. rewrite delete_take_drop.
  apply elem_of_app in Hin as [H|[[= ]|H]%elem_of_cons]; [apply elem_of_app; by left|done|].
  apply elem_of_app. by right.
Qed.

Lemma answered_ok k i o d :
  fleet_ok None d → f_inflight (clients d) !! k = Some (i, o) →
  let d' := with_clients (set_inflight (delete k (f_inflight (clients d))) (clients d)) d in
  fleet_ok (Some i) d' ∧ undisturbed i d d'.
Proof.
  intros [] Hk. cbv zeta. split; [split|]; try done.
  - intros j s Hj Hne. destruct (ok_alive0 j s Hj) as [Hn Ha]; [done|]. split; [done|].
    intros Ho. destruct (Ha Ho) as [H|H]; [left|by right]. cbn.
    apply list_elem_of_fmap in H as ([j' o'] & -> & H). apply list_elem_of_fmap. exists (j', o').
    split; [done|]. apply (elem_of_answered k i o); [done|by intros ->|done].
  - intros j s Hne Hj. split_and!; try done. intros o' H. by apply (elem_of_answered k i o).
Qed.

Lemma undisturbed_trans i d1 d2 d3 :
  id_of i (clients d1) = id_of i (clients d2) →
  undisturbed i d1 d2 → undisturbed i d2 d3 → undisturbed i d1 d3.
Proof.
  intros E H1 H2 j s Hne Hj. destruct (H1 j s Hne Hj) as (E1 & T1 & I1 & X1 & F1 & K1).
  destruct (H2 j s Hne E1) as (E2 & T2 & I2 & X2 & F2 & K2). split_and!; auto.
  - intros tx Htx. by rewrite X2, X1.
  - intros id Hid Hn. apply K2; [by apply K1|congruence].
Qed.

(** A pulse that was sent awaits its answer. *)
Lemma sent_fine i o d0 d :
  fleet_ok (Some i) d → undisturbed i d0 d →
  fine i d0 (with_clients (set_inflight (f_inflight (clients d) ++ [(i, o)]) (clients d)) d).
Proof.
  intros Hok Hu. split.
  - apply (ok_awake i).
    + destruct Hok. split; try done. intros j s Hj Hne. destruct (ok_alive0 j s Hj Hne) as [Hn Ha].
      split; [done|]. intros Ho. destruct (Ha Ho) as [H|H]; [left|by right]. cbn.
      rewrite fmap_app. apply elem_of_app. by left.
    + intros s Hs. split; [by apply (ok_nameable _ _ Hok i)|]. intros _. left. cbn.
      rewrite fmap_app. apply elem_of_app. right. by left.
  - intros j s Hne Hj. destruct (Hu j s Hne Hj) as (E & Ht & Hi & Hx & Hf & Hk).
    split_and!; try done. intros o' H. cbn. apply elem_of_app. left. by apply Hi.
Qed.

Lemma fire_pulse_fine t i d :
  fleet_ok None d → f_owners (clients d) !! t = Some i → fine i d (fire_pulse t d).
Proof.
  intros Hok Hi. unfold fire_pulse. rewrite Hi.
  case_bool_decide; [|by split; [|apply undisturbed_refl]].
  destruct (unset_ok t i d Hok Hi) as [Hok' Hu]. cbv zeta in *.
  set (d1 := with_clients _ d) in *.
  destruct (f_sessions (clients d1) !! i) as [s|] eqn:Hs; cycle 1.
  { unfold at_session. rewrite Hs. split; [|done]. apply (ok_awake i); [done|].
    intros s'. by rewrite Hs. }
  assert (modest i pulse_begin) as Hm by (apply keeps_modest; intros; apply pulse_begin_within).
  pose proof (method_undisturbed (Some i) i pulse_begin d1 s Hok' Hs Hm) as Hu1.
  pose proof (λ H, method_named (Some i) i pulse_begin d1 s Hok' (or_intror eq_refl) Hs Hm H) as Hn1.
  pose proof (λ H, method_awake (Some i) i pulse_begin d1 s Hok' (or_intror eq_refl) Hs Hm H) as Ha1.
  pose proof (pulse_begin_sends (with_clients (focus s (clients d1)) d1) (ok_nameable _ _ Hok' i s Hs)) as Hp.
  assert (undisturbed i d (at_session i pulse_begin d1).2) as Hu2 by by apply (undisturbed_trans i d d1).
  revert Hu1 Hn1 Ha1 Hu2. unfold at_session. rewrite Hs.
  destruct (pulse_begin _) as [[[o|]|e|] d2]; cbn [fst snd]; try done; intros Hu1 Hn1 Ha1 Hu2.
  - by apply sent_fine; [apply Hn1|].
  - split; [|done]. apply Ha1. by apply shut_awake.
Qed.

Lemma answer_fine k i o d :
  fleet_ok None d → f_inflight (clients d) !! k = Some (i, o) → fine i d (answer_pulse k d).
Proof.
  intros Hok Hk. unfold answer_pulse. rewrite Hk.
  destruct (is_pending o) eqn:Ho; [by split; [|apply undisturbed_refl]|].
  destruct (answered_ok k i o d Hok Hk) as [Hok' Hu]. cbv zeta in *.
  set (d1 := with_clients _ d) in *.
  destruct (f_sessions (clients d1) !! i) as [s|] eqn:Hs; cycle 1.
  { unfold at_session. rewrite Hs. cbn [snd]. split; [|done]. apply (ok_awake i); [done|].
    intros s'. by rewrite Hs. }
  assert (modest i (pulse_resume o)) as Hm
    by (apply keeps_modest; intros; by apply pulse_resume_within).
  split.
  - apply (method_awake (Some i) i _ d1 s); [done|by right|done|done|].
    apply pulse_resume_awake; [by intros ->|]. by apply (ok_nameable _ _ Hok' i).
  - apply (undisturbed_trans i d d1); [done|done|]. by apply (method_undisturbed (Some i) i _ d1 s).
Qed.

Section new_session.
Context (name : string) (type_ : SessionTypeProto) (options : option TypeDBOptions) (d : FState).
Hypothesis Hok : fleet_ok None d.
Local Abbreviation i := (length (f_sessions (clients d))).
Local Abbreviation s := (new_session name type_ (default no_options options)).
Local Abbreviation d2 := (add_session s d).
Local Abbreviation d3 := (driver_session clock i (with_clients (focus s (clients d2)) d2)).2.

Lemma added_session : f_sessions (clients d2) !! i = Some s.
Proof using Type. cbn. by rewrite lookup_app_r, Nat.sub_diag. Qed.

Lemma add_session_undisturbed : undisturbed i d d2.
Proof using Type. intros j s' Hne Hj. split_and!; try done. by apply lookup_app_l_Some. Qed.

Lemma add_session_ok : fleet_ok None d2.
Proof using Hok.
  assert (∀ j s', f_sessions (clients d2) !! j = Some s' →
    f_sessions (clients d) !! j = Some s' ∨ s' = s ∧ j = i) as Hold.
  { intros j s' [H|[Hle [Hj <-]%list_lookup_singleton_Some]]%lookup_app_Some; [by left|].
    right. split; [done|]. lia. }
  destruct Hok. split; try done.
  - intros j s' t [Hj|[-> ->]]%Hold; [by apply ok_pulse0|done].
  - intros j s' [Hj|[-> ->]]%Hold; [by eapply ok_nameable0|done].
  - intros j s' [Hj|[-> ->]]%Hold; [by eapply ok_alive0|done].
  - intros id j (s' & Hj & E)%ok_filed0. exists s'. split; [by apply lookup_app_l_Some|done].
  - intros j s' tx [Hj|[-> ->]]%Hold; [by eapply ok_tx0|by intros ?%elem_of_nil].
  - intros j k s1 s2 tx [H1|[-> ->]]%Hold [H2|[-> ->]]%Hold; [by eapply ok_disjoint0|..];
      intros T1 T2; by apply elem_of_nil in T1 || apply elem_of_nil in T2.
Qed.

(** No session is filed as one that was just made. *)
Lemma new_session_changed :
  changed i (focus s (clients d2)) (d_sessions d2) (clients d3) (d_sessions d3).
Proof using Hok.
  assert (∀ id, d_sessions d2 !! id ≠ Some i) as Hnone.
  { intros id Hid. destruct (ok_filed _ _ Hok _ _ Hid) as (s' & ?%lookup_lt_Some & _). lia. }
  pose proof (driver_session_within clock i (focus s (clients d2)) (d_sessions d2)
    (with_clients (focus s (clients d2)) d2)) as H.
  destruct (driver_session clock i _) as [[a|e|] d']; [apply filed_changed, H|
    apply within_changed, H..]; (split; [|done]);
    apply (focus_same_id None _ _ _ add_session_ok added_session).
Qed.

Lemma new_session_awake waiting : alive waiting (session (clients d3)) (pending_timers (clients d3)).
Proof using Type. by apply (triple_state _ _ _ _ (driver_session_awake clock waiting i)). Qed.

Lemma opened_session_fine : fine i d (at_session i (driver_session clock i) d2).2.
Proof using Hok.
  pose proof added_session as Hs. split.
  - apply (ok_awake i).
    + apply (at_session_ok None i s); [apply add_session_ok|by left|done|apply new_session_changed|].
      apply (new_session_awake True).
    + rewrite (at_session_run i s) by done. cbn [clients with_clients f_sessions unfocus].
      rewrite list_lookup_insert_eq by by eapply lookup_lt_Some. intros s' [= <-].
      apply new_session_awake.
  - intros j s' Hne Hj. destruct (add_session_undisturbed j s' Hne Hj) as (E1 & T1 & I1 & X1 & F1 & _).
    destruct (at_session_undisturbed None i s _ d2 add_session_ok Hs new_session_changed j s' Hne E1)
      as (E2 & T2 & I2 & X2 & F2 & _). split_and!; auto.
    intros id Hid _. rewrite (at_session_run i s) by done. cbn [d_sessions with_clients].
    eapply lookup_weaken; [exact Hid|]. by apply (triple_state _ _ _ _ (driver_session_files clock i _)).
Qed.
End new_session.

Lemma open_session_fine name type_ options d :
  fleet_ok None d → fine (length (f_sessions (clients d))) d (open_session clock name type_ options d).2.
Proof.
  intros Hok. unfold open_session. destruct (d_isOpen d); cbn [negb];
    [|by split; [|apply undisturbed_refl]]. by apply opened_session_fine.
Qed.

Lemma driver_close_fleet d : d_sessions (driver_close d).2 = d_sessions d ∧ clients (driver_close d).2 = clients d.
Proof.
  assert (keeps (on_clients (W := W) (λ c f, f = d_sessions d ∧ c = clients d)) driver_close) as H.
  { unfold driver_close. keeping.
    apply keeps_for_each. intros sd _. apply call_keeps. }
  apply (triple_state _ _ _ d H). by split.
Qed.

Lemma elsewhere_ok d d' : fleet_ok None d → elsewhere d d' → fleet_ok None d'.
Proof.
  intros [] [x Hk Hx|d1 H1 H2]; split; cbn; rewrite ?Hx, ?H1, ?H2; done.
Qed.

(** Every event keeps the fleet well and leaves the other sessions alone. *)
Lemma fleet_step_fine d ev :
  fleet_ok None d →
  fleet_ok None (fleet_step d ev) ∧ ∀ i, acts d ev = Some i → undisturbed i d (fleet_step d ev).
Proof.
  intros Hok.
  assert (∀ i d', fine i d d' → fleet_ok None d' ∧ ∀ j, Some i = Some j → undisturbed j d d') as Hfine
    by (intros i d' [H1 H2]; split; [done|]; by intros j [= <-]).
  destruct ev as [name ty o|i ty o|i tx|i|i cb|i cb|t|k|]; cbn [fleet_step acts].
  - by apply Hfine, open_session_fine.
  - apply Hfine, method_fine; [|intros; apply transaction_awake|done].
    intros c0 f0 H. by apply transaction_within.
  - apply Hfine, method_fine; [|intros; apply close_own_awake|done].
    apply keeps_modest. intros. by apply close_own_transaction_within.
  - apply Hfine, method_fine; [|intros; apply close_awake|done].
    apply keeps_modest. intros. by apply session_close_op_about.
  - apply Hfine, method_fine; [|intros; by apply modify_session_awake|done].
    apply keeps_modest. intros. by apply modify_session_about.
  - apply Hfine, method_fine; [|intros; by apply modify_session_awake|done].
    apply keeps_modest. intros. by apply modify_session_about.
  - destruct (f_owners (clients d) !! t) as [i|] eqn:Hi; [by apply Hfine, fire_pulse_fine|].
    unfold fire_pulse. by rewrite Hi.
  - destruct (f_inflight (clients d) !! k) as [[i o]|] eqn:Hk; [by eapply Hfine, answer_fine|].
    unfold answer_pulse. by rewrite Hk.
  - split; [|done]. destruct (driver_close_fleet d). by eapply elsewhere_ok; [|apply elsewhere_driver].
Qed.

Lemma reachable_ok d0 d : no_sessions d0 → reachable d0 d → fleet_ok None d.
Proof.
  intros (H1 & H2 & H3 & H4 & _ & H5). induction 1 as [|d ev _ IH|d d' _ IH He].
  - split; rewrite ?H1, ?H2, ?H3, ?H4; try done.
    by intros t ?%elem_of_nil.
  - by apply fleet_step_fine.
  - by eapply elsewhere_ok.
Qed.

(** C9 - in a program that awaits each call it makes of a driver and of its
    sessions before it makes the next (calls do not overlap; timers fire and
    pulses are answered at any time between them), a session that is open is
    kept alive, however sessions are opened, used and closed: a pulse of it
    awaits its answer, or its pulse timer is pending and firing it will send the
    server an id that can be sent. The sessions that the driver files are filed
    under their ids, and no transaction belongs to two sessions. (Without the
    awaiting it is not so: [close_ends_in_the_new_session] of SessionAsync.v,
    where [close] overlaps the reconnection of [transaction].) *)
Theorem open_sessions_pulse (d0 d : FState) (Hstart : no_sessions d0) (Hreach : reachable d0 d) :
  (∀ i s, f_sessions (clients d) !! i = Some s → s_isOpen s = true →
     (∃ req, Session_pulseReq (s_id s) = Ret req) ∧
     ((∃ o, (i, o) ∈ f_inflight (clients d)) ∨
      ∃ t, s_pulse s = Some t ∧ t ∈ f_timers (clients d) ∧ f_owners (clients d) !! t = Some i)) ∧
  (∀ id i, d_sessions d !! id = Some i →
     ∃ s, f_sessions (clients d) !! i = Some s ∧ s_id s = id) ∧
  (∀ i j s s' tx, f_sessions (clients d) !! i = Some s → f_sessions (clients d) !! j = Some s' →
     tx ∈ s_transactions s → tx ∈ s_transactions s' → i = j).
Proof.
  pose proof (reachable_ok d0 d Hstart Hreach) as [].
  split_and!; [|done|by apply ok_disjoint0]. intros i s Hs Ho.
  destruct (ok_alive0 i s Hs) as [Hn Ha]; [done|]. split.
  - destruct (Hn Ho) as [bytes Hid]. unfold Session_pulseReq. rewrite Hid. by eexists.
  - destruct (Ha Ho) as [([j o] & -> & H)%list_elem_of_fmap|(t & Ht & Hin)]; [by left; exists o|].
    right. exists t. split_and!; [done|done|by eapply ok_pulse0].
Qed.

(** C10 - sessions do not disturb each other: whatever a session does in any
    state that sessions can bring about (open or reconnect, open or close
    transactions, pulse, fail, close), every other session keeps its state,
    its scheduled pulse and its transactions untouched, and stays filed in the
    driver unless the session that acted has the same id. *)
Theorem sessions_independent (d0 d : FState) (ev : fleet_event) (i : nat)
    (Hstart : no_sessions d0) (Hreach : reachable d0 d) (Hi : acts d ev = Some i) :
  undisturbed i d (fleet_step d ev).
Proof. by apply fleet_step_fine; [by eapply reachable_ok|]. Qed.
(** ** The end of pulsing *)

(** The timers of session [i] that are pending. *)
Definition pending_of (i : nat) (f : Fleet X) : gset nat :=
  filter (λ t, f_owners f !! t = Some i) (list_to_set (f_timers f)).

(** How much pulsing session [i] has left to do when it sends no more: each
    pulse that awaits its answer may set one more timer. *)
Definition pulses_of (i : nat) (f : Fleet X) : nat :=
  2 * length (filter (λ p : nat * outcome exn bool, p.1 = i) (f_inflight f)) + size (pending_of i f).

Definition closed_at (i : nat) d : Prop :=
  ∃ s, f_sessions (clients d) !! i = Some s ∧ s_isOpen s = false.

Lemma elem_of_pending_of i t (f : Fleet X) :
  t ∈ pending_of i f ↔ t ∈ f_timers f ∧ f_owners f !! t = Some i.
Proof. unfold pending_of. rewrite elem_of_filter, elem_of_list_to_set. tauto. Qed.

(** A method adds only timers that it sets, and they belong to its session. *)
Lemma pending_unfocus i j s (c : Clients X) (f : Fleet X) (fs fs' : gmap string nat) t :
  (∀ t, t ∈ f_timers f → t < length (f_owners f)) →
  within j (focus s f) fs c fs' → t ∈ pending_of i (unfocus j c f) →
  t ∈ pending_of i f ∨ i = j ∧ length (f_owners f) <= t < timers_set c.
Proof.
  intros Hlt [] [Hin Ho]%elem_of_pending_of. cbn in Hin. destruct (w_new _ Hin) as [H|H].
  - left. apply elem_of_pending_of. split; [done|]. cbn in Ho, H.
    rewrite lookup_app_l in Ho by by apply Hlt. done.
  - right. cbn in H. rewrite owners_unfocus in Ho by lia. split; [congruence|lia].
Qed.

(** Another session's method gives session [i] nothing to do. *)
Lemma pulses_of_other i j s (c : Clients X) (f : Fleet X) fs fs' :
  i ≠ j → (∀ t, t ∈ f_timers f → t < length (f_owners f)) →
  within j (focus s f) fs c fs' → pulses_of i (unfocus j c f) <= pulses_of i f.
Proof.
  intros Hne Hlt Hw. unfold pulses_of. cbn [f_inflight unfocus].
  apply Nat.add_le_mono_l, subseteq_size. intros t Ht.
  destruct (pending_unfocus i j s c f fs fs' t Hlt Hw Ht) as [H|[H _]]; [done|by destruct Hne].
Qed.

(** A method that sets no timer gives none to its own session either. *)
Lemma pulses_of_own i s (c : Clients X) (f : Fleet X) fs fs' :
  (∀ t, t ∈ f_timers f → t < length (f_owners f)) → timers_set c = length (f_owners f) →
  within i (focus s f) fs c fs' → pulses_of i (unfocus i c f) <= pulses_of i f.
Proof.
  intros Hlt Hset Hw. unfold pulses_of. cbn [f_inflight unfocus].
  apply Nat.add_le_mono_l, subseteq_size. intros t Ht.
  destruct (pending_unfocus i i s c f fs fs' t Hlt Hw Ht) as [H|[_ H]]; [done|lia].
Qed.

(** From closed sessions: the session stays closed and sets no timer. *)
Definition idle {A} (m : sproc A) : Prop := ∀ n,
  keeps (on_clients (W := W) (λ (c : Clients X) _, s_isOpen (session c) = false ∧ timers_set c = n)) m.

Lemma on_transactions_idle {A} (m : proc X exn A) : idle (on_transactions m).
Proof. intros n d Hd. unfold on_transactions. by destruct (m _) as [[] x]. Qed.

Lemma close_transaction_idle tx : idle (close_transaction tx).
Proof.
  intros n. unfold close_transaction. apply keeps_bind; [apply on_transactions_idle|].
  intros _. by apply keeps_modify.
Qed.

Lemma closeResources_idle : idle closeResources.
Proof.
  intros n. unfold closeResources, get_session. keeping.
  - by apply keeps_modify; intros d [].
  - apply keeps_for_each. intros tx _. apply close_transaction_idle.
  - apply run_callbacks_keeps. intros k. by apply keeps_modify.
  - by apply keeps_modify.
Qed.

Lemma session_close_op_idle : idle session_close_op.
Proof.
  intros n d Hd. unfold session_close_op, get_session. rewrite proc_bind_eq. cbn [gets].
  destruct Hd as [Ho Hn]. by rewrite Ho.
Qed.

Lemma transaction_idle type_ options : idle (transaction clock type_ options).
Proof.
  intros n d Hd. unfold transaction, get_session. rewrite proc_bind_eq. cbn [gets].
  destruct Hd as [Ho Hn]. by rewrite Ho.
Qed.

Lemma close_own_idle tx : idle (close_own_transaction tx).
Proof.
  intros n. unfold close_own_transaction, get_session. keeping. apply close_transaction_idle.
Qed.

Lemma pulse_begin_idle : idle pulse_begin.
Proof.
  intros n d Hd. unfold pulse_begin, get_session. rewrite proc_bind_eq. cbn [gets].
  destruct Hd as [Ho Hn]. by rewrite Ho.
Qed.

Lemma closed_at_undisturbed i j d d' : i ≠ j → undisturbed j d d' → closed_at i d → closed_at i d'.
Proof. intros Hne Hu (s & Hs & Ho). exists s. split; [|done]. by apply (Hu i s Hne). Qed.

(** Methods of other sessions, and idle methods of its own, leave a closed
    session closed and give it no more to do. *)
Definition rests (i : nat) d d' : Prop :=
  closed_at i d' ∧ pulses_of i (clients d') <= pulses_of i (clients d).

Lemma other_rests {A} but i j (m : sproc A) d :
  i ≠ j → fleet_ok but d → closed_at i d → modest j m → rests i d (at_session j m d).2.
Proof.
  intros Hne Hok Hc Hm. destruct (f_sessions (clients d) !! j) as [s|] eqn:Hs; cycle 1.
  { unfold at_session. by rewrite Hs. }
  split.
  - eapply closed_at_undisturbed; [done| |done]. by apply (method_undisturbed but j m d s).
  - destruct (method_changed but j m d s Hok Hs Hm) as (f' & Hw & _).
    rewrite (at_session_run j s) by done.
    by eapply (pulses_of_other i j s); [|apply (ok_timers _ _ Hok)|exact Hw].
Qed.

Lemma own_rests {A} but i (m : sproc A) d :
  fleet_ok but d → closed_at i d → modest i m → idle m → rests i d (at_session i m d).2.
Proof.
  intros Hok (s & Hs & Ho) Hm Hidle.
  destruct (method_changed but i m d s Hok Hs Hm) as (f' & Hw & _).
  destruct (triple_state _ _ _ (with_clients (focus s (clients d)) d)
    (Hidle (length (f_owners (clients d))))) as [H1 H2]; [done|].
  rewrite (at_session_run i s) by done. split.
  - eexists. cbn. rewrite list_lookup_insert_eq by by eapply lookup_lt_Some. by split.
  - eapply (pulses_of_own i s); [apply (ok_timers _ _ Hok)|exact H2|exact Hw].
Qed.

Lemma method_rests {A} but i j (m : sproc A) d :
  fleet_ok but d → closed_at i d → modest j m → idle m → rests i d (at_session j m d).2.
Proof.
  intros Hok Hc Hm Hi. destruct (decide (i = j)) as [<-|Hne]; [by eapply own_rests|by eapply other_rests].
Qed.

Lemma modify_session_idle g :
  (∀ s, s_isOpen (g s) = s_isOpen s) → idle (modify_session g).
Proof. intros H n. apply keeps_modify. intros d. unfold on_clients. cbn. by rewrite H. Qed.

(** What timers and answers do to the count. *)
Lemma pulses_of_unset i t (f : Fleet X) :
  t ∈ pending_of i f → pulses_of i (unset_timer t f) < pulses_of i f.
Proof.
  intros Ht. unfold pulses_of. cbn [f_inflight unset_timer]. apply Nat.add_lt_mono_l, subset_size.
  split.
  - intros t' [[H _]%elem_of_unset Ho]%elem_of_pending_of. by apply elem_of_pending_of.
  - intros H. specialize (H t Ht). apply elem_of_pending_of in H as [[_ Hn]%elem_of_unset _]. done.
Qed.

Lemma pulses_of_unset_le i t (f : Fleet X) : pulses_of i (unset_timer t f) <= pulses_of i f.
Proof.
  unfold pulses_of. cbn [f_inflight unset_timer]. apply Nat.add_le_mono_l, subseteq_size.
  intros t' [[H _]%elem_of_unset Ho]%elem_of_pending_of. by apply elem_of_pending_of.
Qed.

Lemma pulses_of_answered i k j o (f : Fleet X) :
  f_inflight f !! k = Some (j, o) →
  pulses_of i (set_inflight (delete k (f_inflight f)) f) + (if decide (j = i) then 2 else 0) =
    pulses_of i f.
Proof.
  intros Hk. unfold pulses_of, pending_of. cbn [f_inflight f_timers f_owners set_inflight].
  rewrite <- (take_drop_middle _ _ _ Hk) at 2. rewrite delete_take_drop, !filter_app, !length_app.
  rewrite filter_cons. cbn [fst]. destruct (decide (j = i)); cbn [length]; lia.
Qed.

Lemma pulses_of_sent i j o (f : Fleet X) :
  i ≠ j → pulses_of i (set_inflight (f_inflight f ++ [(j, o)]) f) = pulses_of i f.
Proof.
  intros Hne. unfold pulses_of, pending_of. cbn [f_inflight f_timers f_owners set_inflight].
  rewrite filter_app, length_app, filter_cons_False by (cbn; congruence). cbn. lia.
Qed.

Lemma open_session_rests name type_ options i d :
  fleet_ok None d → closed_at i d → rests i d (open_session clock name type_ options d).2.
Proof.
  intros Hok Hc.
  assert (i ≠ length (f_sessions (clients d))) as Hne.
  { destruct Hc as (s & ?%lookup_lt_Some & _). lia. }
  split.
  - eapply closed_at_undisturbed; [exact Hne|by apply open_session_fine|done].
  - unfold open_session. destruct (d_isOpen d); cbn [negb]; [|done].
    set (s := new_session name type_ (default no_options options)).
    destruct (new_session_changed name type_ options d Hok) as (f' & Hw & _).
    rewrite (at_session_run _ s) by apply added_session.
    eapply (pulses_of_other i _ s _ (clients (add_session s d))); [exact Hne| |exact Hw].
    apply (ok_timers _ _ (add_session_ok name type_ options d Hok)).
Qed.

(** A pulse that a closed session should send is not sent. *)
Lemma fire_pulse_closed i t d :
  closed_at i d → f_owners (clients d) !! t = Some i → t ∈ f_timers (clients d) →
  d_world (fire_pulse t d) = d_world d ∧
  ∃ o, (o, fire_pulse t d) = at_session i pulse_begin (with_clients (unset_timer t (clients d)) d).
Proof.
  intros (s & Hs & Ho) Hi Ht. unfold fire_pulse. rewrite Hi, bool_decide_eq_true_2 by done.
  unfold at_session. cbn [clients with_clients f_sessions unset_timer]. rewrite Hs.
  unfold pulse_begin, get_session. rewrite proc_bind_eq. cbn [gets clients with_clients session focus].
  rewrite Ho. cbn. split; [done|]. by eexists.
Qed.

Lemma pulse_begin_modest i : modest i pulse_begin.
Proof. apply keeps_modest. intros. apply pulse_begin_within. Qed.

Lemma pulse_resume_modest i o : modest i (pulse_resume o).
Proof. apply keeps_modest. intros. by apply pulse_resume_within. Qed.

Lemma fire_pulse_rests t i d :
  fleet_ok None d → closed_at i d → rests i d (fire_pulse t d).
Proof.
  intros Hok Hc. destruct (f_owners (clients d) !! t) as [j|] eqn:Hj; cycle 1.
  { unfold fire_pulse. by rewrite Hj. }
  destruct (decide (t ∈ f_timers (clients d))) as [Ht|Ht]; cycle 1.
  { unfold fire_pulse. by rewrite Hj, bool_decide_eq_false_2. }
  destruct (unset_ok t j d Hok Hj) as [Hok' Hu]. cbv zeta in *.
  set (d1 := with_clients _ d) in *.
  assert (pulses_of i (clients d1) <= pulses_of i (clients d)) as Hle by apply pulses_of_unset_le.
  assert (closed_at i d1) as Hc1 by exact Hc.
  destruct (decide (i = j)) as [<-|Hne].
  - destruct (fire_pulse_closed i t d Hc Hj Ht) as (_ & o & E). fold d1 in E.
    replace (fire_pulse t d) with ((at_session i pulse_begin d1).2) by by rewrite <- E.
    destruct (own_rests (Some i) i pulse_begin d1) as [H1 H2]; [done|done|apply pulse_begin_modest|
      apply pulse_begin_idle|]. split; [done|lia].
  - destruct (other_rests (Some j) i j pulse_begin d1 Hne Hok' Hc1 (pulse_begin_modest j)) as [H1 H2].
    unfold fire_pulse. rewrite Hj, bool_decide_eq_true_2 by done. fold d1.
    destruct (at_session j pulse_begin d1) as [[[o|]|e|] d2]; cbn [fst snd] in *;
      (split; [exact H1|]); [|lia..]. cbn [clients with_clients].
    rewrite pulses_of_sent by done. lia.
Qed.

(** Any answer but that the session is alive sets no timer. *)
Lemma pulse_resume_idle o : o ≠ Ret true → idle (pulse_resume o).
Proof.
  intros Ho n.
  assert (keeps (on_clients (W := W) (λ (c : Clients X) _,
    s_isOpen (session c) = false ∧ timers_set c = n)) (modify_session (set_open false))) as Hset
    by by apply keeps_modify; intros d [].
  destruct o as [[]|e|]; [done| |exact Hset|by intros d Hd].
  apply keeps_try_catch; [apply closeResources_idle|]. intros _. exact Hset.
Qed.

(** An answer gives a closed session at most a last timer. *)
Lemma pulse_resume_own i o d :
  fleet_ok (Some i) d → closed_at i d →
  closed_at i (at_session i (pulse_resume o) d).2 ∧
  pulses_of i (clients (at_session i (pulse_resume o) d).2) <= pulses_of i (clients d) + 1.
Proof.
  intros Hok Hc. pose proof (pulse_resume_modest i o) as Hm.
  destruct (decide (o = Ret true)) as [->|Ho]; cycle 1.
  { destruct (own_rests (Some i) i (pulse_resume o) d Hok Hc Hm (pulse_resume_idle o Ho)). split; [done|lia]. }
  destruct Hc as (s & Hs & Hcl).
  destruct (method_changed (Some i) i _ d s Hok Hs Hm) as (f' & Hw & _).
  rewrite (at_session_run i s) by done. split.
  - eexists. cbn. rewrite list_lookup_insert_eq by by eapply lookup_lt_Some. by split.
  - cbn [clients with_clients]. unfold pulses_of. cbn [f_inflight unfocus].
    rewrite <- Nat.add_assoc. apply Nat.add_le_mono_l.
    transitivity (size (pending_of i (clients d) ∪ {[ length (f_owners (clients d)) ]})).
    + apply subseteq_size. intros t Ht.
      destruct (pending_unfocus i i s _ (clients d) _ _ t (ok_timers _ _ Hok) Hw Ht) as [H|[_ H]];
        [set_solver|].
      change (timers_set _) with (S (length (f_owners (clients d)))) in H.
      assert (t = length (f_owners (clients d))) as -> by lia. set_solver.
    + rewrite size_union_alt. pose proof (subseteq_size
        ({[ length (f_owners (clients d)) ]} ∖ pending_of i (clients d))
        {[ length (f_owners (clients d)) ]}) as H. rewrite size_singleton in H.
      specialize (H ltac:(set_solver)). lia.
Qed.

Lemma answer_rests k i d : fleet_ok None d → closed_at i d → rests i d (answer_pulse k d).
Proof.
  intros Hok Hc. destruct (f_inflight (clients d) !! k) as [[j o]|] eqn:Hk; cycle 1.
  { unfold answer_pulse. by rewrite Hk. }
  destruct (answered_ok k j o d Hok Hk) as [Hok' _]. cbv zeta in *.
  pose proof (pulses_of_answered i k j o (clients d) Hk) as Hle.
  unfold answer_pulse. rewrite Hk. destruct (is_pending o) eqn:Ho; [done|].
  set (d1 := with_clients _ d) in *. change (set_inflight _ _) with (clients d1) in Hle.
  assert (closed_at i d1) as Hc1 by exact Hc.
  destruct (decide (j = i)) as [->|Hne].
  - destruct (pulse_resume_own i o d1 Hok' Hc1) as [H1 H2]. split; [done|lia].
  - destruct (other_rests (Some j) i j (pulse_resume o) d1) as [H1 H2];
      [done|done|done|apply pulse_resume_modest|]. split; [done|lia].
Qed.

Lemma fleet_step_rests d ev i : fleet_ok None d → closed_at i d → rests i d (fleet_step d ev).
Proof.
  intros Hok Hc. destruct ev as [name ty o|j ty o|j tx|j|j cb|j cb|t|k|]; cbn [fleet_step].
  - by apply open_session_rests.
  - apply (method_rests None); [done|done| |apply transaction_idle].
    intros c0 f0 H. by apply transaction_within.
  - apply (method_rests None); [done|done| |apply close_own_idle].
    apply keeps_modest. intros. by apply close_own_transaction_within.
  - apply (method_rests None); [done|done| |apply session_close_op_idle].
    apply keeps_modest. intros. by apply session_close_op_about.
  - apply (method_rests None); [done|done| |by apply modify_session_idle].
    apply keeps_modest. intros. by apply modify_session_about.
  - apply (method_rests None); [done|done| |by apply modify_session_idle].
    apply keeps_modest. intros. by apply modify_session_about.
  - by apply fire_pulse_rests.
  - by apply answer_rests.
  - destruct (driver_close_fleet d) as [_ E]. unfold rests, closed_at. by rewrite E.
Qed.

(** C11 - in a program that awaits each call it makes of a driver and of its
    sessions before it makes the next (calls do not overlap; timers fire and
    pulses are answered at any time between them), a session that was closed
    comes to rest: no call of any session opens it again, no pulse is sent for
    it any more, and what pulsing it has left (answers that are awaited and
    timers that are pending, counted so that an answer weighs two timers) never
    grows and shrinks with each of its answers and timers until there is none.
    (A [close] that overlaps the reconnection of [transaction] does not keep
    the session closed: [close_during_reconnect_does_nothing] of
    SessionAsync.v.) *)
Theorem closed_session_rests (d0 d : FState) (ev : fleet_event) (i : nat)
    (Hstart : no_sessions d0) (Hreach : reachable d0 d) (Hclosed : closed_at i d) :
  closed_at i (fleet_step d ev) ∧
  pulses_of i (clients (fleet_step d ev)) <= pulses_of i (clients d) ∧
  (∀ t, ev = FTimer t → f_owners (clients d) !! t = Some i → t ∈ f_timers (clients d) →
     d_world (fleet_step d ev) = d_world d ∧
     pulses_of i (clients (fleet_step d ev)) < pulses_of i (clients d)) ∧
  (∀ k o, ev = FAnswer k → f_inflight (clients d) !! k = Some (i, o) → o ≠ Pending →
     pulses_of i (clients (fleet_step d ev)) < pulses_of i (clients d)).
Proof.
  pose proof (reachable_ok d0 d Hstart Hreach) as Hok.
  destruct (fleet_step_rests d ev i Hok Hclosed) as [H1 H2]. split_and!; [done|done|..].
  - intros t -> Hi Ht. destruct (fire_pulse_closed i t d Hclosed Hi Ht) as (Hw & o & E).
    split; [exact Hw|]. cbn [fleet_step].
    replace (fire_pulse t d) with
      (at_session i pulse_begin (with_clients (unset_timer t (clients d)) d)).2 by by rewrite <- E.
    destruct (unset_ok t i d Hok Hi) as [Hok' _].
    destruct (own_rests (Some i) i pulse_begin _ Hok' Hclosed (pulse_begin_modest i) pulse_begin_idle)
      as [_ H]. change (clients (with_clients (unset_timer t (clients d)) d))
      with (unset_timer t (clients d)) in H.
    pose proof (pulses_of_unset i t (clients d)) as Hlt.
    assert (t ∈ pending_of i (clients d)) by by apply elem_of_pending_of. specialize (Hlt ltac:(done)). lia.
  - intros k o -> Hk Ho. cbn [fleet_step]. unfold answer_pulse. rewrite Hk.
    destruct (answered_ok k i o d Hok Hk) as [Hok' _].
    destruct o as [b|e|]; [| |done]; cbn [is_pending];
      (match goal with |- context [at_session i (pulse_resume ?o) ?d1] =>
         destruct (pulse_resume_own i o d1 Hok' Hclosed) as [_ H] end;
       match goal with |- context [with_clients ?f d] =>
         change (clients (with_clients f d)) with f in H end;
       pose proof (pulses_of_answered i k i _ (clients d) Hk) as Hle;
       rewrite decide_True in Hle by done; lia).
Qed.

End fleet.

(** ** Concrete runs *)

#[local] Existing Instance number_uuid.

(** A server that numbers its sessions. *)
#[local] Instance counting_server : GRPCStub nat := {|
  session_open := λ _ _ _ n,
    (Ret (mkSessionOpenRes [default Byte.x00 (Byte.of_nat (10 + n))] 0), S n);
  session_close := λ _ _ _ n, (Ret tt, n); session_pulse := λ _ _ _ n, (Ret true, n);
  databases_contains := λ _ _ _ n, (Ret true, n);
  databases_get := λ _ _ _ n, (Ret (Some (mkDatabaseProto "db" [mkReplicaProto "a" 1 true true])), n);
  connection_open := λ _ _ _ n, (Ret tt, n); servers_all := λ _ _ _ n, (Ret ["a"], n);
  databases_create := λ _ _ _ n, (Ret tt, n); databases_all := λ _ _ _ n, (Ret [], n);
  database_delete := λ _ _ _ n, (Ret tt, n); database_schema := λ _ _ _ n, (Ret "define", n);
  database_type_schema := λ _ _ _ n, (Ret "", n); database_rule_schema := λ _ _ _ n, (Ret "", n);
  users_all := λ _ _ _ n, (Ret [], n); users_contains := λ _ _ _ n, (Ret false, n);
  users_create := λ _ _ _ n, (Ret tt, n); users_delete := λ _ _ _ n, (Ret tt, n);
  users_password_set := λ _ _ _ n, (Ret tt, n); users_get := λ _ _ _ n, (Ret None, n);
  user_password_update := λ _ _ _ n, (Ret tt, n); user_token := λ _ _ _ n, (Ret "", n);
  grpc_transaction := λ _ _ n, (Ret tt, n);
|}.

#[local] Instance fleet_transactions : TransactionOps (list (TypeDBTransactionImpl nat nat)) :=
  heap_transactions demo_show demo_answers.
#[local] Instance fleet_objects : TransactionObjects (list (TypeDBTransactionImpl nat nat)) :=
  heap_transaction_objects demo_show demo_answers.

Definition demo_fleet : Driver nat (Fleet (list (TypeDBTransactionImpl nat nat))) :=
  mkDriver (mkWorld 0 [mkStub "a" None None false] []) true false [("a", sd_a)] ∅ ∅ [] 0
    (mkFleet [] [] 0 [] [] []).

(** Two sessions with a transaction each; both pulse, and the first is
    answered. *)
Definition demo_used : Driver nat (Fleet (list (TypeDBTransactionImpl nat nat))) :=
  foldl (fleet_step (λ _, 5%Z)) demo_fleet
    [FSession "db" DATA None; FSession "db" SCHEMA None; FTransaction 0 READ None;
     FTransaction 1 WRITE None; FTimer 0; FTimer 1; FAnswer 0].

Lemma demo_used_reachable : reachable (λ _, 5%Z) demo_fleet demo_used.
Proof. unfold demo_used. cbn [foldl]. repeat apply reach_step. apply reach_start. Qed.

Lemma demo_fleet_new : no_sessions demo_fleet.
Proof. by split_and!. Qed.

Example demo_run :
  d_sessions demo_used = {[ "0x0a" := 0; "0x0b" := 1 ]} ∧
  f_timers (clients demo_used) = [2] ∧ f_owners (clients demo_used) = [0; 1; 0] ∧
  f_inflight (clients demo_used) = [(1, Ret true)] ∧
  s_transactions <$> f_sessions (clients demo_used) = [[0]; [1]].
Proof. split_and!; vm_compute; reflexivity. Qed.

Lemma open_sessions_pulse_witness :
  ∃ s t, f_sessions (clients demo_used) !! 0 = Some s ∧ s_isOpen s = true ∧ s_pulse s = Some t ∧
    t ∈ f_timers (clients demo_used) ∧ f_owners (clients demo_used) !! t = Some 0.
Proof.
  destruct (f_sessions (clients demo_used) !! 0) as [s|] eqn:Hs; [|vm_compute in Hs; discriminate].
  assert (s_isOpen s = true) as Ho by (vm_compute in Hs; injection Hs as <-; reflexivity).
  destruct (open_sessions_pulse (λ _, 5%Z) demo_fleet demo_used demo_fleet_new demo_used_reachable)
    as (H & _).
  destruct (H 0 s Hs Ho) as [_ [[o Hin]|(t & H1 & H2 & H3)]]; [|exists s, t; by split_and!].
  vm_compute in Hin. inversion Hin as [|? ? ? Hin']. inversion Hin'.
Defined.

Lemma sessions_independent_witness :
  let d := fleet_step (λ _, 5%Z) demo_used (FClose 0) in
  txop_closed 0 (f_transactions (clients d)) = true ∧
  txop_closed 1 (f_transactions (clients d)) = false ∧
  (1, Ret true) ∈ f_inflight (clients d) ∧ d_sessions d !! "0x0b" = Some 1.
Proof.
  cbv zeta.
  pose proof (sessions_independent (λ _, 5%Z) demo_fleet demo_used (FClose 0) 0
    demo_fleet_new demo_used_reachable eq_refl) as H.
  destruct (f_sessions (clients demo_used) !! 1) as [s|] eqn:Hs; [|vm_compute in Hs; discriminate].
  destruct (H 1 s) as (_ & _ & Hi & _ & _ & Hf); [discriminate|exact Hs|].
  split; [vm_compute; reflexivity|]. split; [vm_compute; reflexivity|]. split.
  - apply Hi. vm_compute. left.
  - apply Hf; vm_compute; [reflexivity|discriminate].
Defined.

(** The second session is closed while its pulse awaits an answer. *)
Definition demo_closed : Driver nat (Fleet (list (TypeDBTransactionImpl nat nat))) :=
  fleet_step (λ _, 5%Z) demo_used (FClose 1).

Lemma closed_session_rests_witness :
  let d := fleet_step (λ _, 5%Z) demo_closed (FAnswer 0) in
  closed_at 1 d ∧ pulses_of 1 (clients demo_closed) = 2 ∧ pulses_of 1 (clients d) < 2 ∧
  f_timers (clients d) = [2; 3].
Proof.
  assert (closed_at 1 demo_closed) as Hc.
  { destruct (f_sessions (clients demo_closed) !! 1) as [s|] eqn:Hs; [|vm_compute in Hs; discriminate].
    exists s. split; [exact Hs|]. vm_compute in Hs. injection Hs as <-. reflexivity. }
  assert (reachable (λ _, 5%Z) demo_fleet demo_closed) as Hr
    by (apply reach_step, demo_used_reachable).
  destruct (closed_session_rests (λ _, 5%Z) demo_fleet demo_closed (FAnswer 0) 1 demo_fleet_new Hr Hc)
    as (H1 & _ & _ & H2).
  assert (pulses_of 1 (clients demo_closed) = 2) as H3 by (vm_compute; reflexivity).
  split; [exact H1|]. split; [exact H3|]. split; [|vm_compute; reflexivity].
  rewrite <- H3. apply (H2 0 (Ret true)); [reflexivity|vm_compute; reflexivity|discriminate].
Defined.

(** *** What the code does not prevent *)

(** A server that gives every session the same id. *)
Definition repeating_server : GRPCStub nat := {|
  session_open := λ _ _ _ n, (Ret (mkSessionOpenRes [Byte.x0a] 0), n);
  session_close := session_close; session_pulse := session_pulse;
  databases_contains := databases_contains; databases_get := databases_get;
  connection_open := connection_open; servers_all := servers_all;
  databases_create := databases_create; databases_all := databases_all;
  database_delete := database_delete; database_schema := database_schema;
  database_type_schema := database_type_schema; database_rule_schema := database_rule_schema;
  users_all := users_all; users_contains := users_contains; users_create := users_create;
  users_delete := users_delete; users_password_set := users_password_set; users_get := users_get;
  user_password_update := user_password_update; user_token := user_token;
  grpc_transaction := grpc_transaction;
|}.

(** A session that is refused because its id is taken is left open, with its
    pulse scheduled; closing it takes the other session out of the driver. *)
Example refused_session_left_open :
  let step := fleet_step (G := repeating_server) (λ _, 5%Z) in
  let d := foldl step demo_fleet [FSession "db" DATA None; FSession "db" DATA None] in
  s_isOpen <$> f_sessions (clients d) = [true; true] ∧ f_timers (clients d) = [0; 1] ∧
  d_sessions d = {[ "0x0a" := 0 ]} ∧ d_sessions (step d (FClose 1)) = ∅.
Proof. split_and!; vm_compute; reflexivity. Qed.

(** Transactions that cannot be opened on the first of two servers. *)
#[local] Instance flaky_transactions : TransactionOps nat := {|
  txop_open st _ _ _ _ _ := λ n,
    if bool_decide (st = 0) then (Throw (wrapped down), n) else (Ret n, S n);
  txop_close _ := mret tt;
  txop_closed _ _ := false;
|}.

Definition two_replicas : Driver nat (Fleet nat) :=
  mkDriver (mkWorld 0 [mkStub "a" None None false; mkStub "b" None None false] []) true true
    [("a", sd_a); ("b", sd_b)] {[ "db" := 0 ]} ∅ [mkDatabase "db" [rep_a; rep_b]] 0
    (mkFleet [] 0 0 [] [] []).

(** Reconnecting goes on to the next replica when the transaction cannot be
    opened on a server where the session was reopened: the session opened there
    and its pulse timer, which nothing clears any more, stay behind, and the
    session is no longer filed in the driver. *)
Example reconnecting_leaves_a_pulse :
  let d := foldl (fleet_step (λ _, 5%Z)) two_replicas
    [FSession "db" DATA None; FTransaction 0 READ None] in
  s_pulse <$> f_sessions (clients d) = [Some 2] ∧ f_timers (clients d) = [1; 2] ∧
  s_isOpen <$> f_sessions (clients d) = [true] ∧ d_sessions d = ∅ ∧
  f_timers (clients (fleet_step (λ _, 5%Z) d (FClose 0))) = [1].
Proof. split_and!; vm_compute; reflexivity. Qed.

(** A server that no longer knows the sessions. *)
Definition forgetful_server : GRPCStub nat := {|
  session_pulse := λ _ _ _ n, (Ret false, n);
  session_open := session_open; session_close := session_close;
  databases_contains := databases_contains; databases_get := databases_get;
  connection_open := connection_open; servers_all := servers_all;
  databases_create := databases_create; databases_all := databases_all;
  database_delete := database_delete; database_schema := database_schema;
  database_type_schema := database_type_schema; database_rule_schema := database_rule_schema;
  users_all := users_all; users_contains := users_contains; users_create := users_create;
  users_delete := users_delete; users_password_set := users_password_set; users_get := users_get;
  user_password_update := user_password_update; user_token := user_token;
  grpc_transaction := grpc_transaction;
|}.

(** The answer to a pulse is taken for the session as it is when the answer
    comes: a pulse that was sent before the session was reconnected, and that
    the server denies, closes the new session. *)
Example stale_answer_closes_session :
  let step := fleet_step (G := forgetful_server) (λ _, 5%Z) in
  let d := foldl step two_replicas
    [FSession "db" DATA None; FTimer 0; FTransaction 0 READ None] in
  s_isOpen <$> f_sessions (clients d) = [true] ∧
  s_isOpen <$> f_sessions (clients (step d (FAnswer 0))) = [false] ∧
  s_id <$> f_sessions (clients (step d (FAnswer 0))) = ["0x0c"].
Proof. split_and!; vm_compute; reflexivity. Qed.
