(* ===== verification/SharedSessions.v ===== *)
(** * Sessions over shared transmitters

    The sessions of a driver open their transactions over the transmitters of
    its servers, one per [ServerDriver], which all transactions of a server
    share. Session and Fleet reach transactions through an interface; this file
    implements it with shared transmitters, as in the code, and shows that this
    implementation simulates the one of Session, in which every transaction has
    a transmitter of its own. What Fleet shows of sessions then holds of
    sessions whose transactions share. *)
From S2P Require Import Prelude Errors Bytes Proto RequestBuilder BlockingQueue Dispatcher Collector BiStream BiStreamSpec Options Transaction Shared Stub Database Managers DriverImpl Session Settling Hoare Fleet FleetSafety.
Local Open Scope string_scope.
Local Open Scope list_scope.

Section shared.
Context {U : Uuid} {R P : Type} (show_state : TransactionStreamState → string).
Context (answers : list (stream_event R P)).
(** The open request is not batched, so that no timer is due while it is
    awaited. *)
Hypothesis no_timers : Forall (λ ev, no_stream_timer ev = true) answers.

Local Abbreviation Tx := (TypeDBTransactionImpl R P).
Local Abbreviation Server := (Server (R := R) (P := P)).
Local Abbreviation Heap := (list Tx).

(** ** State *)

(** A transaction whose stream was not connected is by itself; the others are
    at their server, which is known by its stub. *)
Inductive place : Type :=
  | Unconnected (tx : Tx)
  | PlacedAt (st i : nat).

Record Servers : Type := mkServers {
  servers : gmap nat Server;
  placed : list place;
}.

(** Every server has a transmitter from the start. *)
Definition server_at (st : nat) (x : Servers) : Server := default new_server (servers x !! st).

Definition put_server (st : nat) (sv : Server) (x : Servers) : Servers :=
  mkServers (<[st := sv]> (servers x)) (placed x).

Definition put_place (r : nat) (p : place) (x : Servers) : Servers :=
  mkServers (servers x) (<[r := p]> (placed x)).

(** The transaction, with the transmitter as it is now. *)
Definition transaction_at (p : place) (x : Servers) : option Tx :=
  match p with
  | Unconnected tx => Some tx
  | PlacedAt st i => view (server_at st x) i
  end.

(** ** Operations *)

(** The object joins the transactions of its server if its stream was
    connected. *)
Definition settle_down (st : nat) (tx : Tx) (x : Servers) : Servers :=
  match dispatcher (bidirectionalStream tx) with
  | Some _ =>
      let sv := server_at st x in
      mkServers (<[st := mkServer (tx_transmitter tx) (sv_transactions sv ++ [tx])]> (servers x))
        (placed x ++ [PlacedAt st (length (sv_transactions sv))])
  | None => mkServers (servers x) (placed x ++ [Unconnected tx])
  end.

(** [transaction = new TypeDBTransactionImpl(...); await transaction.open()] on
    the transmitter of the session's server, where the call for a stream came
    to [connection]. *)
Definition shared_open (st : nat) (connection : outcome exn unit) (sessionId : string)
    (type_ : TransactionTypeProto) (options : TypeDBOptions) (latency : Z) : proc Servers exn nat := λ x,
  let tx := mkTx (new_stream (sv_transmitter (server_at st x))) false [] in
  match (tx_open connection sessionId type_ options (number_of_Z latency) ≫= λ p,
         await_response show_state answers p) tx with
  | (Ret _, tx') => (Ret (length (placed x)),
      settle_down st (mkTx (bidirectionalStream tx') true (issued tx')) x)
  | (Throw e, tx') => (Throw e, settle_down st tx' x)
  | (Pending, tx') => (Pending, settle_down st tx' x)
  end.

Definition shared_close (r : nat) : proc Servers exn unit := λ x,
  match placed x !! r with
  | Some (Unconnected tx) =>
      let '(o, tx') := tx_close tx in (o, put_place r (Unconnected tx') x)
  | Some (PlacedAt st i) =>
      match view (server_at st x) i with
      | Some tx =>
          let '(o, tx') := tx_close tx in
          (o, put_server st (mkServer (tx_transmitter tx')
                (<[i := tx']> (sv_transactions (server_at st x)))) x)
      | None => (Throw (type_error "close"), x)
      end
  | None => (Throw (type_error "close"), x)
  end.

Definition shared_closed (r : nat) (x : Servers) : bool :=
  match placed x !! r ≫= λ p, transaction_at p x with
  | Some tx => negb (isOpen (bidirectionalStream tx))
  | None => false
  end.

#[export] Instance shared_transactions : TransactionOps Servers := {|
  txop_open := shared_open;
  txop_close := shared_close;
  txop_closed := shared_closed;
|}.

(** ** What each transaction is by itself *)

Definition by_itself (x : Servers) (p : place) : Tx :=
  match p with
  | Unconnected tx => put_transmitter new_transmitter tx
  | PlacedAt st i => from_option (alone_tx i) (new_tx new_transmitter) (view (server_at st x) i)
  end.

Definition separate (x : Servers) : Heap := by_itself x <$> placed x.

(** Servers are well formed, places exist, and no two transactions are at the
    same place. *)
Record servers_ok (x : Servers) : Prop := mkServersOk {
  so_inv : ∀ st, server_inv (server_at st x);
  so_place : ∀ p, p ∈ placed x →
    match p with
    | Unconnected tx => dispatcher (bidirectionalStream tx) = None
    | PlacedAt st i => is_Some (view (server_at st x) i)
    end;
  so_distinct : ∀ r r' st i, placed x !! r = Some (PlacedAt st i) →
    placed x !! r' = Some (PlacedAt st i) → r = r';
}.

Lemma server_at_put st st' sv x :
  server_at st' (put_server st sv x) = if decide (st' = st) then sv else server_at st' x.
Proof.
  unfold server_at. cbn. destruct (decide (st' = st)) as [->|Hne].
  - by rewrite lookup_insert_eq.
  - by rewrite lookup_insert_ne.
Qed.

(** *** Unconnected transactions *)

(** Without a dispatcher the transmitter is not used. *)
Lemma tx_close_unconnected t (tx : Tx) :
  dispatcher (bidirectionalStream tx) = None →
  tx_close (put_transmitter t tx) = ((tx_close tx).1, put_transmitter t (tx_close tx).2) ∧
  dispatcher (bidirectionalStream (tx_close tx).2) = None.
Proof.
  destruct tx as [ [c1 c2 dsp o e cbs cl n tr its] tk iss]. cbn. intros ->. done.
Qed.

(** *** Opening *)

(** What [open] does once the stream is connected. *)
Definition after_connecting (sessionId : string) (type_ : TransactionTypeProto)
    (options : TypeDBOptions) (latency : Z) : proc Tx exn unit :=
  (lift_outcome (Transaction_openReq sessionId type_ (options_proto options) (number_of_Z latency))
     ≫= λ openReq, rpcExecute openReq (Some false)) ≫= λ p, await_response show_state answers p.

Lemma after_connecting_alone d sessionId type_ options latency :
  isolated_tx d (after_connecting sessionId type_ options latency).
Proof using no_timers.
  unfold after_connecting. apply isolated_tx_bind; [|intros p; by apply await_response_alone].
  apply isolated_tx_bind; [apply isolated_tx_lift|]. intros req. apply rpcExecute_alone.
Qed.

Definition open_and_await connection sessionId type_ options latency : proc Tx exn unit :=
  tx_open connection sessionId type_ options (number_of_Z latency) ≫= λ p,
  await_response show_state answers p.

Lemma open_and_await_eq connection sessionId type_ options latency t :
  open_and_await connection sessionId type_ options latency (mkTx (new_stream t) false []) =
  match connection with
  | Ret _ => after_connecting sessionId type_ options latency (mkTx (opened t) false [])
  | Throw e => (Throw e, mkTx (new_stream t) false [])
  | Pending => (Pending, mkTx (new_stream t) false [])
  end.
Proof.
  unfold open_and_await, tx_open. rewrite (proc_bind_assoc _ _ _ _), proc_bind_eq.
  by destruct connection as [ []| |].
Qed.

(** A transaction that joins its server. *)
Lemma settle_down_ok st (tx : Tx) x :
  servers_ok x →
  match dispatcher (bidirectionalStream tx) with
  | Some _ => ∃ n, n = length (sv_transactions (server_at st x)) ∧
      owns n (bidirectionalStream tx) ∧
      spares n (transmitter_dispatcher (sv_transmitter (server_at st x))).2 (tx_transmitter tx)
  | None => True
  end →
  servers_ok (settle_down st tx x) ∧
  separate (settle_down st tx x) = separate x ++
    [match dispatcher (bidirectionalStream tx) with
     | Some _ => alone_tx (length (sv_transactions (server_at st x))) tx
     | None => put_transmitter new_transmitter tx
     end].
Proof.
  intros [Hinv Hplace Hdis]. unfold settle_down.
  destruct (dispatcher (bidirectionalStream tx)) as [dsp|] eqn:Hd; intros Htx; cycle 1.
  { split; [|unfold separate; cbn; by rewrite fmap_app]. split; [done|..]; cbn.
    - intros p [H| ->%list_elem_of_singleton]%elem_of_app; [by apply Hplace|done].
    - intros r r' st' i [H|[? [_ [=]]%list_lookup_singleton_Some]]%lookup_app_Some
        [H'|[? [_ [=]]%list_lookup_singleton_Some]]%lookup_app_Some. by eapply Hdis. }
  destruct Htx as (n & -> & Hown & Hs). set (sv := server_at st x) in *.
  destruct (server_extend tx sv (Hinv st) Hown Hs) as (I1 & V1 & K1).
  set (sv' := mkServer _ _) in *.
  set (x' := mkServers (<[st := sv']> (servers x)) (placed x)).
  assert (∀ st', server_at st' x' = if decide (st' = st) then sv' else server_at st' x) as Hat
    by (intros st'; apply server_at_put).
  assert (∀ st' i tx0, view (server_at st' x) i = Some tx0 →
    ∃ tx1, view (server_at st' x') i = Some tx1 ∧ alone_tx i tx1 = alone_tx i tx0) as Hold.
  { intros st' i tx0 Hv. rewrite Hat. destruct (decide (st' = st)) as [->|]; [by apply K1|by exists tx0]. }
  split.
  - split; cbn.
    + intros st'. change (server_at st' (mkServers _ _)) with (server_at st' x'). rewrite Hat.
      destruct (decide (st' = st)); [done|apply Hinv].
    + intros p [H| ->%list_elem_of_singleton]%elem_of_app.
      * specialize (Hplace p H). destruct p as [|st' i]; [done|]. destruct Hplace as [tx0 Hv].
        destruct (Hold _ _ _ Hv) as (tx1 & E & _). by exists tx1.
      * exists tx. change (server_at st (mkServers _ _)) with (server_at st x').
        by rewrite Hat, decide_True.
    + assert (∀ r i, placed x !! r = Some (PlacedAt st i) → i ≠ length (sv_transactions sv)) as Hne.
      { intros r i Hr ->. apply list_elem_of_lookup_2, Hplace in Hr. fold sv in Hr.
        apply view_some in Hr. lia. }
      intros r r' st' i [H|[H1 [H2 H3]%list_lookup_singleton_Some]]%lookup_app_Some
        [H'|[H1' [H2' H3']%list_lookup_singleton_Some]]%lookup_app_Some; simplify_eq; [by eapply Hdis|..|lia].
      * by apply Hne in H.
      * by apply Hne in H'.
  - unfold separate. cbn. rewrite fmap_app. cbn. f_equal.
    + apply list_fmap_ext. intros r p Hr. apply list_elem_of_lookup_2, Hplace in Hr.
      destruct p as [|st' i]; [done|]. destruct Hr as [tx0 Hv]. cbn.
      destruct (Hold _ _ _ Hv) as (tx1 & E & Ha).
      change (server_at st' (mkServers _ _)) with (server_at st' x'). rewrite E, Hv. exact Ha.
    + change (server_at st (mkServers _ _)) with (server_at st x'). rewrite Hat, decide_True by done.
      fold sv. rewrite V1. done.
Qed.

Lemma shared_open_simulates st connection sessionId type_ options latency x :
  servers_ok x →
  let '(o, x') := shared_open st connection sessionId type_ options latency x in
  servers_ok x' ∧
  heap_open show_state answers connection sessionId type_ options latency (separate x) =
    (o, separate x').
Proof using no_timers.
  intros Hok. set (sv := server_at st x). set (t := sv_transmitter sv).
  pose proof (so_inv _ Hok st) as [Hh Ho _]. fold sv t in Hh, Ho.
  unfold shared_open, heap_open. fold sv t.
  change (tx_open connection sessionId type_ options (number_of_Z latency) ≫= _)
    with (open_and_await connection sessionId type_ options latency).
  rewrite !open_and_await_eq. unfold separate at 1 2 3. rewrite !length_fmap. fold (separate x).
  destruct connection as [ []|e|].
  - pose proof (opened_owns (R := R) (P := P) t) as Hown.
    pose proof (opened_alone (R := R) (P := P) t Ho) as Hal.
    rewrite Hh in Hown, Hal. set (n := length (sv_transactions sv)) in *.
    destruct (after_connecting_alone n sessionId type_ options latency (mkTx (opened t) false []) Hown)
      as (E & H1 & H2).
    assert (alone_tx n (mkTx (opened t) false []) = mkTx (opened new_transmitter) false []) as Ha
      by (unfold alone_tx; cbn; by rewrite Hal).
    rewrite Ha in E. rewrite E.
    assert (∀ tx : Tx, bidirectionalStream tx = bidirectionalStream
        (after_connecting sessionId type_ options latency (mkTx (opened t) false [])).2 →
      servers_ok (settle_down st tx x) ∧
      separate (settle_down st tx x) = separate x ++ [alone_tx n tx]) as Hset.
    { intros tx Htx. rewrite <- Htx in H1. unfold tx_transmitter in H2. rewrite <- Htx in H2.
      pose proof (settle_down_ok st tx x Hok) as H. rewrite (own_dispatcher _ _ H1) in H.
      apply H. by exists n. }
    destruct (after_connecting _ _ _ _ (mkTx (opened t) false [])) as [[a|e|] tx'];
      cbn [fst snd] in *; edestruct Hset as [S1 S2]; try (split; [exact S1|by rewrite S2]); done.
  - destruct (settle_down_ok st (mkTx (new_stream t) false []) x Hok I) as [S1 S2]. split; [done|].
    by rewrite S2.
  - destruct (settle_down_ok st (mkTx (new_stream t) false []) x Hok I) as [S1 S2]. split; [done|].
    by rewrite S2.
Qed.

(** *** Closing *)

(** Replacing one transaction, at its place, changes it alone. *)
Lemma separate_insert r x x' tx' :
  placed x' !! r = Some tx' → length (placed x') = length (placed x) →
  (∀ r' p, r' ≠ r → placed x !! r' = Some p →
     ∃ p', placed x' !! r' = Some p' ∧ by_itself x' p' = by_itself x p) →
  separate x' = <[r := by_itself x' tx']> (separate x).
Proof.
  intros Hr Hlen Hk. apply list_eq. intros r'. unfold separate.
  destruct (decide (r' = r)) as [->|Hne].
  - rewrite list_lookup_fmap, Hr, list_lookup_insert_eq; [done|].
    rewrite length_fmap, <- Hlen. by eapply lookup_lt_Some.
  - rewrite list_lookup_insert_ne by done. rewrite !list_lookup_fmap.
    destruct (placed x !! r') as [p|] eqn:Hp.
    + destruct (Hk r' p Hne Hp) as (p' & -> & E). cbn. by rewrite E.
    + apply lookup_ge_None in Hp. rewrite <- Hlen in Hp. apply lookup_ge_None in Hp. by rewrite Hp.
Qed.

Lemma shared_close_simulates r x :
  servers_ok x →
  let '(o, x') := shared_close r x in
  servers_ok x' ∧ length (placed x') = length (placed x) ∧
  at_tx r tx_close (separate x) = (o, separate x').
Proof.
  intros Hok. pose proof Hok as [Hinv Hplace Hdis]. unfold shared_close, at_tx.
  unfold separate at 1. rewrite list_lookup_fmap.
  destruct (placed x !! r) as [[tx|st i]|] eqn:Hr; cbn [fmap option_fmap option_map]; [| |done].
  - pose proof (Hplace _ (list_elem_of_lookup_2 _ _ _ Hr)) as Hd. cbn in Hd.
    destruct (tx_close_unconnected new_transmitter tx Hd) as [E Hd']. cbn [by_itself]. rewrite E.
    destruct (tx_close tx) as [o tx']. cbn [fst snd] in *.
    pose proof (lookup_lt_Some _ _ _ Hr) as Hlt. split_and!.
    + split; [done|..]; cbn.
      * intros p (r' & [(_ & <- & _)|[_ Hp]]%list_lookup_insert_Some)%list_elem_of_lookup_1; [done|].
        by apply Hplace, (list_elem_of_lookup_2 _ r').
      * intros r1 r2 st i. rewrite !list_lookup_insert_Some. naive_solver.
    + cbn. apply length_insert.
    + f_equal. symmetry. apply (separate_insert r x (put_place r (Unconnected tx') x) (Unconnected tx')).
      * cbn. by apply list_lookup_insert_eq.
      * cbn. apply length_insert.
      * intros r' p Hne Hp. exists p. cbn. by rewrite list_lookup_insert_ne.
  - destruct (Hplace _ (list_elem_of_lookup_2 _ _ _ Hr)) as [tx Hv]. cbn [by_itself]. rewrite Hv.
    cbn [from_option]. set (sv := server_at st x) in *.
    pose proof (si_owns _ (Hinv st) _ _ Hv) as Hown.
    destruct (tx_close_alone i tx Hown) as (E & H1 & H2). rewrite E.
    destruct (tx_close tx) as [o tx']. cbn [fst snd] in *.
    destruct (server_update i tx tx' sv (Hinv st) Hv H1 H2) as (I1 & V1 & K1).
    set (sv' := mkServer _ _) in *. set (x' := put_server st sv' x).
    assert (∀ st' i' tx0, (st', i') ≠ (st, i) → view (server_at st' x) i' = Some tx0 →
      ∃ tx1, view (server_at st' x') i' = Some tx1 ∧ alone_tx i' tx1 = alone_tx i' tx0) as Hold.
    { intros st' i' tx0 Hne Hv'. unfold x'. rewrite server_at_put.
      destruct (decide (st' = st)) as [->|]; [|by exists tx0]. apply K1; [congruence|done]. }
    assert (view (server_at st x') i = Some tx') as Hnew
      by (unfold x'; by rewrite server_at_put, decide_True).
    split_and!; [|done|].
    + split.
      * intros st'. unfold x'. rewrite server_at_put. destruct (decide (st' = st)); [done|apply Hinv].
      * intros p Hp. specialize (Hplace p Hp). destruct p as [|st' i']; [done|].
        destruct Hplace as [tx0 Hv0].
        destruct (decide ((st', i') = (st, i))) as [[= -> ->]|Hne]; [by exists tx'|].
        destruct (Hold _ _ _ Hne Hv0) as (tx1 & E1 & _). by exists tx1.
      * done.
    + f_equal. symmetry. rewrite (separate_insert r x x' (PlacedAt st i)); [|done|done|].
      * cbn. by rewrite Hnew.
      * intros r' p Hne Hp. exists p. split; [done|]. destruct p as [|st' i']; [done|]. cbn.
        destruct (Hplace _ (list_elem_of_lookup_2 _ _ _ Hp)) as [tx0 Hv0].
        destruct (Hold st' i' tx0) as (tx1 & E1 & Ha); [|done|by rewrite E1, Hv0].
        intros [= -> ->]. apply Hne. by eapply Hdis.
Qed.

(** *** The interface *)

Lemma shared_closed_separate r x :
  servers_ok x →
  shared_closed r x =
    txop_closed (TransactionOps := heap_transactions show_state answers) r (separate x).
Proof.
  intros Hok. unfold shared_closed. cbn. unfold separate. rewrite list_lookup_fmap.
  destruct (placed x !! r) as [p|] eqn:Hr; [|done]. cbn.
  pose proof (so_place _ Hok _ (list_elem_of_lookup_2 _ _ _ Hr)) as Hp.
  destruct p as [tx|st i]; [done|]. cbn. by destruct Hp as [tx ->].
Qed.

(** C8 - transactions over shared transmitters behave as transactions with
    transmitters of their own (where no flush timer is due while the open
    request, which is not batched, is awaited): opening one over the transmitter of its server,
    among all that are open there, comes to the same result as opening it by
    itself, and so does closing one; each transaction stays what it would be by
    itself, whatever the others do; and the shared state stays well formed. *)
Theorem shared_simulates (x : Servers) (Hok : servers_ok x) :
  let heap := heap_transactions show_state answers in
  (∀ st connection id type_ options latency,
     let '(o, x') := shared_open st connection id type_ options latency x in
     servers_ok x' ∧
     txop_open (TransactionOps := heap) st connection id type_ options latency (separate x) = (o, separate x')) ∧
  (∀ r, let '(o, x') := shared_close r x in
     servers_ok x' ∧ txop_close (TransactionOps := heap) r (separate x) = (o, separate x')) ∧
  (∀ r, shared_closed r x = txop_closed (TransactionOps := heap) r (separate x)).
Proof using no_timers.
  split_and!.
  - intros st connection id type_ options latency. by apply shared_open_simulates.
  - intros r. pose proof (shared_close_simulates r x Hok) as H.
    destruct (shared_close r x) as [o x']. tauto.
  - intros r. by apply shared_closed_separate.
Qed.

#[export] Instance shared_transactions_laws : TransactionLaws Servers.
Proof.
  split.
  - intros r x. cbn. unfold shared_close, shared_closed.
    destruct (placed x !! r) as [[tx|st i]|] eqn:Hr; [| |done].
    + pose proof (tx_close_closed tx) as Hc. destruct (tx_close tx) as [o tx']. cbn in *. intros _.
      rewrite list_lookup_insert_eq by by eapply lookup_lt_Some. cbn. by rewrite Hc.
    + destruct (view (server_at st x) i) as [tx|] eqn:Hv; [|done].
      pose proof (tx_close_closed tx) as Hc. destruct (tx_close tx) as [o tx']. cbn in *. intros _.
      rewrite Hr. cbn. rewrite server_at_put, decide_True by done. unfold view. cbn.
      apply view_lookup in Hv as (tx0 & Hv & _).
      rewrite list_lookup_insert_eq by by eapply lookup_lt_Some. cbn. by rewrite Hc.
  - intros r r' x. cbn. unfold shared_close, shared_closed.
    destruct (placed x !! r) as [[tx|st i]|] eqn:Hr; [| |done].
    + pose proof (tx_close_closed tx) as Hc. destruct (tx_close tx) as [o tx']. cbn in *.
      destruct (decide (r' = r)) as [->|Hne].
      * rewrite list_lookup_insert_eq by by eapply lookup_lt_Some. cbn. by rewrite Hc.
      * by rewrite list_lookup_insert_ne.
    + destruct (view (server_at st x) i) as [tx|] eqn:Hv; [|done].
      pose proof (tx_close_closed tx) as Hc. destruct (tx_close tx) as [o tx']. cbn in *.
      destruct (placed x !! r') as [[tx1|st' i']|]; [done| |done]. cbn. rewrite server_at_put.
      destruct (decide (st' = st)) as [->|]; [|done].
      apply view_lookup in Hv as (tx0 & Hv & _). unfold view. cbn.
      destruct (decide (i' = i)) as [->|].
      * rewrite list_lookup_insert_eq by by eapply lookup_lt_Some. cbn. by rewrite Hc.
      * rewrite list_lookup_insert_ne by done. by destruct (sv_transactions (server_at st x) !! i').
Qed.

(** Transactions over shared transmitters are separate objects. *)
#[export] Instance shared_transaction_objects : TransactionObjects Servers.
Proof using no_timers.
  assert (∀ st connection id type_ options latency x, servers_ok x → ∃ tx,
    separate (shared_open st connection id type_ options latency x).2 = separate x ++ [tx] ∧
    servers_ok (shared_open st connection id type_ options latency x).2 ∧
    ∀ r, (shared_open st connection id type_ options latency x).1 = Ret r → r = length (separate x)) as Hopen.
  { intros st connection id type_ options latency x Hok.
    pose proof (shared_open_simulates st connection id type_ options latency x Hok) as H.
    destruct (heap_open_grows show_state answers connection id type_ options latency (separate x))
      as (tx & E1 & E2). exists tx. destruct (shared_open _ _ _ _ _ _ x) as [o x'].
    destruct H as [H E]. rewrite E in E1, E2. by split_and!. }
  assert (∀ r x, servers_ok x → servers_ok (shared_close r x).2 ∧
    separate (shared_close r x).2 = (at_tx r tx_close (separate x)).2) as Hclose.
  { intros r x Hok. pose proof (shared_close_simulates r x Hok) as H.
    destruct (shared_close r x) as [o x']. destruct H as (H & _ & ->). done. }
  refine {| tx_object := Tx; txop_ok := servers_ok; txop_made x := length (separate x);
            txop_object r x := separate x !! r |}; cbn.
  - intros st connection id type_ options latency x Hok. by destruct (Hopen st connection id type_ options latency x Hok) as (tx & _ & H & _).
  - intros st connection id type_ options latency x Hok.
    destruct (Hopen st connection id type_ options latency x Hok) as (tx & -> & _). rewrite length_app. lia.
  - intros st connection id type_ options latency x r Hok Hr.
    destruct (Hopen st connection id type_ options latency x Hok) as (tx & -> & _ & H). rewrite length_app.
    rewrite (H r Hr). cbn. lia.
  - intros st connection id type_ options latency x r Hok Hr.
    destruct (Hopen st connection id type_ options latency x Hok) as (tx & -> & _). by apply lookup_app_l.
  - intros r x Hok. by apply Hclose.
  - intros r x Hok. destruct (Hclose r x Hok) as [_ ->]. unfold at_tx.
    destruct (separate x !! r) as [tx|]; [|done]. destruct (tx_close tx). apply length_insert.
  - intros r r' x Hok Hne. destruct (Hclose r x Hok) as [_ ->]. unfold at_tx.
    destruct (separate x !! r) as [tx|]; [|done]. destruct (tx_close tx). by apply list_lookup_insert_ne.
Defined.

(** No transaction yet. *)
Definition no_servers : Servers := mkServers ∅ [].

Lemma no_servers_ok : servers_ok no_servers.
Proof using Type.
  split; [intros st; apply server_inv_new|by intros p ?%elem_of_nil|done].
Qed.
End shared.

(** ** Concrete runs *)

#[local] Existing Instance number_uuid.

Lemma demo_answers_no_timers : Forall (λ ev, no_stream_timer ev = true) demo_answers.
Proof. by repeat constructor. Qed.

(** Two transactions of one server and one of another. *)
Definition demo_open (st : nat) : proc (Servers (R := nat) (P := nat)) exn nat :=
  shared_open demo_show demo_answers st (Ret tt) "0x0a" READ no_options 5.

Definition demo_servers : Servers (R := nat) (P := nat) :=
  (demo_open 1 (demo_open 0 (demo_open 0 no_servers).2).2).2.

Lemma demo_servers_ok : servers_ok demo_servers.
Proof.
  assert (∀ st x, servers_ok x → servers_ok (demo_open st x).2) as H.
  { intros st x Hx. pose proof (shared_open_simulates demo_show demo_answers
      demo_answers_no_timers st (Ret tt) "0x0a" READ no_options 5 x Hx) as H.
    unfold demo_open. destruct (shared_open _ _ _ _ _ _ _ _ x) as [o x']. apply H. }
  by apply H, H, H, no_servers_ok.
Qed.

Lemma shared_simulates_witness :
  let '(o, x') := shared_close 0 demo_servers in
  o = Ret tt ∧ dispatchers (sv_transmitter (server_at 0 x')) = [1] ∧
  dispatchers (sv_transmitter (server_at 1 x')) = [0] ∧
  separate x' = (at_tx 0 tx_close (separate demo_servers)).2 ∧
  shared_closed 0 x' = true ∧ shared_closed 1 x' = false.
Proof.
  pose proof (shared_simulates demo_show demo_answers demo_answers_no_timers demo_servers
    demo_servers_ok) as (_ & Hc & _).
  specialize (Hc 0). destruct (shared_close 0 demo_servers) as [o x'] eqn:E. destruct Hc as [_ Hc].
  cbn [txop_close heap_transactions] in Hc.
  split; [apply (f_equal fst) in E; vm_compute in E; symmetry; exact E|].
  assert (x' = (shared_close 0 demo_servers).2) as -> by by rewrite E.
  split; [vm_compute; reflexivity|]. split; [vm_compute; reflexivity|].
  split; [by rewrite Hc|]. split; vm_compute; reflexivity.
Defined.

#[local] Instance demo_shared_transactions : TransactionOps (Servers (R := nat) (P := nat)) :=
  shared_transactions demo_show demo_answers.
#[local] Existing Instance counting_server.

(** Two sessions on one server, with a transaction each: closing one session
    takes its dispatcher from the transmitter, and leaves the other's. *)
Example sessions_share_a_transmitter :
  let d := foldl (fleet_step (λ _, 5%Z))
    (mkDriver (mkWorld 0 [mkStub "a" None None false] []) true false [("a", sd_a)] ∅ ∅ [] 0
       (mkFleet [] no_servers 0 [] [] []))
    [FSession "db" DATA None; FSession "db" DATA None; FTransaction 0 READ None;
     FTransaction 1 READ None; FClose 0] in
  dispatchers (sv_transmitter (server_at 0 (f_transactions (clients d)))) = [1] ∧
  s_transactions <$> f_sessions (clients d) = [[]; [1]].
Proof. split; vm_compute; reflexivity. Qed.
