(* ===== verification/Messages.v ===== *)
(** * Response messages

    The messages of the protocol that the driver reads. Their classes are
    generated code outside the repository; the model keeps the fields that the
    source reads. A one-of without a case has the text it is printed as, which
    the error messages quote. A message that carries a date stands for one
    object: each is decoded once, and the [Date] made from it is named by it. *)
From Stdlib Require Import Floats.SpecFloat.
From S2P Require Import Prelude Errors Bytes Proto.
Local Open Scope string_scope.
Local Open Scope list_scope.

(** ** Concepts *)

Record EntityTypeProto : Type := mkEntityTypeProto {
  etp_label : string;
  etp_is_root : bool;
  etp_is_abstract : bool;
}.

Record RelationTypeProto : Type := mkRelationTypeProto {
  rtp_label : string;
  rtp_is_root : bool;
  rtp_is_abstract : bool;
}.

(** [value_type] is [None] for a number that the source does not name. *)
Record AttributeTypeProto : Type := mkAttributeTypeProto {
  atp_label : string;
  atp_is_root : bool;
  atp_is_abstract : bool;
  atp_value_type : option ValueTypeProto;
}.

Record RoleTypeProto : Type := mkRoleTypeProto {
  rop_scope : string;
  rop_label : string;
  rop_is_root : bool;
  rop_is_abstract : bool;
}.

Inductive ThingTypeProto : Type :=
  | TTP_entity_type (p : EntityTypeProto)
  | TTP_relation_type (p : RelationTypeProto)
  | TTP_attribute_type (p : AttributeTypeProto)
  | TTP_thing_type_root
  | TTP_unset (printed : string).

Inductive ValueProto : Type :=
  | VP_boolean (b : bool)
  | VP_long (n : spec_float)
  | VP_double (n : spec_float)
  | VP_string (s : string)
  | VP_date_time (obj : positive) (millis : spec_float)
  | VP_unset (printed : string).

Record EntityProto : Type := mkEntityProto {
  ep_iid : list byte;
  ep_entity_type : option EntityTypeProto;
  ep_inferred : bool;
}.

Record RelationProto : Type := mkRelationProto {
  rp_iid : list byte;
  rp_relation_type : option RelationTypeProto;
  rp_inferred : bool;
}.

Record AttributeProto : Type := mkAttributeProto {
  ap_iid : list byte;
  ap_attribute_type : option AttributeTypeProto;
  ap_value : option ValueProto;
  ap_inferred : bool;
}.

Inductive ThingProto : Type :=
  | TP_entity (p : EntityProto)
  | TP_relation (p : RelationProto)
  | TP_attribute (p : AttributeProto)
  | TP_unset (printed : string).

Inductive ConceptProto : Type :=
  | CP_entity_type (p : EntityTypeProto)
  | CP_relation_type (p : RelationTypeProto)
  | CP_attribute_type (p : AttributeTypeProto)
  | CP_role_type (p : RoleTypeProto)
  | CP_thing_type_root
  | CP_entity (p : EntityProto)
  | CP_relation (p : RelationProto)
  | CP_attribute (p : AttributeProto)
  | CP_value (p : ValueProto)
  | CP_unset (printed : string).

(** ** Answers and rules *)

Record ExplainableProto : Type := mkExplainableProto {
  xp_conjunction : string;
  xp_id : spec_float;
}.

(** Maps are lists of entries, in the order of [forEach]. *)
Record ExplainablesProto : Type := mkExplainablesProto {
  xs_relations : list (string * ExplainableProto);
  xs_attributes : list (string * ExplainableProto);
  xs_ownerships : list (string * list (string * ExplainableProto));
}.

Record ConceptMapProto : Type := mkConceptMapProto {
  cm_map : list (string * ConceptProto);
  cm_explainables : option ExplainablesProto;
}.

Record ConceptMapGroupProto : Type := mkConceptMapGroupProto {
  cg_owner : ConceptProto;
  cg_concept_maps : list ConceptMapProto;
}.

Record ValueGroupProto : Type := mkValueGroupProto {
  vg_owner : ConceptProto;
  vg_value : option ValueProto;
}.

Record RuleProto : Type := mkRuleProto {
  rup_label : string;
  rup_when : string;
  rup_then : string;
}.

Record ExplanationProto : Type := mkExplanationProto {
  xpl_rule : RuleProto;
  xpl_condition : ConceptMapProto;
  xpl_conclusion : ConceptMapProto;
  xpl_var_mapping : list (string * list string);
}.

(** ** Fetch answers *)

Inductive ReadableConceptProto : Type :=
  | RC_entity_type (p : EntityTypeProto)
  | RC_relation_type (p : RelationTypeProto)
  | RC_attribute_type (p : AttributeTypeProto)
  | RC_role_type (p : RoleTypeProto)
  | RC_attribute (p : AttributeProto)
  | RC_value (p : ValueProto)
  | RC_thing_type_root
  | RC_unset.

Unset Elimination Schemes.
Inductive NodeProto : Type :=
  | NP_map (l : list (string * NodeProto))
  | NP_list (l : list NodeProto)
  | NP_readable_concept (p : ReadableConceptProto)
  | NP_unset.
Set Elimination Schemes.

(** The root of a tree, which may be missing. *)
Record TreeProto : Type := mkTreeProto { tree_root : option (list (string * NodeProto)) }.

(** ** Responses *)

(** What the innermost message of a response holds: one field, by its type. *)
Inductive payload : Type :=
  | P_none
  | P_entity_type (p : option EntityTypeProto)
  | P_entity_types (l : list EntityTypeProto)
  | P_relation_type (p : option RelationTypeProto)
  | P_relation_types (l : list RelationTypeProto)
  | P_attribute_type (p : option AttributeTypeProto)
  | P_attribute_types (l : list AttributeTypeProto)
  | P_role_type (p : option RoleTypeProto)
  | P_role_types (l : list RoleTypeProto)
  | P_thing_types (l : list ThingTypeProto)
  | P_entity (p : option EntityProto)
  | P_entities (l : list EntityProto)
  | P_relation (p : option RelationProto)
  | P_relations (l : list RelationProto)
  | P_attribute (p : option AttributeProto)
  | P_attributes (l : list AttributeProto)
  | P_things (l : list ThingProto)
  | P_role_players (l : list (option RoleTypeProto * option ThingProto))
  | P_string (s : string)
  | P_exceptions (l : list (string * string))
  | P_rule (p : option RuleProto)
  | P_rules (l : list RuleProto)
  | P_value (p : option ValueProto)
  | P_concept_maps (l : list ConceptMapProto)
  | P_concept_map_groups (l : list ConceptMapGroupProto)
  | P_value_groups (l : list ValueGroupProto)
  | P_explanations (l : list ExplanationProto)
  | P_trees (l : list TreeProto).

(** A response is a chain of one-ofs, each with one case set, down to the
    message that holds the result. *)
Inductive msg : Type :=
  | Case (field : string) (m : msg)
  | Body (p : payload).

(** [m.f], for a message case [f]: reading it of undefined throws, and a case
    that is not set is undefined. *)
Definition get (f : string) (m : option msg) : outcome exn (option msg) :=
  match m with
  | None => Throw (type_error f)
  | Some (Case g sub) => Ret (if bool_decide (f = g) then Some sub else None)
  | Some (Body _) => Ret None
  end.

(** [m.f] for the field of the innermost message, which has the type that [r]
    reads; a repeated field is never undefined, so the default is only met by
    a message of another type. *)
Definition read {A} (f : string) (r : payload → option A) (dflt : A) (m : option msg)
    : outcome exn A :=
  match m with
  | None => Throw (type_error f)
  | Some (Body p) => Ret (default dflt (r p))
  | Some (Case _ _) => Ret dflt
  end.

Definition get_path (fs : list string) (m : msg) : outcome exn (option msg) :=
  foldl (λ o f, outcome_bind o (get f)) (Ret (Some m)) fs.

(** The response whose cases are [fs]. *)
Definition response (fs : list string) (p : payload) : msg := foldr Case (Body p) fs.

Lemma get_path_response fs gs p : get_path fs (response (fs ++ gs) p) = Ret (Some (response gs p)).
Proof.
  unfold get_path, response. induction fs as [|f fs IH]; [done|]. cbn [app foldr foldl].
  cbn [outcome_bind get]. by rewrite bool_decide_eq_true_2.
Qed.
