(* ===== verification/Concept.v ===== *)
(** * Concepts

    Models the concept classes: [concept/ConceptImpl.ts], [concept/type/*.ts],
    [concept/thing/*.ts], [concept/value/ValueImpl.ts] (data, casting,
    equality, decoding), [common/rpc/ResponseReader.ts], and the enumerations
    and [proto] functions of [api/concept/**]. The methods that talk to the
    server are in the file ConceptOps. *)
From Stdlib Require Import Floats.SpecFloat.
From S2P Require Import Prelude Errors Bytes Proto RequestBuilder Messages.
Local Open Scope string_scope.
Local Open Scope list_scope.

(** ** [Concept.ValueType] and [Concept.Transitivity] *)

Record ValueType : Type := mkValueType {
  vt_proto : ValueTypeProto;
  vt_name : string;
}.

#[export] Instance ValueType_eq_dec : EqDecision ValueType.
Proof. solve_decision. Defined.

Definition ValueType_OBJECT : ValueType := mkValueType OBJECT "OBJECT".
Definition ValueType_BOOLEAN : ValueType := mkValueType BOOLEAN "BOOLEAN".
Definition ValueType_LONG : ValueType := mkValueType LONG "LONG".
Definition ValueType_DOUBLE : ValueType := mkValueType DOUBLE "DOUBLE".
Definition ValueType_STRING : ValueType := mkValueType STRING "STRING".
Definition ValueType_DATETIME : ValueType := mkValueType DATETIME "DATETIME".

(** A number without a case of the switch gives undefined. *)
Definition ValueType_of (proto : option ValueTypeProto) : option ValueType :=
  match proto with
  | Some OBJECT => Some ValueType_OBJECT
  | Some BOOLEAN => Some ValueType_BOOLEAN
  | Some LONG => Some ValueType_LONG
  | Some DOUBLE => Some ValueType_DOUBLE
  | Some STRING => Some ValueType_STRING
  | Some DATETIME => Some ValueType_DATETIME
  | None => None
  end.

(** [c.toLowerCase()] for the letters that occur in the names *)
Definition lower_ascii (c : Ascii.ascii) : Ascii.ascii :=
  let n := Ascii.nat_of_ascii c in
  if (65 <=? n)%nat && (n <=? 90)%nat then Ascii.ascii_of_nat (n + 32) else c.

Fixpoint toLowerCase (s : string) : string :=
  match s with
  | EmptyString => EmptyString
  | String c s' => String (lower_ascii c) (toLowerCase s')
  end.

Definition ValueType_name (t : ValueType) : string := toLowerCase (vt_name t).

Definition ValueType_toString (t : ValueType) : string :=
  ("ValueType[" ++ vt_name t ++ "]")%string.

Record Transitivity : Type := mkTransitivity { tr_proto : TypeTransitivity }.

Definition Transitivity_TRANSITIVE : Transitivity := mkTransitivity TRANSITIVE.
Definition Transitivity_EXPLICIT : Transitivity := mkTransitivity EXPLICIT.

(** ** The objects *)

(** The class of a type object: the subclasses of [TypeImpl], and
    [ThingTypeImpl.Root]. *)
Inductive type_class : Type :=
  | EntityTypeImpl
  | RelationTypeImpl
  | AttributeTypeImpl (valueType : option ValueType)
  | ThingTypeRoot
  | RoleTypeImpl.

Record TypeImpl : Type := mkType {
  t_class : type_class;
  t_label : Label;
  t_root : bool;
  t_abstract : bool;
}.

Record ValueImpl : Type := mkValue {
  v_valueType : ValueType;
  v_value : jsval;
}.

(** The subclasses of [ThingImpl]; the type object of a thing may be null, and
    so may the value of an attribute. *)
Inductive thing_class : Type :=
  | EntityImpl
  | RelationImpl
  | AttributeImpl (value : option ValueImpl).

Record ThingImpl : Type := mkThing {
  th_class : thing_class;
  th_iid : string;
  th_inferred : bool;
  th_type : option TypeImpl;
}.

Inductive Concept : Type :=
  | ConceptType (t : TypeImpl)
  | ConceptThing (th : ThingImpl)
  | ConceptValue (v : ValueImpl).

(** ** Classes and casting *)

(** What [is...] and [as...] methods there are. *)
Inductive kind : Type :=
  | KType | KRoleType | KThingType | KEntityType | KAttributeType | KRelationType
  | KThing | KEntity | KAttribute | KRelation | KValue.

#[export] Instance kind_eq_dec : EqDecision kind.
Proof. solve_decision. Defined.

Definition kind_name (k : kind) : string :=
  match k with
  | KType => "Type"
  | KRoleType => "RoleType"
  | KThingType => "ThingType"
  | KEntityType => "EntityType"
  | KAttributeType => "AttributeType"
  | KRelationType => "RelationType"
  | KThing => "Thing"
  | KEntity => "Entity"
  | KAttribute => "Attribute"
  | KRelation => "Relation"
  | KValue => "Value"
  end.

(** The methods of a class: its name, what the [is...] methods return, and
    which [as...] methods return the object instead of throwing. *)
Record class : Type := mkClass {
  className : string;
  c_is : kind → bool;
  c_as : kind → bool;
}.

Definition override (k : kind) (f : kind → bool) : kind → bool :=
  λ k', if bool_decide (k' = k) then true else f k'.

(** [class C extends B] with an [is...] and an [as...] method of its own. *)
Definition extend (base : class) (own_is own_as : kind) : class :=
  mkClass (className base) (override own_is (c_is base)) (override own_as (c_as base)).

Definition with_name (n : string) (c : class) : class := mkClass n (c_is c) (c_as c).

Definition ConceptImpl_class : class := mkClass "" (λ _, false) (λ _, false).
Definition TypeImpl_class : class := extend ConceptImpl_class KType KType.
Definition ThingTypeImpl_class : class :=
  with_name "ThingType" (extend TypeImpl_class KThingType KThingType).
Definition EntityTypeImpl_class : class :=
  with_name "EntityType" (extend ThingTypeImpl_class KEntityType KEntityType).
Definition RelationTypeImpl_class : class :=
  with_name "RelationType" (extend ThingTypeImpl_class KRelationType KRelationType).
Definition AttributeTypeImpl_class : class :=
  with_name "AttributeType" (extend ThingTypeImpl_class KAttributeType KAttributeType).
Definition RoleTypeImpl_class : class :=
  with_name "RoleType" (extend TypeImpl_class KRoleType KRoleType).
Definition ThingImpl_class : class := extend ConceptImpl_class KThing KThing.
Definition EntityImpl_class : class :=
  with_name "Entity" (extend ThingImpl_class KEntity KEntity).
Definition RelationImpl_class : class :=
  with_name "Relation" (extend ThingImpl_class KRelation KRelation).
Definition AttributeImpl_class : class :=
  with_name "Attribute" (extend ThingImpl_class KAttribute KAttribute).
Definition ValueImpl_class : class :=
  with_name "Value" (extend ConceptImpl_class KValue KValue).

Definition class_of (c : Concept) : class :=
  match c with
  | ConceptType t =>
      match t_class t with
      | EntityTypeImpl => EntityTypeImpl_class
      | RelationTypeImpl => RelationTypeImpl_class
      | AttributeTypeImpl _ => AttributeTypeImpl_class
      | ThingTypeRoot => ThingTypeImpl_class
      | RoleTypeImpl => RoleTypeImpl_class
      end
  | ConceptThing th =>
      match th_class th with
      | EntityImpl => EntityImpl_class
      | RelationImpl => RelationImpl_class
      | AttributeImpl _ => AttributeImpl_class
      end
  | ConceptValue _ => ValueImpl_class
  end.

(** [c.isK()] *)
Definition is_kind (k : kind) (c : Concept) : bool := c_is (class_of c) k.

(** [c.asK()] *)
Definition as_kind (k : kind) (c : Concept) : outcome exn Concept :=
  if c_as (class_of c) k then Ret c
  else Throw (driver_error INVALID_CONCEPT_CASTING [className (class_of c); kind_name k]).

(** ** Values *)

Definition isBoolean (v : ValueImpl) : bool := bool_decide (v_valueType v = ValueType_BOOLEAN).
Definition isLong (v : ValueImpl) : bool := bool_decide (v_valueType v = ValueType_LONG).
Definition isDouble (v : ValueImpl) : bool := bool_decide (v_valueType v = ValueType_DOUBLE).
Definition isString (v : ValueImpl) : bool := bool_decide (v_valueType v = ValueType_STRING).
Definition isDateTime (v : ValueImpl) : bool := bool_decide (v_valueType v = ValueType_DATETIME).

(** The casts do not look at the value itself. *)
Definition asBoolean (v : ValueImpl) : outcome exn jsval :=
  if negb (isBoolean v) then
    Throw (driver_error INVALID_CONCEPT_CASTING ["Value"; "Value.Boolean"])
  else Ret (v_value v).
Definition asLong (v : ValueImpl) : outcome exn jsval :=
  if negb (isLong v) then Throw (driver_error INVALID_CONCEPT_CASTING ["Value"; "Value.Long"])
  else Ret (v_value v).
Definition asDouble (v : ValueImpl) : outcome exn jsval :=
  if negb (isDouble v) then
    Throw (driver_error INVALID_CONCEPT_CASTING ["Value"; "Value.Double"])
  else Ret (v_value v).
Definition asString (v : ValueImpl) : outcome exn jsval :=
  if negb (isString v) then
    Throw (driver_error INVALID_CONCEPT_CASTING ["Value"; "Value.String"])
  else Ret (v_value v).
Definition asDateTime (v : ValueImpl) : outcome exn jsval :=
  if negb (isDateTime v) then
    Throw (driver_error INVALID_CONCEPT_CASTING ["Value"; "Value.DateTime"])
  else Ret (v_value v).

(** ** Equality and printing *)

(** The cast of [concept.asType()] etc. cannot fail after its test, so the
    object is matched on directly. *)
Definition type_equals (this : TypeImpl) (concept : Concept) : bool :=
  if negb (is_kind KType concept) then false
  else match concept with
       | ConceptType t => label_equals (t_label t) (t_label this)
       | _ => false
       end.

Definition thing_equals (this : ThingImpl) (concept : Concept) : bool :=
  if negb (is_kind KThing concept) then false
  else match concept with
       | ConceptThing th => bool_decide (th_iid th = th_iid this)
       | _ => false
       end.

Definition value_equals (this : ValueImpl) (concept : Concept) : bool :=
  if negb (is_kind KValue concept) then false
  else match concept with
       | ConceptValue v => bool_decide (v_valueType this = v_valueType v)
                           && js_eq (v_value this) (v_value v)
       | _ => false
       end.

Definition equals (this concept : Concept) : bool :=
  match this with
  | ConceptType t => type_equals t concept
  | ConceptThing th => thing_equals th concept
  | ConceptValue v => value_equals v concept
  end.

Definition type_toString (t : TypeImpl) : string :=
  (className (class_of (ConceptType t)) ++ "[label:" ++ scopedName (t_label t) ++ "]")%string.

Definition thing_toString (th : ThingImpl) : string :=
  (className (class_of (ConceptThing th)) ++ "[iid:" ++ th_iid th ++ "]")%string.

(** ** Constructors and decoding *)

(** [new TypeImpl(label, root, abstract)] *)
Definition new_type (c : type_class) (label : option Label) (root abstract_ : bool)
    : outcome exn TypeImpl :=
  match label with
  | None => Throw (TypeDBDriverError (ArgTemplate MISSING_LABEL))
  | Some l => Ret (mkType c l root abstract_)
  end.

(** [new ThingImpl(iid, inferred)] *)
Definition new_thing (c : thing_class) (iid : string) (inferred : bool) (type_ : option TypeImpl)
    : outcome exn ThingImpl :=
  if bool_decide (iid = "") then Throw (TypeDBDriverError (ArgTemplate MISSING_IID))
  else Ret (mkThing c iid inferred type_).

(** [null] for a message that is not there, and else what [f] makes of it. *)
Definition nullable {A B} (f : A → outcome exn B) (o : option A) : outcome exn (option B) :=
  match o with
  | None => Ret None
  | Some a => outcome_map Some (f a)
  end.

Definition ofEntityTypeProto (proto : option EntityTypeProto) : outcome exn (option TypeImpl) :=
  nullable (λ p, new_type EntityTypeImpl (Some (label_of (etp_label p)))
    (etp_is_root p) (etp_is_abstract p)) proto.

Definition ofRelationTypeProto (proto : option RelationTypeProto)
    : outcome exn (option TypeImpl) :=
  nullable (λ p, new_type RelationTypeImpl (Some (label_of (rtp_label p)))
    (rtp_is_root p) (rtp_is_abstract p)) proto.

Definition ofAttributeTypeProto (proto : option AttributeTypeProto)
    : outcome exn (option TypeImpl) :=
  nullable (λ p, new_type (AttributeTypeImpl (ValueType_of (atp_value_type p)))
    (Some (label_of (atp_label p))) (atp_is_root p) (atp_is_abstract p)) proto.

Definition ofRoleTypeProto (proto : option RoleTypeProto) : outcome exn (option TypeImpl) :=
  nullable (λ p, new_type RoleTypeImpl (Some (label_scoped (rop_scope p) (rop_label p)))
    (rop_is_root p) (rop_is_abstract p)) proto.

(** [new ThingTypeImpl.Root()] *)
Definition ofThingTypeRootProto : outcome exn TypeImpl :=
  new_type ThingTypeRoot (Some (label_of "thing")) true true.

Definition ofThingTypeProto (proto : ThingTypeProto) : outcome exn (option TypeImpl) :=
  match proto with
  | TTP_entity_type p => ofEntityTypeProto (Some p)
  | TTP_relation_type p => ofRelationTypeProto (Some p)
  | TTP_attribute_type p => ofAttributeTypeProto (Some p)
  | TTP_thing_type_root => outcome_map Some ofThingTypeRootProto
  | TTP_unset printed => Throw (driver_error BAD_ENCODING [printed])
  end.

(** [new Date(n)] of a whole number: a time beyond 100,000,000 days of the
    epoch is not a valid date. *)
Definition TimeClip (n : spec_float) : spec_float :=
  match n with
  | S754_zero _ => S754_zero false
  | S754_finite _ _ _ =>
      if SFleb (SFabs n) (number_of_Z 8640000000000000) then n else S754_nan
  | _ => S754_nan
  end.

Definition ofValueProto (valueProto : option ValueProto) : outcome exn (option ValueImpl) :=
  nullable (λ p,
    match p with
    | VP_boolean b => Ret (mkValue ValueType_BOOLEAN (JBool b))
    | VP_long n => Ret (mkValue ValueType_LONG (JNum n))
    | VP_double n => Ret (mkValue ValueType_DOUBLE (JNum n))
    | VP_string s => Ret (mkValue ValueType_STRING (JStr s))
    | VP_date_time obj millis => Ret (mkValue ValueType_DATETIME (JDate obj (TimeClip millis)))
    | VP_unset printed => Throw (driver_error BAD_VALUE_TYPE [printed])
    end) valueProto.

Definition ofEntityProto (proto : option EntityProto) : outcome exn (option ThingImpl) :=
  nullable (λ p,
    let iid := bytesToHexString (ep_iid p) in
    outcome_bind (ofEntityTypeProto (ep_entity_type p)) (λ t,
      new_thing EntityImpl iid (ep_inferred p) t)) proto.

Definition ofRelationProto (proto : option RelationProto) : outcome exn (option ThingImpl) :=
  nullable (λ p,
    let iid := bytesToHexString (rp_iid p) in
    outcome_bind (ofRelationTypeProto (rp_relation_type p)) (λ t,
      new_thing RelationImpl iid (rp_inferred p) t)) proto.

Definition ofAttributeProto (proto : option AttributeProto) : outcome exn (option ThingImpl) :=
  nullable (λ p,
    let iid := bytesToHexString (ap_iid p) in
    outcome_bind (ofAttributeTypeProto (ap_attribute_type p)) (λ t,
    outcome_bind (ofValueProto (ap_value p)) (λ v,
      new_thing (AttributeImpl v) iid (ap_inferred p) t))) proto.

Definition ofThingProto (proto : ThingProto) : outcome exn (option ThingImpl) :=
  match proto with
  | TP_entity p => ofEntityProto (Some p)
  | TP_relation p => ofRelationProto (Some p)
  | TP_attribute p => ofAttributeProto (Some p)
  | TP_unset printed => Throw (driver_error BAD_ENCODING [printed])
  end.

(** [ResponseReader.Concept.of] *)
Definition concept_of (proto : ConceptProto) : outcome exn (option Concept) :=
  let type_ := outcome_map (option_map ConceptType) in
  let thing := outcome_map (option_map ConceptThing) in
  match proto with
  | CP_entity_type p => type_ (ofEntityTypeProto (Some p))
  | CP_relation_type p => type_ (ofRelationTypeProto (Some p))
  | CP_attribute_type p => type_ (ofAttributeTypeProto (Some p))
  | CP_role_type p => type_ (ofRoleTypeProto (Some p))
  | CP_thing_type_root => type_ (outcome_map Some ofThingTypeRootProto)
  | CP_entity p => thing (ofEntityProto (Some p))
  | CP_relation p => thing (ofRelationProto (Some p))
  | CP_attribute p => thing (ofAttributeProto (Some p))
  | CP_value p => outcome_map (option_map ConceptValue) (ofValueProto (Some p))
  | CP_unset printed => Throw (driver_error BAD_ENCODING [printed])
  end.

(** ** Naming concepts in requests *)

Definition EntityType_proto (t : TypeImpl) : pval := Type_EntityType_protoEntityType (t_label t).
Definition RelationType_proto (t : TypeImpl) : pval :=
  Type_RelationType_protoRelationType (t_label t).
Definition AttributeType_proto (t : TypeImpl) : pval :=
  Type_AttributeType_protoAttributeType (t_label t).
Definition RoleType_proto (t : TypeImpl) : pval := Type_RoleType_protoRoleType (t_label t).

(** [ThingType.proto] tests whether the type is an entity, a relation or an
    attribute. *)
Definition ThingType_proto (t : TypeImpl) : outcome exn pval :=
  if is_kind KEntity (ConceptType t) then
    Ret (Type_ThingType_protoThingTypeEntityType (t_label t))
  else if is_kind KRelation (ConceptType t) then
    Ret (Type_ThingType_protoThingTypeRelationType (t_label t))
  else if is_kind KAttribute (ConceptType t) then
    Ret (Type_ThingType_protoThingTypeAttributeType (t_label t))
  else Throw (driver_error ILLEGAL_STATE []).

Definition Entity_proto (th : ThingImpl) : outcome exn pval := Thing_Entity_protoEntity (th_iid th).
Definition Relation_proto (th : ThingImpl) : outcome exn pval :=
  Thing_Relation_protoRelation (th_iid th).
Definition Attribute_proto (th : ThingImpl) : outcome exn pval :=
  Thing_Attribute_protoAttribute (th_iid th).

Definition Thing_proto (th : ThingImpl) : outcome exn pval :=
  if is_kind KEntity (ConceptThing th) then Thing_protoThingEntity (th_iid th)
  else if is_kind KRelation (ConceptThing th) then Thing_protoThingRelation (th_iid th)
  else if is_kind KAttribute (ConceptThing th) then Thing_protoThingAttribute (th_iid th)
  else Throw (driver_error ILLEGAL_STATE []).

Definition Value_proto (v : ValueImpl) : outcome exn pval :=
  Value_protoValue (Some (vt_proto (v_valueType v))) (v_value v).

(** ** [ThingType.Annotation] *)

(** The two objects of the class. *)
Inductive Annotation : Type := KEY | UNIQUE.

#[export] Instance Annotation_eq_dec : EqDecision Annotation.
Proof. solve_decision. Defined.

Definition annotation_name (a : Annotation) : string :=
  match a with KEY => "key" | UNIQUE => "unique" end.

(** [Annotation.parse] *)
Definition annotation_parse (s : string) : outcome exn Annotation :=
  if bool_decide (s = annotation_name KEY) then Ret KEY
  else if bool_decide (s = annotation_name UNIQUE) then Ret KEY
  else Throw (driver_error BAD_ANNOTATION [s]).

Definition annotation_toString (a : Annotation) : string :=
  ("[annotation: " ++ annotation_name a ++ "]")%string.

(** [Annotation.proto]; there are no other objects of the class. *)
Definition Annotation_proto (a : Annotation) : pval :=
  match a with
  | KEY => Type_Annotation_annotationKey
  | UNIQUE => Type_Annotation_annotationUnique
  end.

(** ** Properties of casting *)

(** The kinds that no other kind refines. *)
Definition leaf_kinds : list kind :=
  [KEntityType; KRelationType; KAttributeType; KRoleType; KEntity; KRelation; KAttribute; KValue].

Definition is_thing_type_root (c : Concept) : bool :=
  match c with
  | ConceptType t => match t_class t with ThingTypeRoot => true | _ => false end
  | _ => false
  end.

(** C38 - casting is exact: a concept casts to a kind, and then to itself, when
    it is of that kind, and otherwise the error names its class and the kind;
    every concept but the root thing type is of exactly one of the most
    specific kinds, and the general kinds are the unions of theirs. *)
Theorem cast_exact (c : Concept) (k : kind) :
  as_kind k c = (if is_kind k c then Ret c
    else Throw (driver_error INVALID_CONCEPT_CASTING [className (class_of c); kind_name k])) ∧
  length (List.filter (λ k, is_kind k c) leaf_kinds) =
    (if is_thing_type_root c then 0 else 1) ∧
  is_kind KThingType c = is_kind KEntityType c || is_kind KRelationType c
    || is_kind KAttributeType c || is_thing_type_root c ∧
  is_kind KType c = is_kind KThingType c || is_kind KRoleType c ∧
  is_kind KThing c = is_kind KEntity c || is_kind KRelation c || is_kind KAttribute c ∧
  className (class_of c) =
    default "ThingType" (kind_name <$> list_find (λ k, is_kind k c = true) leaf_kinds ≫= λ x, Some x.2).
Proof.
  destruct c as [[[] ? ? ?]|[[] ? ? ?]|?]; (split; [by destruct k|]); done.
Qed.

(** ** Properties of equality *)

(** Numbers are equal when both are zero, or they are the same and not NaN. *)
Lemma SFeqb_true x y :
  SFeqb x y = true ↔
    (∃ s s', x = S754_zero s ∧ y = S754_zero s') ∨ (x = y ∧ x ≠ S754_nan).
Proof.
  unfold SFeqb. split.
  - destruct x as [sx|sx| |sx mx ex], y as [sy|sy| |sy my ey]; simpl; try done.
    all: try by destruct sx. all: try by destruct sy.
    + intros _. left. eauto.
    + destruct sx, sy; try done; intros _; by right.
    + intros H. right. split; [|done].
      destruct sx, sy; try done; destruct (Z.compare_spec ex ey) as [->|?|?]; try done;
        change (Pos.compare_cont Eq mx my) with (mx ?= my)%positive in H;
        by destruct (Pos.compare_spec mx my) as [->|?|?].
  - intros [(s & s' & -> & ->)|[-> Hn]]; [by destruct s, s'|].
    destruct y as [[]|[]| |sy my ey]; try done; simpl. rewrite Z.compare_refl.
    change (Pos.compare_cont Eq my my) with (my ?= my)%positive.
    rewrite Pos.compare_refl. by destruct sy.
Qed.

Lemma js_eq_sym a b : js_eq a b = js_eq b a.
Proof.
  destruct a, b; simpl; try done; try (apply bool_decide_ext; by split).
  apply Bool.eq_iff_eq_true. rewrite !SFeqb_true. naive_solver.
Qed.

Lemma js_eq_trans a b c : js_eq a b = true → js_eq b c = true → js_eq a c = true.
Proof.
  destruct a, b; simpl; try done; destruct c; simpl; try done;
    rewrite ?bool_decide_eq_true, ?SFeqb_true; naive_solver.
Qed.

(** [value != value] *)
Definition is_NaN (v : jsval) : bool :=
  match v with JNum S754_nan => true | _ => false end.

Lemma js_eq_refl a : js_eq a a = negb (is_NaN a).
Proof.
  destruct a as [b|f|s|r t]; simpl; try by rewrite bool_decide_eq_true_2.
  destruct f as [[]|[]| |s m e]; try done. apply SFeqb_true. by right.
Qed.

(** What [equals] compares, for each sort of concept. *)
Lemma equals_unfold a b :
  equals a b =
    match a, b with
    | ConceptType t, ConceptType t' => label_equals (t_label t') (t_label t)
    | ConceptThing th, ConceptThing th' => bool_decide (th_iid th' = th_iid th)
    | ConceptValue v, ConceptValue v' =>
        bool_decide (v_valueType v = v_valueType v') && js_eq (v_value v) (v_value v')
    | _, _ => false
    end.
Proof. by destruct a as [?|?|?], b as [[[] ? ? ?]|[[] ? ? ?]|?]. Qed.

(** [equals] is an equivalence on concepts, except that a number that is
    not a number is not equal to itself: it is symmetric and transitive, and
    reflexive on types and things and on the other values. *)
Theorem equals_equivalence (a b c : Concept) :
  equals a b = equals b a ∧
  (equals a b && equals b c = true → equals a c = true) ∧
  equals a a = match a with ConceptValue v => negb (is_NaN (v_value v)) | _ => true end.
Proof.
  rewrite !equals_unfold. split; [|split].
  - destruct a, b; try done; apply Bool.eq_iff_eq_true.
    + rewrite !label_equals_eq. by split.
    + rewrite !bool_decide_eq_true. by split.
    + rewrite !andb_true_iff, !bool_decide_eq_true, js_eq_sym. naive_solver.
  - rewrite andb_true_iff. intros [Hab Hbc]; revert Hab Hbc. destruct a, b; try done; destruct c; try done.
    + rewrite !label_equals_eq. congruence.
    + rewrite !bool_decide_eq_true. congruence.
    + rewrite !andb_true_iff, !bool_decide_eq_true. intros [-> ?] [-> ?].
      split; [done|]. by eapply js_eq_trans.
  - destruct a; [by apply label_equals_eq|by apply bool_decide_eq_true|].
    by rewrite bool_decide_eq_true_2, js_eq_refl.
Qed.

(** A date is equal only to the same object: the same time decoded from two
    messages gives values that are not equal. *)
Lemma dates_by_identity o o' millis v v' :
  ofValueProto (Some (VP_date_time o millis)) = Ret (Some v) →
  ofValueProto (Some (VP_date_time o' millis)) = Ret (Some v') →
  equals (ConceptValue v) (ConceptValue v') = bool_decide (o = o').
Proof. by intros [= <-] [= <-]. Qed.

(** ** Properties of decoding *)

(** The messages that every case of is set, and whose dates are valid. *)
Definition value_complete (p : ValueProto) : bool :=
  match p with VP_unset _ => false | _ => true end.

Definition complete (p : ConceptProto) : bool :=
  match p with
  | CP_attribute p => from_option value_complete true (ap_value p)
  | CP_value p => value_complete p
  | CP_unset _ => false
  | _ => true
  end.

Definition valid_dates (p : ConceptProto) : Prop :=
  match p with
  | CP_value (VP_date_time _ millis) => TimeClip millis = millis
  | _ => True
  end.

(** How a request names a concept. *)
Definition request_name (c : Concept) : option (outcome exn pval) :=
  match c with
  | ConceptType t =>
      match t_class t with
      | EntityTypeImpl => Some (Ret (EntityType_proto t))
      | RelationTypeImpl => Some (Ret (RelationType_proto t))
      | AttributeTypeImpl _ => Some (Ret (AttributeType_proto t))
      | RoleTypeImpl => Some (Ret (RoleType_proto t))
      | ThingTypeRoot => None
      end
  | ConceptThing th => Some (Thing_proto th)
  | ConceptValue v => Some (Value_proto v)
  end.

(** The part of a received message that identifies its concept. *)
Definition identity (p : ConceptProto) : option pval :=
  match p with
  | CP_entity_type p => Some (New "EntityTypeProto" [("label", PStr (etp_label p))])
  | CP_relation_type p => Some (New "RelationTypeProto" [("label", PStr (rtp_label p))])
  | CP_attribute_type p => Some (New "AttributeTypeProto" [("label", PStr (atp_label p))])
  | CP_role_type p =>
      Some (New "RoleTypeProto" [("scope", PStr (rop_scope p)); ("label", PStr (rop_label p))])
  | CP_thing_type_root | CP_unset _ => None
  | CP_entity p =>
      Some (New "ThingProto" [("entity", New "EntityProto" [("iid", PBytes (ep_iid p))])])
  | CP_relation p =>
      Some (New "ThingProto" [("relation", New "RelationProto" [("iid", PBytes (rp_iid p))])])
  | CP_attribute p =>
      Some (New "ThingProto" [("attribute", New "AttributeProto" [("iid", PBytes (ap_iid p))])])
  | CP_value (VP_boolean b) => Some (New "ValueProto" [("boolean", PVal (JBool b))])
  | CP_value (VP_long n) => Some (New "ValueProto" [("long", PVal (JNum n))])
  | CP_value (VP_double n) => Some (New "ValueProto" [("double", PVal (JNum n))])
  | CP_value (VP_string s) => Some (New "ValueProto" [("string", PVal (JStr s))])
  | CP_value (VP_date_time _ millis) => Some (New "ValueProto" [("date_time", PVal (JNum millis))])
  | CP_value (VP_unset _) => None
  end.

Definition kind_of (p : ConceptProto) : option kind :=
  match p with
  | CP_entity_type _ => Some KEntityType
  | CP_relation_type _ => Some KRelationType
  | CP_attribute_type _ => Some KAttributeType
  | CP_role_type _ => Some KRoleType
  | CP_thing_type_root => Some KThingType
  | CP_entity _ => Some KEntity
  | CP_relation _ => Some KRelation
  | CP_attribute _ => Some KAttribute
  | CP_value _ => Some KValue
  | CP_unset _ => None
  end.

Lemma ofEntityTypeProto_ret o : ∃ t, ofEntityTypeProto o = Ret t.
Proof. destruct o; by eexists. Qed.
Lemma ofRelationTypeProto_ret o : ∃ t, ofRelationTypeProto o = Ret t.
Proof. destruct o; by eexists. Qed.
Lemma ofAttributeTypeProto_ret o : ∃ t, ofAttributeTypeProto o = Ret t.
Proof. destruct o; by eexists. Qed.

Lemma ofValueProto_ret o :
  from_option value_complete true o = true → ∃ v, ofValueProto o = Ret v.
Proof. destruct o as [[]|]; try done; by eexists. Qed.

Lemma Thing_proto_hex c bytes inferred t :
  Thing_proto (mkThing c (bytesToHexString bytes) inferred t) =
    Ret match c with
        | EntityImpl => New "ThingProto" [("entity", New "EntityProto" [("iid", PBytes bytes)])]
        | RelationImpl =>
            New "ThingProto" [("relation", New "RelationProto" [("iid", PBytes bytes)])]
        | AttributeImpl _ =>
            New "ThingProto" [("attribute", New "AttributeProto" [("iid", PBytes bytes)])]
        end.
Proof.
  destruct c; unfold Thing_proto; simpl;
    unfold Thing_protoThingEntity, Thing_protoThingRelation, Thing_protoThingAttribute,
      Thing_Entity_protoEntity, Thing_Relation_protoRelation, Thing_Attribute_protoAttribute;
    by rewrite hexStringToBytes_print.
Qed.

(** C19 - a decoded concept is named back to the server as it was received:
    every complete message decodes to a concept of its kind, and the message
    that a request names the concept with has the labels, the id bytes or the
    value that were received. *)
Theorem decoded_named_back (p : ConceptProto) (Hp : complete p = true) (Hd : valid_dates p) :
  ∃ c, concept_of p = Ret (Some c) ∧
    (∀ k, kind_of p = Some k → is_kind k c = true) ∧
    request_name c = Ret <$> identity p.
Proof.
  destruct p as [p|p|p|p| |p|p|p|p|?]; try done.
  1-5: by eexists; repeat split; intros k [= <-].
  - destruct (ofEntityTypeProto_ret (ep_entity_type p)) as [t Ht].
    simpl. rewrite Ht. simpl. eexists; repeat split.
    { by intros k [= <-]. } simpl. by rewrite Thing_proto_hex.
  - destruct (ofRelationTypeProto_ret (rp_relation_type p)) as [t Ht].
    simpl. rewrite Ht. simpl. eexists; repeat split.
    { by intros k [= <-]. } simpl. by rewrite Thing_proto_hex.
  - destruct (ofAttributeTypeProto_ret (ap_attribute_type p)) as [t Ht].
    destruct (ofValueProto_ret (ap_value p)) as [v Hv]; [done|].
    simpl. rewrite Ht. simpl. rewrite Hv. simpl.
    eexists; repeat split. { by intros k [= <-]. } simpl. by rewrite Thing_proto_hex.
  - destruct p; try done; eexists; (split; [done|]); (split; [by intros k [= <-]|]); try done.
    simpl in *. unfold Value_proto. simpl. by rewrite Hd.
Qed.

(** A message that is not complete is refused with the error that quotes it. *)
Lemma incomplete_refused (p : ConceptProto) :
  complete p = false → ∃ e, concept_of p = Throw e.
Proof.
  destruct p as [p|p|p|p| |p|p|p|p|?]; try done; simpl.
  - destruct (ofAttributeTypeProto_ret (ap_attribute_type p)) as [t ->]. simpl.
    destruct (ap_value p) as [[]|]; try done. simpl. eauto.
  - destruct p; try done. simpl. eauto.
  - eauto.
Qed.

(** No type is an entity, a relation or an attribute, so [ThingType.proto]
    never names a type. *)
Lemma ThingType_proto_throws (t : TypeImpl) :
  ThingType_proto t = Throw (driver_error ILLEGAL_STATE []).
Proof. by destruct t as [[] ? ? ?]. Qed.

Lemma annotation_parse_key (a : Annotation) : annotation_parse (annotation_name a) = Ret KEY.
Proof. by destruct a. Qed.

Lemma decoded_named_back_witness :
  ∃ c, concept_of (CP_entity (mkEntityProto [x0a; xff] None false)) = Ret (Some c) ∧
    is_kind KEntity c = true ∧
    request_name c = Some (Ret (New "ThingProto"
      [("entity", New "EntityProto" [("iid", PBytes [x0a; xff])])])).
Proof.
  destruct (decoded_named_back (CP_entity (mkEntityProto [x0a; xff] None false)))
    as (c & H1 & H2 & H3); [reflexivity|exact I|].
  exists c. split; [exact H1|]. split; [apply H2; reflexivity|exact H3].
Defined.
