(* ===== verification/ConceptManager.v ===== *)
(** * Calling the server in a transaction, and the concept manager

    [TransactionExtended] is what the concept, query and logic classes use of
    a transaction ([TypeDBTransaction.Extended]): one awaited response, or a
    stream of response parts. The rest models [concept/ConceptManagerImpl.ts]
    and the reading of responses that all callers share. *)
From S2P Require Import Prelude Errors Bytes Proto RequestBuilder Streams Messages Concept.
Local Open Scope string_scope.
Local Open Scope list_scope.

(** [rpc_execute request useBatch] is [await rpcExecute(request, ...)], where
    [useBatch] is false when [false] was passed; [rpc_stream] may throw before
    it returns a stream. *)
Class TransactionExtended (S : Type) : Type := {
  rpc_execute : pval → bool → proc S exn msg;
  rpc_stream : pval → proc S exn (gen S exn msg);
}.

(** ** Fields of responses *)

Definition of_entity_type p := match p with P_entity_type x => Some x | _ => None end.
Definition of_entity_types p := match p with P_entity_types x => Some x | _ => None end.
Definition of_relation_type p := match p with P_relation_type x => Some x | _ => None end.
Definition of_relation_types p := match p with P_relation_types x => Some x | _ => None end.
Definition of_attribute_type p := match p with P_attribute_type x => Some x | _ => None end.
Definition of_attribute_types p := match p with P_attribute_types x => Some x | _ => None end.
Definition of_role_type p := match p with P_role_type x => Some x | _ => None end.
Definition of_role_types p := match p with P_role_types x => Some x | _ => None end.
Definition of_thing_types p := match p with P_thing_types x => Some x | _ => None end.
Definition of_entity p := match p with P_entity x => Some x | _ => None end.
Definition of_entities p := match p with P_entities x => Some x | _ => None end.
Definition of_relation p := match p with P_relation x => Some x | _ => None end.
Definition of_relations p := match p with P_relations x => Some x | _ => None end.
Definition of_attribute p := match p with P_attribute x => Some x | _ => None end.
Definition of_attributes p := match p with P_attributes x => Some x | _ => None end.
Definition of_things p := match p with P_things x => Some x | _ => None end.
Definition of_role_players p := match p with P_role_players x => Some x | _ => None end.
Definition of_string p := match p with P_string x => Some x | _ => None end.
Definition of_exceptions p := match p with P_exceptions x => Some x | _ => None end.
Definition of_rule p := match p with P_rule x => Some x | _ => None end.
Definition of_rules p := match p with P_rules x => Some x | _ => None end.
Definition of_value p := match p with P_value x => Some x | _ => None end.
Definition of_concept_maps p := match p with P_concept_maps x => Some x | _ => None end.
Definition of_concept_map_groups p := match p with P_concept_map_groups x => Some x | _ => None end.
Definition of_value_groups p := match p with P_value_groups x => Some x | _ => None end.
Definition of_trees p := match p with P_trees x => Some x | _ => None end.
Definition of_explanations p := match p with P_explanations x => Some x | _ => None end.

(** [res.case.field] *)
Definition field_of {A} (case_ f : string) (r : payload → option A) (dflt : A) (res : option msg)
    : outcome exn A :=
  outcome_bind (get case_ res) (read f r dflt).

(** [res.has_case] *)
Definition has (case_ : string) (res : option msg) : outcome exn bool :=
  match res with
  | None => Throw (type_error ("has_" ++ case_)%string)
  | Some _ => outcome_map (λ m, bool_decide (is_Some m)) (get case_ res)
  end.

Section manager.
Context {S : Type} `{!TransactionExtended S}.
Local Abbreviation tproc := (proc S exn).

(** [g.flatMap(part => Stream.array(part.case.field)).map(decode)] *)
Definition answers {Q A} (case_ f : string) (r : payload → option (list Q))
    (decode : Q → outcome exn A) (g : gen S exn (option msg)) : gen S exn A :=
  gmap_ (pure decode)
    (flatMap (λ part, lift_outcome (field_of case_ f r [] part) ≫= λ l, mret (array l)) g).

(** [g.flatMap(part => Stream.array(part.case.field).map(decode))] *)
Definition flat_answers {Q A} (case_ f : string) (r : payload → option (list Q))
    (decode : Q → outcome exn A) (g : gen S exn (option msg)) : gen S exn A :=
  flatMap (λ part, lift_outcome (field_of case_ f r [] part) ≫= λ l,
    mret (gmap_ (pure decode) (array l))) g.

(** [ConceptManagerImpl.execute]: the request is batched. *)
Definition cm_execute (request : pval) : tproc (option msg) :=
  rpc_execute request true ≫= λ res, lift_outcome (get_path ["concept_manager_res"] res).

(** [if (response.has_case) return decode(response.case.field); else return null] *)
Definition get_concept {P A} (case_ f : string) (r : payload → option (option P))
    (decode : option P → outcome exn (option A)) (request : pval) : tproc (option A) :=
  cm_execute request ≫= λ response,
  lift_outcome (has case_ response) ≫= λ present : bool,
  if present then
    lift_outcome (field_of case_ f r None response) ≫= λ p, lift_outcome (decode p)
  else mret None.

(** [return decode(response.case.field)] *)
Definition put_concept {P A} (case_ f : string) (r : payload → option (option P))
    (decode : option P → outcome exn (option A)) (request : pval) : tproc (option A) :=
  cm_execute request ≫= λ response,
  lift_outcome (field_of case_ f r None response) ≫= λ p, lift_outcome (decode p).

Definition getRootThingType : tproc TypeImpl := lift_outcome ofThingTypeRootProto.

Definition getEntityType (label : string) : tproc (option TypeImpl) :=
  get_concept "get_entity_type_res" "entity_type" of_entity_type ofEntityTypeProto
    (ConceptManager_getEntityTypeReq label).

Definition getRelationType (label : string) : tproc (option TypeImpl) :=
  get_concept "get_relation_type_res" "relation_type" of_relation_type ofRelationTypeProto
    (ConceptManager_getRelationTypeReq label).

Definition getAttributeType (label : string) : tproc (option TypeImpl) :=
  get_concept "get_attribute_type_res" "attribute_type" of_attribute_type ofAttributeTypeProto
    (ConceptManager_getAttributeTypeReq label).

Definition getRootEntityType : tproc (option TypeImpl) := getEntityType "entity".
Definition getRootRelationType : tproc (option TypeImpl) := getRelationType "relation".
Definition getRootAttributeType : tproc (option TypeImpl) := getAttributeType "attribute".

Definition getEntity (iid : string) : tproc (option ThingImpl) :=
  lift_outcome (ConceptManager_getEntityReq iid) ≫=
  get_concept "get_entity_res" "entity" of_entity ofEntityProto.

Definition getRelation (iid : string) : tproc (option ThingImpl) :=
  lift_outcome (ConceptManager_getRelationReq iid) ≫=
  get_concept "get_relation_res" "relation" of_relation ofRelationProto.

Definition getAttribute (iid : string) : tproc (option ThingImpl) :=
  lift_outcome (ConceptManager_getAttributeReq iid) ≫=
  get_concept "get_attribute_res" "attribute" of_attribute ofAttributeProto.

Definition putEntityType (label : string) : tproc (option TypeImpl) :=
  put_concept "put_entity_type_res" "entity_type" of_entity_type ofEntityTypeProto
    (ConceptManager_putEntityTypeReq label).

Definition putRelationType (label : string) : tproc (option TypeImpl) :=
  put_concept "put_relation_type_res" "relation_type" of_relation_type ofRelationTypeProto
    (ConceptManager_putRelationTypeReq label).

Definition putAttributeType (label : string) (valueType : ValueType) : tproc (option TypeImpl) :=
  put_concept "put_attribute_type_res" "attribute_type" of_attribute_type ofAttributeTypeProto
    (ConceptManager_putAttributeTypeReq label (Some (vt_proto valueType))).

Definition getSchemaExceptions : tproc (list exn) :=
  cm_execute ConceptManager_getSchemaExceptions ≫= λ response,
  lift_outcome (field_of "get_schema_exceptions_res" "exceptions" of_exceptions [] response) ≫=
  λ l, mret ((λ x, TypeDBDriverError (ArgString (x.1 ++ " " ++ x.2)%string)) <$> l).

(** ** Draining answers *)

Lemma field_of_response {A} case_ f (r : payload → option A) dflt p x :
  r p = Some x → field_of case_ f r dflt (Some (response [case_] p)) = Ret x.
Proof.
  intros H. unfold field_of, response. simpl. rewrite bool_decide_eq_true_2 by done. simpl.
  by rewrite H.
Qed.

(** From state [s], the stream delivers parts that hold [ps] in the case at the
    given path, and ends with the outcome and state [fin]. *)
Definition delivers (path : list string) (case_ : string) (ps : list payload) (g : gen S exn msg)
    (s : S) (fin : outcome exn unit * S) : Prop :=
  ∃ parts, steps g s = (parts, fin) ∧ parts.*1 = response (path ++ [case_]) <$> ps.

Lemma delivers_parts path case_ ps g s fin :
  delivers path case_ ps g s fin →
  ∃ parts, steps (gmap_ (pure (get_path path)) g) s = (parts, fin) ∧
           parts.*1 = (λ p, Some (response [case_] p)) <$> ps.
Proof using.
  intros (parts & Hg & Hp). rewrite steps_map, Hg. cbn [fst snd]. clear Hg g s.
  revert ps Hp. induction parts as [|[m s1] parts IH]; intros [|p ps] Hp; try done.
  - by exists [].
  - rewrite !fmap_cons in Hp. cbn [fst] in Hp. injection Hp as -> Hp.
    destruct (IH ps Hp) as (out & Hout & Hs). cbn [map_steps].
    rewrite get_path_response. rewrite Hout. eexists. split; [done|].
    rewrite !fmap_cons. by rewrite Hs.
Qed.

Lemma delivers_fields {Q} path case_ f (r : payload → option (list Q)) ps ls g s fin :
  delivers path case_ ps g s fin → Forall2 (λ p l, r p = Some l) ps ls →
  ∃ out, steps (flatMap (λ part, lift_outcome (field_of case_ f r [] part) ≫= λ l, mret (array l))
           (gmap_ (pure (get_path path)) g)) s = (out, fin) ∧
         out.*1 = concat ls.
Proof using.
  intros (parts & Hg & Hp)%delivers_parts Hr. eapply steps_flat_arrays; [exact Hg|].
  clear Hg g s. revert parts Hp. induction Hr as [|p l ps ls Hpl _ IH]; intros [|[m s1] parts] Hp;
    try done.
  rewrite !fmap_cons in Hp. cbn [fst] in Hp. injection Hp as -> Hp.
  constructor; [by apply field_of_response|]. by apply IH.
Qed.

Lemma collect_answers {Q A} path case_ f (r : payload → option (list Q))
    (decode : Q → outcome exn A) ps ls xs g s s' :
  delivers path case_ ps g s (Ret tt, s') → Forall2 (λ p l, r p = Some l) ps ls →
  mapM_outcome decode (concat ls) = Ret xs →
  collect (answers case_ f r decode (gmap_ (pure (get_path path)) g)) s = (Ret xs, s').
Proof using.
  intros Hg Hr Hd. destruct (delivers_fields path case_ f r ps ls g s (Ret tt, s') Hg Hr) as (out & Ho & Hc).
  eapply collect_map; [exact Ho|]. by rewrite Hc.
Qed.

Lemma mapM_outcome_concat {E A B} (f : A → outcome E B) ls xs :
  mapM_outcome f (concat ls) = Ret xs →
  ∃ xss, Forall2 (λ l ys, mapM_outcome f l = Ret ys) ls xss ∧ concat xss = xs.
Proof using.
  revert xs. induction ls as [|l ls IH]; intros xs; cbn [concat].
  - intros [= <-]. by exists [].
  - rewrite mapM_outcome_app. destruct (mapM_outcome f l) as [ys|e|] eqn:Hl; try done.
    cbn [outcome_bind]. destruct (mapM_outcome f (concat ls)) as [zs|e|]; try done.
    intros [= <-]. destruct (IH zs eq_refl) as (xss & H & <-). exists (ys :: xss).
    split; [by constructor|done].
Qed.

Lemma collect_flat_answers {Q A} path case_ f (r : payload → option (list Q))
    (decode : Q → outcome exn A) ps ls xs g s fin :
  delivers path case_ ps g s fin → Forall2 (λ p l, r p = Some l) ps ls →
  mapM_outcome decode (concat ls) = Ret xs →
  collect (flat_answers case_ f r decode (gmap_ (pure (get_path path)) g)) s =
    (outcome_map (λ _, xs) fin.1, fin.2).
Proof using.
  intros (parts & Hg & Hp)%delivers_parts Hr (xss & Hx & <-)%mapM_outcome_concat.
  rewrite collect_steps. unfold flat_answers.
  edestruct (steps_flat_lists (λ part, lift_outcome (field_of case_ f r [] part) ≫= λ l,
    mret (gmap_ (pure decode) (array l))) _ s parts fin xss Hg) as (out & -> & Hout);
    [|cbn [fst snd]; by rewrite Hout].
  clear Hg g s. revert parts Hp xss Hx.
  induction Hr as [|p l ps ls Hpl _ IH]; intros [|[m s1] parts] Hp xss Hx; try done.
  - apply Forall2_nil_inv_l in Hx as ->. constructor.
  - rewrite !fmap_cons in Hp. cbn [fst] in Hp. injection Hp as -> Hp.
    apply Forall2_cons_inv_l in Hx as (ys & xss' & Hys & Hx & ->).
    constructor; [|by apply IH]. cbn [fst]. exists (gmap_ (pure decode) (array l)). split.
    + intros s2. rewrite (proc_bind_run _ _ s2 (Ret l) s2); [done|].
      unfold lift_outcome. f_equal. by apply field_of_response.
    + intros s2. by apply steps_map_array.
Qed.
End manager.

(** A server that delivers the same parts to every streamed request. *)
Definition fixed_parts (parts : list msg) : TransactionExtended nat := {|
  rpc_execute := λ _ _ n, (Ret (Body P_none), Datatypes.S n);
  rpc_stream := λ _ n, (Ret (array parts), Datatypes.S n);
|}.
