(* ===== verification/TypeOps.v ===== *)
(** * Operations on types

    Models the methods of [concept/type/ThingTypeImpl.ts],
    [EntityTypeImpl.ts], [RelationTypeImpl.ts], [AttributeTypeImpl.ts] and
    [RoleTypeImpl.ts] that call the server, with the resolution of their
    overloads. [this] is represented by its label where a method reads nothing
    else of it. *)
From Stdlib Require Import Floats.SpecFloat.
From S2P Require Import Prelude Errors Bytes Proto RequestBuilder Streams Messages Concept ConceptManager.
Local Open Scope string_scope.
Local Open Scope list_scope.

(** A failed [assert]; its message quotes the expression and is not kept. *)
Definition AssertionError : exn :=
  JsError "AssertionError" "The expression evaluated to a falsy value".

Definition assert_ (b : bool) : outcome exn unit := if b then Ret tt else Throw AssertionError.

Definition is_undefined {A} (o : option A) : bool :=
  match o with None => true | Some _ => false end.

(** [if (!transitivity) transitivity = Transitivity.TRANSITIVE], then
    [transitivity.proto()] *)
Definition or_transitive (t : option Transitivity) : option TypeTransitivity :=
  Some (tr_proto (default Transitivity_TRANSITIVE t)).

(** An argument of the overloaded methods: a value type, an array of
    annotations or a transitivity. *)
Inductive filter_arg : Type :=
  | ArgValueType (v : ValueType)
  | ArgAnnotations (l : list Annotation)
  | ArgTransitivity (t : Transitivity).

(** ** Overload resolution *)

(** The arguments of [getOwns] after [transaction], as the fields of the
    request: [instanceof ValueType], then [Array.isArray], then
    [instanceof Transitivity], shifting the arguments each time. *)
Definition resolve_getOwns (a1 a2 a3 : option filter_arg)
    : outcome exn (option ValueTypeProto * list pval * option TypeTransitivity) :=
  let '(valueType, a1, a2, a3) :=
    match a1 with
    | Some (ArgValueType v) => (Some (vt_proto v), a2, a3, None)
    | _ => (None, a1, a2, a3)
    end in
  outcome_bind
    match a1 with
    | Some (ArgAnnotations l) =>
        outcome_bind (assert_ (is_undefined a3)) (λ _,
          Ret (Annotation_proto <$> l, a2, None))
    | _ => Ret ([], a1, a2)
    end (λ '(annotations, a1, a2),
  outcome_bind
    match a1 with
    | Some (ArgTransitivity t) =>
        outcome_bind (assert_ (is_undefined a2)) (λ _,
        outcome_bind (assert_ (is_undefined a3)) (λ _, Ret (Some (tr_proto t))))
    | _ => Ret None
    end (λ transitivity,
  Ret (valueType, annotations, transitivity))).

(** The arguments of [AttributeType.getSubtypes]: a transitivity first, or
    what is taken for a value type. *)
Definition resolve_getSubtypes (a1 : option (ValueType + Transitivity)) (a2 : option Transitivity)
    : outcome exn (TypeTransitivity * option ValueTypeProto) :=
  match a1 with
  | None => outcome_bind (assert_ (is_undefined a2)) (λ _,
      Ret (tr_proto Transitivity_TRANSITIVE, None))
  | Some (inr t) => outcome_bind (assert_ (is_undefined a2)) (λ _, Ret (tr_proto t, None))
  | Some (inl v) => Ret (tr_proto (default Transitivity_TRANSITIVE a2), Some (vt_proto v))
  end.

(** The arguments of [AttributeType.getOwners]. *)
Definition resolve_getOwners (a1 : option (list Annotation + Transitivity))
    (a2 : option Transitivity) : outcome exn (list pval * option TypeTransitivity) :=
  let '(annotations, a1, a2) :=
    match a1 with
    | Some (inl l) => (Annotation_proto <$> l, inr <$> a2, None)
    | _ => ([], a1, a2)
    end in
  match a1 with
  | Some (inr t) => outcome_bind (assert_ (is_undefined a2)) (λ _,
      Ret (annotations, Some (tr_proto t)))
  | _ => Ret (annotations, None)
  end.

(** The arguments of [setOwns] after the attribute type. *)
Definition resolve_setOwns (a1 : option (TypeImpl + list Annotation))
    (maybeAnnotations : option (list Annotation)) : outcome exn (pval * list pval) :=
  match a1 with
  | None => outcome_bind (assert_ (is_undefined maybeAnnotations)) (λ _, Ret (PNull, []))
  | Some (inr l) => outcome_bind (assert_ (is_undefined maybeAnnotations)) (λ _,
      Ret (PNull, Annotation_proto <$> l))
  | Some (inl t) => Ret (AttributeType_proto t,
      Annotation_proto <$> default [] maybeAnnotations)
  end.

Section types.
Context {S : Type} `{!TransactionExtended S}.
Local Abbreviation tproc := (proc S exn).
Local Abbreviation tgen := (gen S exn).

(** ** [ThingTypeImpl] *)

Definition tt_execute (request : pval) : tproc (option msg) :=
  rpc_execute request false ≫= λ res, lift_outcome (get_path ["type_res"; "thing_type_res"] res).

Definition tt_stream (request : pval) : tproc (tgen (option msg)) :=
  rpc_stream request ≫= λ g,
  mret (gmap_ (pure (get_path ["type_res_part"; "thing_type_res_part"])) g).

(** [await this.execute(transaction, request)] without a result *)
Definition tt_run (request : pval) : tproc unit := tt_execute request ≫= λ _, mret tt.

(** [decode(res.case.field)] of the response *)
Definition tt_get {P A} (request : pval) (case_ f : string) (r : payload → option (option P))
    (decode : option P → outcome exn (option A)) : tproc (option A) :=
  tt_execute request ≫= λ res,
  lift_outcome (field_of case_ f r None res) ≫= λ p, lift_outcome (decode p).

(** [this.stream(transaction, request).flatMap(...).map(decode)] *)
Definition tt_answers {Q A} (request : pval) (case_ f : string) (r : payload → option (list Q))
    (decode : Q → outcome exn A) : tproc (tgen A) :=
  tt_stream request ≫= λ g, mret (answers case_ f r decode g).

Definition thing_type_delete (label : Label) : tproc unit :=
  tt_run (Type_ThingType_deleteReq label).
Definition thing_type_setLabel (label : Label) (newLabel : string) : tproc unit :=
  tt_run (Type_ThingType_setLabelReq label newLabel).
Definition setAbstract (label : Label) : tproc unit :=
  tt_run (Type_ThingType_setAbstractReq label).
Definition unsetAbstract (label : Label) : tproc unit :=
  tt_run (Type_ThingType_unsetAbstractReq label).

Definition getOwns (label : Label) (a1 a2 a3 : option filter_arg) : tproc (tgen (option TypeImpl)) :=
  lift_outcome (resolve_getOwns a1 a2 a3) ≫= λ '(valueType, annotations, transitivity),
  tt_answers (Type_ThingType_getOwnsReq label valueType annotations transitivity)
    "thing_type_get_owns_res_part" "attribute_types" of_attribute_types
    (λ p, ofAttributeTypeProto (Some p)).

Definition getOwnsOverridden (label : Label) (attributeType : TypeImpl)
    : tproc (option TypeImpl) :=
  tt_get (Type_ThingType_getOwnsOverriddenReq label (AttributeType_proto attributeType))
    "thing_type_get_owns_overridden_res" "attribute_type" of_attribute_type ofAttributeTypeProto.

Definition setOwns (label : Label) (attributeType : TypeImpl)
    (overriddenTypeOrAnnotations : option (TypeImpl + list Annotation))
    (maybeAnnotations : option (list Annotation)) : tproc unit :=
  lift_outcome (resolve_setOwns overriddenTypeOrAnnotations maybeAnnotations) ≫=
  λ '(overriddenType, annotations),
  tt_run (Type_ThingType_setOwnsReq label (AttributeType_proto attributeType) overriddenType
    annotations).

Definition unsetOwns (label : Label) (attributeType : TypeImpl) : tproc unit :=
  tt_run (Type_ThingType_unsetOwnsReq label (AttributeType_proto attributeType)).

Definition getPlays (label : Label) (t : option Transitivity) : tproc (tgen (option TypeImpl)) :=
  tt_answers (Type_ThingType_getPlaysReq label (or_transitive t))
    "thing_type_get_plays_res_part" "role_types" of_role_types (λ p, ofRoleTypeProto (Some p)).

Definition getPlaysOverridden (label : Label) (role : TypeImpl) : tproc (option TypeImpl) :=
  tt_get (Type_ThingType_getPlaysOverriddenReq label (RoleType_proto role))
    "thing_type_get_plays_overridden_res" "role_type" of_role_type ofRoleTypeProto.

Definition setPlays (label : Label) (role : TypeImpl) (overriddenRole : option TypeImpl)
    : tproc unit :=
  let overriddenProto :=
    match overriddenRole with Some r => RoleType_proto r | None => PUndefined end in
  tt_run (Type_ThingType_setPlaysReq label (RoleType_proto role) overriddenProto).

Definition unsetPlays (label : Label) (role : TypeImpl) : tproc unit :=
  tt_run (Type_ThingType_unsetPlaysReq label (RoleType_proto role)).

Definition getSyntax (label : Label) : tproc string :=
  tt_execute (Type_ThingType_getSyntaxReq label) ≫= λ res,
  lift_outcome (field_of "thing_type_get_syntax_res" "syntax" of_string "" res).

(** ** [EntityTypeImpl] *)

(** [!(await p)] *)
Definition not_found {A} (m : tproc (option A)) : tproc bool :=
  m ≫= λ o, mret (is_undefined o).

Definition entity_type_isDeleted (label : Label) : tproc bool :=
  not_found (getEntityType (name label)).

Definition entity_type_create (label : Label) : tproc (option ThingImpl) :=
  tt_get (Type_EntityType_createReq label) "entity_type_create_res" "entity" of_entity
    ofEntityProto.

Definition entity_type_getSupertype (label : Label) : tproc (option TypeImpl) :=
  tt_get (Type_EntityType_getSupertypeReq label) "entity_type_get_supertype_res" "entity_type"
    of_entity_type ofEntityTypeProto.

Definition entity_type_setSupertype (label : Label) (superEntityType : TypeImpl) : tproc unit :=
  tt_run (Type_EntityType_setSupertypeReq label (EntityType_proto superEntityType)).

Definition entity_type_getSupertypes (label : Label) : tproc (tgen (option TypeImpl)) :=
  tt_answers (Type_EntityType_getSupertypesReq label) "entity_type_get_supertypes_res_part"
    "entity_types" of_entity_types (λ p, ofEntityTypeProto (Some p)).

Definition entity_type_getSubtypes (label : Label) (t : option Transitivity)
    : tproc (tgen (option TypeImpl)) :=
  tt_answers (Type_EntityType_getSubtypesReq label (or_transitive t))
    "entity_type_get_subtypes_res_part" "entity_types" of_entity_types
    (λ p, ofEntityTypeProto (Some p)).

Definition entity_type_getInstances (label : Label) (t : option Transitivity)
    : tproc (tgen (option ThingImpl)) :=
  tt_answers (Type_EntityType_getInstancesReq label (or_transitive t))
    "entity_type_get_instances_res_part" "entities" of_entities (λ p, ofEntityProto (Some p)).

(** ** [RelationTypeImpl] *)

Definition relation_type_isDeleted (label : Label) : tproc bool :=
  not_found (getRelationType (name label)).

Definition relation_type_create (label : Label) : tproc (option ThingImpl) :=
  tt_get (Type_RelationType_createReq label) "relation_type_create_res" "relation" of_relation
    ofRelationProto.

Definition relation_type_getSupertype (label : Label) : tproc (option TypeImpl) :=
  tt_get (Type_RelationType_getSupertypeReq label) "relation_type_get_supertype_res"
    "relation_type" of_relation_type ofRelationTypeProto.

Definition relation_type_setSupertype (label : Label) (superRelationType : TypeImpl)
    : tproc unit :=
  tt_run (Type_RelationType_setSupertypeReq label (RelationType_proto superRelationType)).

Definition relation_type_getSupertypes (label : Label) : tproc (tgen (option TypeImpl)) :=
  tt_answers (Type_RelationType_getSupertypesReq label) "relation_type_get_supertypes_res_part"
    "relation_types" of_relation_types (λ p, ofRelationTypeProto (Some p)).

Definition relation_type_getSubtypes (label : Label) (t : option Transitivity)
    : tproc (tgen (option TypeImpl)) :=
  tt_answers (Type_RelationType_getSubtypesReq label (or_transitive t))
    "relation_type_get_subtypes_res_part" "relation_types" of_relation_types
    (λ p, ofRelationTypeProto (Some p)).

Definition relation_type_getInstances (label : Label) (t : option Transitivity)
    : tproc (tgen (option ThingImpl)) :=
  tt_answers (Type_RelationType_getInstancesReq label (or_transitive t))
    "relation_type_get_instances_res_part" "relations" of_relations
    (λ p, ofRelationProto (Some p)).

Definition getRelates (label : Label) (t : option Transitivity) : tproc (tgen (option TypeImpl)) :=
  tt_answers (Type_RelationType_getRelatesReq label (or_transitive t))
    "relation_type_get_relates_res_part" "role_types" of_role_types
    (λ p, ofRoleTypeProto (Some p)).

Definition getRelatesForRoleLabel (label : Label) (roleLabel : string)
    : tproc (option TypeImpl) :=
  tt_get (Type_RelationType_getRelatesForRoleLabel label roleLabel)
    "relation_type_get_relates_for_role_label_res" "role_type" of_role_type ofRoleTypeProto.

Definition getRelatesOverridden (label : Label) (roleLabel : string) : tproc (option TypeImpl) :=
  tt_get (Type_RelationType_getRelatesOverriddenReq label roleLabel)
    "relation_type_get_relates_overridden_res" "role_type" of_role_type ofRoleTypeProto.

Definition setRelates (label : Label) (roleLabel : string) (overriddenLabel : option string)
    : tproc unit :=
  tt_run (Type_RelationType_setRelatesReq label roleLabel overriddenLabel).

Definition unsetRelates (label : Label) (roleLabel : string) : tproc unit :=
  tt_run (Type_RelationType_unsetRelatesReq label roleLabel).

(** ** [AttributeTypeImpl] *)

Definition attribute_type_isDeleted (label : Label) : tproc bool :=
  not_found (getAttributeType (name label)).

Definition attribute_type_put (label : Label) (value : ValueImpl) : tproc (option ThingImpl) :=
  lift_outcome (Value_proto value) ≫= λ v,
  tt_get (Type_AttributeType_putReq label v) "attribute_type_put_res" "attribute" of_attribute
    ofAttributeProto.

Definition putBoolean (label : Label) (value : bool) : tproc (option ThingImpl) :=
  attribute_type_put label (mkValue ValueType_BOOLEAN (JBool value)).
Definition putLong (label : Label) (value : spec_float) : tproc (option ThingImpl) :=
  attribute_type_put label (mkValue ValueType_LONG (JNum value)).
Definition putDouble (label : Label) (value : spec_float) : tproc (option ThingImpl) :=
  attribute_type_put label (mkValue ValueType_DOUBLE (JNum value)).
Definition putString (label : Label) (value : string) : tproc (option ThingImpl) :=
  attribute_type_put label (mkValue ValueType_STRING (JStr value)).
Definition putDateTime (label : Label) (ref : positive) (time : spec_float)
    : tproc (option ThingImpl) :=
  attribute_type_put label (mkValue ValueType_DATETIME (JDate ref time)).

Definition attribute_type_get (label : Label) (value : ValueImpl) : tproc (option ThingImpl) :=
  lift_outcome (Value_proto value) ≫= λ v,
  tt_get (Type_AttributeType_getReq label v) "attribute_type_get_res" "attribute" of_attribute
    ofAttributeProto.

Definition getBoolean (label : Label) (value : bool) : tproc (option ThingImpl) :=
  attribute_type_get label (mkValue ValueType_BOOLEAN (JBool value)).
Definition getLong (label : Label) (value : spec_float) : tproc (option ThingImpl) :=
  attribute_type_get label (mkValue ValueType_LONG (JNum value)).
Definition getDouble (label : Label) (value : spec_float) : tproc (option ThingImpl) :=
  attribute_type_get label (mkValue ValueType_DOUBLE (JNum value)).
Definition getString (label : Label) (value : string) : tproc (option ThingImpl) :=
  attribute_type_get label (mkValue ValueType_STRING (JStr value)).
Definition getDateTime (label : Label) (ref : positive) (time : spec_float)
    : tproc (option ThingImpl) :=
  attribute_type_get label (mkValue ValueType_DATETIME (JDate ref time)).

Definition attribute_type_getSupertype (label : Label) : tproc (option TypeImpl) :=
  tt_get (Type_AttributeType_getSupertypeReq label) "attribute_type_get_supertype_res"
    "attribute_type" of_attribute_type ofAttributeTypeProto.

Definition attribute_type_setSupertype (label : Label) (superAttributeType : TypeImpl)
    : tproc unit :=
  tt_run (Type_AttributeType_setSupertypeReq label (AttributeType_proto superAttributeType)).

Definition attribute_type_getSupertypes (label : Label) : tproc (tgen (option TypeImpl)) :=
  tt_answers (Type_AttributeType_getSupertypesReq label)
    "attribute_type_get_supertypes_res_part" "attribute_types" of_attribute_types
    (λ p, ofAttributeTypeProto (Some p)).

Definition attribute_type_getSubtypes (label : Label)
    (valueTypeOrTransitivity : option (ValueType + Transitivity))
    (maybeTransitivity : option Transitivity) : tproc (tgen (option TypeImpl)) :=
  lift_outcome (resolve_getSubtypes valueTypeOrTransitivity maybeTransitivity) ≫=
  λ '(transitivity, valueType),
  tt_answers (Type_AttributeType_getSubtypesReq label (Some transitivity) valueType)
    "attribute_type_get_subtypes_res_part" "attribute_types" of_attribute_types
    (λ p, ofAttributeTypeProto (Some p)).

Definition attribute_type_getInstances (label : Label) (t : option Transitivity)
    : tproc (tgen (option ThingImpl)) :=
  tt_answers (Type_AttributeType_getInstancesReq label (or_transitive t))
    "attribute_type_get_instances_res_part" "attributes" of_attributes
    (λ p, ofAttributeProto (Some p)).

Definition attribute_type_getOwners (label : Label)
    (annotationsOrTransitivity : option (list Annotation + Transitivity))
    (maybeTransitivity : option Transitivity) : tproc (tgen (option TypeImpl)) :=
  lift_outcome (resolve_getOwners annotationsOrTransitivity maybeTransitivity) ≫=
  λ '(annotations, transitivity),
  tt_answers (Type_AttributeType_getOwnersReq label transitivity annotations)
    "attribute_type_get_owners_res_part" "thing_types" of_thing_types ofThingTypeProto.

Definition getRegex (label : Label) : tproc string :=
  tt_execute (Type_AttributeType_getRegexReq label) ≫= λ res,
  lift_outcome (field_of "attribute_type_get_regex_res" "regex" of_string "" res).

Definition setRegex (label : Label) (regex : string) : tproc unit :=
  tt_run (Type_AttributeType_setRegexReq label regex).

Definition unsetRegex (label : Label) : tproc unit := setRegex label "".

(** ** [RoleTypeImpl] *)

Definition role_execute (request : pval) : tproc (option msg) :=
  rpc_execute request false ≫= λ res, lift_outcome (get_path ["type_res"; "role_type_res"] res).

Definition role_stream (request : pval) : tproc (tgen (option msg)) :=
  rpc_stream request ≫= λ g,
  mret (gmap_ (pure (get_path ["type_res_part"; "role_type_res_part"])) g).

Definition role_answers {Q A} (request : pval) (case_ f : string)
    (r : payload → option (list Q)) (decode : Q → outcome exn A) : tproc (tgen A) :=
  role_stream request ≫= λ g, mret (answers case_ f r decode g).

Definition role_type_delete (label : Label) : tproc unit :=
  role_execute (Type_RoleType_deleteReq label) ≫= λ _, mret tt.

Definition role_type_setLabel (label : Label) (newLabel : string) : tproc unit :=
  role_execute (Type_RoleType_setLabelReq label newLabel) ≫= λ _, mret tt.

Definition role_type_getSupertype (label : Label) : tproc (option TypeImpl) :=
  role_execute (Type_RoleType_getSupertypeReq label) ≫= λ res,
  lift_outcome (field_of "role_type_get_supertype_res" "role_type" of_role_type None res) ≫= λ p,
  lift_outcome (ofRoleTypeProto p).

Definition role_type_getSupertypes (label : Label) : tproc (tgen (option TypeImpl)) :=
  role_answers (Type_RoleType_getSupertypesReq label) "role_type_get_supertypes_res_part"
    "role_types" of_role_types (λ p, ofRoleTypeProto (Some p)).

Definition role_type_getSubtypes (label : Label) (t : option Transitivity)
    : tproc (tgen (option TypeImpl)) :=
  role_answers (Type_RoleType_getSubtypesReq label (or_transitive t))
    "role_type_get_subtypes_res_part" "role_types" of_role_types (λ p, ofRoleTypeProto (Some p)).

(** [transaction.concepts.getRelationType(this.label.scope)]; the label of a role
    type has a scope. *)
Definition getRelationType_of_role (label : Label) : tproc (option TypeImpl) :=
  getRelationType (default "" (scope label)).

Definition role_type_isDeleted (label : Label) : tproc bool :=
  getRelationType_of_role label ≫= λ relationType,
  match relationType with
  | None => mret true
  | Some t => not_found (getRelatesForRoleLabel (t_label t) (name label))
  end.

Definition getRelationTypes (label : Label) : tproc (tgen (option TypeImpl)) :=
  role_answers (Type_RoleType_getRelationTypesReq label) "role_type_get_relation_types_res_part"
    "relation_types" of_relation_types (λ p, ofRelationTypeProto (Some p)).

Definition getPlayerTypes (label : Label) (t : option Transitivity)
    : tproc (tgen (option TypeImpl)) :=
  role_answers (Type_RoleType_getPlayerTypesReq label (or_transitive t))
    "role_type_get_player_types_res_part" "thing_types" of_thing_types ofThingTypeProto.

Definition getRelationInstances (label : Label) (t : option Transitivity)
    : tproc (tgen (option ThingImpl)) :=
  role_answers (Type_RoleType_getRelationInstancesReq label (or_transitive t))
    "role_type_get_relation_instances_res_part" "relations" of_relations
    (λ p, ofRelationProto (Some p)).

Definition getPlayerInstances (label : Label) (t : option Transitivity)
    : tproc (tgen (option ThingImpl)) :=
  role_answers (Type_RoleType_getPlayerInstancesReq label (or_transitive t))
    "role_type_get_player_instances_res_part" "things" of_things ofThingProto.

(** ** [ThingTypeImpl.Root] *)

Definition root_isDeleted : tproc bool := mret false.
Definition root_getSupertype : tproc (option TypeImpl) := mret None.
Definition root_getSupertypes (this : TypeImpl) : tproc (tgen TypeImpl) := mret (array [this]).

(** A promise, as the outcome it comes to. *)
Definition settle {A} (m : tproc A) : tproc (outcome exn A) := λ s, let '(o, s') := m s in (Ret o, s').

(** [Stream.promises] of the three root types; the requests are made when the
    stream is made. *)
Definition roots : tproc (tgen (option TypeImpl)) :=
  settle getRootEntityType ≫= λ e,
  settle getRootRelationType ≫= λ r,
  settle getRootAttributeType ≫= λ a,
  mret (promises [e; r; a]).

Definition is_explicit (t : option Transitivity) : bool :=
  bool_decide (or_transitive t = Some EXPLICIT).

(** [tt.getSubtypes(transaction, transitivity)] of a thing type, which may be
    null; [depth] bounds the calls on root thing types inside each other, of
    which there is one, since [roots] yields none. *)
Fixpoint thing_type_getSubtypes (depth : nat) (tt_ : option TypeImpl) (t : option Transitivity)
    : tproc (tgen (option TypeImpl)) :=
  match tt_ with
  | None => throw (type_error "getSubtypes")
  | Some this =>
      match t_class this with
      | EntityTypeImpl => entity_type_getSubtypes (t_label this) t
      | RelationTypeImpl => relation_type_getSubtypes (t_label this) t
      | AttributeTypeImpl _ => attribute_type_getSubtypes (t_label this) (inr <$> t) None
      | RoleTypeImpl => role_type_getSubtypes (t_label this) t
      | ThingTypeRoot =>
          match depth with
          | O => pending
          | Datatypes.S d =>
              let t := Some (default Transitivity_TRANSITIVE t) in
              roots ≫= λ g,
              if is_explicit t then mret g
              else mret (flatMap (λ x, thing_type_getSubtypes d x t) g)
          end
      end
  end.

Fixpoint thing_type_getInstances (depth : nat) (tt_ : option TypeImpl) (t : option Transitivity)
    : tproc (tgen (option ThingImpl)) :=
  match tt_ with
  | None => throw (type_error "getInstances")
  | Some this =>
      match t_class this with
      | EntityTypeImpl => entity_type_getInstances (t_label this) t
      | RelationTypeImpl => relation_type_getInstances (t_label this) t
      | AttributeTypeImpl _ => attribute_type_getInstances (t_label this) t
      | RoleTypeImpl => throw (JsError "TypeError" "tt.getInstances is not a function")
      | ThingTypeRoot =>
          match depth with
          | O => pending
          | Datatypes.S d =>
              let t := Some (default Transitivity_TRANSITIVE t) in
              if is_explicit t then mret (array [])
              else roots ≫= λ g, mret (flatMap (λ x, thing_type_getInstances d x t) g)
          end
      end
  end.

(** The methods of the root object. *)
Definition root_getSubtypes (t : option Transitivity) : tproc (tgen (option TypeImpl)) :=
  thing_type_getSubtypes 1 (Some (mkType ThingTypeRoot (label_of "thing") true true)) t.

Definition root_getInstances (t : option Transitivity) : tproc (tgen (option ThingImpl)) :=
  thing_type_getInstances 1 (Some (mkType ThingTypeRoot (label_of "thing") true true)) t.

(** ** Overloads *)

(** The arguments that are given, in the order of the declarations. *)
Definition given (vt : option ValueType) (anns : option (list Annotation))
    (t : option Transitivity) : list filter_arg :=
  omap id [ArgValueType <$> vt; ArgAnnotations <$> anns; ArgTransitivity <$> t].

(** C27 - every declared overload means what it says: whichever of the optional
    filters are given, in the order in which the signatures declare them (a value
    type, then annotations, then a transitivity), the methods send the request
    with exactly these filters, and the defaults for those that are not given.
    [getOwns] takes them in no other order: with a transitivity before
    annotations, as in the example of its documentation, it fails its
    assertion and sends nothing. *)
Theorem overloads_resolved (label : Label) (attributeType : TypeImpl) (vt : option ValueType)
    (anns : option (list Annotation)) (t : option Transitivity) (over : option TypeImpl) :
  getOwns label (given vt anns t !! 0) (given vt anns t !! 1) (given vt anns t !! 2) ≡
    tt_answers (Type_ThingType_getOwnsReq label (vt_proto <$> vt)
        (Annotation_proto <$> default [] anns) (tr_proto <$> t))
      "thing_type_get_owns_res_part" "attribute_types" of_attribute_types
      (λ p, ofAttributeTypeProto (Some p)) ∧
  attribute_type_getSubtypes label (if vt is Some v then Some (inl v) else inr <$> t)
      (if vt is Some _ then t else None) ≡
    tt_answers (Type_AttributeType_getSubtypesReq label (or_transitive t) (vt_proto <$> vt))
      "attribute_type_get_subtypes_res_part" "attribute_types" of_attribute_types
      (λ p, ofAttributeTypeProto (Some p)) ∧
  attribute_type_getOwners label (if anns is Some l then Some (inl l) else inr <$> t)
      (if anns is Some _ then t else None) ≡
    tt_answers (Type_AttributeType_getOwnersReq label (tr_proto <$> t)
        (Annotation_proto <$> default [] anns))
      "attribute_type_get_owners_res_part" "thing_types" of_thing_types ofThingTypeProto ∧
  setOwns label attributeType (if over is Some o then Some (inl o) else inr <$> anns)
      (if over is Some _ then anns else None) ≡
    tt_run (Type_ThingType_setOwnsReq label (AttributeType_proto attributeType)
      (if over is Some o then AttributeType_proto o else PNull)
      (Annotation_proto <$> default [] anns)) ∧
  (∀ v tr l,
    getOwns label (Some (ArgValueType v)) (Some (ArgTransitivity tr)) (Some (ArgAnnotations l)) ≡
      throw AssertionError ∧
    getOwns label (Some (ArgTransitivity tr)) (Some (ArgAnnotations l)) None ≡ throw AssertionError).
Proof.
  split; [|split; [|split; [|split; [|intros v tr l; by split]]]]; intros s.
  - by destruct vt, anns, t.
  - by destruct vt, t.
  - by destruct anns, t.
  - by destruct over, anns.
Qed.

(** ** Result types *)

Definition of_type (k : kind) (o : option TypeImpl) : Prop :=
  ∃ t, o = Some t ∧ is_kind k (ConceptType t) = true.
Definition of_thing (k : kind) (o : option ThingImpl) : Prop :=
  ∃ th, o = Some th ∧ is_kind k (ConceptThing th) = true.
Definition or_null {A} (P : option A → Prop) (o : option A) : Prop := o = None ∨ P o.

Definition streams {A} (P : A → Prop) (m : tproc (tgen A)) : Prop :=
  ∀ s g s', m s = (Ret g, s') → yields P g.
Definition returns {A} (P : A → Prop) (m : tproc A) : Prop :=
  ∀ s a s', m s = (Ret a, s') → P a.

Lemma ofEntityTypeProto_kind o x :
  ofEntityTypeProto o = Ret x → or_null (of_type KEntityType) x.
Proof. destruct o; intros [= <-]; [right; by eexists|by left]. Qed.
Lemma ofRelationTypeProto_kind o x :
  ofRelationTypeProto o = Ret x → or_null (of_type KRelationType) x.
Proof. destruct o; intros [= <-]; [right; by eexists|by left]. Qed.
Lemma ofAttributeTypeProto_kind o x :
  ofAttributeTypeProto o = Ret x → or_null (of_type KAttributeType) x.
Proof. destruct o; intros [= <-]; [right; by eexists|by left]. Qed.
Lemma ofRoleTypeProto_kind o x : ofRoleTypeProto o = Ret x → or_null (of_type KRoleType) x.
Proof. destruct o; intros [= <-]; [right; by eexists|by left]. Qed.
Lemma ofEntityProto_kind o x : ofEntityProto o = Ret x → or_null (of_thing KEntity) x.
Proof.
  destruct o as [p|]; [|intros [= <-]; by left]. simpl.
  destruct (ofEntityTypeProto _); try done. intros [= <-]. right; by eexists.
Qed.
Lemma ofRelationProto_kind o x : ofRelationProto o = Ret x → or_null (of_thing KRelation) x.
Proof.
  destruct o as [p|]; [|intros [= <-]; by left]. simpl.
  destruct (ofRelationTypeProto _); try done. intros [= <-]. right; by eexists.
Qed.
Lemma ofAttributeProto_kind o x : ofAttributeProto o = Ret x → or_null (of_thing KAttribute) x.
Proof.
  destruct o as [p|]; [|intros [= <-]; by left]. simpl.
  destruct (ofAttributeTypeProto _); try done. simpl. destruct (ofValueProto _); try done.
  intros [= <-]. right; by eexists.
Qed.

(** Messages that are there are not decoded to null. *)
Lemma nullable_Some {A B} (f : A → outcome exn B) a x :
  nullable f (Some a) = Ret x → x ≠ None.
Proof. simpl. destruct (f a); simpl; congruence. Qed.

Lemma ofThingTypeProto_kind p x : ofThingTypeProto p = Ret x → of_type KThingType x.
Proof. destruct p; try done; intros [= <-]; by eexists. Qed.

Lemma of_thing_mono k o :
  (k = KEntity ∨ k = KRelation ∨ k = KAttribute) → of_thing k o → of_thing KThing o.
Proof.
  intros Hk (th & -> & H). exists th. split; [done|]. destruct th as [[] ? ? ?];
    destruct Hk as [->|[->| ->]]; done.
Qed.

Lemma ofThingProto_kind p x : ofThingProto p = Ret x → of_thing KThing x.
Proof.
  destruct p as [p|p|p|]; try done; intros H; pose proof (nullable_Some _ _ _ H).
  - destruct (ofEntityProto_kind (Some p) x H) as [->|Hk]; [done|]. eapply of_thing_mono; [|exact Hk]. auto.
  - destruct (ofRelationProto_kind (Some p) x H) as [->|Hk]; [done|]. eapply of_thing_mono; [|exact Hk]. auto.
  - destruct (ofAttributeProto_kind (Some p) x H) as [->|Hk]; [done|]. eapply of_thing_mono; [|exact Hk]. auto.
Qed.

Lemma tt_answers_streams {Q A} (P : A → Prop) request case_ f (r : payload → option (list Q))
    (decode : Q → outcome exn A) :
  (∀ q a, decode q = Ret a → P a) → streams P (tt_answers request case_ f r decode).
Proof.
  intros H s g s'. unfold tt_answers, tt_stream. rewrite !proc_bind_eq.
  destruct (rpc_stream request s) as [[g0|e|] s1]; try done. intros [= <- <-].
  by apply yields_map.
Qed.

Lemma role_answers_streams {Q A} (P : A → Prop) request case_ f (r : payload → option (list Q))
    (decode : Q → outcome exn A) :
  (∀ q a, decode q = Ret a → P a) → streams P (role_answers request case_ f r decode).
Proof.
  intros H s g s'. unfold role_answers, role_stream. rewrite !proc_bind_eq.
  destruct (rpc_stream request s) as [[g0|e|] s1]; try done. intros [= <- <-].
  by apply yields_map.
Qed.

Lemma streams_lift {A X} (P : A → Prop) (o : outcome exn X) (k : X → tproc (tgen A)) :
  (∀ x, streams P (k x)) → streams P (lift_outcome o ≫= k).
Proof. intros H s g s'. rewrite proc_bind_eq. destruct o; try done. by apply H. Qed.

Lemma tt_get_returns {P A} (Q : option A → Prop) request case_ f (r : payload → option (option P))
    decode :
  (∀ o x, decode o = Ret x → Q x) → returns Q (tt_get request case_ f r decode).
Proof.
  intros H s a s'. unfold tt_get. rewrite !proc_bind_eq.
  destruct (tt_execute request s) as [[res|e|] s1]; try done. rewrite !proc_bind_eq.
  unfold lift_outcome. destruct (field_of case_ f r None res) as [p|e|]; try done.
  intros [= Hd <-]. eauto.
Qed.

Lemma of_type_mono k o :
  (k = KEntityType ∨ k = KRelationType ∨ k = KAttributeType) → of_type k o → of_type KThingType o.
Proof.
  intros Hk (t & -> & H). exists t. split; [done|]. destruct t as [[] ? ? ?];
    destruct Hk as [->|[->| ->]]; done.
Qed.

Lemma streams_weaken {A} (P Q : A → Prop) m : (∀ a, P a → Q a) → streams P m → streams Q m.
Proof. intros HPQ H s g s' Hm. eapply yields_weaken; [exact HPQ|]. by eapply H. Qed.

(** A message that is there decodes to a concept of its kind. *)
Ltac decoded H := let Hn := fresh in
  intros ? ? H; pose proof (nullable_Some _ _ _ H) as Hn;
  first [apply ofEntityTypeProto_kind in H | apply ofRelationTypeProto_kind in H
        | apply ofAttributeTypeProto_kind in H | apply ofRoleTypeProto_kind in H
        | apply ofEntityProto_kind in H | apply ofRelationProto_kind in H
        | apply ofAttributeProto_kind in H];
  destruct H as [->|H]; [done|exact H].

Lemma entity_type_getSubtypes_streams l t :
  streams (of_type KEntityType) (entity_type_getSubtypes l t).
Proof. apply tt_answers_streams. decoded H. Qed.
Lemma relation_type_getSubtypes_streams l t :
  streams (of_type KRelationType) (relation_type_getSubtypes l t).
Proof. apply tt_answers_streams. decoded H. Qed.
Lemma attribute_type_getSubtypes_streams l a b :
  streams (of_type KAttributeType) (attribute_type_getSubtypes l a b).
Proof. apply streams_lift. intros []. apply tt_answers_streams. decoded H. Qed.
Lemma entity_type_getInstances_streams l t :
  streams (of_thing KEntity) (entity_type_getInstances l t).
Proof. apply tt_answers_streams. decoded H. Qed.
Lemma relation_type_getInstances_streams l t :
  streams (of_thing KRelation) (relation_type_getInstances l t).
Proof. apply tt_answers_streams. decoded H. Qed.
Lemma attribute_type_getInstances_streams l t :
  streams (of_thing KAttribute) (attribute_type_getInstances l t).
Proof. apply tt_answers_streams. decoded H. Qed.

Lemma entity_type_getSupertypes_streams l :
  streams (of_type KEntityType) (entity_type_getSupertypes l).
Proof. apply tt_answers_streams. decoded H. Qed.
Lemma relation_type_getSupertypes_streams l :
  streams (of_type KRelationType) (relation_type_getSupertypes l).
Proof. apply tt_answers_streams. decoded H. Qed.
Lemma attribute_type_getSupertypes_streams l :
  streams (of_type KAttributeType) (attribute_type_getSupertypes l).
Proof. apply tt_answers_streams. decoded H. Qed.
Lemma role_type_getSupertypes_streams l :
  streams (of_type KRoleType) (role_type_getSupertypes l).
Proof. apply role_answers_streams. decoded H. Qed.
Lemma role_type_getSubtypes_streams l t :
  streams (of_type KRoleType) (role_type_getSubtypes l t).
Proof. apply role_answers_streams. decoded H. Qed.

Lemma get_concept_returns {P A} (Q : option A → Prop) case_ f (r : payload → option (option P))
    decode request :
  (∀ o x, decode o = Ret x → or_null Q x) →
  returns (or_null Q) (get_concept case_ f r decode request).
Proof.
  intros H s a s'. unfold get_concept. rewrite !proc_bind_eq.
  destruct (cm_execute request s) as [[res|e|] s1]; try done. rewrite !proc_bind_eq.
  unfold lift_outcome. destruct (has case_ res) as [[]|e|]; try done.
  - rewrite !proc_bind_eq. destruct (field_of case_ f r None res) as [p|e|]; try done.
    intros [= Hd <-]. eauto.
  - intros [= <- <-]. by left.
Qed.

Lemma outcome_Ret_inj {E A} (a b : A) : @Ret E A a = Ret b → a = b.
Proof. by intros [= ->]. Qed.

(** The root types that the root thing type starts from are entity, relation
    and attribute types, or null. *)
Definition leaf_type (o : option TypeImpl) : Prop :=
  or_null (of_type KEntityType) o ∨ or_null (of_type KRelationType) o
  ∨ or_null (of_type KAttributeType) o.

Lemma roots_streams : streams leaf_type roots.
Proof.
  intros s g s'. unfold roots, settle. rewrite !proc_bind_eq.
  destruct (getRootEntityType s) as [e s1] eqn:He. rewrite !proc_bind_eq.
  destruct (getRootRelationType s1) as [r s2] eqn:Hr. rewrite !proc_bind_eq.
  destruct (getRootAttributeType s2) as [a s3] eqn:Ha. intros Heq.
  assert (promises [e; r; a] = g) as <- by exact (outcome_Ret_inj _ _ (f_equal fst Heq)).
  apply yields_promises. intros x [<-|[<-|[<-|[]%not_elem_of_nil]%elem_of_cons]%elem_of_cons]%elem_of_cons.
  - left. eapply get_concept_returns; [apply ofEntityTypeProto_kind|exact He].
  - right; left. eapply get_concept_returns; [apply ofRelationTypeProto_kind|exact Hr].
  - right; right. eapply get_concept_returns; [apply ofAttributeTypeProto_kind|exact Ha].
Qed.

(** A type that is not the root thing type is dispatched without using up the
    depth, so one level is enough for the root. *)
Lemma leaf_depth d d' x t :
  leaf_type x →
  thing_type_getSubtypes d x t = thing_type_getSubtypes d' x t ∧
  thing_type_getInstances d x t = thing_type_getInstances d' x t.
Proof.
  intros [[->|(y & -> & H)]|[[->|(y & -> & H)]|[->|(y & -> & H)]]];
    try (by destruct d, d'); destruct y as [[] ? ? ?]; try done; by destruct d, d'.
Qed.

Lemma leaf_getSubtypes_streams d x t :
  leaf_type x → streams (of_type KThingType) (thing_type_getSubtypes d x t).
Proof.
  intros [[->|(y & -> & H)]|[[->|(y & -> & H)]|[->|(y & -> & H)]]];
    try (by destruct d); destruct y as [[] ? ? ?]; try done; destruct d; cbn.
  all: first
    [ apply (streams_weaken (of_type KEntityType)); [intros a; apply of_type_mono; auto|
           apply entity_type_getSubtypes_streams]
    | apply (streams_weaken (of_type KRelationType)); [intros a; apply of_type_mono; auto|
           apply relation_type_getSubtypes_streams]
    | apply (streams_weaken (of_type KAttributeType)); [intros a; apply of_type_mono; auto|
           apply attribute_type_getSubtypes_streams] ].
Qed.

Lemma leaf_getInstances_streams d x t :
  leaf_type x → streams (of_thing KThing) (thing_type_getInstances d x t).
Proof.
  intros [[->|(y & -> & H)]|[[->|(y & -> & H)]|[->|(y & -> & H)]]];
    try (by destruct d); destruct y as [[] ? ? ?]; try done; destruct d; cbn.
  all: first
    [ apply (streams_weaken (of_thing KEntity)); [intros a; apply of_thing_mono; auto|
           apply entity_type_getInstances_streams]
    | apply (streams_weaken (of_thing KRelation)); [intros a; apply of_thing_mono; auto|
           apply relation_type_getInstances_streams]
    | apply (streams_weaken (of_thing KAttribute)); [intros a; apply of_thing_mono; auto|
           apply attribute_type_getInstances_streams] ].
Qed.

(** A root type is a thing type, or null. *)
Lemma leaf_thing_type o : leaf_type o → or_null (of_type KThingType) o.
Proof.
  intros [[->|H]|[[->|H]|[->|H]]]; try by left.
  all: right; eapply of_type_mono; [|exact H]; auto.
Qed.

(** What a transitivity given to a root method means. *)
Lemma explicit_default t :
  is_explicit (Some (default Transitivity_TRANSITIVE t)) = is_explicit t.
Proof. by destruct t. Qed.

Lemma root_getSubtypes_streams t :
  streams (if is_explicit t then or_null (of_type KThingType) else of_type KThingType)
    (root_getSubtypes t).
Proof.
  intros s g s'. unfold root_getSubtypes. cbn [thing_type_getSubtypes t_class].
  rewrite explicit_default, proc_bind_eq. destruct (roots s) as [[h|e|] s1] eqn:Hr; try done.
  destruct (is_explicit t); intros Heq; pose proof (outcome_Ret_inj _ _ (f_equal fst Heq)) as <-.
  - eapply yields_weaken; [apply leaf_thing_type|by eapply roots_streams].
  - eapply yields_flatMap; [by eapply roots_streams|]. intros a s2 h2 s3 Ha Hf.
    exact (leaf_getSubtypes_streams 0 a (Some (default Transitivity_TRANSITIVE t)) Ha s2 h2 s3 Hf).
Qed.

Lemma root_getInstances_streams t : streams (of_thing KThing) (root_getInstances t).
Proof.
  intros s g s'. unfold root_getInstances. cbn [thing_type_getInstances t_class].
  rewrite explicit_default. destruct (is_explicit t); cbv iota.
  - intros Heq. pose proof (outcome_Ret_inj _ _ (f_equal fst Heq)) as <-. by apply yields_array.
  - rewrite proc_bind_eq. destruct (roots s) as [[h|e|] s1] eqn:Hr; try done.
    intros Heq. pose proof (outcome_Ret_inj _ _ (f_equal fst Heq)) as <-.
    eapply yields_flatMap; [by eapply roots_streams|]. intros a s2 h2 s3 Ha Hf.
    exact (leaf_getInstances_streams 0 a (Some (default Transitivity_TRANSITIVE t)) Ha s2 h2 s3 Hf).
Qed.

Lemma root_getSupertypes_streams this : streams (λ x, x = this) (root_getSupertypes this).
Proof.
  intros s g s' Heq. pose proof (outcome_Ret_inj _ _ (f_equal fst Heq)) as <-.
  apply yields_array. by constructor.
Qed.

Lemma returns_lift {A X} (P : A → Prop) (o : outcome exn X) (k : X → tproc A) :
  (∀ x, returns P (k x)) → returns P (lift_outcome o ≫= k).
Proof. intros H s a s'. rewrite proc_bind_eq. destruct o; try done. by apply H. Qed.

Lemma role_type_getSupertype_returns l :
  returns (or_null (of_type KRoleType)) (role_type_getSupertype l).
Proof.
  intros s a s'. unfold role_type_getSupertype. rewrite proc_bind_eq.
  destruct (role_execute _ s) as [[res|e|] s1]; try done. apply returns_lift.
  intros p s2 b s3 [= Hb _]. by eapply ofRoleTypeProto_kind.
Qed.

(** C36 - the declared result types hold at run time: whatever the server
    answers, every method on types that returns concepts or a stream of them
    gives only concepts of the kind that its signature names. A single result
    may be null, and the elements of a stream are not, with one exception: the
    subtypes of the root thing type, asked for explicitly, are the three root
    types as the server gives them, of which each may be null. (The methods
    that put or get an attribute by a value of some type are those for any
    value, at that type.) *)
Theorem declared_types_hold (l : Label) (t : option Transitivity) (a1 a2 a3 : option filter_arg)
    (vt : option (ValueType + Transitivity)) (an : option (list Annotation + Transitivity))
    (v : ValueImpl) (attributeType role this : TypeImpl) (n : string) :
  (streams (of_type KAttributeType) (getOwns l a1 a2 a3) ∧
   returns (or_null (of_type KAttributeType)) (getOwnsOverridden l attributeType) ∧
   streams (of_type KRoleType) (getPlays l t) ∧
   returns (or_null (of_type KRoleType)) (getPlaysOverridden l role)) ∧
  (returns (or_null (of_thing KEntity)) (entity_type_create l) ∧
   returns (or_null (of_type KEntityType)) (entity_type_getSupertype l) ∧
   streams (of_type KEntityType) (entity_type_getSupertypes l) ∧
   streams (of_type KEntityType) (entity_type_getSubtypes l t) ∧
   streams (of_thing KEntity) (entity_type_getInstances l t)) ∧
  (returns (or_null (of_thing KRelation)) (relation_type_create l) ∧
   returns (or_null (of_type KRelationType)) (relation_type_getSupertype l) ∧
   streams (of_type KRelationType) (relation_type_getSupertypes l) ∧
   streams (of_type KRelationType) (relation_type_getSubtypes l t) ∧
   streams (of_thing KRelation) (relation_type_getInstances l t) ∧
   streams (of_type KRoleType) (getRelates l t) ∧
   returns (or_null (of_type KRoleType)) (getRelatesForRoleLabel l n) ∧
   returns (or_null (of_type KRoleType)) (getRelatesOverridden l n)) ∧
  (returns (or_null (of_thing KAttribute)) (attribute_type_put l v) ∧
   returns (or_null (of_thing KAttribute)) (attribute_type_get l v) ∧
   returns (or_null (of_type KAttributeType)) (attribute_type_getSupertype l) ∧
   streams (of_type KAttributeType) (attribute_type_getSupertypes l) ∧
   streams (of_type KAttributeType) (attribute_type_getSubtypes l vt t) ∧
   streams (of_thing KAttribute) (attribute_type_getInstances l t) ∧
   streams (of_type KThingType) (attribute_type_getOwners l an t)) ∧
  (returns (or_null (of_type KRoleType)) (role_type_getSupertype l) ∧
   streams (of_type KRoleType) (role_type_getSupertypes l) ∧
   streams (of_type KRoleType) (role_type_getSubtypes l t) ∧
   returns (or_null (of_type KRelationType)) (getRelationType_of_role l) ∧
   streams (of_type KRelationType) (getRelationTypes l) ∧
   streams (of_type KThingType) (getPlayerTypes l t) ∧
   streams (of_thing KRelation) (getRelationInstances l t) ∧
   streams (of_thing KThing) (getPlayerInstances l t)) ∧
  (returns (λ o, o = None) root_getSupertype ∧
   streams (λ x, x = this) (root_getSupertypes this) ∧
   streams (if is_explicit t then or_null (of_type KThingType) else of_type KThingType)
     (root_getSubtypes t) ∧
   streams (of_thing KThing) (root_getInstances t)).
Proof.
  repeat match goal with |- _ ∧ _ => split end.
  all: auto using root_getSubtypes_streams, root_getInstances_streams, root_getSupertypes_streams,
    role_type_getSupertype_returns.
  all: try (apply get_concept_returns, ofRelationTypeProto_kind).
  all: unfold attribute_type_put, attribute_type_get;
    try match goal with |- returns _ (lift_outcome _ ≫= _) => apply returns_lift; intros ? end.
  all: try (apply tt_get_returns; first [apply ofEntityProto_kind | apply ofRelationProto_kind
    | apply ofAttributeProto_kind | apply ofEntityTypeProto_kind | apply ofRelationTypeProto_kind
    | apply ofAttributeTypeProto_kind | apply ofRoleTypeProto_kind]).
  all: try (apply streams_lift; intros [[] ?]).
  all: try (apply streams_lift; intros []).
  all: try (first [apply tt_answers_streams | apply role_answers_streams]; first
    [exact ofThingTypeProto_kind | exact ofThingProto_kind | decoded H]).
  intros s a s' H. exact (eq_sym (outcome_Ret_inj _ _ (f_equal fst H))).
Qed.
End types.
