(* ===== verification/ThingOps.v ===== *)
(** * Operations on things

    Models the methods of [concept/thing/ThingImpl.ts], [EntityImpl.ts],
    [RelationImpl.ts] and [AttributeImpl.ts] that call the server. [this] is
    represented by its id where a method reads nothing else of it. *)
From S2P Require Import Prelude Errors Bytes Proto RequestBuilder Streams Messages Concept ConceptManager TypeOps.
Local Open Scope string_scope.
Local Open Scope list_scope.

(** ** Overloads of [getHas] *)

(** The first optional argument: an array of attribute types or of
    annotations, or one attribute type. *)
Inductive has_arg : Type :=
  | HasTypes (l : list TypeImpl)
  | HasAnnotations (l : list Annotation)
  | HasType (t : TypeImpl).

(** [x instanceof AttributeTypeImpl] *)
Definition is_AttributeTypeImpl (t : TypeImpl) : bool :=
  match t_class t with AttributeTypeImpl _ => true | _ => false end.

(** [annotations.map(annotation => Annotation.proto(annotation))] of an array of
    types that were taken for annotations. *)
Definition types_as_annotations (l : list TypeImpl) : outcome exn (list pval) :=
  mapM_outcome (λ t, Throw (driver_error BAD_ANNOTATION [type_toString t])) l.

Definition resolve_getHas (a1 : option has_arg) (maybeAnnotations : option (list Annotation))
    : outcome exn (list pval * list pval) :=
  let no_more := assert_ (is_undefined maybeAnnotations) in
  let annotations := Annotation_proto <$> default [] maybeAnnotations in
  match a1 with
  | None => outcome_bind no_more (λ _, Ret ([], annotations))
  | Some (HasTypes []) | Some (HasAnnotations []) => Ret ([], annotations)
  | Some (HasTypes ((t :: _) as l)) =>
      if is_AttributeTypeImpl t then Ret (AttributeType_proto <$> l, annotations)
      else outcome_bind no_more (λ _,
           outcome_bind (types_as_annotations l) (λ annotations, Ret ([], annotations)))
  | Some (HasAnnotations l) => outcome_bind no_more (λ _, Ret ([], Annotation_proto <$> l))
  | Some (HasType t) =>
      outcome_bind (assert_ (is_AttributeTypeImpl t)) (λ _,
      outcome_bind no_more (λ _, Ret ([AttributeType_proto t], annotations)))
  end.

(** ** Role players *)

(** The map that [getRolePlayers] builds: its entries in insertion order. A
    role that the server does not name is null. *)
Abbreviation role_map := (list (option TypeImpl * list (option ThingImpl))).

(** [this.findRole(map, role)]: the position of the key with the same scoped
    name; comparing with a null role or key throws. *)
Fixpoint findRole (m : role_map) (role : option TypeImpl) : outcome exn (option nat) :=
  match m with
  | [] => Ret None
  | (roleType, _) :: m' =>
      match roleType, role with
      | Some rt, Some r =>
          if bool_decide (scopedName (t_label rt) = scopedName (t_label r)) then Ret (Some 0)
          else outcome_map (option_map S) (findRole m' role)
      | _, _ => Throw (type_error "label")
      end
  end.

(** The callback of [forEach]. *)
Definition add_player (m : role_map) (entry : option RoleTypeProto * option ThingProto)
    : outcome exn role_map :=
  outcome_bind (ofRoleTypeProto entry.1) (λ role,
  outcome_bind
    match entry.2 with
    | Some p => ofThingProto p
    | None => Throw (type_error "has_entity")
    end (λ player,
  outcome_bind (findRole m role) (λ key,
  Ret match key with
      | Some i => alter (λ e, (e.1, e.2 ++ [player])) i m
      | None => m ++ [(role, [player])]
      end))).

(** ** Specification of the role map *)

Definition role_name (e : TypeImpl * ThingImpl) : string := scopedName (t_label e.1).

(** The names that occur, each at its first occurrence. *)
Definition first_names (l : list (TypeImpl * ThingImpl)) : list string :=
  foldl (λ ns e, if bool_decide (role_name e ∈ ns) then ns else ns ++ [role_name e]) [] l.

Definition players_of (n : string) (l : list (TypeImpl * ThingImpl)) : list ThingImpl :=
  (List.filter (λ e, bool_decide (role_name e = n)) l).*2.

Definition first_role (n : string) (l : list (TypeImpl * ThingImpl)) : option TypeImpl :=
  fst <$> List.find (λ e, bool_decide (role_name e = n)) l.

(** For each name its first role object, and the players of that name in
    order. *)
Definition group (l : list (TypeImpl * ThingImpl)) : role_map :=
  (λ n, (first_role n l, Some <$> players_of n l)) <$> first_names l.

Lemma first_names_snoc l e :
  first_names (l ++ [e]) =
    if bool_decide (role_name e ∈ first_names l) then first_names l
    else first_names l ++ [role_name e].
Proof. unfold first_names. by rewrite foldl_app. Qed.

Lemma elem_of_first_names l n : n ∈ first_names l ↔ n ∈ role_name <$> l.
Proof.
  induction l as [|e l IH] using rev_ind; [done|].
  rewrite first_names_snoc, fmap_app. case_bool_decide as He; set_solver.
Qed.

Lemma first_names_NoDup l : NoDup (first_names l).
Proof.
  induction l as [|e l IH] using rev_ind; [constructor|]. rewrite first_names_snoc.
  case_bool_decide; [done|]. apply NoDup_app. split; [done|]. split; [set_solver|].
  apply NoDup_singleton.
Qed.

Lemma players_of_snoc n l e :
  players_of n (l ++ [e]) = players_of n l ++ (if bool_decide (role_name e = n) then [e.2] else []).
Proof.
  unfold players_of. rewrite List.filter_app, fmap_app. simpl. by case_bool_decide.
Qed.

Lemma find_app_l {A} (p : A → bool) l1 l2 x :
  List.find p l1 = Some x → List.find p (l1 ++ l2) = Some x.
Proof. induction l1 as [|a l1 IH]; [done|]. simpl. by destruct (p a). Qed.

Lemma find_app_r {A} (p : A → bool) l1 l2 :
  List.find p l1 = None → List.find p (l1 ++ l2) = List.find p l2.
Proof. induction l1 as [|a l1 IH]; [done|]. simpl. by destruct (p a). Qed.

Lemma find_role_name n l :
  n ∈ first_names l →
  ∃ e, List.find (λ e, bool_decide (role_name e = n)) l = Some e ∧ role_name e = n.
Proof.
  rewrite elem_of_first_names. induction l as [|e l IH]; [set_solver|]. simpl.
  case_bool_decide as He; [eauto|]. intros H. apply IH. set_solver.
Qed.

Lemma first_role_keep n l e : n ∈ first_names l → first_role n (l ++ [e]) = first_role n l.
Proof.
  intros (x & Hx & _)%find_role_name. unfold first_role. by rewrite Hx, (find_app_l _ _ _ _ Hx).
Qed.

Lemma first_role_name n l :
  n ∈ first_names l → ∃ r, first_role n l = Some r ∧ scopedName (t_label r) = n.
Proof. intros (x & Hx & Hn)%find_role_name. unfold first_role. rewrite Hx. by exists x.1. Qed.

Lemma findRole_map (ns : list string) (F : string → option TypeImpl)
    (G : string → list (option ThingImpl)) (r : TypeImpl) :
  (∀ n, n ∈ ns → ∃ r', F n = Some r' ∧ scopedName (t_label r') = n) →
  findRole ((λ n, (F n, G n)) <$> ns) (Some r) =
    Ret (fst <$> list_find (λ n, n = scopedName (t_label r)) ns).
Proof.
  induction ns as [|n ns IH]; intros H; [done|]. rewrite fmap_cons. cbn [findRole].
  destruct (H n) as (r' & -> & Hr'); [by constructor|]. rewrite Hr'.
  cbn [list_find]. case_bool_decide as Hn.
  - by rewrite decide_True.
  - rewrite decide_False by done. rewrite IH by (intros n' Hin; apply H; by constructor).
    simpl. by destruct (list_find _ ns) as [[]|].
Qed.

(** What an entry of the response decodes to. *)
Definition decodes (entry : option RoleTypeProto * option ThingProto) (e : TypeImpl * ThingImpl)
    : Prop :=
  ofRoleTypeProto entry.1 = Ret (Some e.1) ∧
  ∃ p, entry.2 = Some p ∧ ofThingProto p = Ret (Some e.2).

Lemma group_snoc l e :
  group (l ++ [e]) =
    match fst <$> list_find (λ n, n = role_name e) (first_names l) with
    | Some i => alter (λ x, (x.1, x.2 ++ [Some e.2])) i (group l)
    | None => group l ++ [(Some e.1, [Some e.2])]
    end.
Proof.
  destruct (list_find (λ n, n = role_name e) (first_names l)) as [[i n]|] eqn:Hf; simpl.
  - apply list_find_Some in Hf as (Hi & -> & _).
    assert (role_name e ∈ first_names l) as Hin by by eapply list_elem_of_lookup_2.
    unfold group. rewrite first_names_snoc, bool_decide_eq_true_2 by done.
    apply list_eq. intros j. destruct (decide (i = j)) as [<-|Hne].
    + rewrite list_lookup_alter_eq, !list_lookup_fmap, Hi. simpl.
      rewrite first_role_keep, players_of_snoc, bool_decide_eq_true_2 by done.
      by rewrite fmap_app.
    + rewrite list_lookup_alter_ne, !list_lookup_fmap by done.
      destruct (first_names l !! j) as [n|] eqn:Hj; [simpl|done].
      assert (n ≠ role_name e) as Hn.
      { intros ->. apply Hne. eapply NoDup_lookup; [apply first_names_NoDup| |]; done. }
      rewrite first_role_keep, players_of_snoc, bool_decide_eq_false_2, app_nil_r by
        first [done | by eapply list_elem_of_lookup_2]. done.
  - apply list_find_None in Hf.
    assert (role_name e ∉ first_names l) as Hin.
    { intros Hin. by eapply (Forall_forall _ _) in Hf; [|exact Hin]. }
    unfold group. rewrite first_names_snoc, bool_decide_eq_false_2, fmap_app by done. f_equal.
    + apply list_fmap_ext. intros j n Hj. apply list_elem_of_lookup_2 in Hj as Hn.
      rewrite first_role_keep, players_of_snoc by done.
      rewrite bool_decide_eq_false_2 by (intros <-; done). by rewrite app_nil_r.
    + simpl. rewrite players_of_snoc, bool_decide_eq_true_2 by done.
      assert (List.find (λ e', bool_decide (role_name e' = role_name e)) l = None) as Hnone.
      { destruct (List.find _ l) as [x|] eqn:Hx; [|done].
        apply List.find_some in Hx as [Hx1 Hx2%bool_decide_eq_true]. destruct Hin.
        apply elem_of_first_names. rewrite <- Hx2. apply list_elem_of_fmap_2.
        by apply list_elem_of_In. }
      assert (players_of (role_name e) l = []) as ->.
      { unfold players_of. rewrite filter_none; [done|]. intros x Hx.
        apply (List.find_none _ _ Hnone). by apply list_elem_of_In. }
      unfold first_role. rewrite (find_app_r _ _ _ Hnone). simpl.
      by rewrite bool_decide_eq_true_2.
Qed.

Lemma add_player_group l entry e :
  decodes entry e → add_player (group l) entry = Ret (group (l ++ [e])).
Proof.
  intros [Hr (p & Hp & Ht)]. unfold add_player. rewrite Hr, Hp. simpl. rewrite Ht. simpl.
  unfold group at 1. rewrite findRole_map.
  - cbn [outcome_bind]. rewrite group_snoc. unfold role_name. by destruct (list_find _ _) as [[]|].
  - intros n Hn. by apply first_role_name.
Qed.

Lemma add_players_group entries l :
  Forall2 decodes entries l → ∀ l0, foldM add_player (group l0) entries = Ret (group (l0 ++ l)).
Proof.
  induction 1 as [|entry e entries l He _ IH]; intros l0; [by rewrite app_nil_r|].
  cbn [foldM]. rewrite (add_player_group l0 entry e He). cbn [outcome_bind].
  rewrite IH. by rewrite <- app_assoc.
Qed.

Section things.
Context {S : Type} `{!TransactionExtended S}.
Local Abbreviation tproc := (proc S exn).
Local Abbreviation tgen := (gen S exn).

(** ** [ThingImpl] *)

Definition thing_execute (request : pval) : tproc (option msg) :=
  rpc_execute request false ≫= λ res, lift_outcome (get_path ["thing_res"] res).

Definition thing_stream (request : pval) : tproc (tgen (option msg)) :=
  rpc_stream request ≫= λ g, mret (gmap_ (pure (get_path ["thing_res_part"])) g).

(** The request may fail to build; then nothing is sent. *)
Definition thing_run (request : outcome exn pval) : tproc unit :=
  lift_outcome request ≫= λ req, thing_execute req ≫= λ _, mret tt.

Definition thing_answers {Q A} (request : outcome exn pval) (case_ f : string)
    (r : payload → option (list Q)) (decode : Q → outcome exn A) : tproc (tgen A) :=
  lift_outcome request ≫= λ req,
  thing_stream req ≫= λ g, mret (answers case_ f r decode g).

Definition thing_delete (iid : string) : tproc unit := thing_run (Thing_deleteReq iid).

Definition getHas (iid : string) (a1 : option has_arg) (maybeAnnotations : option (list Annotation))
    : tproc (tgen (option ThingImpl)) :=
  lift_outcome (resolve_getHas a1 maybeAnnotations) ≫= λ '(attributeTypes, annotations),
  thing_answers (Thing_getHasReq iid attributeTypes annotations)
    "thing_get_has_res_part" "attributes" of_attributes (λ p, ofAttributeProto (Some p)).

Definition setHas (iid : string) (attribute : ThingImpl) : tproc unit :=
  thing_run (outcome_bind (Attribute_proto attribute) (Thing_setHasReq iid)).

Definition unsetHas (iid : string) (attribute : ThingImpl) : tproc unit :=
  thing_run (outcome_bind (Attribute_proto attribute) (Thing_unsetHasReq iid)).

Definition getPlaying (iid : string) : tproc (tgen (option TypeImpl)) :=
  thing_answers (Thing_getPlayingReq iid) "thing_get_playing_res_part" "role_types" of_role_types
    (λ p, ofRoleTypeProto (Some p)).

Definition getRelations (iid : string) (roleTypes : option (list TypeImpl))
    : tproc (tgen (option ThingImpl)) :=
  thing_answers (Thing_getRelationsReq iid (RoleType_proto <$> default [] roleTypes))
    "thing_get_relations_res_part" "relations" of_relations (λ p, ofRelationProto (Some p)).

(** ** [EntityImpl], [RelationImpl], [AttributeImpl] *)

Definition entity_isDeleted (iid : string) : tproc bool := not_found (getEntity iid).
Definition relation_isDeleted (iid : string) : tproc bool := not_found (getRelation iid).
Definition attribute_isDeleted (iid : string) : tproc bool := not_found (getAttribute iid).

(** [attribute.valueType]: [this._type.valueType] *)
Definition attribute_valueType (th : ThingImpl) : outcome exn (option ValueType) :=
  match th_type th with
  | None => Throw (type_error "valueType")
  | Some t => Ret match t_class t with AttributeTypeImpl v => v | _ => None end
  end.

(** [attribute.value]: [this._value.value] *)
Definition attribute_value (th : ThingImpl) : outcome exn (option jsval) :=
  match th_class th with
  | AttributeImpl (Some v) => Ret (Some (v_value v))
  | AttributeImpl None => Throw (type_error "value")
  | _ => Ret None
  end.

Definition addRolePlayer (iid : string) (roleType : TypeImpl) (player : ThingImpl) : tproc unit :=
  thing_run (outcome_bind (Thing_proto player) (λ p,
    Thing_Relation_addRolePlayerReq iid (RoleType_proto roleType) p)).

Definition removeRolePlayer (iid : string) (roleType : TypeImpl) (player : ThingImpl)
    : tproc unit :=
  thing_run (outcome_bind (Thing_proto player) (λ p,
    Thing_Relation_removeRolePlayerReq iid (RoleType_proto roleType) p)).

Definition getPlayersByRoleType (iid : string) (roleTypes : option (list TypeImpl))
    : tproc (tgen (option ThingImpl)) :=
  thing_answers (Thing_Relation_getPlayersByRoleTypeReq iid
      (RoleType_proto <$> default [] roleTypes))
    "relation_get_players_by_role_type_res_part" "things" of_things ofThingProto.

(** [forEach] with a callback that updates the local map. *)
Definition getRolePlayers (iid : string) : tproc role_map :=
  lift_outcome (Thing_Relation_getRolePlayersReq iid) ≫= λ request,
  thing_stream request ≫= λ g,
  for_await (R := Empty_set) (λ m entry, lift_outcome (outcome_map inl (add_player m entry))) []
    (flatMap (λ part, lift_outcome (field_of "relation_get_role_players_res_part" "role_players"
        of_role_players [] part) ≫= λ l, mret (array l)) g) ≫= λ r : role_map + Empty_set,
  match r with inl m => mret m | inr v => match v with end end.

Definition getRelating (iid : string) : tproc (tgen (option TypeImpl)) :=
  thing_answers (Thing_Relation_getRelatingReq iid) "relation_get_relating_res_part" "role_types"
    of_role_types (λ p, ofRoleTypeProto (Some p)).

Definition attribute_getOwners (iid : string) (ownerType : option TypeImpl)
    : tproc (tgen (option ThingImpl)) :=
  thing_answers
    match ownerType with
    | None => Thing_Attribute_getOwnersReq iid PUndefined
    | Some t => outcome_bind (ThingType_proto t) (Thing_Attribute_getOwnersReq iid)
    end "attribute_get_owners_res_part" "things" of_things ofThingProto.

(** ** Properties *)

(** C26 - the role players of a relation are grouped by role: when the server
    delivers the entries in parts, the result has one entry per scoped role
    name, in the order of first occurrence, with the first role object of that
    name and the players of that name in the order they came. *)
Theorem getRolePlayers_groups (iid : string) (request : pval) (g : gen S exn msg) (s s1 s2 : S)
    (ls : list (list (option RoleTypeProto * option ThingProto)))
    (l : list (TypeImpl * ThingImpl))
    (Hreq : Thing_Relation_getRolePlayersReq iid = Ret request)
    (Hg : rpc_stream request s = (Ret g, s1))
    (Hparts : delivers ["thing_res_part"] "relation_get_role_players_res_part"
                (P_role_players <$> ls) g s1 (Ret tt, s2))
    (Hl : Forall2 decodes (concat ls) l) :
  getRolePlayers iid s = (Ret (group l), s2).
Proof.
  unfold getRolePlayers. rewrite Hreq. rewrite (proc_bind_run _ _ _ (Ret request) s) by done.
  assert (thing_stream request s = (Ret (gmap_ (pure (get_path ["thing_res_part"])) g), s1)) as Ht
    by (unfold thing_stream; rewrite proc_bind_eq; by rewrite Hg).
  rewrite (proc_bind_run _ _ _ _ _ Ht). rewrite proc_bind_eq.
  edestruct (delivers_fields ["thing_res_part"] "relation_get_role_players_res_part"
    "role_players" of_role_players (P_role_players <$> ls) ls g s1 (Ret tt, s2)
    Hparts) as (out & Ho & Hc).
  { clear. induction ls; by constructor. }
  rewrite (for_await_fold _ _ (group l)); rewrite Ho; [done|]. cbn [fst].
  rewrite Hc. by apply (add_players_group _ _ Hl []).
Qed.

(** The owners of an attribute can never be restricted to a type: given any
    owner type, [getOwners] throws before anything is sent, since no type
    passes the tests of [ThingType.proto]. *)
Theorem owners_by_type_throws (iid : string) (t : TypeImpl) (s : S) :
  attribute_getOwners iid (Some t) s = (Throw (driver_error ILLEGAL_STATE []), s).
Proof. unfold attribute_getOwners, thing_answers. by rewrite ThingType_proto_throws. Qed.

(** The overloads of [getHas]: attribute types, annotations or both are sent as
    they are given. One attribute type with annotations, as in the example of the
    documentation, is refused. *)
Lemma getHas_overloads (iid : string) (types : list TypeImpl) (anns : option (list Annotation)) :
  Forall (λ t, is_AttributeTypeImpl t = true) types →
  let sent l a := thing_answers (Thing_getHasReq iid l a) "thing_get_has_res_part" "attributes"
    of_attributes (λ p, ofAttributeProto (Some p)) in
  getHas iid (Some (HasTypes types)) anns ≡
    sent (AttributeType_proto <$> types) (Annotation_proto <$> default [] anns) ∧
  getHas iid (HasAnnotations <$> anns) None ≡ sent [] (Annotation_proto <$> default [] anns) ∧
  (∀ t, types = [t] → getHas iid (Some (HasType t)) None ≡ sent [AttributeType_proto t] []) ∧
  (∀ t l, types = [t] → getHas iid (Some (HasType t)) (Some l) ≡ throw AssertionError).
Proof.
  intros Ht sent. split; [|split; [|split]].
  - intros s. unfold getHas. destruct types as [|t types]; [by destruct anns|].
    apply Forall_cons in Ht as [Ht _]. unfold resolve_getHas. by rewrite Ht.
  - intros s. by destruct anns as [[]|].
  - intros t -> s. apply Forall_cons in Ht as [Ht _]. unfold getHas, resolve_getHas.
    by rewrite Ht.
  - intros t l -> s. apply Forall_cons in Ht as [Ht _]. unfold getHas, resolve_getHas.
    by rewrite Ht.
Qed.
End things.

(** ** Witnesses *)

Definition demo_role (n : string) : RoleTypeProto := mkRoleTypeProto "marriage" n false false.
Definition demo_player (b : byte) : ThingProto := TP_entity (mkEntityProto [b] None false).
Definition demo_entries : list (list (option RoleTypeProto * option ThingProto)) :=
  [[(Some (demo_role "husband"), Some (demo_player x01));
    (Some (demo_role "wife"), Some (demo_player x02))];
   [(Some (demo_role "husband"), Some (demo_player x03))]].

Definition demo_parts : list msg :=
  response ["thing_res_part"; "relation_get_role_players_res_part"] <$>
    (P_role_players <$> demo_entries).

Definition role_of (n : string) : TypeImpl :=
  mkType RoleTypeImpl (label_scoped "marriage" n) false false.
Definition entity_of (b : byte) : ThingImpl :=
  mkThing EntityImpl (bytesToHexString [b]) false None.

Lemma getRolePlayers_groups_witness :
  getRolePlayers (TransactionExtended0 := fixed_parts demo_parts) "0x0a" 0 =
    (Ret [(Some (role_of "husband"), [Some (entity_of x01); Some (entity_of x03)]);
          (Some (role_of "wife"), [Some (entity_of x02)])], 1).
Proof.
  erewrite (getRolePlayers_groups (TransactionExtended0 := fixed_parts demo_parts) "0x0a" _
    (array demo_parts) 0 1 1 demo_entries
    [(role_of "husband", entity_of x01); (role_of "wife", entity_of x02);
     (role_of "husband", entity_of x03)]).
  - reflexivity.
  - reflexivity.
  - reflexivity.
  - eexists. split; [apply steps_array|]. reflexivity.
  - cbn [concat demo_entries app].
    repeat (apply List.Forall2_cons; [split; [reflexivity|eexists; split; reflexivity]|]).
    apply List.Forall2_nil.
Defined.
