(* ===== verification/Answers.v ===== *)
(** * Answers, rules, and the query and logic managers

    Models [concept/answer/ConceptMapImpl.ts], [ConceptMapGroupImpl.ts],
    [ValueGroupImpl.ts], [logic/RuleImpl.ts], [logic/ExplanationImpl.ts],
    [logic/LogicManagerImpl.ts] and [query/QueryManagerImpl.ts]; its
    [fetch] is in FetchTree. *)
From Stdlib Require Import Floats.SpecFloat.
From S2P Require Import Prelude Errors Bytes Proto RequestBuilder Streams Options Messages Concept ConceptManager TypeOps.
Local Open Scope string_scope.
Local Open Scope list_scope.

(** ** Explainables *)

Record Explainable : Type := mkExplainable {
  conjunction : string;
  explainable_id : spec_float;
}.

(** The keys of the ownerships are arrays, which are told apart as objects, so
    each [set] adds an entry. *)
Record Explainables : Type := mkExplainables {
  x_relations : list (string * Explainable);
  x_attributes : list (string * Explainable);
  x_ownerships : list ((string * string) * Explainable);
}.

Definition ofExplainable (proto : ExplainableProto) : Explainable :=
  mkExplainable (xp_conjunction proto) (xp_id proto).

(** [entries.forEach((explainable, variable) => map.set(variable, ofExplainable(explainable)))] *)
Definition set_explainables (entries : list (string * ExplainableProto))
    (m : list (string * Explainable)) : list (string * Explainable) :=
  foldl (λ m e, map_set m e.1 (ofExplainable e.2)) m entries.

(** Both loops set entries of [relations]. *)
Definition ofExplainables (proto : ExplainablesProto) : Explainables :=
  let relations := set_explainables (xs_relations proto) [] in
  let attributes := [] in
  let relations := set_explainables (xs_attributes proto) relations in
  let ownerships :=
    foldl (λ os owned,
      foldl (λ os e, os ++ [((owned.1, e.1), ofExplainable e.2)]) os owned.2) []
      (xs_ownerships proto) in
  mkExplainables relations attributes ownerships.

Definition emptyExplainables : Explainables := mkExplainables [] [] [].

Definition explainables_relation (xs : Explainables) (variable : string)
    : outcome exn Explainable :=
  match map_get (x_relations xs) variable with
  | None => Throw (driver_error NONEXISTENT_EXPLAINABLE_CONCEPT [variable])
  | Some x => Ret x
  end.

Definition explainables_attribute (xs : Explainables) (variable : string)
    : outcome exn Explainable :=
  match map_get (x_attributes xs) variable with
  | None => Throw (driver_error NONEXISTENT_EXPLAINABLE_CONCEPT [variable])
  | Some x => Ret x
  end.

Fixpoint find_ownership (l : list ((string * string) * Explainable)) (owner attribute : string)
    : option Explainable :=
  match l with
  | [] => None
  | ((o, a), x) :: l' =>
      if bool_decide (o = owner) && bool_decide (a = attribute) then Some x
      else find_ownership l' owner attribute
  end.

Definition explainables_ownership (xs : Explainables) (owner attribute : string)
    : outcome exn Explainable :=
  match find_ownership (x_ownerships xs) owner attribute with
  | Some x => Ret x
  | None => Throw (driver_error NONEXISTENT_EXPLAINABLE_OWNERSHIP [owner; attribute])
  end.

(** ** Concept maps and groups *)

(** A concept may be null only if its message is. *)
Record ConceptMap : Type := mkConceptMap {
  concepts : list (string * option Concept);
  explainables : Explainables;
}.

(** [variableMap.set(resLabel, ResponseReader.Concept.of(proto))] for each entry *)
Fixpoint variableMap (entries : list (string * ConceptProto)) (m : list (string * option Concept))
    : outcome exn (list (string * option Concept)) :=
  match entries with
  | [] => Ret m
  | (resLabel, proto) :: entries' =>
      outcome_bind (concept_of proto) (λ c, variableMap entries' (map_set m resLabel c))
  end.

Definition conceptMap_of (proto : ConceptMapProto) : outcome exn ConceptMap :=
  outcome_bind (variableMap (cm_map proto) []) (λ m,
  Ret (mkConceptMap m (from_option ofExplainables emptyExplainables (cm_explainables proto)))).

Definition conceptMap_variables (m : ConceptMap) : list string := (concepts m).*1.
Definition conceptMap_concepts (m : ConceptMap) : list (option Concept) := (concepts m).*2.

(** [map.get(variable)]: undefined for a variable that is not there. *)
Definition conceptMap_get (m : ConceptMap) (variable : string) : option (option Concept) :=
  map_get (concepts m) variable.

Record ConceptMapGroup : Type := mkConceptMapGroup {
  group_owner : option Concept;
  conceptMaps : list ConceptMap;
}.

Definition conceptMapGroup_of (proto : ConceptMapGroupProto) : outcome exn ConceptMapGroup :=
  outcome_bind (concept_of (cg_owner proto)) (λ owner,
  outcome_bind (mapM_outcome conceptMap_of (cg_concept_maps proto)) (λ maps,
  Ret (mkConceptMapGroup owner maps))).

Record ValueGroup : Type := mkValueGroup {
  value_owner : option Concept;
  group_value : option ValueImpl;
}.

Definition valueGroup_of (proto : ValueGroupProto) : outcome exn ValueGroup :=
  match vg_value proto with
  | Some v =>
      outcome_bind (concept_of (vg_owner proto)) (λ owner,
      outcome_bind (ofValueProto (Some v)) (λ value, Ret (mkValueGroup owner value)))
  | None =>
      outcome_bind (concept_of (vg_owner proto)) (λ owner, Ret (mkValueGroup owner None))
  end.

(** ** Rules and explanations *)

Record RuleImpl : Type := mkRule {
  rule_label : string;
  rule_when : string;
  rule_then : string;
}.

Definition rule_of (ruleProto : RuleProto) : RuleImpl :=
  mkRule (rup_label ruleProto) (rup_when ruleProto) (rup_then ruleProto).

Definition rule_toString (r : RuleImpl) : string := ("Rule[" ++ rule_label r ++ "]")%string.

Record ExplanationImpl : Type := mkExplanation {
  e_rule : RuleImpl;
  e_condition : ConceptMap;
  e_conclusion : ConceptMap;
  e_variableMapping : list (string * list string);
}.

(** [new Set(vars)], in insertion order *)
Definition new_Set (vars : list string) : list string :=
  foldl (λ s v, if bool_decide (v ∈ s) then s else s ++ [v]) [] vars.

Definition explanation_of (proto : ExplanationProto) : outcome exn ExplanationImpl :=
  let varMapping := foldl (λ m e, map_set m e.1 (new_Set e.2)) [] (xpl_var_mapping proto) in
  outcome_bind (conceptMap_of (xpl_condition proto)) (λ condition,
  outcome_bind (conceptMap_of (xpl_conclusion proto)) (λ conclusion,
  Ret (mkExplanation (rule_of (xpl_rule proto)) condition conclusion varMapping))).

Section managers.
Context {S : Type} `{!TransactionExtended S}.
Local Abbreviation tproc := (proc S exn).
Local Abbreviation tgen := (gen S exn).

(** ** [LogicManagerImpl] and [RuleImpl] *)

Definition logic_execute (request : pval) : tproc (option msg) :=
  rpc_execute request true ≫= λ res, lift_outcome (get_path ["logic_manager_res"] res).

Definition logic_stream (request : pval) : tproc (tgen (option msg)) :=
  rpc_stream request ≫= λ g, mret (gmap_ (pure (get_path ["logic_manager_res_part"])) g).

Definition getRule (label : string) : tproc (option RuleImpl) :=
  logic_execute (LogicManager_getRuleReq label) ≫= λ response,
  lift_outcome (get "get_rule_res" response) ≫= λ ruleResponse,
  lift_outcome (read "has_rule" of_rule None ruleResponse) ≫= λ rule,
  mret (rule_of <$> rule).

Definition getRules : tproc (tgen RuleImpl) :=
  logic_stream LogicManager_getRulesReq ≫= λ g,
  mret (flat_answers "get_rules_res_part" "rules" of_rules (λ p, Ret (rule_of p)) g).

Definition putRule (label when_ then_ : string) : tproc RuleImpl :=
  logic_execute (LogicManager_putRuleReq label when_ then_) ≫= λ response,
  lift_outcome (get "put_rule_res" response) ≫= λ ruleResponse,
  lift_outcome (read "rule" of_rule None ruleResponse) ≫= λ rule,
  match rule with
  | Some p => mret (rule_of p)
  | None => throw (type_error "label")
  end.

Definition rule_delete (r : RuleImpl) : tproc unit :=
  rpc_execute (Rule_deleteReq (rule_label r)) true ≫= λ _, mret tt.

Definition rule_isDeleted (r : RuleImpl) : tproc bool := not_found (getRule (rule_label r)).

(** The object is changed once the server has answered. *)
Definition rule_setLabel (r : RuleImpl) (label : string) : tproc RuleImpl :=
  rpc_execute (Rule_setLabelReq (rule_label r) label) true ≫= λ _,
  mret (mkRule label (rule_when r) (rule_then r)).

(** ** [QueryManagerImpl] *)

(** [if (!options) options = new TypeDBOptions()], then [options.proto()] *)
Definition query_options (options : option TypeDBOptions) : pval :=
  options_proto (default no_options options).

Definition query_execute (req : pval) : tproc (option msg) :=
  rpc_execute req true ≫= λ res, lift_outcome (get_path ["query_manager_res"] res).

Definition query_stream (req : pval) : tproc (tgen (option msg)) :=
  rpc_stream req ≫= λ g, mret (gmap_ (pure (get_path ["query_manager_res_part"])) g).

Definition query_answers {Q A} (request : pval) (case_ f : string)
    (r : payload → option (list Q)) (decode : Q → outcome exn A) : tproc (tgen A) :=
  query_stream request ≫= λ g, mret (flat_answers case_ f r decode g).

Definition query_get (query : string) (options : option TypeDBOptions) : tproc (tgen ConceptMap) :=
  query_answers (QueryManager_getReq query (query_options options)) "get_res_part" "answers"
    of_concept_maps conceptMap_of.

Definition query_getAggregate (query : string) (options : option TypeDBOptions)
    : tproc (option ValueImpl) :=
  query_execute (QueryManager_getAggregateReq query (query_options options)) ≫= λ res,
  lift_outcome (get "get_aggregate_res" res) ≫= λ a,
  match a with
  | Some _ => lift_outcome (read "answer" of_value None a) ≫= λ v, lift_outcome (ofValueProto v)
  | None => mret None
  end.

Definition query_getGroup (query : string) (options : option TypeDBOptions)
    : tproc (tgen ConceptMapGroup) :=
  query_answers (QueryManager_getGroupReq query (query_options options)) "get_group_res_part"
    "answers" of_concept_map_groups conceptMapGroup_of.

Definition query_getGroupAggregate (query : string) (options : option TypeDBOptions)
    : tproc (tgen ValueGroup) :=
  query_answers (QueryManager_getGroupAggregateReq query (query_options options))
    "get_group_aggregate_res_part" "answers" of_value_groups valueGroup_of.

Definition query_insert (query : string) (options : option TypeDBOptions)
    : tproc (tgen ConceptMap) :=
  query_answers (QueryManager_insertReq query (query_options options)) "insert_res_part"
    "answers" of_concept_maps conceptMap_of.

Definition query_delete (query : string) (options : option TypeDBOptions) : tproc unit :=
  query_execute (QueryManager_deleteReq query (query_options options)) ≫= λ _, mret tt.

Definition query_update (query : string) (options : option TypeDBOptions)
    : tproc (tgen ConceptMap) :=
  query_answers (QueryManager_updateReq query (query_options options)) "update_res_part"
    "answers" of_concept_maps conceptMap_of.

Definition query_define (query : string) (options : option TypeDBOptions) : tproc unit :=
  query_execute (QueryManager_defineReq query (query_options options)) ≫= λ _, mret tt.

Definition query_undefine (query : string) (options : option TypeDBOptions) : tproc unit :=
  query_execute (QueryManager_undefineReq query (query_options options)) ≫= λ _, mret tt.

Definition query_explain (explainable : Explainable) (options : option TypeDBOptions)
    : tproc (tgen ExplanationImpl) :=
  query_stream (QueryManager_explainReq (explainable_id explainable) (query_options options)) ≫=
  λ g, mret (answers "explain_res_part" "explanations" of_explanations explanation_of g).

(** ** Properties *)

(** Collecting the answers of a query, however its stream ends. *)
Lemma query_answers_collect {Q A} request case_ f (r : payload → option (list Q))
    (decode : Q → outcome exn A) g s s1 fin ps ls xs :
  rpc_stream request s = (Ret g, s1) →
  delivers ["query_manager_res_part"] case_ ps g s1 fin → Forall2 (λ p l, r p = Some l) ps ls →
  mapM_outcome decode (concat ls) = Ret xs →
  (query_answers request case_ f r decode ≫= collect) s = (outcome_map (λ _, xs) fin.1, fin.2).
Proof.
  intros Hg Hparts Hls Hxs. unfold query_answers, query_stream.
  rewrite (proc_bind_run _ _ _
    (Ret (flat_answers case_ f r decode
      (gmap_ (pure (get_path ["query_manager_res_part"])) g))) s1).
  - by eapply collect_flat_answers.
  - rewrite !proc_bind_eq. by rewrite Hg.
Qed.

(** A query returns all its answers: when the server delivers answers in
    parts and they decode, collecting the stream of [get] returns the decoded
    concept maps of all parts, in order, and leaves the stream drained. *)
Theorem query_get_all (query : string) (options : option TypeDBOptions) (g : gen S exn msg)
    (s s1 s2 : S) (ls : list (list ConceptMapProto)) (ms : list ConceptMap)
    (Hg : rpc_stream (QueryManager_getReq query (query_options options)) s = (Ret g, s1))
    (Hparts : delivers ["query_manager_res_part"] "get_res_part" (P_concept_maps <$> ls) g s1
                (Ret tt, s2))
    (Hms : mapM_outcome conceptMap_of (concat ls) = Ret ms) :
  (query_get query options ≫= collect) s = (Ret ms, s2).
Proof.
  eapply (query_answers_collect _ _ _ _ _ _ _ _ (Ret tt, s2)); [exact Hg|exact Hparts| |exact Hms].
  clear. induction ls; by constructor.
Qed.
End managers.

Lemma map_set_fresh {A} (m : list (string * A)) k v : k ∉ m.*1 → map_set m k v = m ++ [(k, v)].
Proof.
  induction m as [|[k' v'] m IH]; intros Hk; [done|]. cbn [map_set app].
  rewrite fmap_cons in Hk. apply not_elem_of_cons in Hk as [Hne Hk].
  rewrite bool_decide_eq_false_2 by done. by rewrite IH.
Qed.

Lemma map_get_elem {A} (m : list (string * A)) k v :
  NoDup m.*1 → (k, v) ∈ m → map_get m k = Some v.
Proof.
  induction m as [|[k' v'] m IH]; intros Hd Hin; [by apply elem_of_nil in Hin|].
  rewrite fmap_cons in Hd. apply NoDup_cons in Hd as [Hk Hd]. cbn [map_get].
  apply elem_of_cons in Hin as [[= -> ->]|Hin]; [by rewrite bool_decide_eq_true_2|].
  rewrite bool_decide_eq_false_2; [by apply IH|]. intros ->. apply Hk.
  by apply (list_elem_of_fmap_2 fst _ (k', v)).
Qed.

Lemma map_get_none {A} (m : list (string * A)) k : k ∉ m.*1 → map_get m k = None.
Proof.
  induction m as [|[k' v'] m IH]; intros Hk; [done|]. rewrite fmap_cons in Hk.
  apply not_elem_of_cons in Hk as [Hne Hk]. cbn [map_get].
  rewrite bool_decide_eq_false_2 by done. by apply IH.
Qed.

(** Decoding the entries one by one appends them. *)
Lemma variableMap_entries entries m m' :
  NoDup (m.*1 ++ entries.*1) → variableMap entries m = Ret m' →
  ∃ l, m' = m ++ l ∧ Forall2 (λ e e', e.1 = e'.1 ∧ concept_of e.2 = Ret e'.2) entries l.
Proof.
  revert m. induction entries as [|[k p] entries IH]; intros m Hd; cbn [variableMap].
  - intros [= <-]. exists []. by rewrite app_nil_r.
  - destruct (concept_of p) as [c|e|] eqn:Hc; try done. cbn [outcome_bind].
    rewrite fmap_cons in Hd. cbn [fst] in Hd.
    rewrite map_set_fresh by (apply NoDup_app in Hd as (_ & Hd & _); intros Hk;
      apply (Hd k Hk); by constructor).
    intros H. apply IH in H as (l & -> & Hl).
    + exists ((k, c) :: l). rewrite <- app_assoc. split; [done|]. by constructor.
    + by rewrite fmap_app, <- app_assoc.
Qed.

(** C37 - a concept map holds what was received: its variables are those of the
    message, in order, each mapped to the decoding of its concept, and no other
    variable is mapped. *)
Theorem conceptMap_faithful (p : ConceptMapProto) (m : ConceptMap)
    (Hkeys : NoDup (cm_map p).*1) (Hm : conceptMap_of p = Ret m) :
  conceptMap_variables m = (cm_map p).*1 ∧
  (∀ v c, (v, c) ∈ cm_map p → ∃ o, concept_of c = Ret o ∧ conceptMap_get m v = Some o) ∧
  (∀ v, v ∉ (cm_map p).*1 → conceptMap_get m v = None).
Proof.
  unfold conceptMap_of in Hm. destruct (variableMap (cm_map p) []) as [vm|e|] eqn:Hv; try done.
  injection Hm as <-. apply variableMap_entries in Hv as (l & -> & Hl); [|done].
  unfold conceptMap_variables, conceptMap_get. cbn [concepts app].
  assert (l.*1 = (cm_map p).*1) as Hk.
  { clear Hkeys. induction Hl as [|e e' l l' [He _] _ IH]; [done|]. rewrite !fmap_cons. congruence. }
  split; [done|]. split.
  - intros v c Hin. apply list_elem_of_lookup in Hin as [i Hi].
    destruct (Forall2_lookup_l _ _ _ i (v, c) Hl Hi) as ([v' o] & Hi' & He & Ho).
    simpl in He, Ho. subst v'. exists o. split; [done|].
    apply map_get_elem; [by rewrite Hk|]. by eapply list_elem_of_lookup_2.
  - intros v Hv. apply map_get_none. by rewrite Hk.
Qed.

Lemma set_explainables_get entries m v x :
  NoDup entries.*1 → (v, x) ∈ entries →
  map_get (set_explainables entries m) v = Some (ofExplainable x).
Proof.
  unfold set_explainables. revert m. induction entries as [|[k y] entries IH]; intros m Hd Hin;
    [by apply elem_of_nil in Hin|]. rewrite fmap_cons in Hd. apply NoDup_cons in Hd as [Hk Hd].
  cbn [foldl fst snd]. apply elem_of_cons in Hin as [[= -> ->]|Hin]; [|by apply IH].
  rewrite (map_get_foldl_other (λ e, (e.1, ofExplainable e.2))).
  - rewrite map_get_set. by rewrite bool_decide_eq_true_2.
  - apply Forall_forall. intros e He Heq. apply Hk. cbn in *. rewrite <- Heq.
    by apply list_elem_of_fmap_2.
Qed.

(** Explanations of attributes are filed with those of relations: whatever
    the server sent, [attribute] finds no explainable, and an explainable sent
    for an attribute is found by [relation] instead. *)
Theorem attribute_explainables_misfiled (p : ExplainablesProto) (v : string)
    (x : ExplainableProto) (Hkeys : NoDup (xs_attributes p).*1) (Hx : (v, x) ∈ xs_attributes p) :
  explainables_attribute (ofExplainables p) v =
    Throw (driver_error NONEXISTENT_EXPLAINABLE_CONCEPT [v]) ∧
  explainables_relation (ofExplainables p) v = Ret (ofExplainable x).
Proof.
  split; [done|]. unfold explainables_relation, ofExplainables. cbn [x_relations].
  by rewrite (set_explainables_get _ _ v x).
Qed.

(** ** Witnesses *)

Definition demo_map : ConceptMapProto :=
  mkConceptMapProto [("x", CP_entity_type (mkEntityTypeProto "person" false false));
                     ("y", CP_value (VP_string "Ada"))] None.

Definition demo_person : TypeImpl := mkType EntityTypeImpl (label_of "person") false false.

Definition demo_answer : ConceptMap :=
  mkConceptMap [("x", Some (ConceptType demo_person));
                ("y", Some (ConceptValue (mkValue ValueType_STRING (JStr "Ada"))))]
    emptyExplainables.

Definition demo_answer_parts : list msg :=
  response ["query_manager_res_part"; "get_res_part"] <$>
    (P_concept_maps <$> [[demo_map]; []; [demo_map]]).

Lemma query_get_all_witness :
  (query_get (TransactionExtended0 := fixed_parts demo_answer_parts) "match $x sub thing;" None
    ≫= collect) 0 = (Ret [demo_answer; demo_answer], 1).
Proof.
  apply (query_get_all (TransactionExtended0 := fixed_parts demo_answer_parts)
    "match $x sub thing;" None (array demo_answer_parts) 0 1 1 [[demo_map]; []; [demo_map]]).
  - reflexivity.
  - eexists. split; [apply steps_array|]. reflexivity.
  - reflexivity.
Defined.

Lemma conceptMap_faithful_witness :
  conceptMap_variables demo_answer = ["x"; "y"] ∧ conceptMap_get demo_answer "z" = None.
Proof.
  destruct (conceptMap_faithful demo_map demo_answer) as (H1 & _ & H3).
  - vm_compute. repeat constructor; set_solver.
  - reflexivity.
  - split; [exact H1|]. apply H3. vm_compute. set_solver.
Defined.

Definition demo_explainables : ExplainablesProto :=
  mkExplainablesProto [] [("a", mkExplainableProto "conj" (S754_zero false))] [].

Lemma attribute_explainables_misfiled_witness :
  explainables_attribute (ofExplainables demo_explainables) "a" =
    Throw (driver_error NONEXISTENT_EXPLAINABLE_CONCEPT ["a"]) ∧
  explainables_relation (ofExplainables demo_explainables) "a" =
    Ret (mkExplainable "conj" (S754_zero false)).
Proof.
  apply (attribute_explainables_misfiled demo_explainables "a"
    (mkExplainableProto "conj" (S754_zero false))).
  - apply NoDup_singleton.
  - by constructor.
Defined.
