(* ===== verification/FetchTree.v ===== *)
(** * Answers of fetch queries

    Models [concept/answer/ReadableConceptTreeImpl.ts], which decodes the tree
    of a fetch answer and prints it as JSON, with [Date.prototype.toISOString],
    and [fetch] of [query/QueryManagerImpl.ts]. A JSON object keeps its entries
    in insertion order. *)
From Stdlib Require Import Floats.SpecFloat Lia.
From S2P Require Import Prelude Errors Bytes Proto RequestBuilder Streams Options Messages Concept ConceptManager TypeOps ThingOps Answers.
Local Open Scope string_scope.
Local Open Scope list_scope.

(** ** Printing dates *)

Section iso.
Local Open Scope Z_scope.

(** The whole number that a double is; times are whole. *)
Definition Z_of_number (f : spec_float) : Z :=
  match f with
  | S754_finite s m e =>
      let n := if 0 <=? e then Zpos m * 2 ^ e else Zpos m / 2 ^ (- e) in
      if s then - n else n
  | _ => 0
  end.

(** Year, month and day of a day, counted from 1970-01-01, in the proleptic
    Gregorian calendar: 400-year eras of 146097 days, and years that start in
    March. *)
Definition civil_from_days (z : Z) : Z * Z * Z :=
  let z := z + 719468 in
  let era := z / 146097 in
  let doe := z mod 146097 in
  let yoe := (doe - doe / 1460 + doe / 36524 - doe / 146096) / 365 in
  let doy := doe - (365 * yoe + yoe / 4 - yoe / 100) in
  let mp := (5 * doy + 2) / 153 in
  let d := doy - (153 * mp + 2) / 5 + 1 in
  let m := if mp <? 10 then mp + 3 else mp - 9 in
  let y := yoe + era * 400 + (if m <=? 2 then 1 else 0) in
  (y, m, d).

Definition digit (n : Z) : Ascii.ascii := Ascii.ascii_of_nat (Z.to_nat (48 + n)).

(** The last [k] decimal digits of [n]. *)
Fixpoint pad (k : nat) (n : Z) : string :=
  match k with
  | O => ""
  | S k' => (pad k' (n / 10) ++ String (digit (n mod 10)) "")%string
  end.

Definition iso_year (y : Z) : string :=
  if (0 <=? y) && (y <=? 9999) then pad 4 y
  else if y <? 0 then ("-" ++ pad 6 (- y))%string
  else ("+" ++ pad 6 y)%string.

(** [date.toISOString()] of a valid time *)
Definition iso_of_millis (t : Z) : string :=
  let '(y, m, d) := civil_from_days (t / 86400000) in
  let ms := t mod 86400000 in
  (iso_year y ++ "-" ++ pad 2 m ++ "-" ++ pad 2 d ++ "T" ++
   pad 2 (ms / 3600000) ++ ":" ++ pad 2 (ms / 60000 mod 60) ++ ":" ++
   pad 2 (ms / 1000 mod 60) ++ "." ++ pad 3 (ms mod 1000) ++ "Z")%string.

Definition toISOString (time : spec_float) : outcome exn string :=
  match time with
  | S754_nan => Throw (JsError "RangeError" "Invalid time value")
  | _ => Ret (iso_of_millis (Z_of_number time))
  end.
End iso.

(** [s.slice(0, -1)] *)
Definition slice_last (s : string) : string := String.substring 0 (String.length s - 1) s.

Example iso_epoch : iso_of_millis 0 = "1970-01-01T00:00:00.000Z".
Proof. reflexivity. Qed.
Example iso_leap : iso_of_millis 1709210096789 = "2024-02-29T12:34:56.789Z".
Proof. reflexivity. Qed.
Example iso_before : iso_of_millis (-1) = "1969-12-31T23:59:59.999Z".
Proof. reflexivity. Qed.
Example iso_far : iso_of_millis (-62198755200000) = "-000001-01-01T00:00:00.000Z".
Proof. reflexivity. Qed.
Example iso_last : iso_of_millis 8640000000000000 = "+275760-09-13T00:00:00.000Z".
Proof. reflexivity. Qed.

(** ** The printed text determines the time *)

Section iso_injective.
Local Open Scope Z_scope.

(** The day of a date, the inverse of [civil_from_days]. *)
Definition days_from_civil (x : Z * Z * Z) : Z :=
  let '(y, m, d) := x in
  let y := if m <=? 2 then y - 1 else y in
  let era := y / 400 in
  let yoe := y mod 400 in
  let mp := if 2 <? m then m - 3 else m + 9 in
  let doy := (153 * mp + 2) / 5 + d - 1 in
  era * 146097 + (365 * yoe + yoe / 4 - yoe / 100 + doy) - 719468.

Lemma year_of_era (doe : Z) :
  0 <= doe < 146097 →
  let yoe := (doe - doe / 1460 + doe / 36524 - doe / 146096) / 365 in
  0 <= yoe <= 399 ∧ 0 <= doe - (365 * yoe + yoe / 4 - yoe / 100) <= 365.
Proof. intros H. cbv zeta. Z.to_euclidean_division_equations; lia. Qed.

Lemma month_of_year (doy : Z) :
  0 <= doy <= 365 →
  let mp := (5 * doy + 2) / 153 in
  0 <= mp <= 11 ∧ 0 <= doy - (153 * mp + 2) / 5 <= 30.
Proof. intros H. cbv zeta. Z.to_euclidean_division_equations; lia. Qed.

Lemma civil_spec (z : Z) :
  days_from_civil (civil_from_days z) = z ∧
  let '(y, m, d) := civil_from_days z in 1 <= m <= 12 ∧ 1 <= d <= 31.
Proof.
  unfold civil_from_days. pose proof (Z.mod_pos_bound (z + 719468) 146097 eq_refl) as Hdoe.
  pose proof (Z.div_mod (z + 719468) 146097 ltac:(done)) as Hz.
  set (doe := (z + 719468) mod 146097) in *. set (era := (z + 719468) / 146097) in *.
  destruct (year_of_era doe Hdoe) as [Hyoe Hdoy].
  set (yoe := (doe - doe / 1460 + doe / 36524 - doe / 146096) / 365) in *.
  set (doy := doe - (365 * yoe + yoe / 4 - yoe / 100)) in *.
  destruct (month_of_year doy Hdoy) as [Hmp Hd].
  set (mp := (5 * doy + 2) / 153) in *.
  assert ((yoe + era * 400) / 400 = era) as Hdiv
    by (rewrite Z.div_add by done; rewrite Z.div_small by lia; lia).
  assert ((yoe + era * 400) mod 400 = yoe) as Hmod
    by (rewrite Z.mod_add by done; apply Z.mod_small; lia).
  unfold days_from_civil. destruct (Z.ltb_spec mp 10) as [Hlt|Hge].
  - assert ((mp + 3 <=? 2) = false) as -> by lia. assert ((2 <? mp + 3) = true) as -> by lia.
    rewrite Z.add_0_r, Hdiv, Hmod. replace (mp + 3 - 3) with mp by lia. subst doy. lia.
  - assert ((mp - 9 <=? 2) = true) as -> by lia. assert ((2 <? mp - 9) = false) as -> by lia.
    replace (yoe + era * 400 + 1 - 1) with (yoe + era * 400) by lia. rewrite Hdiv, Hmod.
    replace (mp - 9 + 9) with mp by lia. subst doy. lia.
Qed.

Lemma digit_inj a b : 0 <= a < 10 → 0 <= b < 10 → digit a = digit b → a = b.
Proof.
  intros Ha Hb H. unfold digit in H. apply (f_equal Ascii.nat_of_ascii) in H.
  rewrite !Ascii.nat_ascii_embedding in H by lia. lia.
Qed.

Lemma pad_length k n : String.length (pad k n) = k.
Proof.
  revert n. induction k as [|k IH]; intros n; [done|]. cbn [pad].
  rewrite length_append, IH. simpl. lia.
Qed.

Lemma pad_inj k a b :
  0 <= a < 10 ^ Z.of_nat k → 0 <= b < 10 ^ Z.of_nat k → pad k a = pad k b → a = b.
Proof.
  revert a b. induction k as [|k IH]; intros a b Ha Hb H; [simpl in *; lia|].
  cbn [pad] in H. apply append_inj in H as [H1 H2]; [|by rewrite !pad_length].
  injection H2 as H2. rewrite Nat2Z.inj_succ, Z.pow_succ_r in Ha, Hb by lia.
  apply IH in H1; [|Z.to_euclidean_division_equations; lia..].
  apply digit_inj in H2; [|apply Z.mod_pos_bound; lia..].
  rewrite (Z.div_mod a 10), (Z.div_mod b 10) by done. congruence.
Qed.

Lemma civil_year (z : Z) :
  -100000001 <= z <= 100000001 → -999999 <= (civil_from_days z).1.1 <= 999999.
Proof.
  intros Hz. unfold civil_from_days. cbn [fst].
  assert (-1000 <= (z + 719468) / 146097 <= 1000) as Hera
    by (Z.to_euclidean_division_equations; lia).
  pose proof (Z.mod_pos_bound (z + 719468) 146097 eq_refl) as Hdoe.
  destruct (year_of_era _ Hdoe) as [Hyoe _]. cbv zeta in Hyoe.
  revert Hera Hyoe. generalize ((z + 719468) / 146097). intros era Hera.
  match goal with |- 0 <= ?y <= 399 → _ => generalize y end. intros yoe Hyoe.
  match goal with |- context [if ?b then 1 else 0] => destruct b end; lia.
Qed.

Lemma digit_not a c : 0 <= a < 10 → (c = "+" ∨ c = "-")%char → digit a ≠ c.
Proof.
  intros Ha Hc H. apply (f_equal Ascii.nat_of_ascii) in H. unfold digit in H.
  rewrite Ascii.nat_ascii_embedding in H by lia. destruct Hc as [->| ->].
  - change (Ascii.nat_of_ascii "+") with 43%nat in H. lia.
  - change (Ascii.nat_of_ascii "-") with 45%nat in H. lia.
Qed.

(** A printed year tells its form by its first character, and so its length. *)
Lemma iso_year_inj y y' s s' :
  -999999 <= y <= 999999 → -999999 <= y' <= 999999 →
  (iso_year y ++ s)%string = (iso_year y' ++ s')%string → y = y' ∧ s = s'.
Proof.
  intros Hy Hy'. unfold iso_year.
  assert (∀ n c r r', (c = "+" ∨ c = "-")%char → (pad 4 n ++ r)%string ≠ String c r') as Hne.
  { intros n c r r' Hc H. injection H as H _.
    eapply digit_not; [|exact Hc|exact H]. apply Z.mod_pos_bound. lia. }
  destruct (Z.leb_spec 0 y), (Z.leb_spec y 9999), (Z.leb_spec 0 y'), (Z.leb_spec y' 9999);
    simpl andb; cbv iota; try (destruct (Z.ltb_spec y 0)); try (destruct (Z.ltb_spec y' 0));
    try lia; intros Heq.
  all: try (exfalso; first [eapply Hne; [|exact Heq] | eapply Hne; [|symmetry; exact Heq]];
            by auto).
  all: try (simpl in Heq; discriminate).
  all: apply append_inj in Heq as [Hp ->]; [|by rewrite ?length_append, !pad_length].
  all: try (apply (append_inj "+" "+") in Hp as [_ Hp]; [|done]).
  all: try (apply (append_inj "-" "-") in Hp as [_ Hp]; [|done]).
  all: apply pad_inj in Hp; [split; [lia|done]|simpl; lia..].
Qed.

(** Reads off the next part of two equal texts. *)
Ltac peel H := let Hp := fresh "Hp" in
  apply append_inj in H as [Hp H]; [|by rewrite ?pad_length].

(** The time of day is made of its printed parts. *)
Lemma time_of_day ms ms' :
  0 <= ms < 86400000 → 0 <= ms' < 86400000 →
  ms / 3600000 = ms' / 3600000 → ms / 60000 mod 60 = ms' / 60000 mod 60 →
  ms / 1000 mod 60 = ms' / 1000 mod 60 → ms mod 1000 = ms' mod 1000 → ms = ms'.
Proof. intros. Z.to_euclidean_division_equations; lia. Qed.

Lemma iso_injective t t' :
  -8640000000000000 <= t <= 8640000000000000 → -8640000000000000 <= t' <= 8640000000000000 →
  iso_of_millis t = iso_of_millis t' → t = t'.
Proof.
  intros Ht Ht' H. unfold iso_of_millis in H.
  assert (∀ t, -8640000000000000 <= t <= 8640000000000000 →
    -100000001 <= t / 86400000 <= 100000001) as Hdays
    by (intros; Z.to_euclidean_division_equations; lia).
  destruct (civil_spec (t / 86400000)) as [Hc Hb].
  destruct (civil_spec (t' / 86400000)) as [Hc' Hb'].
  pose proof (civil_year _ (Hdays t Ht)) as Hy. pose proof (civil_year _ (Hdays t' Ht')) as Hy'.
  destruct (civil_from_days (t / 86400000)) as [[y m] d].
  destruct (civil_from_days (t' / 86400000)) as [[y' m'] d']. cbn [fst] in Hy, Hy'.
  apply iso_year_inj in H as [-> H]; [|done..].
  pose proof (Z.mod_pos_bound t 86400000 eq_refl) as Hms.
  pose proof (Z.mod_pos_bound t' 86400000 eq_refl) as Hms'.
  pose proof (Z.div_mod t 86400000 ltac:(done)) as Hdm.
  pose proof (Z.div_mod t' 86400000 ltac:(done)) as Hdm'.
  set (ms := t mod 86400000) in *. set (ms' := t' mod 86400000) in *.
  do 12 peel H. clear H.
  repeat match goal with
    | E : pad _ _ = pad _ _ |- _ => apply pad_inj in E;
        [|first [simpl; lia | simpl; Z.to_euclidean_division_equations; lia]..]
    end.
  assert (ms = ms') as Heq by (apply time_of_day; done).
  rewrite Hdm, Hdm', <- Hc, <- Hc', Heq. by subst.
Qed.
End iso_injective.

(** ** The tree *)

Unset Elimination Schemes.
Inductive JSON : Type :=
  | JNull
  | JBoolean (b : bool)
  | JNumber (n : spec_float)
  | JString (s : string)
  | JArray (l : list JSON)
  | JObject (l : list (string * JSON)).

(** A leaf holds null, or a readable concept, whose concept may be null. *)
Inductive Node : Type :=
  | NodeMap (map : list (string * Node))
  | NodeList (list_ : list Node)
  | Leaf (readableConcept : option (option Concept)).
Set Elimination Schemes.

(** [ReadableConcept.of] *)
Definition readable_of (proto : ReadableConceptProto) : outcome exn (option (option Concept)) :=
  let type_ := outcome_map (λ t, Some (ConceptType <$> t)) in
  match proto with
  | RC_entity_type p => type_ (ofEntityTypeProto (Some p))
  | RC_relation_type p => type_ (ofRelationTypeProto (Some p))
  | RC_attribute_type p => type_ (ofAttributeTypeProto (Some p))
  | RC_role_type p => type_ (ofRoleTypeProto (Some p))
  | RC_attribute p => outcome_map (λ th, Some (ConceptThing <$> th)) (ofAttributeProto (Some p))
  | RC_value p => outcome_map (λ v, Some (ConceptValue <$> v)) (ofValueProto (Some p))
  | RC_thing_type_root => outcome_map (λ t, Some (Some (ConceptType t))) ofThingTypeRootProto
  | RC_unset => Ret None
  end.

(** [entries.forEach((x, label) => set(label, f(x)))], with [set] the assignment to what is
    being built *)
Definition set_all {A B} (set : list (string * B) → string → B → list (string * B))
    (f : A → outcome exn B) : list (string * A) → list (string * B) →
    outcome exn (list (string * B)) :=
  fix go entries m :=
    match entries with
    | [] => Ret m
    | (label, x) :: entries' => outcome_bind (f x) (λ y, go entries' (set m label y))
    end.

(** [asObject[key] = value] on an object literal, where the value is an object, an array or
    null: the key [__proto__] sets the object's prototype and adds no property of its own. *)
Definition own_set (m : list (string * JSON)) (key : string) (value : JSON) : list (string * JSON) :=
  if bool_decide (key = "__proto__") then m else map_set m key value.

(** [Node.of], with [NodeMap.of], [NodeList.of] and [Leaf.of] *)
Fixpoint node_of (proto : NodeProto) : outcome exn Node :=
  match proto with
  | NP_map l => outcome_map NodeMap (set_all map_set node_of l [])
  | NP_list l => outcome_map NodeList (mapM_outcome node_of l)
  | NP_readable_concept p => outcome_map Leaf (readable_of p)
  | NP_unset => Throw (driver_error ILLEGAL_STATE [])
  end.

(** [typeAsObject(type)] *)
Definition typeAsObject (type_ : option TypeImpl) : outcome exn (list (string * JSON)) :=
  match type_ with
  | None => Throw (type_error "label")
  | Some t =>
      let c := ConceptType t in
      let label := ("label", JString (scopedName (t_label t))) in
      if is_kind KEntityType c then Ret [label; ("root", JString "entity")]
      else if is_kind KRelationType c then Ret [label; ("root", JString "relation")]
      else if is_kind KAttributeType c then
        match t_class t with
        | AttributeTypeImpl (Some v) =>
            Ret [label; ("value_type", JString (ValueType_name v)); ("root", JString "attribute")]
        | _ => Throw (type_error "name")
        end
      else if is_kind KRoleType c then Ret [label; ("root", JString "relation:role")]
      else if is_kind KThingType c && t_root t then Ret [label; ("root", JString "thing")]
      else Throw (driver_error ILLEGAL_STATE [])
  end.

(** [value instanceof Date ? value.toISOString().slice(0, -1) : value] *)
Definition value_json (v : jsval) : outcome exn JSON :=
  match v with
  | JDate _ time => outcome_map (λ s, JString (slice_last s)) (toISOString time)
  | JBool b => Ret (JBoolean b)
  | JNum n => Ret (JNumber n)
  | JStr s => Ret (JString s)
  end.

(** [ReadableConcept.asObject] *)
Definition concept_json (concept : option Concept) : outcome exn JSON :=
  match concept with
  | None => Throw (type_error "isType")
  | Some c =>
      outcome_map JObject
        match c with
        | ConceptType t =>
            if is_kind KType c then typeAsObject (Some t)
            else Throw (driver_error ILLEGAL_STATE [])
        | ConceptThing th =>
            if is_kind KAttribute c then
              outcome_bind (typeAsObject (th_type th)) (λ t,
              outcome_bind (attribute_value th) (λ value,
              outcome_bind (from_option value_json (Ret JNull) value) (λ v,
              Ret [("type", JObject t); ("value", v)])))
            else Throw (driver_error ILLEGAL_STATE [])
        | ConceptValue value =>
            outcome_bind (value_json (v_value value)) (λ v,
            Ret [("value", v); ("value_type", JString (ValueType_name (v_valueType value)))])
        end
  end.

(** [NodeMap.asObject], [NodeList.asArray] and [Leaf.asJSON] *)
Fixpoint node_json (n : Node) : outcome exn JSON :=
  match n with
  | NodeMap m => outcome_map JObject (set_all own_set node_json m [])
  | NodeList l => outcome_map JArray (mapM_outcome node_json l)
  | Leaf None => Ret JNull
  | Leaf (Some c) => concept_json c
  end.

(** [ReadableConceptTreeImpl.of(proto).asJSON()] *)
Definition tree_json (proto : TreeProto) : outcome exn JSON :=
  match tree_root proto with
  | None => Throw (type_error "map")
  | Some l => outcome_bind (node_of (NP_map l)) node_json
  end.

Section fetch.
Context {S : Type} `{!TransactionExtended S}.

Definition query_fetch (query : string) (options : option TypeDBOptions)
    : proc S exn (gen S exn JSON) :=
  query_answers (QueryManager_fetchReq query (query_options options)) "fetch_res_part" "answers"
    of_trees tree_json.
End fetch.

(** ** Properties *)

(** A path into a tree: keys of maps and positions of lists. *)
Fixpoint proto_at (p : NodeProto) (path : list (string + nat)) : option NodeProto :=
  match path with
  | [] => Some p
  | step :: path' =>
      match p, step with
      | NP_map l, inl k => map_get l k ≫= λ q, proto_at q path'
      | NP_list l, inr i => l !! i ≫= λ q, proto_at q path'
      | _, _ => None
      end
  end.

Fixpoint json_at (j : JSON) (path : list (string + nat)) : option JSON :=
  match path with
  | [] => Some j
  | step :: path' =>
      match j, step with
      | JObject l, inl k => map_get l k ≫= λ q, json_at q path'
      | JArray l, inr i => l !! i ≫= λ q, json_at q path'
      | _, _ => None
      end
  end.

(** Every map of the message has each key once. *)
Definition unique_keys (p : NodeProto) : Prop :=
  ∀ path l, proto_at p path = Some (NP_map l) → NoDup l.*1.

(** No map of the message has the key that names an object's prototype. *)
Definition no_proto_key (p : NodeProto) : Prop :=
  ∀ path l, proto_at p path = Some (NP_map l) → "__proto__" ∉ l.*1.

Lemma set_all_entries {A B} set (f : A → outcome exn B) entries m m' :
  (∀ m k v, k ∈ entries.*1 → set m k v = map_set m k v) →
  NoDup (m.*1 ++ entries.*1) → set_all set f entries m = Ret m' →
  ∃ l, m' = m ++ l ∧ Forall2 (λ e e', e.1 = e'.1 ∧ f e.2 = Ret e'.2) entries l.
Proof.
  revert m. induction entries as [|[k p] entries IH]; intros m Hset Hd; cbn [set_all].
  - intros [= <-]. exists []. by rewrite app_nil_r.
  - destruct (f p) as [c|e|] eqn:Hc; try done. cbn [outcome_bind].
    rewrite fmap_cons in Hd. cbn [fst] in Hd.
    rewrite Hset by (rewrite fmap_cons; left).
    rewrite map_set_fresh by (apply NoDup_app in Hd as (_ & Hd & _); intros Hk;
      apply (Hd k Hk); by constructor).
    intros H. apply IH in H as (l & -> & Hl);
      [|intros; apply Hset; rewrite fmap_cons; by right|].
    + exists ((k, c) :: l). rewrite <- app_assoc. split; [done|]. by constructor.
    + by rewrite fmap_app, <- app_assoc.
Qed.

Lemma entries_get {A B} (R : A → B → Prop) (l : list (string * A)) (l' : list (string * B)) k a :
  Forall2 (λ e e', e.1 = e'.1 ∧ R e.2 e'.2) l l' → map_get l k = Some a →
  ∃ b, map_get l' k = Some b ∧ R a b.
Proof.
  induction 1 as [|[k1 a1] [k2 b2] l l' [Hk HR] _ IH]; [done|]. simpl in Hk, HR. subst k2.
  cbn [map_get]. case_bool_decide; [|done]. intros [= <-]. eauto.
Qed.

Lemma entries_keys {A B} (R : A → B → Prop) (l : list (string * A)) (l' : list (string * B)) :
  Forall2 (λ e e', e.1 = e'.1 ∧ R e.2 e'.2) l l' → l.*1 = l'.*1.
Proof. induction 1 as [|? ? l l' [He _] _ IH]; [done|]. rewrite !fmap_cons. congruence. Qed.

Lemma mapM_outcome_Forall2 {E A B} (f : A → outcome E B) l bs :
  mapM_outcome f l = Ret bs → Forall2 (λ a b, f a = Ret b) l bs.
Proof.
  revert bs. induction l as [|a l IH]; intros bs; cbn [mapM_outcome].
  - intros [= <-]. constructor.
  - destruct (f a) as [b|e|] eqn:Hf; try done. cbn [outcome_bind].
    destruct (mapM_outcome f l) as [bs'|e|]; try done. intros [= <-]. constructor; auto.
Qed.

(** [Node.of(p)], then its JSON *)
Definition node_printed (p : NodeProto) : outcome exn JSON := outcome_bind (node_of p) node_json.

Lemma own_set_plain m k v : k ≠ "__proto__" → own_set m k v = map_set m k v.
Proof. intros H. unfold own_set. by rewrite bool_decide_false. Qed.

(** Printing a map prints its entries. *)
Lemma printed_map l j :
  NoDup l.*1 → "__proto__" ∉ l.*1 → node_printed (NP_map l) = Ret j →
  ∃ jl, j = JObject jl ∧ Forall2 (λ e e', e.1 = e'.1 ∧ node_printed e.2 = Ret e'.2) l jl.
Proof.
  intros Hd Hp. unfold node_printed. cbn [node_of].
  destruct (set_all map_set node_of l []) as [m|e|] eqn:Hm; try done. cbn [outcome_map outcome_bind node_json].
  destruct (set_all own_set node_json m []) as [jl|e|] eqn:Hj; try done. intros [= <-].
  apply set_all_entries in Hm as (m' & -> & Hm); [|done..]. cbn [app] in *.
  pose proof (entries_keys (λ p n, node_of p = Ret n) _ _ Hm) as Hk.
  apply set_all_entries in Hj as (jl' & -> & Hj);
    [|intros; apply own_set_plain; congruence|simpl; by rewrite <- Hk].
  exists jl'. split; [done|]. clear Hd Hp Hk.
  revert jl' Hj. induction Hm as [|e e1 l m' [He Hn] _ IH]; intros jl' Hj.
  - apply Forall2_nil_inv_l in Hj as ->. constructor.
  - apply Forall2_cons_inv_l in Hj as (e2 & jl2 & [He2 Hn2] & Hj & ->).
    constructor; [|by apply IH]. split; [congruence|]. by rewrite Hn.
Qed.

Lemma printed_list l j :
  node_printed (NP_list l) = Ret j →
  ∃ jl, j = JArray jl ∧ Forall2 (λ p q, node_printed p = Ret q) l jl.
Proof.
  unfold node_printed. cbn [node_of].
  destruct (mapM_outcome node_of l) as [m|e|] eqn:Hm; try done. cbn [outcome_map outcome_bind node_json].
  destruct (mapM_outcome node_json m) as [jl|e|] eqn:Hj; try done. intros [= <-].
  apply mapM_outcome_Forall2 in Hm, Hj. exists jl. split; [done|].
  revert jl Hj. induction Hm as [|p n l m Hn _ IH]; intros jl Hj.
  - apply Forall2_nil_inv_l in Hj as ->. constructor.
  - apply Forall2_cons_inv_l in Hj as (q & jl' & Hq & Hj & ->). constructor; [|by apply IH].
    by rewrite Hn.
Qed.

(** C34 - a fetch answer has the shape of its tree: when a tree prints, no map of
    it has the key [__proto__] (which an assignment to an object does not add,
    see [proto_key_lost]) and none has a key twice, the JSON at every path into
    the tree is the printing of what the tree has there. *)
Theorem fetch_shape (l : list (string * NodeProto)) (j : JSON)
    (Hkeys : unique_keys (NP_map l)) (Hproto : no_proto_key (NP_map l))
    (Hj : tree_json (mkTreeProto (Some l)) = Ret j)
    (path : list (string + nat)) (q : NodeProto) (Hq : proto_at (NP_map l) path = Some q) :
  ∃ jq, node_printed q = Ret jq ∧ json_at j path = Some jq.
Proof.
  change (node_printed (NP_map l) = Ret j) in Hj. revert Hkeys Hproto Hj Hq. generalize (NP_map l). clear l.
  revert j. induction path as [|step path IH]; intros j p Hkeys Hproto Hj Hq.
  - injection Hq as <-. by exists j.
  - destruct p as [l|l|r|], step as [k|i]; try done; cbn [proto_at] in Hq.
    + destruct (map_get l k) as [p|] eqn:Hk; [|done]. simpl in Hq.
      apply printed_map in Hj as (jl & -> & Hl); [|by apply (Hkeys [])|by apply (Hproto [])].
      destruct (entries_get (λ p j, node_printed p = Ret j) _ _ _ _ Hl Hk) as (jp & Hg & Hp).
      cbn [json_at]. rewrite Hg. simpl. apply (IH jp p); [| |done|done].
      * intros path' l' Hl'. apply (Hkeys (inl k :: path')). cbn [proto_at]. by rewrite Hk.
      * intros path' l' Hl'. apply (Hproto (inl k :: path')). cbn [proto_at]. by rewrite Hk.
    + destruct (l !! i) as [p|] eqn:Hi; [|done]. simpl in Hq.
      apply printed_list in Hj as (jl & -> & Hl).
      destruct (Forall2_lookup_l _ _ _ i p Hl Hi) as (jp & Hg & Hp).
      cbn [json_at]. rewrite Hg. simpl. apply (IH jp p); [| |done|done].
      * intros path' l' Hl'. apply (Hkeys (inr i :: path')). cbn [proto_at]. by rewrite Hi.
      * intros path' l' Hl'. apply (Hproto (inr i :: path')). cbn [proto_at]. by rewrite Hi.
Qed.

(** A list of two attributes and a value, under two keys. *)
Definition sample_tree : list (string * NodeProto) :=
  [("name", NP_list
     [NP_readable_concept (RC_attribute (mkAttributeProto [x0a]
        (Some (mkAttributeTypeProto "name" false false (Some STRING)))
        (Some (VP_string "Ada")) false));
      NP_readable_concept RC_unset]);
   ("born", NP_map [("at", NP_readable_concept (RC_value (VP_date_time 1 (S754_finite true 1 0))))])].

Lemma maps_of_sample path l :
  proto_at (NP_map sample_tree) path = Some (NP_map l) →
  l.*1 = ["name"; "born"] ∨ l.*1 = ["at"].
Proof.
  destruct path as [|[k|i] path]; [intros [= <-]; by left| |done].
  cbn [proto_at sample_tree map_get].
  case_bool_decide; [|case_bool_decide; [|done]]; simpl.
  - destruct path as [|[k'|[|[|]]] path]; try done; simpl; by destruct path as [|[] ].
  - destruct path as [|[k'|i] path]; [intros [= <-]; by right| |done].
    cbn [proto_at map_get]. case_bool_decide; [|done]. simpl. by destruct path as [|[] ].
Qed.

Lemma fetch_shape_witness :
  ∃ j, json_at j [inl "born"; inl "at"] =
    Some (JObject [("value", JString "1969-12-31T23:59:59.999"); ("value_type", JString "datetime")]).
Proof.
  destruct (tree_json (mkTreeProto (Some sample_tree))) as [j|e|] eqn:Hj; [|by vm_compute in Hj..].
  exists j.
  destruct (fetch_shape sample_tree j
    ltac:(intros path l H; apply maps_of_sample in H as [-> | ->]; apply (bool_decide_unpack _); vm_compute; exact I)
    ltac:(intros path l H; apply maps_of_sample in H as [-> | ->]; apply (bool_decide_unpack _); vm_compute; exact I)
    Hj [inl "born"; inl "at"]
    (NP_readable_concept (RC_value (VP_date_time 1 (S754_finite true 1 0)))) eq_refl)
    as (jq & Hq & Hat).
  rewrite Hat. vm_compute in Hq. congruence.
Defined.

(** ** Printed dates *)

Lemma slice_last_snoc s c : slice_last (s ++ String c "") = s.
Proof.
  unfold slice_last. rewrite length_append. simpl. rewrite Nat.add_sub.
  induction s as [|c' s IH]; [done|]. simpl. by rewrite IH.
Qed.

(** A printed time ends in [Z]. *)
Lemma iso_ends t : ∃ s, iso_of_millis t = (s ++ "Z")%string.
Proof.
  unfold iso_of_millis. destruct (civil_from_days _) as [[y m] d].
  eexists. rewrite <- !append_assoc. reflexivity.
Qed.

Lemma slice_iso_inj t t' :
  slice_last (iso_of_millis t) = slice_last (iso_of_millis t') →
  iso_of_millis t = iso_of_millis t'.
Proof.
  destruct (iso_ends t) as [s ->], (iso_ends t') as [s' ->]. rewrite !slice_last_snoc. congruence.
Qed.

(** Two dates of fetch answers that print alike are the same instant. *)
Theorem fetched_dates_distinct (obj obj' : positive) (m m' : spec_float) (j : JSON)
    (Hm : (Z.abs (Z_of_number (TimeClip m)) <= 8640000000000000)%Z)
    (Hm' : (Z.abs (Z_of_number (TimeClip m')) <= 8640000000000000)%Z)
    (H : node_printed (NP_readable_concept (RC_value (VP_date_time obj m))) = Ret j)
    (H' : node_printed (NP_readable_concept (RC_value (VP_date_time obj' m'))) = Ret j) :
  Z_of_number (TimeClip m) = Z_of_number (TimeClip m').
Proof.
  assert (∀ obj m j, node_printed (NP_readable_concept (RC_value (VP_date_time obj m))) = Ret j →
    ∃ rest, j = JObject (("value", JString (slice_last (iso_of_millis (Z_of_number (TimeClip m))))) :: rest))
    as Hp.
  { clear. intros obj m j H. eexists. cbn in H. destruct (TimeClip m); try done; by injection H as <-. }
  destruct (Hp _ _ _ H) as [r ->]. destruct (Hp _ _ _ H') as [r' Heq].
  injection Heq as Heq _. apply iso_injective; [lia..|]. by apply slice_iso_inj.
Qed.

(** ** Which trees print *)

Definition value_prints (v : ValueProto) : bool :=
  match v with
  | VP_unset _ => false
  | VP_date_time _ m => match TimeClip m with S754_nan => false | _ => true end
  | _ => true
  end.

(** A leaf prints unless it has an attribute type of unknown value type, an invalid value or
    date, or an attribute without a type or a value. *)
Definition leaf_prints (r : ReadableConceptProto) : bool :=
  match r with
  | RC_attribute_type p => bool_decide (is_Some (atp_value_type p))
  | RC_attribute p =>
      match ap_attribute_type p, ap_value p with
      | Some t, Some v => bool_decide (is_Some (atp_value_type t)) && value_prints v
      | _, _ => false
      end
  | RC_value v => value_prints v
  | _ => true
  end.

Fixpoint tree_prints (p : NodeProto) : bool :=
  match p with
  | NP_map l => forallb (λ e, tree_prints e.2) l
  | NP_list l => forallb tree_prints l
  | NP_readable_concept r => leaf_prints r
  | NP_unset => false
  end.

Definition returns {A} (o : outcome exn A) : Prop := ∃ a, o = Ret a.

(** Closes a goal where both sides are decided by computation. *)
Ltac decide_returns := cbn; split; [first [done | by intros [? [=]]] | first [done | by eauto]].

Lemma leaf_prints_spec r : returns (node_printed (NP_readable_concept r)) ↔ leaf_prints r = true.
Proof.
  unfold returns, node_printed. destruct r as [p|p|p|p|p|p| |]; cbn.
  - decide_returns.
  - decide_returns.
  - destruct (atp_value_type p) as [[]|]; decide_returns.
  - decide_returns.
  - destruct p as [iid [t|] [v|] i]; cbn.
    + destruct (atp_value_type t) as [[]|], v; cbn; try destruct (TimeClip _); decide_returns.
    + destruct (atp_value_type t) as [[]|]; decide_returns.
    + destruct v; decide_returns.
    + decide_returns.
  - destruct p; cbn; try destruct (TimeClip _); decide_returns.
  - decide_returns.
  - decide_returns.
Qed.

Lemma set_all_returns {A B} set (f : A → outcome exn B) entries m :
  returns (set_all set f entries m) ↔ Forall (λ e, returns (f e.2)) entries.
Proof.
  revert m. induction entries as [|[k x] entries IH]; intros m; cbn [set_all].
  - split; [by constructor|]. intros _. by exists m.
  - rewrite Forall_cons. cbn [snd]. destruct (f x) as [y|e|]; cbn [outcome_bind].
    + rewrite IH. split; [|tauto]. intros H. split; [by exists y|done].
    + split; [by intros [? [=]]|by intros [[? [=]] _]].
    + split; [by intros [? [=]]|by intros [[? [=]] _]].
Qed.

Lemma mapM_outcome_returns {A B} (f : A → outcome exn B) l :
  returns (mapM_outcome f l) ↔ Forall (λ x, returns (f x)) l.
Proof.
  induction l as [|x l IH]; cbn [mapM_outcome].
  - split; [by constructor|]. intros _. by exists [].
  - rewrite Forall_cons, <- IH. destruct (f x) as [y|e|]; cbn [outcome_bind].
    + destruct (mapM_outcome f l) as [bs|e|]; cbn; (split;
        [intros [? [=]]; split; eexists; reflexivity
        |intros [_ [? [=]]]; eexists; reflexivity]).
    + split; [by intros [? [=]]|by intros [[? [=]] _]].
    + split; [by intros [? [=]]|by intros [[? [=]] _]].
Qed.

(** What a relation between two lists carries over *)
Lemma Forall2_iff {A B} (R : A → B → Prop) (P : A → Prop) (Q : B → Prop) l l' :
  (∀ a b, R a b → Q b ↔ P a) → Forall2 R l l' → Forall Q l' ↔ Forall P l.
Proof.
  intros HR. induction 1 as [|a b l l' Hab _ IH]; [by split|].
  by rewrite !Forall_cons, IH, (HR a b Hab).
Qed.

Lemma map_get_in {A} (l : list (string * A)) e :
  NoDup l.*1 → e ∈ l → map_get l e.1 = Some e.2.
Proof.
  induction l as [|[k a] l IH]; intros Hd He; [by apply not_elem_of_nil in He|].
  rewrite fmap_cons, NoDup_cons in Hd. destruct Hd as [Hk Hd]. cbn [map_get].
  apply elem_of_cons in He as [-> | He]; [by rewrite bool_decide_true|].
  rewrite bool_decide_false; [by apply IH|]. intros <-. apply Hk. apply list_elem_of_fmap. by exists e.
Qed.

Lemma unique_keys_entry l e : unique_keys (NP_map l) → e ∈ l → unique_keys e.2.
Proof.
  intros H He path l' Hl'. apply (H (inl e.1 :: path)). cbn [proto_at].
  by rewrite map_get_in; [|apply (H [])|].
Qed.

Lemma unique_keys_item l p : unique_keys (NP_list l) → p ∈ l → unique_keys p.
Proof.
  intros H [i Hi]%list_elem_of_lookup path l' Hl'. apply (H (inr i :: path)). cbn [proto_at].
  by rewrite Hi.
Qed.

Lemma returns_map {A B} (f : A → B) (o : outcome exn A) : returns (outcome_map f o) ↔ returns o.
Proof. destruct o; cbn; (split; [intros [? [=]]|intros [? [=]]]); by eexists. Qed.

Lemma returns_bind {A B} (o : outcome exn A) (f : A → outcome exn B) :
  returns (outcome_bind o f) → returns o.
Proof. destruct o; intros [? [=]]; by eexists. Qed.

Lemma item_returns p n :
  node_of p = Ret n → returns (node_json n) ↔ returns (node_printed p).
Proof. intros H. unfold node_printed. by rewrite H. Qed.

Lemma entry_returns (e : string * NodeProto) (e' : string * Node) :
  e.1 = e'.1 ∧ node_of e.2 = Ret e'.2 → returns (node_json e'.2) ↔ returns (node_printed e.2).
Proof. intros [_ H]. by apply item_returns. Qed.

Lemma map_returns l : NoDup l.*1 →
  returns (node_printed (NP_map l)) ↔ Forall (λ e, returns (node_printed e.2)) l.
Proof.
  intros Hd. split.
  - intros Hr. assert (returns (set_all map_set node_of l [])) as [m Hm]
      by (by eapply returns_map, returns_bind, Hr).
    revert Hr. unfold node_printed at 1. cbn [node_of]. rewrite Hm.
    cbn [outcome_map outcome_bind node_json]. rewrite returns_map, set_all_returns.
    apply set_all_entries in Hm as (m' & -> & Hm); [|done..].
    apply (Forall2_iff _ _ _ _ _ entry_returns Hm).
  - intros Hr. assert (returns (set_all map_set node_of l [])) as [m Hm].
    { apply set_all_returns. eapply Forall_impl; [exact Hr|]. intros e. apply returns_bind. }
    unfold node_printed. cbn [node_of]. rewrite Hm.
    cbn [outcome_map outcome_bind node_json]. rewrite returns_map, set_all_returns.
    apply set_all_entries in Hm as (m' & -> & Hm); [|done..].
    by apply (Forall2_iff _ _ _ _ _ entry_returns Hm).
Qed.

Lemma list_returns l :
  returns (node_printed (NP_list l)) ↔ Forall (λ p, returns (node_printed p)) l.
Proof.
  split.
  - intros Hr. assert (returns (mapM_outcome node_of l)) as [m Hm]
      by (by eapply returns_map, returns_bind, Hr).
    revert Hr. unfold node_printed at 1. cbn [node_of]. rewrite Hm.
    cbn [outcome_map outcome_bind node_json]. rewrite returns_map, mapM_outcome_returns.
    apply mapM_outcome_Forall2 in Hm. apply (Forall2_iff _ _ _ _ _ item_returns Hm).
  - intros Hr. assert (returns (mapM_outcome node_of l)) as [m Hm].
    { apply mapM_outcome_returns. eapply Forall_impl; [exact Hr|]. intros e. apply returns_bind. }
    unfold node_printed. cbn [node_of]. rewrite Hm.
    cbn [outcome_map outcome_bind node_json]. rewrite returns_map, mapM_outcome_returns.
    apply mapM_outcome_Forall2 in Hm. by apply (Forall2_iff _ _ _ _ _ item_returns Hm).
Qed.

(** Induction on trees *)
Lemma node_ind (P : NodeProto → Prop) :
  (∀ l, Forall (λ e, P e.2) l → P (NP_map l)) → (∀ l, Forall P l → P (NP_list l)) →
  (∀ r, P (NP_readable_concept r)) → P NP_unset → ∀ p, P p.
Proof.
  intros Hmap Hlist Hleaf Hunset. fix IH 1. intros [l|l|r|].
  - apply Hmap. induction l as [|e l IHl]; constructor; [apply IH|exact IHl].
  - apply Hlist. induction l as [|p l IHl]; constructor; [apply IH|exact IHl].
  - apply Hleaf.
  - apply Hunset.
Qed.

Lemma node_prints p : unique_keys p → returns (node_printed p) ↔ tree_prints p = true.
Proof.
  induction p as [l IH|l IH|r|] using node_ind; intros Hu; cbn [tree_prints].
  - rewrite map_returns by (by apply (Hu [])). rewrite forallb_forall, List.Forall_forall.
    rewrite Forall_forall in IH. setoid_rewrite <- list_elem_of_In.
    split; intros H e He; apply (IH e He); auto; by apply unique_keys_entry with l.
  - rewrite list_returns, forallb_forall, List.Forall_forall.
    rewrite Forall_forall in IH. setoid_rewrite <- list_elem_of_In.
    split; intros H e He; apply (IH e He); auto; by apply unique_keys_item with l.
  - apply leaf_prints_spec.
  - split; [by intros [? [=]]|done].
Qed.

(** C35 - a tree of a fetch answer prints exactly when no node of it is unset and every leaf prints;
    the keys of a message's map are unique. *)
Theorem tree_prints_exact (l : list (string * NodeProto)) (Hkeys : unique_keys (NP_map l)) :
  (∃ j, tree_json (mkTreeProto (Some l)) = Ret j) ↔ tree_prints (NP_map l) = true.
Proof. exact (node_prints (NP_map l) Hkeys). Qed.

Lemma tree_prints_exact_witness :
  ∃ j, tree_json (mkTreeProto (Some sample_tree)) = Ret j.
Proof.
  apply (tree_prints_exact sample_tree); [|reflexivity].
  intros path l H; apply maps_of_sample in H as [-> | ->]; apply (bool_decide_unpack _);
    vm_compute; exact I.
Defined.

Lemma own_set_no_proto m k v : "__proto__" ∉ m.*1 → "__proto__" ∉ (own_set m k v).*1.
Proof.
  unfold own_set. case_bool_decide as Hk; [done|].
  induction m as [|[k' v'] m IH]; cbn [map_set]; intros Hm.
  - cbn. rewrite not_elem_of_cons. split; [congruence|apply not_elem_of_nil].
  - rewrite fmap_cons, not_elem_of_cons in Hm. destruct Hm as [Hk' Hm].
    case_bool_decide; rewrite fmap_cons, not_elem_of_cons; auto.
Qed.

(** The key [__proto__] of a map is lost: no object that prints a map has it. *)
Theorem proto_key_lost (m : list (string * Node)) (jl : list (string * JSON))
    (H : node_json (NodeMap m) = Ret (JObject jl)) : "__proto__" ∉ jl.*1.
Proof.
  assert (∀ acc, "__proto__" ∉ acc.*1 → ∀ jl, set_all own_set node_json m acc = Ret jl →
    "__proto__" ∉ jl.*1) as Hgo.
  { clear. induction m as [|[k n] m IH]; intros acc Hacc jl; cbn [set_all].
    - by intros [= <-].
    - destruct (node_json n) as [j|e|]; try done. cbn [outcome_bind].
      apply IH. by apply own_set_no_proto. }
  cbn [node_json] in H. destruct (set_all own_set node_json m []) as [jl'|e|] eqn:Hs; try done.
  injection H as <-. apply (Hgo [] (not_elem_of_nil _) _ Hs).
Qed.
