(* ===== verification/Live.v ===== *)
(** * A transaction at work

    Runs the classes that call the server on a real transaction: what they use
    of it, [rpcExecute] and [rpcStream] of [connection/TypeDBTransactionImpl.ts],
    is implemented here over the transaction and its stream, with the event
    loop in between. The state is the transaction and the events that are still
    to come (messages of the server, timers, calls by other parts of the
    program); awaiting a promise runs events until it is settled, and waits
    forever when they run out first. *)
From S2P Require Import Prelude Errors Bytes Proto RequestBuilder Streams Messages Concept ConceptManager TypeOps Answers BlockingQueue Dispatcher Collector BiStream BiStreamSpec Options Transaction.

Section live.
Context {U : Uuid}.
Context (show_state : TransactionStreamState → string).

Local Abbreviation tx := (TypeDBTransactionImpl msg msg).
Local Abbreviation event := (tx_event msg msg).
Local Abbreviation part := (TransactionResPart msg).

Record Live : Type := mkLive {
  live_tx : tx;
  upcoming : list event;
}.

(** ** The event loop *)

(** Runs events until [ready] has settled; [turn] is what the awaiting code
    does by itself after each event. *)
Fixpoint until {A} (turn : tx → tx) (ready : tx → outcome exn A) (t : tx) (evs : list event)
    : outcome exn A * Live :=
  match ready (turn t) with
  | Pending =>
      match evs with
      | [] => (Pending, mkLive (turn t) [])
      | ev :: evs' => until turn ready (tx_step show_state (turn t) ev) evs'
      end
  | o => (o, mkLive (turn t) evs)
  end.

(** A call of the transaction that does not await. *)
Definition on_tx {A} (m : proc tx exn A) : proc Live exn A := λ w,
  let '(o, t) := m (live_tx w) in (o, mkLive t (upcoming w)).

(** ** One response *)

Definition response_ready (p : nat * nat) (t : tx) : outcome exn msg :=
  outcome_map res_body
    (response_of (responseCollector (bidirectionalStream t)) p.1 p.2).

(** [await promise] *)
Definition await_promise (p : nat * nat) : proc Live exn msg := λ w,
  until id (response_ready p) (live_tx w) (upcoming w).

(** [await rpcExecute(request, batch)] *)
Definition live_execute (request : pval) (batch : bool) : proc Live exn msg :=
  on_tx (rpcExecute request (if batch then None else Some false)) ≫= await_promise.

(** ** A stream of parts *)

(** How many promises the queue of iterator [i] has made. *)
Definition backlog (i : nat) (st : BidirectionalStream msg msg) : nat :=
  match iterators st !! i ≫= λ it, queue_heap (responsePartCollector st) !! it_queue it with
  | Some q => length (store q)
  | None => 0
  end.

(** Iterator [i] runs as far as the elements in its queue let it. *)
Definition run_iterator (i : nat) (t : tx) : tx :=
  let st := bidirectionalStream t in
  set_stream (Nat.iter (S (backlog i st)) (resume show_state i) st) t.

(** What the pull of iterator [i] comes to: a part, or [None] at the end. *)
Definition pull_ready (i : nat) (t : tx) : outcome exn (option part) :=
  match iterators (bidirectionalStream t) !! i with
  | Some it =>
      match it_status_of it with
      | ItIdle => from_option (λ res, Ret (Some res)) Pending (last (it_yielded it))
      | ItAwaiting _ => Pending
      | ItFinished o => outcome_map (λ _, None) o
      end
  | None => Pending
  end.

(** [iterator.next()], awaited *)
Definition next_part (i : nat) : proc Live exn (option part) := λ w,
  until (run_iterator i) (pull_ready i)
    (set_stream (pull i (bidirectionalStream (live_tx w))) (live_tx w)) (upcoming w).

(** The iterator as a generator that is pulled at most [n] times. *)
Fixpoint parts_gen (n i : nat) : gen Live exn msg :=
  Gen (λ w,
    match n with
    | O => GPend w
    | S n' =>
        match next_part i w with
        | (Ret (Some res), w') => GYield w' (part_body res) (parts_gen n' i)
        | (Ret None, w') => GDone w'
        | (Throw e, w') => GThrow w' e
        | (Pending, w') => GPend w'
        end
    end).

(** [rpcStream(request)]: no more parts come than there are events, so that
    the generator is never pulled more often. *)
Definition live_stream (request : pval) : proc Live exn (gen Live exn msg) :=
  on_tx (rpcStream request) ≫= λ i,
  gets (λ w, iterable (parts_gen (S (length (upcoming w))) i)).

#[global] Instance live_transaction : TransactionExtended Live := {|
  rpc_execute := live_execute;
  rpc_stream := live_stream;
|}.

(** ** What is still to be delivered *)

(** The stream events that upcoming events amount to. *)
Fixpoint guarded_events (opn : bool) (evs : list event) : list (stream_event msg msg) :=
  match evs with
  | [] => []
  | ev :: evs' =>
      match guarded_event opn ev with
      | Some sev => sev :: guarded_events (still_open opn sev) evs'
      | None => guarded_events opn evs'
      end
  end.

Definition res_deliveries (id : string) (opn : bool) (evs : list event)
    : list (QueueElement (TransactionRes msg)) :=
  deliveries (delivered_res id) opn (guarded_events opn evs).

Definition part_deliveries (id : string) (opn : bool) (evs : list event)
    : list (QueueElement part) :=
  deliveries (delivered_part id) opn (guarded_events opn evs).

(** The event is no pull of iterator [i] by someone else. *)
Definition leaves (i : nat) (ev : event) : Prop :=
  match ev with TPull j | TResume j => j ≠ i | _ => True end.

Definition stream_leaves (i : nat) (ev : stream_event msg msg) : Prop :=
  match ev with SPull j | SResume j => j ≠ i | _ => True end.

Context {UL : UuidLaws U}.
Implicit Types (t : tx) (w : Live) (evs : list event).
Local Abbreviation inv := (stream_inv show_state).
Local Abbreviation st_of t := (bidirectionalStream t).

Lemma tx_step_inv t ev : inv (st_of t) → inv (st_of (tx_step show_state t ev)).
Proof.
  intros Hinv. rewrite tx_step_stream. destruct (guarded_event _ ev); [|done].
  by apply stream_inv_step.
Qed.

Lemma guarded_cons t ev evs :
  inv (st_of t) →
  guarded_events (isOpen (st_of t)) (ev :: evs) =
    match guarded_event (isOpen (st_of t)) ev with Some sev => [sev] | None => [] end ++
    guarded_events (isOpen (st_of (tx_step show_state t ev))) evs.
Proof.
  intros Hinv. cbn [guarded_events]. rewrite tx_step_stream.
  destruct (guarded_event _ ev) as [sev|]; [|done]. by rewrite step_open.
Qed.

(** One event delivers the head of what is to be delivered to a request. *)
Lemma tx_step_res t ev evs id r s :
  inv (st_of t) → holds (responseCollector (st_of t)) id r s →
  ∃ d, holds (responseCollector (st_of (tx_step show_state t ev))) id r
         (SQueue (added s ++ d) (taken s)) ∧
       res_deliveries id (isOpen (st_of t)) (ev :: evs) =
         d ++ res_deliveries id (isOpen (st_of (tx_step show_state t ev))) evs.
Proof.
  intros Hinv Hs. unfold res_deliveries. rewrite guarded_cons by done. rewrite !tx_step_stream.
  destruct (guarded_event _ ev) as [sev|].
  - eexists. split; [by apply step_res|]. simpl. by rewrite step_open.
  - exists []. rewrite app_nil_r. by destruct s.
Qed.

Lemma tx_step_part t ev evs id r s :
  inv (st_of t) → holds (responsePartCollector (st_of t)) id r s →
  ∃ d k, holds (responsePartCollector (st_of (tx_step show_state t ev))) id r
           (SQueue (added s ++ d) k) ∧
         part_deliveries id (isOpen (st_of t)) (ev :: evs) =
           d ++ part_deliveries id (isOpen (st_of (tx_step show_state t ev))) evs.
Proof.
  intros Hinv Hs. unfold part_deliveries. rewrite guarded_cons by done. rewrite !tx_step_stream.
  destruct (guarded_event _ ev) as [sev|].
  - destruct (step_part show_state _ sev _ _ _ Hinv Hs) as [k Hk]. eexists _, k.
    split; [exact Hk|]. simpl. by rewrite step_open.
  - exists [], (taken s). rewrite app_nil_r. by destruct s.
Qed.

Lemma until_response evs t id r ds :
  inv (st_of t) → holds (responseCollector (st_of t)) id r (SQueue ds 1) →
  (until Datatypes.id (response_ready (r, 0)) t evs).1 =
    match ds ++ res_deliveries id (isOpen (st_of t)) evs with
    | el :: _ => outcome_map res_body (take_element el)
    | [] => Pending
    end.
Proof.
  revert t ds. induction evs as [|ev evs IH]; intros t ds Hinv Hs; cbn [until];
    unfold response_ready at 1; cbn [Datatypes.id fst snd];
    rewrite (holds_response _ _ _ _ 0 Hs); destruct ds as [|el ds];
    cbn [app added lookup list_lookup from_option outcome_map].
  - done.
  - by destruct el.
  - destruct (tx_step_res t ev evs _ _ _ Hinv Hs) as (d & Hd & ->). cbn [app added taken] in Hd.
    rewrite (IH _ d); [done|by apply tx_step_inv|done].
  - by destruct el.
Qed.

(** Awaiting a response: on an open transaction [rpcExecute] comes to the
    first response that the upcoming events deliver to its request, or to the
    error that closes the stream before, and waits forever only when neither
    comes; on a closed one it throws and changes nothing. *)
Theorem live_execute_first (w : Live) (request : pval) (batch : bool)
    (Hinv : inv (st_of (live_tx w))) :
  let st := st_of (live_tx w) in
  if isOpen st then
    (live_execute request batch w).1 =
      match res_deliveries (uuid_v4 (drawn st)) true (upcoming w) with
      | el :: _ => outcome_map res_body (take_element el)
      | [] => Pending
      end
  else live_execute request batch w = (Throw (transaction_closed st), w).
Proof.
  cbv zeta. destruct w as [t evs]. cbn [live_tx upcoming] in *.
  unfold live_execute. rewrite proc_bind_eq. unfold on_tx, rpcExecute. cbn [live_tx upcoming].
  rewrite proc_bind_eq. cbn [gets]. destruct (isOpen (st_of t)) eqn:Hopen; cbn [negb]; [|done].
  rewrite proc_bind_eq. unfold on_stream.
  destruct (single_hands_out show_state request (useBatch (if batch then None else Some false))
    _ Hinv) as (r & E1 & E2 & Hs).
  pose proof (stream_inv_single show_state request (useBatch (if batch then None else Some false))
    _ Hinv) as Hinv'.
  destruct (single _ _ _) as [o st]. cbn [fst snd] in *. subst o. cbn [note].
  unfold await_promise. cbn [live_tx upcoming].
  erewrite until_response; [|exact Hinv'|exact Hs]. cbn. by rewrite E2, Hopen.
Qed.

(** ** Pulling an iterator *)

Lemma step_leaves (st : BidirectionalStream msg msg) ev i it :
  inv st → stream_leaves i ev → iterators st !! i = Some it →
  iterators (stream_step show_state st ev) !! i = Some it.
Proof.
  intros Hinv Hev Hi. destruct (dispatcher st) as [d|] eqn:Hd; [|by destruct (inv_dispatcher _ _ Hinv)].
  assert (∀ j jt, j ≠ i → iterators (next_begin j jt st) !! i = Some it) as Hnb.
  { intros j jt Hj. unfold next_begin. destruct (queue_take _ _) as [[p|] c]; simpl;
      by rewrite list_lookup_alter_ne. }
  unfold stream_step, on_error, on_done.
  destruct ev as [rq b|rq|cb|e|res|e| |j|j|r']; simpl; try done.
  - by destruct (single_run rq b st d Hd) as (p & c & _ & _ & _ & _ & _ & _ & _ & ->).
  - destruct (stream_run rq st d Hd) as (_ & _ & _ & _ & _ & _ & ->). by apply lookup_app_l_Some.
  - by destruct (stream_close_frame e st) as (_ & _ & _ & _ & _ & -> & _).
  - unfold on_data. destruct (isOpen st); [|done]; simpl. destruct res; simpl; [| |done];
      unfold collectRes, collectResPart; destruct (uuid_stringify _); try done;
      by destruct (collector_get _ _).
  - by destruct (stream_close_frame (Some (CloseWith e)) st) as (_ & _ & _ & _ & _ & -> & _).
  - by destruct (stream_close_frame None st) as (_ & _ & _ & _ & _ & -> & _).
  - unfold pull. destruct (iterators st !! j) as [jt|]; [|done].
    destruct (it_status_of jt); [by apply Hnb|done..].
  - unfold resume. destruct (iterators st !! j) as [jt|]; [|done].
    destruct (it_status_of jt) as [|p|]; try done. unfold next_resume.
    destruct (response_of _ _ _) as [res|e|]; try done; simpl;
      [|by rewrite list_lookup_alter_ne].
    destruct (part_state res) as [[]|]; simpl; try by rewrite list_lookup_alter_ne.
    unfold on_dispatcher. destruct (it_dispatcher jt); simpl; [|by rewrite list_lookup_alter_ne].
    unfold next_begin. simpl. destruct (queue_take _ _) as [[p'|] c]; simpl;
      by rewrite list_lookup_alter_ne.
Qed.

Lemma tx_step_leaves t ev i it :
  inv (st_of t) → leaves i ev → iterators (st_of t) !! i = Some it →
  iterators (st_of (tx_step show_state t ev)) !! i = Some it.
Proof.
  intros Hinv Hev Hi. rewrite tx_step_stream.
  destruct (guarded_event _ ev) as [sev|] eqn:Hg; [|done]. apply step_leaves; [done| |done].
  by destruct ev, (isOpen (st_of t)); simplify_eq/=.
Qed.

(** Iterator [i] is being pulled, having yielded [y] before; at most [n] of the
    elements [ds] of its queue are ahead of it. *)
Definition at_pull (i : nat) (id : string) (r : nat) (y : list part) (ds : list (QueueElement part))
    (n : nat) (st : BidirectionalStream msg msg) : Prop :=
  ∃ it k, iterators st !! i = Some it ∧ it_requestId it = id ∧ it_queue it = r ∧
    holds (responsePartCollector st) id r (SQueue ds k) ∧
    match it_status_of it with
    | ItIdle => ∃ res, it_yielded it = y ++ [res]
    | ItAwaiting p => it_yielded it = y ∧ length ds - p ≤ n
    | ItFinished _ => it_yielded it = y
    end.

(** What a resumed iterator has yielded. *)
Lemma resume_yielded (st : BidirectionalStream msg msg) i it p :
  iterators st !! i = Some it → it_status_of it = ItAwaiting p →
  ∃ it', iterators (resume show_state i st) !! i = Some it' ∧
    match it_status_of it' with
    | ItIdle => ∃ res, it_yielded it' = it_yielded it ++ [res]
    | _ => it_yielded it' = it_yielded it
    end.
Proof.
  intros Hi Hst. unfold resume. rewrite Hi, Hst. unfold next_resume.
  assert (∀ f (st' : BidirectionalStream msg msg), iterators st' = iterators st →
    iterators (at_iterator i f st') !! i = Some (f it)) as Hat.
  { intros f st' E. simpl. rewrite E, list_lookup_alter, decide_True by done. by rewrite Hi. }
  destruct (response_of _ _ _) as [res|e|].
  - destruct (part_state res) as [[| |n]|]; [eexists; split; [by apply Hat|done]| |
      eexists; split; [by apply Hat|done]|eexists; split; [by apply Hat|simpl; eauto]].
    unfold on_dispatcher. destruct (it_dispatcher it); [|eexists; split; [by apply Hat|done]].
    unfold next_begin. destruct (queue_take _ _) as [[p'|] c];
      (eexists; split; [by apply Hat|done]).
  - eexists; split; [by apply Hat|done].
  - exists it. by rewrite Hst.
Qed.

Lemma resume_pull (st : BidirectionalStream msg msg) i id r y ds n :
  inv st → at_pull i id r y ds n st → at_pull i id r y ds (pred n) (resume show_state i st).
Proof.
  intros Hinv (it & k & Hi & <- & <- & Hs & Hk).
  destruct (it_status_of it) as [|p|o] eqn:Eit.
  - unfold resume. rewrite Hi, Eit. exists it, k. by rewrite Eit.
  - destruct Hk as [Hy Hn].
    pose proof (matches_now show_state _ _ _ _ _ _ _ Hinv Hi eq_refl eq_refl Hs) as Hm.
    unfold it_matches in Hm. rewrite Eit in Hm. destruct Hm as (Ht & Hle & _).
    simpl in Ht, Hle. subst k. destruct (ds !! p) as [el|] eqn:Hel.
    + destruct (resume_cases show_state _ _ _ _ _ _ Hinv Hi Eit Hs Hel)
        as (it' & k & Hi' & [E1 E2] & Hs' & Hk').
      destruct (resume_yielded _ _ _ _ Hi Eit) as (it2 & Hi2 & Hy2).
      rewrite Hi' in Hi2. injection Hi2 as <-. rewrite Hy in Hy2.
      apply lookup_lt_Some in Hel. exists it', k. split_and!; try done.
      destruct (it_status_of it'); [done| |done]. split; [done|lia].
    + unfold resume. rewrite Hi, Eit, (holds_response _ _ _ _ p Hs). simpl. rewrite Hel. simpl.
      exists it, (S p). rewrite Eit. split_and!; try done. apply lookup_ge_None in Hel. lia.
  - unfold resume. rewrite Hi, Eit. exists it, k. by rewrite Eit.
Qed.

Lemma resumes_pull m (st : BidirectionalStream msg msg) i id r y ds n :
  inv st → at_pull i id r y ds n st →
  let st' := Nat.iter m (resume show_state i) st in
  inv st' ∧ at_pull i id r y ds (n - m) st' ∧ isOpen st' = isOpen st.
Proof.
  intros Hinv Hp. cbv zeta. induction m as [|m (IH1 & IH2 & IH3)].
  - by rewrite Nat.sub_0_r.
  - rewrite Nat.iter_succ. replace (n - S m) with (pred (n - m)) by lia. split_and!.
    + by apply stream_inv_resume.
    + by apply resume_pull.
    + by destruct (resume_frame show_state i (Nat.iter m (resume show_state i) st)) as [_ ->].
Qed.

Lemma settle_pull t i id r y ds :
  inv (st_of t) → at_pull i id r y ds (length ds) (st_of t) →
  inv (st_of (run_iterator i t)) ∧
  at_pull i id r y ds 0 (st_of (run_iterator i t)) ∧
  isOpen (st_of (run_iterator i t)) = isOpen (st_of t).
Proof.
  intros Hinv Hp. unfold run_iterator. cbn [set_stream bidirectionalStream].
  destruct (resumes_pull (S (backlog i (st_of t))) _ _ _ _ _ _ _ Hinv Hp) as (H1 & H2 & H3).
  split_and!; [done| |done]. replace 0 with (length ds - S (backlog i (st_of t))); [done|].
  destruct Hp as (it & k & Hi & _ & <- & [_ Hh] & _). unfold backlog. rewrite Hi. simpl.
  rewrite Hh. rewrite length_repr_store. simpl. lia.
Qed.
(** ** The parts of a request *)

(** Iterator [i] of request [id] is at rest, has yielded [y], and has [total]
    delivered to it in all, now and by the events to come. *)
Definition tracks (i : nat) (id : string) (total : list (QueueElement part)) (y : list part)
    (w : Live) : Prop :=
  inv (st_of (live_tx w)) ∧ Forall (leaves i) (upcoming w) ∧
  ∃ it ds k, iterators (st_of (live_tx w)) !! i = Some it ∧ it_requestId it = id ∧
    holds (responsePartCollector (st_of (live_tx w))) id (it_queue it) (SQueue ds k) ∧
    it_status_of it = ItIdle ∧ it_yielded it = y ∧
    total = ds ++ part_deliveries id (isOpen (st_of (live_tx w))) (upcoming w).

Lemma until_part evs t i id r y ds :
  inv (st_of t) → Forall (leaves i) evs → at_pull i id r y ds (length ds) (st_of t) →
  ∃ ds' w', until (run_iterator i) (pull_ready i) t evs = (pull_ready i (live_tx w'), w') ∧
    (pull_ready i (live_tx w') = Pending → upcoming w' = []) ∧
    inv (st_of (live_tx w')) ∧ Forall (leaves i) (upcoming w') ∧
    at_pull i id r y ds' 0 (st_of (live_tx w')) ∧
    ds ++ part_deliveries id (isOpen (st_of t)) evs =
      ds' ++ part_deliveries id (isOpen (st_of (live_tx w'))) (upcoming w').
Proof.
  revert t ds. induction evs as [|ev evs IH]; intros t ds Hinv Hev Hp; cbn [until];
    destruct (settle_pull t i id r y ds Hinv Hp) as (H1 & H2 & H3).
  - exists ds, (mkLive (run_iterator i t) []). cbn [live_tx upcoming]. rewrite H3.
    split_and!; try done. by destruct (pull_ready i (run_iterator i t)).
  - destruct (pull_ready i (run_iterator i t)) eqn:Hr.
    3: { inversion Hev as [|? ? Hev1 Hev2]; subst.
      destruct H2 as (it & k & Hi & Hid & Hq & Hh & Hst).
      destruct (tx_step_part (run_iterator i t) ev evs _ _ _ H1 Hh) as (d & k' & Hh' & Hd).
      rewrite H3 in Hd. rewrite Hd, app_assoc. apply IH; [by apply tx_step_inv|done|].
      exists it, k'. split_and!; try done; [by apply tx_step_leaves|].
      destruct (it_status_of it); [done| |done]. destruct Hst as [Hy _]. split; [done|lia]. }
    all: exists ds, (mkLive (run_iterator i t) (ev :: evs)); cbn [live_tx upcoming]; rewrite Hr, H3;
      split_and!; done.
Qed.

Lemma consume_not_pending (l : list (QueueElement part)) y : consume show_state l ≠ (y, Some Pending).
Proof.
  revert y. induction l as [|el l IH]; intros y; [done|]. cbn [consume].
  destruct (take_element el) as [res|e|] eqn:He; [|done|by destruct el].
  destruct (part_state res) as [[]|]; try done.
  intros [= _ H]. apply (IH (consume show_state l).1). rewrite <- H. by destruct (consume _ l).
Qed.

(** Where a pull that has settled leaves the iterator. *)
Lemma pulled st i id r y ds :
  inv st → at_pull i id r y ds 0 st →
  ∃ it, iterators st !! i = Some it ∧ it_requestId it = id ∧
    match it_status_of it with
    | ItIdle => ∃ res k, it_yielded it = y ++ [res] ∧ it_queue it = r ∧
        holds (responsePartCollector st) id r (SQueue ds k) ∧
        ∀ l, ∃ z fin, consume show_state (ds ++ l) = (y ++ res :: z, fin)
    | ItAwaiting _ => consume show_state ds = (y, None)
    | ItFinished o => ∀ l, consume show_state (ds ++ l) = (y, Some o)
    end.
Proof.
  intros Hinv (it & k & Hi & Hid & Hq & Hs & Hk). exists it. split_and!; [done|done|].
  pose proof (matches_now show_state _ _ _ _ _ _ _ Hinv Hi Hid Hq Hs) as Hm. unfold it_matches in Hm.
  destruct (it_status_of it) as [|p|o]; simpl in Hm.
  - destruct Hk as [res Hy], Hm as [Hle Hc]. exists res, k. split_and!; try done.
    intros l. rewrite <- (take_drop k ds), <- app_assoc, consume_app, Hc. simpl.
    rewrite Hy, <- app_assoc. by eexists _, _.
  - destruct Hk as [Hy Hn], Hm as (_ & Hle & Hc). rewrite take_ge in Hc by lia. by rewrite Hc, Hy.
  - intros l. by rewrite consume_app, Hm, Hk.
Qed.

(** One pull gives the next of the parts that are delivered in all, or how the
    stream ends after them. *)
Lemma next_part_spec i id total y w :
  tracks i id total y w →
  ∃ o w', next_part i w = (o, w') ∧
    match o with
    | Ret (Some res) => tracks i id total (y ++ [res]) w' ∧
        ∃ z fin, consume show_state total = (y ++ res :: z, fin)
    | Ret None => consume show_state total = (y, Some (Ret tt))
    | Throw e => consume show_state total = (y, Some (Throw e))
    | Pending => consume show_state total = (y, None)
    end.
Proof.
  intros (Hinv & Hev & it & ds & k & Hi & Hid & Hs & Hst & Hy & ->).
  destruct (next_begin_spec i it _ (SQueue ds k) Hi ltac:(by rewrite Hid))
    as (E1 & E2 & _ & _ & _ & E6 & _).
  pose proof (stream_inv_pull show_state i _ Hinv) as Hinv'.
  assert (pull i (st_of (live_tx w)) = next_begin i it (st_of (live_tx w))) as Hpull
    by (unfold pull; by rewrite Hi, Hst).
  assert (at_pull i id (it_queue it) y ds (length ds)
    (st_of (set_stream (pull i (st_of (live_tx w))) (live_tx w)))) as Hp.
  { cbn [set_stream bidirectionalStream]. rewrite Hpull.
    exists (set_status (ItAwaiting k) it), (S k). rewrite E1, E2.
    split_and!; try done; [|apply (holds_take _ _ _ _ Hs)|cbn; split; [done|lia]].
    apply list_lookup_insert_eq. by eapply lookup_lt_Some. }
  destruct (until_part (upcoming w) (set_stream (pull i (st_of (live_tx w))) (live_tx w))
    _ _ _ _ _ Hinv' Hev Hp)
    as (ds' & w' & Hu & Hpend & Hinv2 & Hev2 & Hp2 & Htot).
  cbn [set_stream bidirectionalStream] in Htot. rewrite Hpull, E6 in Htot. rewrite Htot.
  eexists _, w'. split; [exact Hu|].
  destruct (pulled _ _ _ _ _ _ Hinv2 Hp2) as (it2 & Hi2 & Hid2 & Hc).
  revert Hpend. unfold pull_ready. rewrite Hi2. destruct (it_status_of it2) as [|p|o] eqn:Est.
  - intros _. destruct Hc as (res & k2 & Hy2 & Hq2 & Hs2 & Hl). rewrite Hy2, last_snoc. cbn.
    split; [|apply Hl]. split_and!; [done|done|]. exists it2, ds', k2. by rewrite Hq2.
  - intros ->; [|done]. cbn. by rewrite app_nil_r.
  - intros _. destruct o as [[]|e|]; cbn; [apply Hc..|]. exfalso. eapply consume_not_pending, Hc.
    Unshelve. exact [].
Qed.
Lemma parts_steps n i id total y w rest fin :
  tracks i id total y w → consume show_state total = (y ++ rest, fin) → length rest < n →
  (steps (parts_gen n i) w).1.*1 = part_body <$> rest ∧
  (steps (parts_gen n i) w).2.1 = default Pending fin.
Proof.
  revert y w rest. induction n as [|n IH]; intros y w rest Ht Hc Hn; [lia|].
  cbn [parts_gen steps]. destruct (next_part_spec _ _ _ _ _ Ht) as (o & w' & Ho & Hcase).
  rewrite Ho. destruct o as [[res|]|e|].
  { destruct Hcase as (Ht' & z & fin' & Hz). rewrite Hc in Hz. injection Hz as Hz <-.
    apply app_inv_head in Hz as ->. rewrite (cons_middle res y z), app_assoc in Hc.
    destruct (IH _ _ _ Ht' Hc) as [IH1 IH2]; [simpl in Hn; lia|].
    destruct (steps (parts_gen n i) w') as [l fin']. cbn in *. split; [by f_equal|done]. }
  all: rewrite Hc in Hcase; injection Hcase as Hy ->; rewrite <- (app_nil_r y) in Hy at 2;
    by apply app_inv_head in Hy as ->.
Qed.

(** No more parts come than there are events. *)
Lemma length_part_deliveries id opn evs : length (part_deliveries id opn evs) ≤ length evs.
Proof.
  unfold part_deliveries. revert opn. induction evs as [|ev evs IH]; intros opn; [done|].
  cbn [guarded_events]. destruct (guarded_event opn ev) as [sev|]; simpl; [|specialize (IH opn); lia].
  rewrite length_app. specialize (IH (still_open opn sev)).
  assert (length (delivered_part id opn sev) ≤ 1) as Hd.
  { unfold delivered_part. destruct sev as [| | | |[]| | | | |]; simpl; try lia.
    case_match; simpl; lia. }
  lia.
Qed.

Lemma length_consume (l : list (QueueElement part)) : length (consume show_state l).1 ≤ length l.
Proof.
  induction l as [|el l IH]; simpl; [done|]. destruct (take_element el) as [res|e|]; simpl; [|lia..].
  destruct (part_state res) as [[]|]; simpl; lia.
Qed.

Lemma enough_pulls id opn evs :
  length (consume show_state (part_deliveries id opn evs)).1 < S (length evs).
Proof.
  pose proof (length_consume (part_deliveries id opn evs)).
  pose proof (length_part_deliveries id opn evs). lia.
Qed.

(** What [rpcStream] hands out on an open transaction. *)
Lemma live_stream_tracks w request :
  let st := st_of (live_tx w) in
  inv st → isOpen st = true → Forall (leaves (length (iterators st))) (upcoming w) →
  ∃ w1, live_stream request w =
      (Ret (iterable (parts_gen (S (length (upcoming w))) (length (iterators st)))), w1) ∧
    upcoming w1 = upcoming w ∧
    tracks (length (iterators st)) (uuid_v4 (drawn st))
      (part_deliveries (uuid_v4 (drawn st)) true (upcoming w)) [] w1.
Proof.
  cbv zeta. destruct w as [t evs]. cbn [live_tx upcoming]. intros Hinv Hopen Hev.
  destruct (stream_hands_out show_state request _ Hinv) as (E1 & E2 & it & Hi & Hid & Hs).
  pose proof (stream_inv_stream show_state request _ Hinv) as Hinv'.
  unfold live_stream. rewrite proc_bind_eq. unfold on_tx, rpcStream. cbn [live_tx upcoming].
  rewrite proc_bind_eq. cbn [gets]. rewrite Hopen. cbn [negb]. unfold on_stream.
  assert (it_status_of it = ItIdle ∧ it_yielded it = []) as [Hst Hy].
  { destruct (dispatcher (st_of t)) as [d|] eqn:Hd; [|by destruct (inv_dispatcher _ _ Hinv)].
    destruct (stream_run request _ _ Hd) as (_ & _ & _ & _ & _ & _ & E6). rewrite E6 in Hi.
    rewrite lookup_app_r, Nat.sub_diag in Hi by done. by injection Hi as <-. }
  destruct (stream request (st_of t)) as [o st]. cbn [fst snd] in *. subst o.
  eexists. split; [done|]. split; [done|]. split_and!; [done|done|]. exists it, [], 0.
  cbn [live_tx set_stream bidirectionalStream]. rewrite Hid in Hs. rewrite E2, Hopen.
  split_and!; done.
Qed.

(** C23 - a streamed request over an open transaction: its stream yields exactly
    the parts that the upcoming events deliver to it, in order and without the
    stream-state messages, and then ends, throws or waits as the last of them
    says; whatever else the events do, and with no bound on how many there are. *)
Theorem live_stream_all (w : Live) (request : pval)
    (Hinv : inv (st_of (live_tx w))) (Hopen : isOpen (st_of (live_tx w)) = true)
    (Hown : Forall (leaves (length (iterators (st_of (live_tx w))))) (upcoming w)) :
  let ds := part_deliveries (uuid_v4 (drawn (st_of (live_tx w)))) true (upcoming w) in
  ∃ g w1, live_stream request w = (Ret g, w1) ∧
    (steps g w1).1.*1 = part_body <$> (consume show_state ds).1 ∧
    (steps g w1).2.1 = default Pending (consume show_state ds).2.
Proof.
  cbv zeta. destruct (live_stream_tracks w request Hinv Hopen Hown) as (w1 & Hs & Hup & Ht).
  eexists _, w1. split; [exact Hs|]. rewrite (steps_iterable _ w1).
  eapply parts_steps; [exact Ht|exact (surjective_pairing _)|]. apply enough_pulls.
Qed.
(** ** Consumers that keep calling the transaction *)

(** Calls that a consumer of iterator [i] may make between two parts: all but
    [close], and [commit], which closes. *)
Definition is_call (i : nat) (ev : event) : Prop :=
  match ev with
  | TExecute _ _ | TStream _ | TOnClose _ | TTimer _ => True
  | TPull j | TResume j => j ≠ i
  | _ => False
  end.

(** Makes calls without awaiting their results. *)
Definition fire (calls : list event) : proc Live exn unit :=
  modify (λ w, mkLive (foldl (tx_step show_state) (live_tx w) calls) (upcoming w)).

Lemma tracks_call i id total y t evs ev :
  is_call i ev → tracks i id total y (mkLive t evs) →
  tracks i id total y (mkLive (tx_step show_state t ev) evs).
Proof.
  intros Hcall (Hinv & Hev & it & ds & k & Hi & Hid & Hs & Hst & Hy & ->).
  cbn [live_tx upcoming] in *.
  destruct (tx_step_part t ev evs _ _ _ Hinv Hs) as (d & k' & Hs' & Hd).
  assert (part_deliveries id (isOpen (st_of t)) (ev :: evs) =
    part_deliveries id (isOpen (st_of t)) evs) as Hsame.
  { unfold part_deliveries. cbn [guarded_events].
    destruct ev, (isOpen (st_of t)); try done; cbn; by rewrite ?andb_true_r. }
  split_and!; [by apply tx_step_inv|done|]. exists it, (ds ++ d), k'.
  cbn [live_tx upcoming]. split_and!; try done.
  - apply tx_step_leaves; [done| |done]. by destruct ev.
  - by rewrite <- app_assoc, <- Hd, Hsame.
Qed.

Lemma tracks_fire i id total y w calls :
  Forall (is_call i) calls → tracks i id total y w → tracks i id total y (fire calls w).2.
Proof.
  destruct w as [t evs]. unfold fire, modify. cbn [live_tx upcoming snd]. intros Hc.
  revert t. induction Hc as [|ev calls Hev _ IH]; intros t Ht; [done|].
  cbn [foldl]. apply IH. by apply tracks_call.
Qed.

Lemma for_await_iterable {S E A X R} (body : X → A → proc S E (X + R)) x (g : gen S E A) s :
  for_await body x (iterable g) s = for_await body x g s.
Proof.
  revert x s. induction g as [pull IH] using gen_induction. intros x s. cbn.
  destruct (pull s) as [s1 a k| | |] eqn:Ep; try done.
  destruct (body x a s1) as [[[x'|r]|e|] s2]; try done. by eapply IH.
Qed.

Lemma parts_interleaved (calls : msg → list event) n i id total y w rest fin acc :
  (∀ m, Forall (is_call i) (calls m)) →
  tracks i id total y w → consume show_state total = (y ++ rest, fin) → length rest < n →
  (for_await (R := Empty_set)
     (λ acc m, fire (calls m) ≫= λ _, mret (inl (acc ++ [m]))) acc (parts_gen n i) w).1 =
    outcome_map (λ _, inl (acc ++ (part_body <$> rest))) (default Pending fin).
Proof.
  intros Hcalls. revert y w rest acc.
  induction n as [|n IH]; intros y w rest acc Ht Hc Hn; [lia|].
  cbn [parts_gen for_await]. destruct (next_part_spec _ _ _ _ _ Ht) as (o & w' & Ho & Hcase).
  rewrite Ho. destruct o as [[res|]|e|].
  { destruct Hcase as (Ht' & z & fin' & Hz). rewrite Hc in Hz. injection Hz as Hz <-.
    apply app_inv_head in Hz as ->. rewrite (cons_middle res y z), app_assoc in Hc.
    rewrite (proc_bind_run _ _ _ (Ret tt) (fire (calls (part_body res)) w').2) by done. cbn [mret proc_mret].
    rewrite (IH (y ++ [res]) _ z); [|by apply tracks_fire|done|simpl in Hn; lia].
    cbn [fmap list_fmap]. by rewrite <- app_assoc. }
  all: rewrite Hc in Hcase; injection Hcase as Hy ->; rewrite <- (app_nil_r y) in Hy at 2;
    apply app_inv_head in Hy as ->; cbn; by rewrite ?app_nil_r.
Qed.

(** C24 - a consumer may use the transaction while it consumes a stream: a loop
    over the parts whose body makes any calls of the transaction other than
    [close] and [commit], without awaiting their results (requests, further
    streams, callbacks, pulls of other streams), sees exactly the parts that are
    delivered to its request, and ends as their stream does. *)
Theorem live_interleaved (w : Live) (request : pval) (calls : msg → list event)
    (Hinv : inv (st_of (live_tx w))) (Hopen : isOpen (st_of (live_tx w)) = true)
    (Hown : Forall (leaves (length (iterators (st_of (live_tx w))))) (upcoming w))
    (Hcalls : ∀ m, Forall (is_call (length (iterators (st_of (live_tx w))))) (calls m)) :
  let ds := part_deliveries (uuid_v4 (drawn (st_of (live_tx w)))) true (upcoming w) in
  ((live_stream request ≫= for_await (R := Empty_set)
     (λ seen m, fire (calls m) ≫= λ _, mret (inl (seen ++ [m]))) []) w).1 =
    outcome_map (λ _, inl (part_body <$> (consume show_state ds).1))
      (default Pending (consume show_state ds).2).
Proof.
  cbv zeta. destruct (live_stream_tracks w request Hinv Hopen Hown) as (w1 & Hs & Hup & Ht).
  rewrite (proc_bind_run _ _ _ _ _ Hs). rewrite for_await_iterable.
  rewrite (parts_interleaved calls _ _ _ _ _ _ _ _ [] Hcalls Ht (surjective_pairing _));
    [done|]. by apply enough_pulls.
Qed.
(** ** Queries, from the messages of the server to their answers *)

Lemma reachable_inv tm (before : list event) : inv (st_of (run_tx show_state (new_tx tm) before)).
Proof. exact (txi_stream _ _ (tx_inv_run show_state tm before)). Qed.

(** Collecting the answers of a query over a transaction in any good state. *)
Lemma live_query {Q A} (w : Live) (request : pval) (case_ f : string)
    (r : payload → option (list Q)) (decode : Q → outcome exn A) (ps : list payload)
    (ls : list (list Q)) (xs : list A) :
  let ds := part_deliveries (uuid_v4 (drawn (st_of (live_tx w)))) true (upcoming w) in
  inv (st_of (live_tx w)) → isOpen (st_of (live_tx w)) = true →
  Forall (leaves (length (iterators (st_of (live_tx w))))) (upcoming w) →
  part_body <$> (consume show_state ds).1 = response ["query_manager_res_part"; case_] <$> ps →
  Forall2 (λ p l, r p = Some l) ps ls → mapM_outcome decode (concat ls) = Ret xs →
  ((query_answers (TransactionExtended0 := live_transaction) request case_ f r decode ≫= collect)
     w).1 = outcome_map (λ _, xs) (default Pending (consume show_state ds).2).
Proof.
  cbv zeta. intros Hinv Hopen Hown Hparts Hread Hdecode.
  destruct (live_stream_tracks w request Hinv Hopen Hown) as (w1 & Hs & _ & Ht).
  destruct (parts_steps _ _ _ _ _ _ _ _ Ht (surjective_pairing _) (enough_pulls _ _ _)) as [H1 H2].
  erewrite (query_answers_collect (TransactionExtended0 := live_transaction) request case_ f r decode
    _ _ w1); [|exact Hs| |exact Hread|exact Hdecode].
  - cbn [fst]. f_equal. exact H2.
  - eexists. split; [rewrite (steps_iterable _ w1); apply surjective_pairing|]. by rewrite H1.
Qed.

(** C4 - queries over a transaction, end to end: on a transaction that any run
    has left open, a query whose answers come in messages of the server, mixed
    with any other events, returns the decoded answers of all its parts in
    order when its stream ends, throws when the transaction fails before that,
    and otherwise waits; it never takes part of the answers for all of them.
    The methods [get], [getGroup], [getGroupAggregate], [fetch], [insert] and
    [update] are instances. *)
Theorem query_end_to_end {Q A} (tm : RequestTransmitter) (before after : list event)
    (request : pval) (case_ f : string) (r : payload → option (list Q))
    (decode : Q → outcome exn A) (ps : list payload) (ls : list (list Q)) (xs : list A) :
  let t := run_tx show_state (new_tx tm) before in
  let ds := part_deliveries (uuid_v4 (drawn (st_of t))) true after in
  ∀ (Hopen : isOpen (st_of t) = true)
    (Hown : Forall (leaves (length (iterators (st_of t)))) after)
    (Hparts : part_body <$> (consume show_state ds).1 =
                response ["query_manager_res_part"; case_] <$> ps)
    (Hread : Forall2 (λ p l, r p = Some l) ps ls)
    (Hdecode : mapM_outcome decode (concat ls) = Ret xs),
  ((query_answers (TransactionExtended0 := live_transaction) request case_ f r decode ≫= collect)
     (mkLive t after)).1 =
    outcome_map (λ _, xs) (default Pending (consume show_state ds).2).
Proof.
  cbv zeta. intros Hopen Hown Hparts Hread Hdecode.
  exact (live_query (mkLive _ after) request case_ f r decode ps ls xs (reachable_inv tm before)
    Hopen Hown Hparts Hread Hdecode).
Qed.
End live.

(** ** Witnesses *)

#[local] Existing Instance number_uuid.
#[local] Existing Instance number_uuid_laws.

Definition demo_part_event (id : string) (s : option TransactionStreamState) (b : msg)
    : tx_event msg msg :=
  TData (ServerResPart (mkPart (String.list_byte_of_string id) s b)).

Definition demo_live_before : list (tx_event msg msg) := [TExecute demo_request None].

(** Two parts of answers with a continuation between them, and other traffic. *)
Definition demo_live_after : list (tx_event msg msg) :=
  [TStream demo_request;
   demo_part_event "2" None (Body P_none);
   demo_part_event "1" None (response ["query_manager_res_part"; "get_res_part"]
     (P_concept_maps [demo_map]));
   demo_part_event "1" (Some SCONTINUE) (Body P_none);
   TData (ServerRes (mkRes (String.list_byte_of_string "0") (Body P_none)));
   TTimer 0;
   demo_part_event "1" None (response ["query_manager_res_part"; "get_res_part"]
     (P_concept_maps [demo_map; demo_map]));
   demo_part_event "1" (Some SDONE) (Body P_none); TDone].

Definition demo_live : Live :=
  mkLive (run_tx demo_show (new_tx new_transmitter) demo_live_before) demo_live_after.

Lemma query_end_to_end_witness :
  ((query_get (TransactionExtended0 := live_transaction demo_show) "match $x sub thing;" None
      ≫= collect) demo_live).1 = Ret [demo_answer; demo_answer; demo_answer].
Proof.
  refine (eq_trans (query_end_to_end demo_show new_transmitter demo_live_before demo_live_after
    (QueryManager_getReq "match $x sub thing;" (query_options None)) "get_res_part" "answers"
    of_concept_maps conceptMap_of (P_concept_maps <$> [[demo_map]; [demo_map; demo_map]])
    [[demo_map]; [demo_map; demo_map]] _ _ _ _ _ _) _);
    [vm_compute; reflexivity|repeat constructor|vm_compute; reflexivity|repeat constructor
    |vm_compute; reflexivity|vm_compute; reflexivity].
Defined.

Lemma live_execute_first_witness :
  (live_execute demo_show demo_request false
     (mkLive (run_tx demo_show (new_tx new_transmitter) demo_live_before)
        [TData (ServerRes (mkRes (String.list_byte_of_string "0") (Body P_none)));
         TData (ServerRes (mkRes (String.list_byte_of_string "1")
           (response ["type_res"] P_none)))])).1 = Ret (response ["type_res"] P_none).
Proof.
  refine (live_execute_first demo_show (mkLive (run_tx demo_show (new_tx new_transmitter)
    demo_live_before) _) demo_request false (reachable_inv demo_show new_transmitter
    demo_live_before)).
Defined.

Lemma live_stream_all_witness :
  ∃ g w1, live_stream demo_show demo_request demo_live = (Ret g, w1) ∧
    length (steps g w1).1.*1 = 2 ∧ (steps g w1).2.1 = Ret tt.
Proof.
  destruct (live_stream_all demo_show demo_live demo_request
    (reachable_inv demo_show new_transmitter demo_live_before) eq_refl
    ltac:(repeat constructor)) as (g & w1 & Hg & H1 & H2).
  exists g, w1. split; [exact Hg|]. rewrite H1, H2. split; vm_compute; reflexivity.
Defined.

Lemma live_interleaved_witness :
  outcome_map (λ r : list msg + Empty_set,
      match r with inl l => length l | inr v => match v with end end)
    (((live_stream demo_show demo_request ≫= for_await (R := Empty_set)
       (λ seen m, fire demo_show [TExecute demo_request None; TStream demo_request; TPull 1]
          ≫= λ _, mret (inl (seen ++ [m]))) []) demo_live).1) = Ret 2.
Proof.
  rewrite (live_interleaved demo_show demo_live demo_request
    (λ _, [TExecute demo_request None; TStream demo_request; TPull 1])
    (reachable_inv demo_show new_transmitter demo_live_before) eq_refl);
    [vm_compute; reflexivity|repeat constructor|intros; repeat constructor; done].
Defined.
