(* ===== verification/Interfaces.v ===== *)
(** * Objects behind their interfaces

    The interfaces under [api/] as records of methods, and the view of an
    object through each interface it implements, by the class of the object:
    what a program that holds a [Type], a [ThingType] or a [Thing] can call,
    and which implementation runs. An optional argument of an overload is an
    option. The theorems state that the interfaces are respected under dynamic
    dispatch: an object that is of a kind only ever gives objects of that kind
    where the interface of the kind says so. *)
From Stdlib Require Import Floats.SpecFloat.
From S2P Require Import Prelude Errors Bytes Proto RequestBuilder Streams Options Messages Concept ConceptManager TypeOps ThingOps Answers FetchTree.

#[export] Instance type_class_eq_dec : EqDecision type_class.
Proof. solve_decision. Defined.

Section interfaces.
Context {S : Type} `{!TransactionExtended S}.
Local Abbreviation tproc := (proc S exn).
Local Abbreviation tgen := (gen S exn).
Local Abbreviation types := (tproc (tgen (option TypeImpl))).
Local Abbreviation things := (tproc (tgen (option ThingImpl))).

(** ** Concepts and values *)

(** [isK], [asK] and [equals], for every kind *)
Record ConceptI : Type := mkConceptI {
  Concept_is : kind → bool;
  Concept_as : kind → outcome exn Concept;
  Concept_equals : Concept → bool;
}.

Definition as_ConceptI (c : Concept) : ConceptI :=
  mkConceptI (λ k, is_kind k c) (λ k, as_kind k c) (equals c).

Record ValueI : Type := mkValueI {
  Value_valueType : ValueType;
  Value_value : jsval;
  Value_isBoolean : bool;
  Value_isLong : bool;
  Value_isDouble : bool;
  Value_isString : bool;
  Value_isDateTime : bool;
  Value_asBoolean : outcome exn jsval;
  Value_asLong : outcome exn jsval;
  Value_asDouble : outcome exn jsval;
  Value_asString : outcome exn jsval;
  Value_asDateTime : outcome exn jsval;
}.

Definition as_ValueI (v : ValueImpl) : ValueI :=
  mkValueI (v_valueType v) (v_value v) (isBoolean v) (isLong v) (isDouble v) (isString v)
    (isDateTime v) (asBoolean v) (asLong v) (asDouble v) (asString v) (asDateTime v).

(** ** Types *)

Record TypeI : Type := mkTypeI {
  Type_label : Label;
  Type_root : bool;
  Type_abstract : bool;
  Type_delete : tproc unit;
  Type_isDeleted : tproc bool;
  Type_setLabel : string → tproc unit;
  Type_getSupertype : tproc (option TypeImpl);
  Type_getSupertypes : types;
  Type_getSubtypes : option Transitivity → types;
}.

Definition as_TypeI (t : TypeImpl) : TypeI :=
  let l := t_label t in
  match t_class t with
  | EntityTypeImpl =>
      mkTypeI l (t_root t) (t_abstract t) (thing_type_delete l) (entity_type_isDeleted l)
        (thing_type_setLabel l) (entity_type_getSupertype l) (entity_type_getSupertypes l)
        (entity_type_getSubtypes l)
  | RelationTypeImpl =>
      mkTypeI l (t_root t) (t_abstract t) (thing_type_delete l) (relation_type_isDeleted l)
        (thing_type_setLabel l) (relation_type_getSupertype l) (relation_type_getSupertypes l)
        (relation_type_getSubtypes l)
  | AttributeTypeImpl _ =>
      mkTypeI l (t_root t) (t_abstract t) (thing_type_delete l) (attribute_type_isDeleted l)
        (thing_type_setLabel l) (attribute_type_getSupertype l) (attribute_type_getSupertypes l)
        (λ tr, attribute_type_getSubtypes l (inr <$> tr) None)
  | ThingTypeRoot =>
      mkTypeI l (t_root t) (t_abstract t) (thing_type_delete l) root_isDeleted
        (thing_type_setLabel l) root_getSupertype
        (root_getSupertypes t ≫= λ g, mret (gmap_ (pure (λ x, Ret (Some x))) g))
        (λ tr, thing_type_getSubtypes 1 (Some t) tr)
  | RoleTypeImpl =>
      mkTypeI l (t_root t) (t_abstract t) (role_type_delete l) (role_type_isDeleted l)
        (role_type_setLabel l) (role_type_getSupertype l) (role_type_getSupertypes l)
        (role_type_getSubtypes l)
  end.

Record ThingTypeI : Type := mkThingTypeI {
  ThingType_type : TypeI;
  ThingType_getInstances : option Transitivity → things;
  ThingType_setAbstract : tproc unit;
  ThingType_unsetAbstract : tproc unit;
  ThingType_getOwns : option filter_arg → option filter_arg → option filter_arg → types;
  ThingType_getOwnsOverridden : TypeImpl → tproc (option TypeImpl);
  ThingType_setOwns : TypeImpl → option (TypeImpl + list Annotation) →
    option (list Annotation) → tproc unit;
  ThingType_unsetOwns : TypeImpl → tproc unit;
  ThingType_getPlays : option Transitivity → types;
  ThingType_getPlaysOverridden : TypeImpl → tproc (option TypeImpl);
  ThingType_setPlays : TypeImpl → option TypeImpl → tproc unit;
  ThingType_unsetPlays : TypeImpl → tproc unit;
  ThingType_getSyntax : tproc string;
}.

(** Of an object that [asThingType] returns. *)
Definition as_ThingTypeI (t : TypeImpl) : ThingTypeI :=
  let l := t_label t in
  mkThingTypeI (as_TypeI t) (thing_type_getInstances 1 (Some t)) (setAbstract l) (unsetAbstract l)
    (getOwns l) (getOwnsOverridden l) (setOwns l) (unsetOwns l) (getPlays l)
    (getPlaysOverridden l) (setPlays l) (unsetPlays l) (getSyntax l).

Record EntityTypeI : Type := mkEntityTypeI {
  EntityType_thingType : ThingTypeI;
  EntityType_create : tproc (option ThingImpl);
  EntityType_setSupertype : TypeImpl → tproc unit;
}.

Definition as_EntityTypeI (t : TypeImpl) : EntityTypeI :=
  mkEntityTypeI (as_ThingTypeI t) (entity_type_create (t_label t))
    (entity_type_setSupertype (t_label t)).

Record RelationTypeI : Type := mkRelationTypeI {
  RelationType_thingType : ThingTypeI;
  RelationType_create : tproc (option ThingImpl);
  RelationType_setSupertype : TypeImpl → tproc unit;
  RelationType_getRelates : option Transitivity → types;
  RelationType_getRelatesForRoleLabel : string → tproc (option TypeImpl);
  RelationType_getRelatesOverridden : string → tproc (option TypeImpl);
  RelationType_setRelates : string → option string → tproc unit;
  RelationType_unsetRelates : string → tproc unit;
}.

Definition as_RelationTypeI (t : TypeImpl) : RelationTypeI :=
  let l := t_label t in
  mkRelationTypeI (as_ThingTypeI t) (relation_type_create l)
    (relation_type_setSupertype l) (getRelates l) (getRelatesForRoleLabel l) (getRelatesOverridden l) (setRelates l) (unsetRelates l).

(** [getSubtypes] has an overload with a value type of its own. *)
Record AttributeTypeI : Type := mkAttributeTypeI {
  AttributeType_thingType : ThingTypeI;
  AttributeType_valueType : option ValueType;
  AttributeType_put : ValueImpl → tproc (option ThingImpl);
  AttributeType_putBoolean : bool → tproc (option ThingImpl);
  AttributeType_putLong : spec_float → tproc (option ThingImpl);
  AttributeType_putDouble : spec_float → tproc (option ThingImpl);
  AttributeType_putString : string → tproc (option ThingImpl);
  AttributeType_putDateTime : positive → spec_float → tproc (option ThingImpl);
  AttributeType_get : ValueImpl → tproc (option ThingImpl);
  AttributeType_getBoolean : bool → tproc (option ThingImpl);
  AttributeType_getLong : spec_float → tproc (option ThingImpl);
  AttributeType_getDouble : spec_float → tproc (option ThingImpl);
  AttributeType_getString : string → tproc (option ThingImpl);
  AttributeType_getDateTime : positive → spec_float → tproc (option ThingImpl);
  AttributeType_setSupertype : TypeImpl → tproc unit;
  AttributeType_getSubtypes : option (ValueType + Transitivity) → option Transitivity → types;
  AttributeType_getOwners : option (list Annotation + Transitivity) → option Transitivity → types;
  AttributeType_getRegex : tproc string;
  AttributeType_setRegex : string → tproc unit;
  AttributeType_unsetRegex : tproc unit;
}.

Definition as_AttributeTypeI (t : TypeImpl) : AttributeTypeI :=
  let l := t_label t in
  mkAttributeTypeI (as_ThingTypeI t)
    match t_class t with AttributeTypeImpl v => v | _ => None end
    (attribute_type_put l) (putBoolean l) (putLong l) (putDouble l) (putString l) (putDateTime l)
    (attribute_type_get l) (getBoolean l) (getLong l) (getDouble l) (getString l) (getDateTime l)
    (attribute_type_setSupertype l) (attribute_type_getSubtypes l) (attribute_type_getOwners l)
    (getRegex l) (setRegex l) (unsetRegex l).

Record RoleTypeI : Type := mkRoleTypeI {
  RoleType_type : TypeI;
  RoleType_getRelationType : tproc (option TypeImpl);
  RoleType_getRelationTypes : types;
  RoleType_getPlayerTypes : option Transitivity → types;
  RoleType_getRelationInstances : option Transitivity → things;
  RoleType_getPlayerInstances : option Transitivity → things;
}.

Definition as_RoleTypeI (t : TypeImpl) : RoleTypeI :=
  let l := t_label t in
  mkRoleTypeI (as_TypeI t) (getRelationType_of_role l) (getRelationTypes l) (getPlayerTypes l)
    (getRelationInstances l) (getPlayerInstances l).

(** ** Things *)

Record ThingI : Type := mkThingI {
  Thing_iid : string;
  Thing_type : option TypeImpl;
  Thing_inferred : bool;
  Thing_delete : tproc unit;
  Thing_isDeleted : tproc bool;
  Thing_getHas : option has_arg → option (list Annotation) → things;
  Thing_setHas : ThingImpl → tproc unit;
  Thing_unsetHas : ThingImpl → tproc unit;
  Thing_getRelations : option (list TypeImpl) → things;
  Thing_getPlaying : types;
}.

Definition as_ThingI (th : ThingImpl) : ThingI :=
  let iid := th_iid th in
  mkThingI iid (th_type th) (th_inferred th) (thing_delete iid)
    match th_class th with
    | EntityImpl => entity_isDeleted iid
    | RelationImpl => relation_isDeleted iid
    | AttributeImpl _ => attribute_isDeleted iid
    end
    (getHas iid) (setHas iid) (unsetHas iid) (getRelations iid) (getPlaying iid).

Record RelationI : Type := mkRelationI {
  Relation_thing : ThingI;
  Relation_addRolePlayer : TypeImpl → ThingImpl → tproc unit;
  Relation_removeRolePlayer : TypeImpl → ThingImpl → tproc unit;
  Relation_getPlayersByRoleType : option (list TypeImpl) → things;
  Relation_getRolePlayers : tproc role_map;
  Relation_getRelating : types;
}.

Definition as_RelationI (th : ThingImpl) : RelationI :=
  let iid := th_iid th in
  mkRelationI (as_ThingI th) (addRolePlayer iid) (removeRolePlayer iid)
    (getPlayersByRoleType iid) (getRolePlayers iid) (getRelating iid).

Record AttributeI : Type := mkAttributeI {
  Attribute_thing : ThingI;
  Attribute_valueType : outcome exn (option ValueType);
  Attribute_value : outcome exn (option jsval);
  Attribute_getOwners : option TypeImpl → things;
}.

Definition as_AttributeI (th : ThingImpl) : AttributeI :=
  mkAttributeI (as_ThingI th) (attribute_valueType th) (attribute_value th)
    (attribute_getOwners (th_iid th)).

(** ** Answers *)

Record ExplainablesI : Type := mkExplainablesI {
  Explainables_relation : string → outcome exn Explainable;
  Explainables_attribute : string → outcome exn Explainable;
  Explainables_ownership : string → string → outcome exn Explainable;
  Explainables_relations : list (string * Explainable);
  Explainables_attributes : list (string * Explainable);
  Explainables_ownerships : list ((string * string) * Explainable);
}.

Definition as_ExplainablesI (xs : Explainables) : ExplainablesI :=
  mkExplainablesI (explainables_relation xs) (explainables_attribute xs)
    (explainables_ownership xs) (x_relations xs) (x_attributes xs) (x_ownerships xs).

(** A concept is null when its message was. *)
Record ConceptMapI : Type := mkConceptMapI {
  ConceptMap_variables : list string;
  ConceptMap_concepts : list (option Concept);
  ConceptMap_map : list (string * option Concept);
  ConceptMap_get : string → option (option Concept);
  ConceptMap_explainables : ExplainablesI;
}.

Definition as_ConceptMapI (m : ConceptMap) : ConceptMapI :=
  mkConceptMapI (conceptMap_variables m) (conceptMap_concepts m) (concepts m) (conceptMap_get m)
    (as_ExplainablesI (explainables m)).

(** ** Managers *)

Record ConceptManagerI : Type := mkConceptManagerI {
  ConceptManager_getRootThingType : tproc TypeImpl;
  ConceptManager_getRootEntityType : tproc (option TypeImpl);
  ConceptManager_getRootRelationType : tproc (option TypeImpl);
  ConceptManager_getRootAttributeType : tproc (option TypeImpl);
  ConceptManager_getEntityType : string → tproc (option TypeImpl);
  ConceptManager_getRelationType : string → tproc (option TypeImpl);
  ConceptManager_getAttributeType : string → tproc (option TypeImpl);
  ConceptManager_putEntityType : string → tproc (option TypeImpl);
  ConceptManager_putRelationType : string → tproc (option TypeImpl);
  ConceptManager_putAttributeType : string → ValueType → tproc (option TypeImpl);
  ConceptManager_getEntity : string → tproc (option ThingImpl);
  ConceptManager_getRelation : string → tproc (option ThingImpl);
  ConceptManager_getAttribute : string → tproc (option ThingImpl);
  ConceptManager_getSchemaExceptions : tproc (list exn);
}.

Definition ConceptManagerImpl : ConceptManagerI :=
  mkConceptManagerI getRootThingType getRootEntityType getRootRelationType getRootAttributeType
    getEntityType getRelationType getAttributeType putEntityType putRelationType putAttributeType
    getEntity getRelation getAttribute getSchemaExceptions.

Local Abbreviation query A := (string → option TypeDBOptions → tproc A).

Record QueryManagerI : Type := mkQueryManagerI {
  QueryManager_get : query (tgen ConceptMap);
  QueryManager_getAggregate : query (option ValueImpl);
  QueryManager_getGroup : query (tgen ConceptMapGroup);
  QueryManager_getGroupAggregate : query (tgen ValueGroup);
  QueryManager_fetch : query (tgen JSON);
  QueryManager_insert : query (tgen ConceptMap);
  QueryManager_delete : query unit;
  QueryManager_update : query (tgen ConceptMap);
  QueryManager_define : query unit;
  QueryManager_undefine : query unit;
  QueryManager_explain : Explainable → option TypeDBOptions → tproc (tgen ExplanationImpl);
}.

Definition QueryManagerImpl : QueryManagerI :=
  mkQueryManagerI query_get query_getAggregate query_getGroup query_getGroupAggregate query_fetch
    query_insert query_delete query_update query_define query_undefine query_explain.

Record LogicManagerI : Type := mkLogicManagerI {
  LogicManager_getRule : string → tproc (option RuleImpl);
  LogicManager_getRules : tproc (tgen RuleImpl);
  LogicManager_putRule : string → string → string → tproc RuleImpl;
}.

Definition LogicManagerImpl : LogicManagerI := mkLogicManagerI getRule getRules putRule.

(** [setLabel] changes the label of the object, so it gives the new object. *)
Record RuleI : Type := mkRuleI {
  Rule_label : string;
  Rule_when : string;
  Rule_then : string;
  Rule_setLabel : string → tproc RuleImpl;
  Rule_delete : tproc unit;
  Rule_isDeleted : tproc bool;
}.

Definition as_RuleI (r : RuleImpl) : RuleI :=
  mkRuleI (rule_label r) (rule_when r) (rule_then r) (rule_setLabel r) (rule_delete r)
    (rule_isDeleted r).

(** ** Dynamic dispatch *)

(** The kind of the instances that a type of a kind has. *)
Definition instance_kind (k : kind) : option kind :=
  match k with
  | KThingType => Some KThing
  | KEntityType => Some KEntity
  | KRelationType => Some KRelation
  | KAttributeType => Some KAttribute
  | _ => None
  end.

(** What an object is depends on its class alone, and each class has one most
    specific kind. *)
Definition own_kind (t : TypeImpl) : kind :=
  match t_class t with
  | EntityTypeImpl => KEntityType
  | RelationTypeImpl => KRelationType
  | AttributeTypeImpl _ => KAttributeType
  | ThingTypeRoot => KThingType
  | RoleTypeImpl => KRoleType
  end.

Lemma own_kind_least (t : TypeImpl) k o :
  is_kind k (ConceptType t) = true → of_type (own_kind t) o → of_type k o.
Proof.
  intros Hk (x & -> & Hx). exists x. split; [done|].
  destruct t as [[] ? ? ?], x as [[] ? ? ?], k; done.
Qed.

Lemma own_instances_least (t : TypeImpl) k i o :
  is_kind k (ConceptType t) = true → instance_kind k = Some i →
  (if instance_kind (own_kind t) is Some j then of_thing j o else False) → of_thing i o.
Proof.
  intros Hk Hi. destruct t as [[] ? ? ?], k; try done; injection Hi as <-; try done;
    intros (x & -> & Hx); exists x; (split; [done|]); destruct x as [[] ? ? ?]; done.
Qed.

Lemma returns_weaken {A} (P Q : A → Prop) (m : tproc A) :
  (∀ a, P a → Q a) → TypeOps.returns P m → TypeOps.returns Q m.
Proof. intros HPQ H s a s' Hm. by eapply HPQ, H. Qed.

Lemma or_null_mono {A} (P Q : option A → Prop) o :
  (P o → Q o) → or_null P o → or_null Q o.
Proof. intros H [->|HP]; [by left|right; auto]. Qed.

(** The subtypes of the root thing type are thing types; a null among them
    comes from a root type that was not found. *)
Lemma root_subtypes (t : TypeImpl) tr :
  t_class t = ThingTypeRoot →
  streams (or_null (of_type KThingType)) (Type_getSubtypes (as_TypeI t) tr).
Proof.
  intros Hc s g s'. unfold as_TypeI. rewrite Hc. cbn [Type_getSubtypes thing_type_getSubtypes].
  rewrite Hc, proc_bind_eq. destruct (roots s) as [[h|e|] s1] eqn:Hr; try done.
  pose proof (roots_streams _ _ _ Hr) as Hh. destruct (is_explicit _); intros [= <- <-].
  - eapply yields_weaken; [exact leaf_thing_type|exact Hh].
  - eapply yields_flatMap; [exact Hh|]. intros a s2 h2 s3 Ha Hf.
    apply (yields_weaken (of_type KThingType)); [by right|].
    eapply (leaf_getSubtypes_streams 0 a); [done|exact Hf].
Qed.

Lemma root_instances (t : TypeImpl) tr :
  t_class t = ThingTypeRoot →
  streams (of_thing KThing) (ThingType_getInstances (as_ThingTypeI t) tr).
Proof.
  intros Hc s g s'. unfold as_ThingTypeI. cbn [ThingType_getInstances thing_type_getInstances].
  rewrite Hc. destruct (is_explicit _).
  - by intros [= <- <-] s0.
  - rewrite proc_bind_eq. destruct (roots s) as [[h|e|] s1] eqn:Hr; try done. intros [= <- <-].
    eapply yields_flatMap; [by eapply roots_streams|]. intros a s2 h2 s3 Ha Hf.
    eapply (leaf_getInstances_streams 0 a); [done|exact Hf].
Qed.

Lemma own_supertype (t : TypeImpl) :
  TypeOps.returns (or_null (of_type (own_kind t))) (Type_getSupertype (as_TypeI t)).
Proof.
  destruct t as [[] ? ? ?]; cbn -[of_type or_null].
  5: apply role_type_getSupertype_returns.
  all: try (apply tt_get_returns; first [apply ofEntityTypeProto_kind
    | apply ofRelationTypeProto_kind | apply ofAttributeTypeProto_kind]).
  intros s a s' [= <- <-]. by left.
Qed.

Lemma own_supertypes (t : TypeImpl) :
  streams (of_type (own_kind t)) (Type_getSupertypes (as_TypeI t)).
Proof.
  destruct t as [[] l r a].
  - apply entity_type_getSupertypes_streams.
  - apply relation_type_getSupertypes_streams.
  - apply attribute_type_getSupertypes_streams.
  - cbn -[of_type]. intros s g s' [= <- <-] s0. split; [by eexists|done].
  - apply role_type_getSupertypes_streams.
Qed.

Lemma own_subtypes (t : TypeImpl) tr :
  t_class t ≠ ThingTypeRoot →
  streams (of_type (own_kind t)) (Type_getSubtypes (as_TypeI t) tr).
Proof.
  destruct t as [[] l r a]; try done; intros _.
  - apply entity_type_getSubtypes_streams.
  - apply relation_type_getSubtypes_streams.
  - apply attribute_type_getSubtypes_streams.
  - apply role_type_getSubtypes_streams.
Qed.

Lemma own_instances (t : TypeImpl) tr i :
  instance_kind (own_kind t) = Some i →
  streams (of_thing i) (ThingType_getInstances (as_ThingTypeI t) tr).
Proof.
  destruct t as [[] l r a] eqn:Ht; intros [= <-].
  - apply entity_type_getInstances_streams.
  - apply relation_type_getInstances_streams.
  - apply attribute_type_getInstances_streams.
  - by apply root_instances.
Qed.

(** C28 - dynamic dispatch keeps to the interfaces: whatever the server answers,
    an object that says it is of a kind gives, through the interface of types,
    only supertypes and subtypes of that kind, and through the interface of
    thing types only instances of the kind that belongs to it. A null can come
    only in place of a supertype, or of a subtype of the root thing type. *)
Theorem dispatch_keeps_kinds (t : TypeImpl) (k : kind) (tr : option Transitivity)
    (Hk : Concept_is (as_ConceptI (ConceptType t)) k = true) :
  TypeOps.returns (or_null (of_type k)) (Type_getSupertype (as_TypeI t)) ∧
  streams (of_type k) (Type_getSupertypes (as_TypeI t)) ∧
  (if decide (t_class t = ThingTypeRoot)
   then streams (or_null (of_type k)) (Type_getSubtypes (as_TypeI t) tr)
   else streams (of_type k) (Type_getSubtypes (as_TypeI t) tr)) ∧
  (∀ i, instance_kind k = Some i →
   streams (of_thing i) (ThingType_getInstances (as_ThingTypeI t) tr)).
Proof.
  pose proof (own_kind_least t k) as Hle. split; [|split; [|split]].
  - eapply returns_weaken, own_supertype. intros a. apply or_null_mono. auto.
  - eapply streams_weaken, own_supertypes. auto.
  - case_decide as Hc.
    + eapply streams_weaken, root_subtypes, Hc. intros a. apply or_null_mono.
      unfold own_kind in Hle. rewrite Hc in Hle. auto.
    + eapply streams_weaken, own_subtypes, Hc. auto.
  - intros i Hi. destruct (instance_kind (own_kind t)) as [j|] eqn:Hj.
    + eapply streams_weaken, own_instances, Hj. intros a Ha.
      eapply own_instances_least; [exact Hk|exact Hi|by rewrite Hj].
    + destruct t as [[] ? ? ?], k; done.
Qed.

End interfaces.

(** An entity type, asked as a thing type. *)
Lemma dispatch_keeps_kinds_witness :
  let t := mkType EntityTypeImpl (label_of "person") false false in
  Concept_is (as_ConceptI (ConceptType t)) KThingType = true ∧
  @streams nat _ (of_thing KThing)
    (@ThingType_getInstances nat (@as_ThingTypeI nat (fixed_parts []) t) None).
Proof.
  cbv zeta. split; [reflexivity|].
  apply (@dispatch_keeps_kinds nat (fixed_parts []) (mkType EntityTypeImpl (label_of "person") false false)
    KThingType None); reflexivity.
Defined.
