(* ===== verification/EntryPoints.v ===== *)
(** * Entry points

    Models [TypeDB.ts], the two functions that connect to a server, and the
    constants that name kinds of sessions and transactions, in
    [api/connection/TypeDBSession.ts] and [api/connection/TypeDBTransaction.ts].
    The main theorem follows a program from [TypeDB.coreDriver] over
    [driver.session] to [session.transaction]. *)
From S2P Require Import Prelude Errors Bytes Proto RequestBuilder BlockingQueue Dispatcher Collector BiStream BiStreamSpec Options Transaction Stub Database Managers DriverImpl Session.
Local Open Scope string_scope.
Local Open Scope list_scope.

(** ** Kinds of sessions and transactions *)

(** An object of the class that the namespace keeps to itself; [==] compares
    objects by identity. *)
Record SessionTypeImpl : Type := mkSessionType {
  st_ref : positive;
  st_type : SessionTypeProto;
}.

Record TransactionTypeImpl : Type := mkTransactionType {
  tt_ref : positive;
  tt_type : TransactionTypeProto;
}.

Definition SessionType_DATA : SessionTypeImpl := mkSessionType 1 DATA.
Definition SessionType_SCHEMA : SessionTypeImpl := mkSessionType 2 SCHEMA.
Definition TransactionType_READ : TransactionTypeImpl := mkTransactionType 3 READ.
Definition TransactionType_WRITE : TransactionTypeImpl := mkTransactionType 4 WRITE.

Definition SessionType_proto (this : SessionTypeImpl) : SessionTypeProto := st_type this.
Definition isData (this : SessionTypeImpl) : bool :=
  bool_decide (st_ref this = st_ref SessionType_DATA).
Definition isSchema (this : SessionTypeImpl) : bool :=
  bool_decide (st_ref this = st_ref SessionType_SCHEMA).

Definition TransactionType_proto (this : TransactionTypeImpl) : TransactionTypeProto :=
  tt_type this.
Definition isRead (this : TransactionTypeImpl) : bool :=
  bool_decide (tt_ref this = tt_ref TransactionType_READ).
Definition isWrite (this : TransactionTypeImpl) : bool :=
  bool_decide (tt_ref this = tt_ref TransactionType_WRITE).

(** ** [TypeDB] *)

Definition DEFAULT_ADDRESS : string := "127.0.0.1:1729".

Section entry.
Context {W C : Type} {G : GRPCStub W}.
Context (readFileSync : string → outcome exn unit).

(** [open()] of a new driver, in the world it is called in; [cl] is the initial
    state of the objects that will work on the driver. *)
Definition open_new (c : DriverConfig) (cl : C) : proc (World W) exn (Driver W C) := λ w,
  let '(o, d) := driver_open readFileSync c (new_driver c w cl) in
  (outcome_map (λ _, d) o, d_world d).

(** [new TypeDBDriverImpl(addresses, credential).open()] *)
Definition connect (addresses : Addresses) (credential : option TypeDBCredential) (cl : C)
    : proc (World W) exn (Driver W C) :=
  lift_outcome (new_config addresses credential) ≫= λ c, open_new c cl.

Definition coreDriver (address : option string) (cl : C) : proc (World W) exn (Driver W C) :=
  connect (AddressString (default DEFAULT_ADDRESS address)) None cl.

Definition cloudDriver (addresses : Addresses) (credential : TypeDBCredential) (cl : C)
    : proc (World W) exn (Driver W C) :=
  let addresses := match addresses with AddressString s => AddressArray [s] | a => a end in
  connect addresses (Some credential) cl.

(** ** Calls that are answered *)

(** The server at [address] answers the request, sent without credentials. *)
Definition answered {A} (f : rpc W A) (address : string) (req : pval) (a : A) : Prop :=
  ∀ n, ∃ n', f address [] req n = (Ret a, n').

(** From [w] to [w'] the stub [r] made the calls [ms], without credentials, and
    no stub changed. *)
Definition called (r : nat) (ms : list string) (w w' : World W) : Prop :=
  stub_heap w' = stub_heap w ∧ rpc_log w' = rpc_log w ++ ((λ m, mkCall r m []) <$> ms).

Lemma called_nil r w : called r [] w w.
Proof. split; [done|]. by rewrite app_nil_r. Qed.

Lemma called_trans r ms ms' w1 w2 w3 :
  called r ms w1 w2 → called r ms' w2 w3 → called r (ms ++ ms') w1 w3.
Proof.
  intros [H1 L1] [H2 L2]. split; [by rewrite H2|]. by rewrite L2, L1, fmap_app, app_assoc.
Qed.

Lemma unary_answered {A} r s method (f : rpc W A) req reject a w :
  stub_heap w !! r = Some s → stub_credential s = None →
  answered f (stub_address s) req a →
  ∃ w', unary r method f req reject w = (Ret a, w') ∧ called r [method] w w'.
Proof.
  intros Hs Hc Hf. unfold unary, call_credentials. rewrite Hs, Hc.
  destruct (Hf (net w)) as [n' ->]. eexists. by split.
Qed.

Lemma renewing_answered {A} r s method (f : rpc W A) req a w :
  stub_heap w !! r = Some s → stub_credential s = None →
  answered f (stub_address s) req a →
  ∃ w', renewing r method f req w = (Ret a, w') ∧ called r [method] w w'.
Proof.
  intros Hs Hc Hf. destruct (unary_answered r s method f req wrapped a w Hs Hc Hf) as (w' & H & Hw).
  exists w'. split; [|done]. unfold renewing, mayRenewToken, try_catch. by rewrite H.
Qed.

(** ** Connecting to a core server *)

(** A core server: it can be connected to and names itself first. *)
Record core_server (address advertised : string) : Prop := mkCoreServer {
  cs_open : answered connection_open address Connection_openReq tt;
  cs_servers : ∃ others, answered servers_all address ServerManager_allReq (advertised :: others);
}.

(** The driver that such a connection gives. *)
Definition core_driver (address advertised : string) (r : nat) (w : World W) (cl : C)
    : Driver W C :=
  mkDriver w true false [(advertised, mkServerDriver address r)] ∅ ∅ [] 0 cl.

Lemma coreDriver_connects address advertised cl w :
  has_port address = true → core_server address advertised →
  ∃ w', coreDriver (Some address) cl w =
      (Ret (core_driver address advertised (length (stub_heap w)) w' cl), w') ∧
    called (length (stub_heap w)) ["connection_open"; "servers_all"]
      (mkWorld (net w) (stub_heap w ++ [mkStub address None None false]) (rpc_log w)) w'.
Proof.
  intros Hport [Ho [others Hs]]. unfold coreDriver, connect. rewrite proc_bind_eq.
  unfold lift_outcome, new_config. cbn. rewrite Hport. cbn. unfold open_new, driver_open.
  rewrite proc_bind_eq. cbn -[openCore]. unfold openCore. cbn -[call].
  set (r := length (stub_heap w)).
  set (w0 := mkWorld (net w) (stub_heap w ++ [mkStub address None None false]) (rpc_log w)).
  rewrite proc_bind_eq. unfold call at 1. cbn -[call]. fold r w0.
  assert (stub_heap w0 !! r = Some (mkStub address None None false)) as Hr by apply list_lookup_middle, eq_refl.
  destruct (renewing_answered r _ "connection_open" connection_open Connection_openReq tt w0 Hr
    eq_refl Ho) as (w1 & E1 & H1 & L1).
  assert (stub_open r w0 = (Ret tt, w1)) as Eo.
  { unfold stub_open, try_catch. rewrite (proc_bind_run _ _ _ _ _ E1). rewrite proc_bind_eq.
    cbn. by rewrite H1, Hr. }
  rewrite proc_bind_eq. unfold call at 1. cbn -[call stub_open]. rewrite Eo.
  rewrite <- H1 in Hr.
  destruct (renewing_answered r _ "servers_all" servers_all ServerManager_allReq _ w1 Hr
    eq_refl Hs) as (w2 & E2 & H2 & L2).
  rewrite proc_bind_eq. unfold call at 1. cbn -[call serversAll]. unfold serversAll. rewrite E2.
  exists w2. split; [done|]. apply (called_trans r ["connection_open"] ["servers_all"] w0 w1);
    by split.
Qed.
End entry.

(** ** From the address to a transaction *)

Section program.
Context {W X : Type} {G : GRPCStub W} {T : TransactionOps X}.
Context (readFileSync : string → outcome exn unit).
Context (clock : nat → Z).
Local Abbreviation State := (Driver W (Clients X)).
Local Abbreviation sproc := (proc State exn).

(** [driver.session(databaseName, type, options)]: the session object is made,
    opened and filed as [ref]; [driver_session] checks once more that the
    driver is open. *)
Definition session_of_driver (databaseName : string) (type_ : SessionTypeImpl)
    (options : option TypeDBOptions) (ref : nat) : sproc unit :=
  require_open ≫= λ _,
  modify_session (λ _, new_session databaseName (SessionType_proto type_)
    (default no_options options)) ≫= λ _,
  driver_session clock ref.

(** The server at [address] grants streams, asked without credentials. *)
Definition grants_streams (address : string) : Prop :=
  ∀ n, ∃ n', grpc_transaction address [] n = (Ret tt, n').

(** What the server must answer for a session of a database and the stream of a
    transaction to be opened. *)
Record serves (address advertised name : string) (type_ : SessionTypeImpl)
    (options : option TypeDBOptions) (res : SessionOpenRes) : Prop := mkServes {
  sv_server : core_server address advertised;
  sv_contains : answered databases_contains address (DatabaseManager_containsReq name) true;
  sv_get : ∃ db rep reps, rp_address rep = advertised ∧
    answered databases_get address (DatabaseManager_getReq name)
      (Some (mkDatabaseProto db (rep :: reps)));
  sv_session : answered session_open address
    (Session_openReq name (SessionType_proto type_) (options_proto (default no_options options)))
    res;
  sv_streams : grants_streams address;
}.

Lemma try_catch_ret {S E A} (m : proc S E A) (h : E → proc S E A) s a s' :
  m s = (Ret a, s') → try_catch m h s = (Ret a, s').
Proof. intros H. exact (try_catch_run _ _ _ _ _ H). Qed.

Lemma call_run {A} (m : proc (World W) exn A) (d : State) a w' :
  m (d_world d) = (Ret a, w') → call m d = (Ret a, set_world w' d).
Proof. intros H. unfold call. by rewrite H. Qed.

Section core.
Context (address advertised name : string) (r : nat) (w : World W) (cl : Clients X).
Context (Hstub : stub_heap w !! r = Some (mkStub address None None false)).
Local Abbreviation d := (core_driver address advertised r w cl).

(** The database manager finds the database, over the one server there is. *)
Lemma core_manager_get db rep reps :
  name ∉ Object_prototype → rp_address rep = advertised →
  answered databases_contains address (DatabaseManager_containsReq name) true →
  answered databases_get address (DatabaseManager_getReq name)
    (Some (mkDatabaseProto db (rep :: reps))) →
  ∃ w' reps', manager_get name d =
      (Ret (CachedDatabase 0),
       mkDriver w' true false [(advertised, mkServerDriver address r)] {[ name := 0 ]} ∅
         [mkDatabase name (replica_of rep (mkServerDatabase name
            (Some (mkServerDriver address r))) :: reps')] 0 cl) ∧
    called r ["databases_contains"; "databases_get"] w w'.
Proof.
  intros Hname Hrep Hc Hg.
  destruct (renewing_answered r _ "databases_contains" databases_contains
    (DatabaseManager_containsReq name) true w Hstub eq_refl Hc) as (w1 & E1 & H1).
  assert (manager_contains name d = (Ret true, set_world w1 d)) as Em.
  { apply try_catch_ret. exact (call_run (databasesContains r _) d true w1 E1). }
  unfold manager_get. rewrite (proc_bind_run _ _ _ _ _ Em). cbn [negb]. rewrite proc_bind_eq.
  cbn [gets d_database_cache set_world core_driver].
  rewrite lookup_empty, bool_decide_eq_false_2 by done. rewrite proc_bind_eq.
  destruct H1 as [H1 L1]. rewrite <- H1 in Hstub.
  destruct (renewing_answered r _ "databases_get" databases_get (DatabaseManager_getReq name) _ w1
    Hstub eq_refl Hg) as (w2 & E2 & H2).
  assert (fetchReplicas name (set_world w1 d) =
    (Ret (replicas_of name (rep :: reps) d), set_world w2 d)) as Ef.
  { apply try_catch_ret. unfold fetch_from. 
    rewrite (proc_bind_run _ _ _ _ _
      (call_run (databasesGet r _) (set_world w1 d) _ w2 E2)). reflexivity. }
  unfold database_get. rewrite (proc_bind_run _ _ _ _ _ Ef). cbn.
  rewrite Hrep, bool_decide_eq_true_2 by done. cbn.
  eexists w2, _. split; [reflexivity|].
  apply (called_trans r ["databases_contains"] ["databases_get"] w w1); [by split|done].
Qed.
End core.

(** The state after a session was opened with the answer [res]. *)
Definition session_opened (sd : ServerDriver) (res : SessionOpenRes) (c : Clients X) : Clients X :=
  let s := session c in
  mkClients
    (mkSession (s_databaseName s) (s_type s) (s_options s)
      ("0x" ++ buffer_to_hex (session_id res))%string (s_database s) true (Some sd)
      (Some (timers_set c))
      (network_latency (clock (readings c)) (clock (S (readings c))) res)
      (s_transactions s) (s_onClose s) (s_onReopen s) (s_called s))
    (transactions c) (S (S (readings c))) (pending_timers c ++ [timers_set c]) (S (timers_set c)).

Lemma openAt_run (sd : ServerDriver) stub res (d : State) :
  let s := session (clients d) in
  stub_heap (d_world d) !! sd_stub sd = Some stub → stub_credential stub = None →
  answered session_open (stub_address stub)
    (Session_openReq (s_databaseName s) (s_type s) (options_proto (s_options s))) res →
  ∃ w', openAt clock (Some sd) d = (Ret tt, set_clients (session_opened sd res (clients d)) (set_world w' d)) ∧
    called (sd_stub sd) ["session_open"] (d_world d) w'.
Proof.
  cbv zeta. intros Hs Hc Ha.
  destruct (unary_answered _ _ "session_open" _ _ wrapped _ (d_world d) Hs Hc Ha) as (w' & E & H).
  exists w'. split; [|done]. unfold openAt. rewrite proc_bind_eq. cbn [get_session gets].
  rewrite proc_bind_eq. cbn [getMilliseconds]. rewrite proc_bind_eq. cbn [stub_of mret proc_mret].
  rewrite (proc_bind_run _ _ _ _ _ (call_run (sessionOpen (sd_stub sd) _)
    (set_clients _ d) res w' E)). reflexivity.
Qed.

Definition with_session (f : Session → Session) (c : Clients X) : Clients X :=
  mkClients (f (session c)) (transactions c) (readings c) (pending_timers c) (timers_set c).

Lemma core_session_open address advertised name r res w (cl : Clients X) db rep reps :
  stub_heap w !! r = Some (mkStub address None None false) →
  s_databaseName (session cl) = name → name ∉ Object_prototype → rp_address rep = advertised →
  answered databases_contains address (DatabaseManager_containsReq name) true →
  answered databases_get address (DatabaseManager_getReq name)
    (Some (mkDatabaseProto db (rep :: reps))) →
  answered session_open address
    (Session_openReq name (s_type (session cl)) (options_proto (s_options (session cl)))) res →
  ∃ w' d', session_open_op clock (core_driver address advertised r w cl) =
      (Ret tt, set_clients (session_opened (mkServerDriver address r) res
                              (with_session (set_database 0) cl)) (set_world w' d')) ∧
    called r ["databases_contains"; "databases_get"; "session_open"] w w' ∧ d_sessions d' = ∅.
Proof.
  intros Hr Hn Hname Hrep Hc Hg Hses.
  destruct (core_manager_get address advertised name r w cl Hr db rep reps Hname Hrep Hc Hg)
    as (w1 & reps' & E1 & H1).
  unfold session_open_op. rewrite proc_bind_eq. cbn [get_session gets core_driver clients].
  rewrite (proc_bind_run require_open _ (core_driver address advertised r w cl) _ _ eq_refl), Hn. rewrite (proc_bind_run _ _ _ _ _ E1). rewrite proc_bind_eq.
  cbn [modify_session modify].
  match goal with |- context [runFailsafe 0 _ ?y] => set (d := y) end.
  assert (stub_heap (d_world d) !! r = Some (mkStub address None None false)) as Hr1
    by (destruct H1 as [H1 _]; cbn; by rewrite H1).
  destruct (openAt_run (mkServerDriver address r) _ res d Hr1 eq_refl) as (w2 & E2 & H2).
  { cbn. by rewrite Hn. }
  exists w2, d. split_and!.
  - apply try_catch_ret. unfold runOnAnyReplica.
    rewrite (proc_bind_run _ _ _ (Ret _) d) by reflexivity. apply try_catch_ret.
    unfold run_task. rewrite proc_bind_eq. cbn [gets d d_serverDrivers].
    cbn. rewrite Hrep, bool_decide_eq_true_2 by done. exact E2.
  - exact (called_trans r ["databases_contains"; "databases_get"] ["session_open"] w w1 w2 H1 H2).
  - done.
Qed.

(** The stub was asked for a stream, and left the client in [n]. *)
Definition stream_called (r : nat) (stub : TypeDBStubImpl) (n : W) (w : World W) : World W :=
  mkWorld n (stub_heap w) (rpc_log w ++ [mkCall r "transaction" (call_credentials stub)]).

(** A transaction is opened over a stream that its stub is asked for. *)
Lemma open_transaction_run (d : State) sd stub ty options tx x' n' :
  let c := clients d in
  s_serverDriver (session c) = Some sd → stub_heap (d_world d) !! sd_stub sd = Some stub →
  grpc_transaction (stub_address stub) (call_credentials stub) (net (d_world d)) = (Ret tt, n') →
  txop_open (sd_stub sd) (Ret tt) (s_id (session c)) ty options (s_latency (session c))
    (transactions c) = (Ret tx, x') →
  open_transaction ty options d = (Ret tx,
    set_clients (mkClients (session c) x' (readings c) (pending_timers c) (timers_set c))
      (set_world (stream_called (sd_stub sd) stub n' (d_world d)) d)).
Proof.
  cbv zeta. intros Hsd Hst Hgrpc Htx. unfold open_transaction. rewrite proc_bind_eq.
  cbn [get_session gets]. rewrite Hsd. rewrite proc_bind_eq. cbn [stub_of mret proc_mret].
  rewrite proc_bind_eq. unfold settled, call, stub_transaction. rewrite Hst, Hgrpc.
  unfold on_transactions. cbn [set_world clients]. by rewrite Htx.
Qed.

(** A session that is open opens a transaction over its connection. *)
Lemma transaction_opens (d : State) sd stub ty txo tx x' n' :
  let c := clients d in let s := session c in
  s_isOpen s = true → s_serverDriver s = Some sd → s_transactions s = [] →
  stub_heap (d_world d) !! sd_stub sd = Some stub →
  grpc_transaction (stub_address stub) (call_credentials stub) (net (d_world d)) = (Ret tt, n') →
  txop_open (sd_stub sd) (Ret tt) (s_id s) ty (default no_options txo) (s_latency s)
    (transactions c) = (Ret tx, x') →
  transaction clock ty txo d =
    (Ret tx, set_clients (mkClients (set_transactions [tx] s) x' (readings c) (pending_timers c)
       (timers_set c)) (set_world (stream_called (sd_stub sd) stub n' (d_world d)) d)).
Proof.
  cbv zeta. intros Ho Hsd Hl Hst Hgrpc Htx. unfold transaction. rewrite proc_bind_eq.
  cbn [get_session gets]. rewrite Ho. cbn [negb].
  pose proof (open_transaction_run d sd stub ty _ tx x' n' Hsd Hst Hgrpc Htx) as E.
  rewrite (proc_bind_run _ _ _ _ _ (try_catch_ret _ _ _ _ _ E)). rewrite proc_bind_eq. cbn. by rewrite Hl.
Qed.

(** The driver and the open session, with the calls made on the way. *)
Lemma core_session (address advertised name : string) (type_ : SessionTypeImpl)
    (options : option TypeDBOptions) (res : SessionOpenRes) (ref : nat) (w : World W)
    (cl : Clients X) :
  has_port address = true → name ∉ Object_prototype →
  serves address advertised name type_ options res →
  let r := length (stub_heap w) in
  ∃ d1 w1 d2, coreDriver readFileSync (Some address) cl w = (Ret d1, w1) ∧
    session_of_driver name type_ options ref d1 = (Ret tt, d2) ∧
    rpc_log (d_world d2) = rpc_log w ++ ((λ m, mkCall r m []) <$>
      ["connection_open"; "servers_all"; "databases_contains"; "databases_get"; "session_open"]) ∧
    stub_heap (d_world d2) !! r = Some (mkStub address None None false) ∧
    d_sessions d2 = {[ ("0x" ++ buffer_to_hex (session_id res))%string := ref ]} ∧
    clients d2 = session_opened (mkServerDriver address r) res
      (with_session (set_database 0) (with_session (λ _, new_session name
         (SessionType_proto type_) (default no_options options)) cl)).
Proof.
  intros Hport Hname Hserves. cbv zeta. destruct Hserves as [Hsv Hc (db & rep & reps & Hrep & Hg) Hses _].
  destruct (coreDriver_connects readFileSync address advertised cl w Hport Hsv) as (w1 & E1 & H1 & L1).
  set (r := length (stub_heap w)) in *.
  assert (stub_heap w1 !! r = Some (mkStub address None None false)) as Hr
    by (rewrite H1; apply list_lookup_middle, eq_refl).
  pose (cl1 := with_session (λ _, new_session name (SessionType_proto type_)
    (default no_options options)) cl).
  destruct (core_session_open address advertised name r res w1 cl1 db rep reps Hr eq_refl Hname
    Hrep Hc Hg Hses) as (w2 & d2 & E2 & H2 & Hd2).
  exists (core_driver address advertised r w1 cl), w1. eexists. split; [exact E1|]. split.
  { transitivity (driver_session clock ref (core_driver address advertised r w1 cl1));
      [reflexivity|]. unfold driver_session.
    rewrite (proc_bind_run require_open _ (core_driver address advertised r w1 cl1) _ _ eq_refl).
    rewrite (proc_bind_run _ _ _ _ _ E2). rewrite proc_bind_eq. cbn [get_session gets].
    rewrite proc_bind_eq. cbn [gets set_clients set_world d_sessions]. rewrite Hd2, lookup_empty.
    reflexivity. }
  destruct H2 as [S2 L2]. split_and!; [|cbn; by rewrite S2|cbn; by rewrite Hd2|done].
  cbn. rewrite L2, L1. by rewrite <- app_assoc.
Qed.

End program.

(** ** A concrete run *)

(** A server that grants everything. *)
Definition always {A} (a : A) : rpc unit A := λ _ _ _ n, (Ret a, n).

Definition demo_session_res : SessionOpenRes := mkSessionOpenRes [Byte.x0a; Byte.xff] 2.

#[local] Instance core_demo : GRPCStub unit := {|
  connection_open := always tt; servers_all := always ["localhost:1729"];
  databases_create := always tt; databases_contains := always true;
  databases_get := always (Some (mkDatabaseProto "db"
    [mkReplicaProto "localhost:1729" 0 true true]));
  databases_all := always []; database_delete := always tt; database_schema := always "";
  database_type_schema := always ""; database_rule_schema := always "";
  session_open := always demo_session_res; session_close := always tt;
  session_pulse := always true; users_all := always []; users_contains := always false;
  users_create := always tt; users_delete := always tt; users_password_set := always tt;
  users_get := always None; user_password_update := always tt; user_token := always "";
  grpc_transaction := λ _ _ n, (Ret tt, n);
|}.

#[local] Existing Instance number_uuid.
(** The open request of a transaction is answered. *)
#[local] Instance answered_transactions : TransactionOps (list (TypeDBTransactionImpl nat nat)) :=
  heap_transactions demo_show
    [SData (ServerRes (mkRes (String.list_byte_of_string "0") 7))].

Definition no_clients : Clients (list (TypeDBTransactionImpl nat nat)) :=
  mkClients (new_session "" DATA no_options) [] 0 [] 0.

