(* ===== verification/Reconnect.v ===== *)
(** * Reconnecting

    A session whose server is lost is closed and opened again on a replica that
    can be reached, within [session.transaction] of
    [connection/TypeDBSessionImpl.ts]. The theorem follows the whole method:
    the attempt that fails, the replicas that cannot be reached, one after the
    other, the one that can, the callbacks, and the new transaction. *)
From S2P Require Import Prelude Errors Bytes Proto RequestBuilder BlockingQueue Dispatcher Collector BiStream BiStreamSpec Options Transaction Stub Database Managers DriverImpl Session EntryPoints.
Local Open Scope string_scope.
Local Open Scope list_scope.

Section reconnect.
Context {W X : Type} {G : GRPCStub W} {T : TransactionOps X}.
Context (clock : nat → Z).
Local Abbreviation State := (Driver W (Clients X)).
Implicit Types d : State.

(** The server driver of a replica and its stub. *)
Definition connected (d : State) (rep : Replica) (sd : ServerDriver) (st : TypeDBStubImpl) : Prop :=
  map_get (d_serverDrivers d) (server rep) = Some sd ∧
  stub_heap (d_world d) !! sd_stub sd = Some st.

(** Sessions cannot be opened on a server: calls fail as those of a server that
    is down do. *)
Definition down_for_sessions (st : TypeDBStubImpl) : Prop := ∀ req n, ∃ err n',
  session_open (stub_address st) (call_credentials st) req n = (Throw err, n') ∧
  has_template UNABLE_TO_CONNECT (wrapped err) = true.

(** They can, with this answer. *)
Definition opens_sessions (st : TypeDBStubImpl) (req : pval) (res : SessionOpenRes) : Prop :=
  ∀ n, ∃ n', session_open (stub_address st) (call_credentials st) req n = (Ret res, n').

(** The driver after calls of [session_open] on stubs, and readings of the
    clock. *)
Definition tried (calls : list rpc_call) (n : nat) (d d' : State) : Prop :=
  ∃ w, d' = set_clients (mkClients (session (clients d)) (transactions (clients d))
              (n + readings (clients d)) (pending_timers (clients d)) (timers_set (clients d)))
              (set_world w d) ∧
    stub_heap w = stub_heap (d_world d) ∧ rpc_log w = rpc_log (d_world d) ++ calls.

Definition session_call (sd : ServerDriver) (st : TypeDBStubImpl) : rpc_call :=
  mkCall (sd_stub sd) "session_open" (call_credentials st).

Lemma tried_trans calls n calls' n' d d' d'' :
  tried calls n d d' → tried calls' n' d' d'' → tried (calls ++ calls') (n' + n) d d''.
Proof.
  intros (w & -> & H1 & L1) (w' & -> & H2 & L2). exists w'. cbn in *. split_and!.
  - unfold set_clients, set_world. cbn. by rewrite Nat.add_assoc.
  - by rewrite H2.
  - by rewrite L2, L1, app_assoc.
Qed.

Lemma tried_connected calls n d d' rep sd st :
  tried calls n d d' → connected d rep sd st → connected d' rep sd st.
Proof. intros (w & -> & H & _) [H1 H2]. split; [done|]. cbn. by rewrite H. Qed.

Definition open_request (s : Session) : pval :=
  Session_openReq (s_databaseName s) (s_type s) (options_proto (s_options s)).

(** An attempt on a server that is down reads the clock once and changes
    nothing else. *)
Lemma openAt_down sd st (d : State) :
  stub_heap (d_world d) !! sd_stub sd = Some st → down_for_sessions st →
  ∃ e d', openAt clock (Some sd) d = (Throw e, d') ∧ has_template UNABLE_TO_CONNECT e = true ∧
    tried [session_call sd st] 1 d d'.
Proof.
  intros Hst Hdown. unfold openAt. rewrite proc_bind_eq. cbn [get_session gets].
  rewrite proc_bind_eq. cbn [getMilliseconds]. rewrite proc_bind_eq. cbn [stub_of mret proc_mret].
  rewrite proc_bind_eq. unfold call, sessionOpen, unary. cbn [d_world set_clients]. rewrite Hst.
  fold (open_request (session (clients d))).
  destruct (Hdown (open_request (session (clients d))) (net (d_world d))) as (err & n' & E & He).
  rewrite E. eexists _, _. split; [reflexivity|]. split; [exact He|]. by eexists.
Qed.

(** ... and one on a server that answers opens the session there. *)
Lemma openAt_up sd st res (d : State) :
  stub_heap (d_world d) !! sd_stub sd = Some st →
  opens_sessions st (open_request (session (clients d))) res →
  ∃ w, openAt clock (Some sd) d =
      (Ret tt, set_clients (session_opened clock sd res (clients d)) (set_world w d)) ∧
    stub_heap w = stub_heap (d_world d) ∧
    rpc_log w = rpc_log (d_world d) ++ [session_call sd st].
Proof.
  intros Hst Hup. unfold openAt. rewrite proc_bind_eq. cbn [get_session gets].
  rewrite proc_bind_eq. cbn [getMilliseconds]. rewrite proc_bind_eq. cbn [stub_of mret proc_mret].
  rewrite proc_bind_eq. unfold call, sessionOpen, unary. cbn [d_world set_clients]. rewrite Hst.
  fold (open_request (session (clients d))). destruct (Hup (net (d_world d))) as [n' E]. rewrite E.
  eexists. split; [reflexivity|done].
Qed.

(** The task that reconnects. *)
Definition reconnect (ty : TransactionTypeProto) (options : TypeDBOptions) : task W (Clients X) nat :=
  λ sd _, reopenAt clock sd ≫= λ _, open_transaction ty options.

(** Replicas that are down are passed over, in order. *)
Lemma any_loop_down ty options (bad : list (Replica * (ServerDriver * TypeDBStubImpl))) reps d :
  Forall (λ p, connected d p.1 p.2.1 p.2.2 ∧ down_for_sessions p.2.2) bad →
  ∃ d', any_loop (reconnect ty options) (bad.*1 ++ reps) d = any_loop (reconnect ty options) reps d' ∧
    tried ((λ p, session_call p.2.1 p.2.2) <$> bad) (length bad) d d'.
Proof.
  revert d. induction bad as [|[rep [sd st]] bad IH]; intros d Hbad.
  - exists d. split; [done|]. exists (d_world d). split_and!; [by destruct d as [???????? []]|done|].
    by rewrite app_nil_r.
  - apply Forall_cons in Hbad as [[[Hsd Hst] Hdown] Hbad]. cbn [fst snd] in *.
    destruct (openAt_down sd st d Hst Hdown) as (e & d1 & E & He & Ht).
    destruct (IH d1) as (d' & E' & Ht').
    { eapply Forall_impl; [exact Hbad|]. intros p [Hp ?]. split; [by eapply tried_connected|done]. }
    exists d'. split; [|].
    + rewrite <- E'. cbn [fmap list_fmap app any_loop fst].
      assert (run_task (reconnect ty options) rep d = (Throw e, d1)) as Er.
      { unfold run_task. rewrite proc_bind_eq. cbn [gets]. rewrite Hsd. unfold reconnect, reopenAt.
        rewrite proc_bind_eq. by rewrite (proc_bind_run _ _ _ _ _ E). }
      rewrite (try_catch_run _ _ _ _ _ Er), He. done.
    + change (length ((rep, (sd, st)) :: bad)) with (1 + length bad).
      rewrite (Nat.add_comm 1). exact (tried_trans [_] 1 _ _ _ _ _ Ht Ht').
Qed.

Definition stream_call (sd : ServerDriver) (st : TypeDBStubImpl) : rpc_call :=
  mkCall (sd_stub sd) "transaction" (call_credentials st).

(** The server of the stub grants streams. *)
Definition opens_streams (st : TypeDBStubImpl) : Prop :=
  ∀ n, ∃ n', grpc_transaction (stub_address st) (call_credentials st) n = (Ret tt, n').

(** The session reopens on a replica that answers, its callbacks are called, and
    the transaction is opened there. *)
Lemma reconnect_up ty options rep sd st res tx x' (d : State) :
  let c := session_opened clock sd res (clients d) in
  connected d rep sd st → opens_sessions st (open_request (session (clients d))) res →
  opens_streams st →
  Forall (λ cb, callback_outcome cb = Ret tt) (s_onReopen (session (clients d))) →
  txop_open (sd_stub sd) (Ret tt) (s_id (session c)) ty options (s_latency (session c))
    (transactions (clients d)) = (Ret tx, x') →
  ∃ w, run_task (reconnect ty options) rep d =
      (Ret tx, set_clients (mkClients (called_all (s_onReopen (session (clients d))) (session c)) x'
                 (readings c) (pending_timers c) (timers_set c)) (set_world w d)) ∧
    rpc_log w = rpc_log (d_world d) ++ [session_call sd st; stream_call sd st].
Proof.
  cbv zeta. intros [Hsd Hst] Hup Hstreams Hcb Htx.
  destruct (openAt_up sd st res d Hst Hup) as (w & E & Hheap & Hlog).
  destruct (Hstreams (net w)) as [n' Hn].
  exists (stream_called (sd_stub sd) st n' w). split; [|cbn; by rewrite Hlog, <- app_assoc].
  unfold run_task. rewrite proc_bind_eq. cbn [gets]. rewrite Hsd. unfold reconnect, reopenAt.
  rewrite proc_bind_eq, (proc_bind_run _ _ _ _ _ E). rewrite proc_bind_eq. cbn [get_session gets].
  rewrite run_callbacks_run by exact Hcb.
  match goal with |- context [open_transaction ty options ?y] => set (d1 := y) end.
  rewrite (open_transaction_run d1 sd st ty options tx x' n'); [done|done| |exact Hn|exact Htx].
  cbn. by rewrite Hheap.
Qed.

(** C15 - reconnecting: when a transaction cannot be opened on the server of an
    open session, the session is closed and then opened again on the first
    replica of its database that can be reached, after one attempt on each of
    those before it; its callbacks for reopening are each called once, in order,
    the transaction is opened on that server with the new id of the session,
    over a stream that the server is asked for after the session, joins the
    transactions of the session and is returned, and the pulse is scheduled
    again. This is so when closing the lost session succeeds, the servers that
    are passed over cannot be connected to, and on the first that can be the
    session, the callbacks, the stream and the transaction succeed. *)
Theorem transaction_reconnects (ty : TransactionTypeProto) (options : option TypeDBOptions)
    (d d1 d2 : State) (e : exn) (r : nat) (db : Database)
    (bad : list (Replica * (ServerDriver * TypeDBStubImpl))) (good : Replica) (rest : list Replica)
    (sd : ServerDriver) (st : TypeDBStubImpl) (res : SessionOpenRes) (tx : nat) (x' : X)
    (Hopen : s_isOpen (session (clients d)) = true)
    (Hfails : open_transaction ty (default no_options options) d = (Throw e, d1))
    (Hclose : session_close_op d1 = (Ret tt, d2))
    (Hdb : s_database (session (clients d2)) = Some r ∧ d_databases d2 !! r = Some db ∧
       replicas db = bad.*1 ++ good :: rest)
    (Hbad : Forall (λ p, connected d2 p.1 p.2.1 p.2.2 ∧ down_for_sessions p.2.2) bad)
    (Hgood : connected d2 good sd st ∧ opens_sessions st (open_request (session (clients d2))) res ∧
       opens_streams st)
    (Hcallbacks : Forall (λ cb, callback_outcome cb = Ret tt) (s_onReopen (session (clients d2))))
    (Htx : let n := length bad + readings (clients d2) in
       txop_open (sd_stub sd) (Ret tt) ("0x" ++ buffer_to_hex (session_id res))%string ty
         (default no_options options) (network_latency (clock n) (clock (S n)) res)
         (transactions (clients d2)) = (Ret tx, x'))
    (Hnew : tx ∉ s_transactions (session (clients d2))) :
  ∃ d3, transaction clock ty options d = (Ret tx, d3) ∧
    let s := session (clients d3) in
    s_isOpen s = true ∧ s_serverDriver s = Some sd ∧
    s_id s = ("0x" ++ buffer_to_hex (session_id res))%string ∧
    s_transactions s = s_transactions (session (clients d2)) ++ [tx] ∧
    transactions (clients d3) = x' ∧
    s_called s = s_called (session (clients d2)) ++
      (callback_number <$> s_onReopen (session (clients d2))) ∧
    (∃ t, s_pulse s = Some t ∧ t ∈ pending_timers (clients d3)) ∧
    rpc_log (d_world d3) = rpc_log (d_world d2) ++
      ((λ p, session_call p.2.1 p.2.2) <$> bad) ++ [session_call sd st; stream_call sd st].
Proof.
  destruct Hdb as (Hr & Hdb & Hreps), Hgood as (Hgood & Hup & Hstreams). cbv zeta in Htx.
  set (opts := default no_options options) in *.
  destruct (any_loop_down ty opts bad (good :: rest) d2 Hbad) as (d' & Eloop & Ht).
  pose proof (tried_connected _ _ _ _ _ _ _ Ht Hgood) as Hgood'.
  destruct Ht as (w & -> & _ & Hlog). set (d' := set_clients _ _) in *.
  destruct (reconnect_up ty opts good sd st res tx x' d' Hgood' Hup Hstreams Hcallbacks Htx) as (w' & E & Hlog').
  assert (runFailsafe r (reconnect ty opts) d2 = run_task (reconnect ty opts) good d') as Erun.
  { unfold runFailsafe, runOnAnyReplica. rewrite E. apply try_catch_ret.
    rewrite proc_bind_eq. unfold get_database. rewrite Hdb, Hreps, Eloop. cbn [any_loop].
    by apply try_catch_ret. }
  eexists. split.
  - unfold transaction. rewrite proc_bind_eq. cbn [get_session gets]. rewrite Hopen. cbn [negb].
    fold opts. rewrite proc_bind_eq, (try_catch_run _ _ _ _ _ Hfails).
    rewrite (proc_bind_run _ _ _ _ _ Hclose). rewrite proc_bind_eq. cbn [get_session gets].
    rewrite Hr. cbn [database_runFailsafe]. fold (reconnect ty opts). rewrite Erun, E.
    rewrite proc_bind_eq. unfold add_transaction, modify_session, modify. cbn. reflexivity.
  - cbn. rewrite bool_decide_eq_false_2 by exact Hnew. split_and!; try done.
    + eexists. split; [done|]. apply elem_of_app. right. by left.
    + rewrite Hlog'. cbn. by rewrite Hlog, app_assoc.
Qed.
End reconnect.

(** ** A concrete run *)

(** The server [a] was lost; [b] grants sessions. *)
#[local] Instance half_down : GRPCStub unit := {|
  session_open := λ addr _ _ n,
    if bool_decide (addr = "a") then (Throw down, n) else (Ret demo_session_res, n);
  session_close := λ addr _ _ n, if bool_decide (addr = "a") then (Throw down, n) else (Ret tt, n);
  connection_open := always tt; servers_all := always ["a"; "b"]; databases_create := always tt;
  databases_contains := always true; databases_get := always None; databases_all := always [];
  database_delete := always tt; database_schema := always ""; database_type_schema := always "";
  database_rule_schema := always ""; session_pulse := always true; users_all := always [];
  users_contains := always false; users_create := always tt; users_delete := always tt;
  users_password_set := always tt; users_get := always None; user_password_update := always tt;
  user_token := always ""; grpc_transaction := λ _ _ n, (Ret tt, n);
|}.

(** Transactions open on [b] only. *)
#[local] Instance transactions_on_b : TransactionOps nat := {|
  txop_open st _ _ _ _ _ := λ n, if bool_decide (st = 0) then (Throw (wrapped down), n) else (Ret n, S n);
  txop_close _ := mret tt;
  txop_closed _ _ := false;
|}.

Definition stub_a : TypeDBStubImpl := mkStub "a" None None false.
Definition stub_b : TypeDBStubImpl := mkStub "b" None None false.

(** A session that was opened on [a]. *)
Definition lost_session : Driver unit (Clients nat) :=
  mkDriver (mkWorld tt [stub_a; stub_b] []) true true [("a", sd_a); ("b", sd_b)] {[ "db" := 0 ]}
    {[ "0x01" := 0 ]} [mkDatabase "db" [rep_a; rep_b]] 0
    (mkClients (mkSession "db" DATA no_options "0x01" (Some 0) true (Some sd_a) (Some 0) 1 [] []
         [mkSessionCallback 3 (Ret tt); mkSessionCallback 4 (Ret tt)] [])
       7 0 [0] 1).

Lemma transaction_reconnects_witness :
  ∃ d3, transaction (λ _, 5%Z) READ None lost_session = (Ret 7, d3) ∧
    s_id (session (clients d3)) = "0x0aff" ∧ s_serverDriver (session (clients d3)) = Some sd_b ∧
    s_transactions (session (clients d3)) = [7] ∧
    s_called (session (clients d3)) = [3; 4] ∧
    rpc_log (d_world d3) = [mkCall 0 "transaction" []; mkCall 0 "session_close" [];
      mkCall 0 "session_open" []; mkCall 1 "session_open" []; mkCall 1 "transaction" []].
Proof.
  destruct (transaction_reconnects (λ _, 5%Z) READ None lost_session
    (open_transaction READ no_options lost_session).2
    (session_close_op (open_transaction READ no_options lost_session).2).2 (wrapped down) 0
    (mkDatabase "db" [rep_a; rep_b]) [(rep_a, (sd_a, stub_a))] rep_b [] sd_b stub_b demo_session_res 7 8)
    as (d3 & E & _ & Hsd & Hid & Htx & _ & Hcalled & _ & Hlog).
  - reflexivity.
  - vm_compute. reflexivity.
  - vm_compute. reflexivity.
  - split_and!; vm_compute; reflexivity.
  - repeat constructor; try (vm_compute; reflexivity). intros req n. exists down, n.
    split; vm_compute; reflexivity.
  - split; [split; vm_compute; reflexivity|]. split; intros n; exists n; reflexivity.
  - vm_compute. by repeat constructor.
  - vm_compute. reflexivity.
  - vm_compute. by intros ?%elem_of_nil.
  - exists d3. split; [exact E|]. split; [exact Hid|]. split; [exact Hsd|].
    split; [rewrite Htx; vm_compute; reflexivity|].
    split; [rewrite Hcalled; vm_compute; reflexivity|]. rewrite Hlog. vm_compute. reflexivity.
Defined.
