(* ===== verification/Async.v ===== *)
(** * Asynchronous computations

    An [async] function runs by itself up to its next [await] and goes on, when
    what it awaits has settled, in the state that other functions have brought
    about meanwhile. This file has such functions as trees of steps, with
    sequencing and exceptions; running one without interruption, which gives
    back the computations of the prelude; pools of functions that are
    interleaved at their awaits; and a logic of what the steps of a function
    guarantee while they rely on those of the others. *)
From S2P Require Import Prelude.

(** ** Trees of steps *)

(** A function that ended, or that awaits something: the next step starts in
    the state of that moment. *)
Inductive async (S E A : Type) : Type :=
  | Done (o : outcome E A)
  | Awaiting (k : S → async S E A * S).
Arguments Done {S E A} o.
Arguments Awaiting {S E A} k.

(** A function that is called runs its first step at once. *)
Definition acomp (S E A : Type) : Type := S → async S E A * S.

Section async.
Context {S E : Type}.

(** Code without an [await]. *)
Definition sync {A} (m : proc S E A) : acomp S E A := λ s, let '(o, s') := m s in (Done o, s').

(** [await f()]: what [f] comes to is delivered in a step of its own. *)
Fixpoint async_await {A} (r : async S E A) : async S E A :=
  match r with
  | Done o => Awaiting (λ s, (Done o, s))
  | Awaiting f => Awaiting (λ s, let '(r', s') := f s in (async_await r', s'))
  end.

Definition await {A} (m : acomp S E A) : acomp S E A := λ s,
  let '(r, s') := m s in (async_await r, s').

(** [await p] for the promise of a call whose work is done when it is called
    and whose outcome is delivered later. *)
Definition awaited {A} (m : proc S E A) : acomp S E A := await (sync m).

Fixpoint async_then {A B} (r : async S E A) (k : A → acomp S E B) (s : S) : async S E B * S :=
  match r with
  | Done (Ret a) => k a s
  | Done (Throw e) => (Done (Throw e), s)
  | Done Pending => (Done Pending, s)
  | Awaiting f => (Awaiting (λ s2, let '(r', s3) := f s2 in async_then r' k s3), s)
  end.

Definition acomp_bind {A B} (k : A → acomp S E B) (m : acomp S E A) : acomp S E B := λ s,
  let '(r, s') := m s in async_then r k s'.

Fixpoint async_catch {A} (r : async S E A) (h : E → acomp S E A) (s : S) : async S E A * S :=
  match r with
  | Done (Throw e) => h e s
  | Done o => (Done o, s)
  | Awaiting f => (Awaiting (λ s2, let '(r', s3) := f s2 in async_catch r' h s3), s)
  end.

Definition atry {A} (m : acomp S E A) (h : E → acomp S E A) : acomp S E A := λ s,
  let '(r, s') := m s in async_catch r h s'.

(** *** Without interruption *)

Fixpoint finish {A} (r : async S E A) (s : S) : outcome E A * S :=
  match r with
  | Done o => (o, s)
  | Awaiting f => let '(r', s') := f s in finish r' s'
  end.

Definition uninterrupted {A} (m : acomp S E A) : proc S E A := λ s,
  let '(r, s') := m s in finish r s'.
End async.

#[export] Instance acomp_mret {S E} : MRet (acomp S E) := λ A a s, (Done (Ret a), s).
#[export] Instance acomp_mbind {S E} : MBind (acomp S E) := λ A B k m, acomp_bind k m.

(** The tree is finite along every path. *)
Lemma async_induction {S E A} (P : async S E A → Prop) :
  (∀ o, P (Done o)) → (∀ f, (∀ s, P (f s).1) → P (Awaiting f)) → ∀ r, P r.
Proof.
  intros HD HA. fix IH 1. intros [o|f]; [apply HD|]. apply HA. intros s.
  destruct (f s) as [r s']. apply IH.
Qed.

Section laws.
Context {S E : Type}.

Lemma finish_then {A B} (r : async S E A) (k : A → acomp S E B) s :
  (let '(r', s') := async_then r k s in finish r' s') =
  (let '(o, s') := finish r s in
   match o with
   | Ret a => uninterrupted (k a) s'
   | Throw e => (Throw e, s')
   | Pending => (Pending, s')
   end).
Proof.
  revert s. induction r as [o|f IH] using async_induction; intros s.
  - by destruct o.
  - cbn. specialize (IH s). destruct (f s) as [r s']. exact (IH s').
Qed.

Lemma finish_catch {A} (r : async S E A) (h : E → acomp S E A) s :
  (let '(r', s') := async_catch r h s in finish r' s') =
  (let '(o, s') := finish r s in
   match o with
   | Ret a => (Ret a, s')
   | Throw e => uninterrupted (h e) s'
   | Pending => (Pending, s')
   end).
Proof.
  revert s. induction r as [o|f IH] using async_induction; intros s.
  - by destruct o.
  - cbn. specialize (IH s). destruct (f s) as [r s']. exact (IH s').
Qed.

(** Without interruption, the constructions are those of the prelude. *)
Lemma uninterrupted_sync {A} (m : proc S E A) : uninterrupted (sync m) ≡ m.
Proof. intros s. unfold uninterrupted, sync. by destruct (m s). Qed.

Lemma finish_await {A} (r : async S E A) s : finish (async_await r) s = finish r s.
Proof.
  revert s. induction r as [o|f IH] using async_induction; intros s; [done|].
  cbn. specialize (IH s). by destruct (f s) as [r s'].
Qed.

Lemma uninterrupted_await {A} (m : acomp S E A) : uninterrupted (await m) ≡ uninterrupted m.
Proof. intros s. unfold uninterrupted, await. destruct (m s) as [r s']. apply finish_await. Qed.

Lemma uninterrupted_bind {A B} (m : acomp S E A) (k : A → acomp S E B) :
  uninterrupted (m ≫= k) ≡ uninterrupted m ≫= λ a, uninterrupted (k a).
Proof.
  intros s. rewrite proc_bind_eq. unfold uninterrupted at 1 2.
  unfold mbind, acomp_mbind, acomp_bind. destruct (m s) as [r s'].
  by rewrite finish_then.
Qed.

Lemma uninterrupted_try {A} (m : acomp S E A) (h : E → acomp S E A) :
  uninterrupted (atry m h) ≡ try_catch (uninterrupted m) (λ e, uninterrupted (h e)).
Proof.
  intros s. unfold uninterrupted at 1, try_catch, atry. unfold uninterrupted at 1.
  destruct (m s) as [r s']. by rewrite finish_catch.
Qed.

End laws.

(** ** Running as a computation *)

Section runs_as.
Context {S E : Type}.
Implicit Types P Q : S → Prop.

(** From states with [P] and without interruption, a function does what a
    computation does, which leads to states with [Q]. *)
Definition runs_as {A} P (f : acomp S E A) (m : proc S E A) Q : Prop :=
  ∀ s, P s → uninterrupted f s = m s ∧ Q (m s).2.

Lemma runs_sync {A} P Q (m : proc S E A) : (∀ s, P s → Q (m s).2) → runs_as P (sync m) m Q.
Proof. intros H s HP. split; [apply uninterrupted_sync|by apply H]. Qed.

Lemma runs_await {A} P Q (f : acomp S E A) m : runs_as P f m Q → runs_as P (await f) m Q.
Proof. intros H s HP. destruct (H s HP) as [<- HQ]. by rewrite (uninterrupted_await f s). Qed.

Lemma runs_awaited {A} P Q (m : proc S E A) : (∀ s, P s → Q (m s).2) → runs_as P (awaited m) m Q.
Proof. intros H. by apply runs_await, runs_sync. Qed.

Lemma runs_ret {A} P (a : A) : runs_as P (mret a) (mret a) P.
Proof. by intros s HP. Qed.

Lemma runs_bind {A B} P Q Q' (f : acomp S E A) m (kf : A → acomp S E B) k :
  runs_as P f m Q → (∀ a, runs_as Q (kf a) (k a) Q') → (∀ s, Q s → Q' s) →
  runs_as P (f ≫= kf) (m ≫= k) Q'.
Proof.
  intros Hm Hk HQ s HP. destruct (Hm s HP) as [E1 H1]. rewrite (uninterrupted_bind f kf s).
  rewrite !proc_bind_eq, E1. destruct (m s) as [[a|e|] s']; [by apply Hk|by auto..].
Qed.

(** What is read of the state may be relied on. *)
Lemma runs_get {A B} P Q (g : S → A) (kf : A → acomp S E B) k :
  (∀ s, P s → runs_as (λ s', s' = s) (kf (g s)) (k (g s)) Q) →
  runs_as P (sync (gets g) ≫= kf) (gets g ≫= k) Q.
Proof.
  intros H s HP. rewrite (uninterrupted_bind _ kf s), !proc_bind_eq. exact (H s HP s eq_refl).
Qed.

Lemma runs_try {A} P Q Q' (f : acomp S E A) m (hf : E → acomp S E A) h :
  runs_as P f m Q → (∀ e, runs_as Q (hf e) (h e) Q') → (∀ s, Q s → Q' s) →
  runs_as P (atry f hf) (try_catch m h) Q'.
Proof.
  intros Hm Hh HQ s HP. destruct (Hm s HP) as [E1 H1]. rewrite (uninterrupted_try f hf s).
  unfold try_catch. rewrite E1. destruct (m s) as [[a|e|] s']; [by auto|by apply Hh|by auto].
Qed.

Lemma runs_conseq {A} P P' Q Q' (f : acomp S E A) m :
  runs_as P' f m Q' → (∀ s, P s → P' s) → (∀ s, Q' s → Q s) → runs_as P f m Q.
Proof. intros H HP HQ s Hs. destruct (H s (HP s Hs)) as [? ?]. auto. Qed.

Lemma runs_read {A B} P Q (g : S → A) (f : acomp S E B) k :
  (∀ s, P s → runs_as (λ s', s' = s) f (k (g s)) Q) → runs_as P f (gets g ≫= k) Q.
Proof. intros H s HP. exact (H s HP s eq_refl). Qed.

(** With an assertion that holds throughout. *)
Lemma runs_bind_keep {A B} P (f : acomp S E A) m (kf : A → acomp S E B) k :
  runs_as P f m P → (∀ a, runs_as P (kf a) (k a) P) → runs_as P (f ≫= kf) (m ≫= k) P.
Proof. intros Hm Hk. by apply (runs_bind _ P). Qed.

Lemma runs_try_keep {A} P (f : acomp S E A) m (hf : E → acomp S E A) h :
  runs_as P f m P → (∀ e, runs_as P (hf e) (h e) P) → runs_as P (atry f hf) (try_catch m h) P.
Proof. intros Hm Hh. by apply (runs_try _ P). Qed.

Lemma runs_sync_keep {A} P (m : proc S E A) : preserves P m → runs_as P (sync m) m P.
Proof. apply runs_sync. Qed.

Lemma runs_awaited_keep {A} P (m : proc S E A) : preserves P m → runs_as P (awaited m) m P.
Proof. apply runs_awaited. Qed.
End runs_as.

Create HintDb runs.

(** Follows the structure of a function and of its computation. *)
Ltac running :=
  repeat first
    [ match goal with |- ∀ _, _ => intro end
    | solve [auto 3 with runs]
    | simple apply runs_ret | simple apply runs_bind_keep | simple apply runs_try_keep
    | simple apply runs_awaited_keep | simple apply runs_await | simple apply runs_sync_keep
    | match goal with |- runs_as _ (match ?x with _ => _ end) _ _ => destruct x eqn:? end ].

(** ** Pools *)

Section pool.
Context {S E T : Type}.

(** The functions that were called; those that ended stay in the pool. *)
Definition pool : Type := list (async S E T) * S.

(** [m] is called. *)
Definition spawn (m : acomp S E T) (p : pool) : pool :=
  let '(r, s) := m p.2 in (p.1 ++ [r], s).

(** What function [i] awaits has settled, and its next step runs. *)
Definition wake (i : nat) (p : pool) : pool :=
  match p.1 !! i with
  | Some (Awaiting f) => let '(r, s) := f p.2 in (<[i := r]> p.1, s)
  | _ => p
  end.

End pool.
Arguments pool : clear implicits.

(** ** Relying and guaranteeing *)

(** A function works on the state [S], which is in view in a wider state [K]. *)
Class Lens (K S : Type) : Type := {
  view : K → S;
  put : S → K → K;
  view_put : ∀ s k, view (put s k) = s;
  put_put : ∀ s s' k, put s (put s' k) = put s k;
  put_view : ∀ k, put (view k) k = k;
}.

(** The state itself. *)
#[export] Instance lens_id {S} : Lens S S := {|
  view s := s; put s _ := s;
  view_put _ _ := eq_refl; put_put _ _ _ := eq_refl; put_view _ := eq_refl;
|}.

Section logic.
Context {K S E : Type} {L : Lens K S}.

(** [I] holds between steps; a step relies on the others not to do more than
    [R], and guarantees [G]. *)
Context (I : K → Prop) (R G : K → K → Prop).

(** From the state where a function ended or awaits, all goes well whenever it
    is resumed. *)
Fixpoint goes_well {A} (r : async S E A) (Q : A → K → Prop) (X : K → Prop) (k : K) : Prop :=
  match r with
  | Done (Ret a) => Q a k
  | Done _ => X k
  | Awaiting f => ∀ k1, R k k1 → I k1 →
      let '(r', s2) := f (view k1) in
      G k1 (put s2 k1) ∧ I (put s2 k1) ∧ goes_well r' Q X (put s2 k1)
  end.

(** A function called in a state with [P] guarantees [G] in every step, returns
    as [Q] says, and throws as [X] says. *)
Definition async_triple {A} (P : K → Prop) (m : acomp S E A) (Q : A → K → Prop) (X : K → Prop)
    : Prop :=
  ∀ k, I k → P k → let '(r, s') := m (view k) in
    G k (put s' k) ∧ I (put s' k) ∧ goes_well r Q X (put s' k).
End logic.

Section reasoning.
Context {K S E : Type} {L : Lens K S} (I : K → Prop) (R G : K → K → Prop).
Context `{!PreOrder G}.
Implicit Types P X : K → Prop.

Lemma goes_well_conseq {A} (r : async S E A) (Q Q' : A → K → Prop) X X' k :
  (∀ a k, Q a k → Q' a k) → (∀ k, X k → X' k) →
  goes_well I R G r Q X k → goes_well I R G r Q' X' k.
Proof.
  intros HQ HX. revert k. induction r as [o|f IH] using async_induction; intros k.
  - destruct o; cbn; auto.
  - cbn. intros H k1 HR HI. specialize (IH (view k1)). specialize (H k1 HR HI).
    destruct (f (view k1)) as [r s2]. destruct H as (H1 & H2 & H3). auto.
Qed.

Lemma goes_well_then {A B} (r : async S E A) (h : A → acomp S E B) (Q : A → K → Prop)
    (Q' : B → K → Prop) X k0 k :
  G k0 k → I k → goes_well I R G r Q X k → (∀ a, async_triple I R G (Q a) (h a) Q' X) →
  let '(r', s') := async_then r h (view k) in
  G k0 (put s' k) ∧ I (put s' k) ∧ goes_well I R G r' Q' X (put s' k).
Proof.
  intros HG HI Hr Hh. revert k0 k HG HI Hr.
  induction r as [o|f IH] using async_induction; intros k0 k HG HI Hr.
  - destruct o as [a|e|]; cbn in *; [|by rewrite put_view..]. specialize (Hh a k HI Hr).
    destruct (h a (view k)) as [r' s']. destruct Hh as (H1 & H2 & H3).
    split_and!; [by etransitivity|done..].
  - cbn in *. rewrite put_view. split_and!; [done..|]. intros k1 HR1 HI1.
    specialize (Hr k1 HR1 HI1). specialize (IH (view k1)).
    destruct (f (view k1)) as [r s2]. destruct Hr as (H1 & H2 & H3).
    specialize (IH k1 (put s2 k1) H1 H2 H3). rewrite view_put in IH. cbn in IH.
    destruct (async_then r h s2) as [r' s']. by rewrite put_put in IH.
Qed.

Lemma async_bind {A B} (m : acomp S E A) (h : A → acomp S E B) P (Q : A → K → Prop)
    (Q' : B → K → Prop) X :
  async_triple I R G P m Q X → (∀ a, async_triple I R G (Q a) (h a) Q' X) →
  async_triple I R G P (m ≫= h) Q' X.
Proof.
  intros Hm Hh k HI HP. specialize (Hm k HI HP). unfold mbind, acomp_mbind, acomp_bind.
  destruct (m (view k)) as [r s']. destruct Hm as (H1 & H2 & H3).
  pose proof (goes_well_then r h Q Q' X k (put s' k) H1 H2 H3 Hh) as H. rewrite view_put in H.
  destruct (async_then r h s') as [r' s'']. by rewrite put_put in H.
Qed.

Lemma goes_well_catch {A} (r : async S E A) (h : E → acomp S E A) (Q : A → K → Prop) X X' k0 k :
  G k0 k → I k → goes_well I R G r Q X k → (∀ e, async_triple I R G X (h e) Q X') →
  (∀ k, X k → X' k) →
  let '(r', s') := async_catch r h (view k) in
  G k0 (put s' k) ∧ I (put s' k) ∧ goes_well I R G r' Q X' (put s' k).
Proof.
  intros HG HI Hr Hh HX. revert k0 k HG HI Hr.
  induction r as [o|f IH] using async_induction; intros k0 k HG HI Hr.
  - destruct o as [a|e|]; cbn in *; [by rewrite put_view| |rewrite put_view; by auto].
    specialize (Hh e k HI Hr).
    destruct (h e (view k)) as [r' s']. destruct Hh as (H1 & H2 & H3).
    split_and!; [by etransitivity|done..].
  - cbn in *. rewrite put_view. split_and!; [done..|]. intros k1 HR1 HI1.
    specialize (Hr k1 HR1 HI1). specialize (IH (view k1)).
    destruct (f (view k1)) as [r s2]. destruct Hr as (H1 & H2 & H3).
    specialize (IH k1 (put s2 k1) H1 H2 H3). rewrite view_put in IH. cbn in IH.
    destruct (async_catch r h s2) as [r' s']. by rewrite put_put in IH.
Qed.

Lemma async_try {A} (m : acomp S E A) (h : E → acomp S E A) P (Q : A → K → Prop) X X' :
  async_triple I R G P m Q X → (∀ e, async_triple I R G X (h e) Q X') → (∀ k, X k → X' k) →
  async_triple I R G P (atry m h) Q X'.
Proof.
  intros Hm Hh HX k HI HP. specialize (Hm k HI HP). unfold atry.
  destruct (m (view k)) as [r s']. destruct Hm as (H1 & H2 & H3).
  pose proof (goes_well_catch r h Q X X' k (put s' k) H1 H2 H3 Hh HX) as H. rewrite view_put in H.
  destruct (async_catch r h s') as [r' s'']. by rewrite put_put in H.
Qed.

Lemma async_conseq {A} (m : acomp S E A) P P' (Q Q' : A → K → Prop) X X' :
  async_triple I R G P' m Q' X' → (∀ k, P k → P' k) → (∀ a k, Q' a k → Q a k) →
  (∀ k, X' k → X k) → async_triple I R G P m Q X.
Proof.
  intros H HP HQ HX k HI Hk. specialize (H k HI (HP k Hk)). destruct (m (view k)) as [r s'].
  destruct H as (H1 & H2 & H3). split_and!; [done..|]. by eapply goes_well_conseq.
Qed.

Lemma async_ret {A} (a : A) P (Q : A → K → Prop) X :
  (∀ k, I k → P k → Q a k) → async_triple I R G P (mret a : acomp S E A) Q X.
Proof. intros H k HI HP. cbn. rewrite put_view. split_and!; [reflexivity|done|by apply H]. Qed.

(** A step is judged by what its computation does. *)
Lemma async_sync {A} (m : proc S E A) P (Q : A → K → Prop) X :
  (∀ k, I k → P k → let '(o, s') := m (view k) in let k' := put s' k in
     G k k' ∧ I k' ∧ match o with Ret a => Q a k' | _ => X k' end) →
  async_triple I R G P (sync m) Q X.
Proof. intros H k HI HP. specialize (H k HI HP). unfold sync. by destruct (m (view k)) as [[] s']. Qed.

(** What is known when a call ends must survive what others do until its
    outcome is delivered. *)
Lemma goes_well_await {A} (r : async S E A) (Q : A → K → Prop) X k :
  (∀ a k k', Q a k → R k k' → Q a k') → (∀ k k', X k → R k k' → X k') →
  goes_well I R G r Q X k → goes_well I R G (async_await r) Q X k.
Proof.
  intros HQ HX. revert k. induction r as [o|f IH] using async_induction; intros k Hr.
  - cbn. intros k1 HR HI. rewrite put_view. split_and!; [reflexivity|done|]. destruct o; cbn in *; eauto.
  - cbn in *. intros k1 HR HI. specialize (Hr k1 HR HI). specialize (IH (view k1)).
    destruct (f (view k1)) as [r s2]. destruct Hr as (H1 & H2 & H3). auto.
Qed.

Lemma async_await_rule {A} (m : acomp S E A) P (Q : A → K → Prop) X :
  async_triple I R G P m Q X →
  (∀ a k k', Q a k → R k k' → Q a k') → (∀ k k', X k → R k k' → X k') →
  async_triple I R G P (await m) Q X.
Proof.
  intros H HQ HX k HI HP. specialize (H k HI HP). unfold await. destruct (m (view k)) as [r s'].
  destruct H as (H1 & H2 & H3). split_and!; [done..|]. by apply goes_well_await.
Qed.

Lemma async_throws {A} (e : E) P (Q : A → K → Prop) X :
  (∀ k, I k → P k → X k) → async_triple I R G P (sync (throw e) : acomp S E A) Q X.
Proof. intros H k HI HP. cbn. rewrite put_view. split_and!; [reflexivity|done|by apply H]. Qed.

(** What is read of the state may be relied on. *)
Lemma async_get {A B} (g : S → A) (h : A → acomp S E B) P (Q : B → K → Prop) X :
  (∀ k, P k → async_triple I R G (λ k', k' = k) (h (g (view k))) Q X) →
  async_triple I R G P (sync (gets g) ≫= h) Q X.
Proof. intros H k HI HP. exact (H k HP k HI eq_refl). Qed.

(** *** With an assertion that holds throughout *)

Context (P : K → Prop).
Hypothesis P_stable : ∀ k k', P k → R k k' → P k'.

(** The function keeps [P] until it returns as [Q] says. *)
Definition holds_until {A} (m : acomp S E A) (Q : A → K → Prop) : Prop := async_triple I R G P m Q P.

Lemma until_bind {A B} (m : acomp S E A) (h : A → acomp S E B) (Q : B → K → Prop) :
  holds_until m (λ _, P) → (∀ a, holds_until (h a) Q) → holds_until (m ≫= h) Q.
Proof. intros Hm Hh. by apply (async_bind _ _ _ (λ _, P)). Qed.

Lemma until_try {A} (m : acomp S E A) (h : E → acomp S E A) (Q : A → K → Prop) :
  holds_until m Q → (∀ e, holds_until (h e) Q) → holds_until (atry m h) Q.
Proof. intros Hm Hh. by apply (async_try _ _ _ _ P). Qed.

Lemma until_throw {A} (e : E) (Q : A → K → Prop) : holds_until (sync (throw e)) Q.
Proof. by apply async_throws. Qed.

Lemma until_ret {A} (a : A) : holds_until (mret a) (λ _, P).
Proof. by apply async_ret. Qed.

Lemma until_await {A} (m : acomp S E A) (Q : A → K → Prop) :
  (∀ a k k', Q a k → R k k' → Q a k') → holds_until m Q → holds_until (await m) Q.
Proof. intros HQ Hm. by apply async_await_rule. Qed.

Lemma until_await_keep {A} (m : acomp S E A) :
  holds_until m (λ _, P) → holds_until (await m) (λ _, P).
Proof. apply until_await. eauto. Qed.

(** A step that keeps [P] and gives the guarantee. *)
Lemma until_sync {A} (m : proc S E A) :
  (∀ k, I k → P k → let k' := put (m (view k)).2 k in G k k' ∧ I k' ∧ P k') →
  holds_until (sync m) (λ _, P).
Proof.
  intros H. apply async_sync. intros k HI HP. specialize (H k HI HP).
  by destruct (m (view k)) as [[] s'].
Qed.
End reasoning.

Create HintDb guard.
#[export] Hint Extern 0 (PreOrder _) => typeclasses eauto : guard.

(** Follows the structure of a function that keeps an assertion. *)
Ltac guarding :=
  repeat first
    [ match goal with |- ∀ _, _ => intro end
    | solve [eauto 4 with guard]
    | simple apply until_throw | simple apply until_ret
    | simple apply until_bind | simple apply until_try | simple apply until_await_keep
    | simple apply until_await
    | match goal with |- holds_until _ _ _ _ (match ?x with _ => _ end) _ => destruct x eqn:? end ].

(** ** Soundness *)

Section soundness.
Context {S E T : Type} (I : S → Prop) (R G : S → S → Prop).
Hypothesis R_trans : Transitive R.
(** A function's step is among what the others rely on. *)
Hypothesis G_R : ∀ s s', G s s' → R s s'.

(** A function that goes well still does after steps of others, when what is
    known of its end survives them. *)
Lemma goes_well_stable {A} (r : async S E A) (Q : A → S → Prop) (X : S → Prop) s s' :
  (∀ a s s', Q a s → R s s' → Q a s') → (∀ s s', X s → R s s' → X s') →
  goes_well I R G r Q X s → R s s' → goes_well I R G r Q X s'.
Proof.
  intros HQ HX. destruct r as [[a|e|]|f]; cbn; [by eauto..|].
  intros H HR s1 HR1. apply H. by transitivity s'.
Qed.

(** Every function of a pool goes well from here; of the [i]-th, [Q i] is known
    when it returns. *)
Definition pool_well (Q : nat → T → S → Prop) (p : pool S E T) : Prop :=
  I p.2 ∧ ∀ i r, p.1 !! i = Some r → goes_well I R G r (Q i) (λ _, True) p.2.

Context (Q : nat → T → S → Prop).
Hypothesis Q_stable : ∀ i a s s', Q i a s → R s s' → Q i a s'.

(** Steps from outside. *)
Lemma pool_well_elsewhere rs s s' : pool_well Q (rs, s) → R s s' → I s' → pool_well Q (rs, s').
Proof.
  intros [HI H] HR HI'. split; [done|]. intros i r Hr. cbn in *.
  apply (goes_well_stable _ _ _ s); eauto.
Qed.

Lemma pool_well_spawn (m : acomp S E T) (P : S → Prop) p :
  async_triple I R G P m (Q (length p.1)) (λ _, True) → P p.2 →
  pool_well Q p → pool_well Q (spawn m p).
Proof.
  intros Hm HP Hp. destruct p as [rs s]. unfold spawn. cbn in *.
  specialize (Hm s (proj1 Hp) HP). cbn in Hm. destruct (m s) as [r s']. destruct Hm as (H1 & H2 & H3).
  destruct (pool_well_elsewhere rs s s' Hp (G_R _ _ H1) H2) as [_ H]. split; [done|].
  cbn in *. intros i r' [Hi|[Hi [Hj <-]%list_lookup_singleton_Some]]%lookup_app_Some; [by apply H|].
  by replace i with (length rs) by lia.
Qed.

Lemma pool_well_wake i p : Reflexive R → pool_well Q p → pool_well Q (wake i p).
Proof.
  intros HRr Hp. destruct p as [rs s]. unfold wake. cbn.
  destruct (rs !! i) as [[o|f]|] eqn:Hi; [done| |done].
  pose proof (proj2 Hp i _ Hi) as Hf. cbn in Hf. specialize (Hf s (HRr s) (proj1 Hp)).
  destruct (f s) as [r s']. destruct Hf as (H1 & H2 & H3).
  destruct (pool_well_elsewhere rs s s' Hp (G_R _ _ H1) H2) as [_ H]. split; [done|].
  cbn in *. intros j r' [(-> & <- & _)|[Hne Hj]]%list_lookup_insert_Some; [done|by apply H].
Qed.
End soundness.
