(* ===== verification/DatabaseAsync.v ===== *)
(** * Database operations, step by step

    The loops of [connection/TypeDBDatabaseImpl.ts] and the lookup of
    [connection/TypeDBDatabaseManagerImpl.ts] as asynchronous functions: each
    [await] of the source ends a step, and the database object and the driver
    are read again in the next. Run without interruption they are the
    computations of [Database.v] and [Managers.v]; among other functions they
    leave alone what the tasks work on. A call of the stub layer does its work
    when it is made, and its outcome is delivered later. *)
From S2P Require Import Prelude Errors Bytes Proto RequestBuilder Stub Database Managers DriverImpl Hoare Async.
Local Open Scope string_scope.
Local Open Scope list_scope.

Section database_async.
Context {W C : Type} {G : GRPCStub W}.
Local Abbreviation State := (Driver W C).
Local Abbreviation aproc := (acomp State exn).

(** ** Fetching replicas *)

Definition fetch_from_async (name : string) (serverDriver : ServerDriver) : aproc (list Replica) :=
  awaited (call (databasesGet (sd_stub serverDriver) (DatabaseManager_getReq name))) ≫= λ res,
  match res with
  | Some db => sync (gets (replicas_of name (dp_replicas db)))
  | None => sync (throw (type_error "replicas"))
  end.

Fixpoint fetch_loop_async (name : string) (servers : list ServerDriver) : aproc (list Replica) :=
  match servers with
  | [] => sync (throw (driver_error UNABLE_TO_CONNECT []))
  | serverDriver :: servers' =>
      atry (fetch_from_async name serverDriver) (λ err,
        if fetch_next err then fetch_loop_async name servers' else sync (throw err))
  end.

Definition fetchReplicas_async (name : string) : aproc (list Replica) :=
  sync (gets (λ d, (d_serverDrivers d).*2)) ≫= λ servers, fetch_loop_async name servers.

Definition database_get_async (name : string) : aproc nat :=
  await (fetchReplicas_async name) ≫= λ reps, sync (new_database name reps).

(** ** Running tasks *)

Definition atask (A : Type) : Type := option ServerDriver → ServerDatabase → aproc A.

(** [await task(this._driver.serverDrivers.get(replica.server), replica.database)] *)
Definition run_task_async {A} (t : atask A) (replica : Replica) : aproc A :=
  sync (gets (λ d, map_get (d_serverDrivers d) (server replica))) ≫= λ sd,
  await (t sd (database replica)).

Fixpoint any_loop_async {A} (t : atask A) (reps : list Replica) : aproc A :=
  match reps with
  | [] => sync (throw (driver_error UNABLE_TO_CONNECT []))
  | replica :: reps' =>
      atry (run_task_async t replica) (λ e,
        if has_template UNABLE_TO_CONNECT e then any_loop_async t reps' else sync (throw e))
  end.

Definition runOnAnyReplica_async {A} (r : nat) (t : atask A) : aproc A :=
  sync (get_database r) ≫= λ db, any_loop_async t (replicas db).

Fixpoint seek_loop_async (n : nat) (r : nat) (name : string) : aproc Replica :=
  match n with
  | 0 => sync (throw (driver_error UNABLE_TO_CONNECT []))
  | S n' =>
      await (fetchReplicas_async name) ≫= λ reps,
      sync (set_replicas r reps) ≫= λ _,
      sync (get_database r) ≫= λ db,
      match primaryReplica db with
      | Some primary => mret primary
      | None => awaited waitForPrimaryReplicaSelection ≫= λ _, seek_loop_async n' r name
      end
  end.

Definition seekPrimaryReplica_async (r : nat) : aproc Replica :=
  sync (get_database r) ≫= λ db, seek_loop_async FETCH_REPLICAS_MAX_RETRIES r (db_name db).

Fixpoint primary_loop_async {A} (n : nat) (r : nat) (t : atask A) : aproc A :=
  match n with
  | 0 => sync (throw (driver_error UNABLE_TO_CONNECT []))
  | S n' =>
      atry
        (sync (get_database r) ≫= λ db,
         match primaryReplica db with
         | Some primary => run_task_async t primary
         | None => sync (throw (type_error "server"))
         end)
        (λ e,
          if primary_moved e then
            awaited waitForPrimaryReplicaSelection ≫= λ _,
            await (seekPrimaryReplica_async r) ≫= λ _,
            primary_loop_async n' r t
          else sync (throw e))
  end.

Definition ensure_primary_async (r : nat) : aproc unit :=
  sync (get_database r) ≫= λ db,
  match primaryReplica db with
  | Some _ => mret tt
  | None => await (seekPrimaryReplica_async r) ≫= λ _, mret tt
  end.

Definition runOnPrimaryReplica_async {A} (r : nat) (t : atask A) : aproc A :=
  ensure_primary_async r ≫= λ _,
  primary_loop_async PRIMARY_REPLICA_TASK_MAX_RETRIES r t.

Definition runFailsafe_async {A} (r : nat) (t : atask A) : aproc A :=
  atry (await (runOnAnyReplica_async r t)) (λ e,
    if has_template CLOUD_REPLICA_NOT_PRIMARY e then await (runOnPrimaryReplica_async r t)
    else sync (throw e)).

(** ** Finding a database *)

Definition manager_atask (A : Type) : Type := option ServerDriver → aproc A.

Fixpoint manager_loop_async {A} (name : string) (t : manager_atask A) (servers : list ServerDriver)
    (errors : string) : aproc A :=
  match servers with
  | [] => sync (throw (driver_error CLOUD_ALL_NODES_FAILED [errors]))
  | serverDriver :: servers' =>
      atry (await (t (Some serverDriver))) (λ e,
        if has_template CLOUD_REPLICA_NOT_PRIMARY e then
          await (database_get_async name) ≫= λ db,
          await (runOnPrimaryReplica_async db (λ sd _, t sd))
        else manager_loop_async name t servers' (errors ++ error_line serverDriver e)%string)
  end.

Definition manager_runFailsafe_async {A} (name : string) (t : manager_atask A) : aproc A :=
  sync (gets (λ d, (d_serverDrivers d).*2)) ≫= λ servers, manager_loop_async name t servers "".

Definition contains_call_async (name : string) : manager_atask bool := λ sd,
  sync (stub_of sd) ≫= λ st,
  awaited (call (databasesContains st (DatabaseManager_containsReq name))).

Definition manager_contains_async (name : string) : aproc bool :=
  await (manager_runFailsafe_async name (contains_call_async name)).

Definition manager_get_async (name : string) : aproc cached :=
  await (manager_contains_async name) ≫= λ known,
  if negb known then sync (throw (driver_error DATABASE_DOES_NOT_EXIST [name]))
  else
    sync (gets (λ d, d_database_cache d !! name)) ≫= λ entry,
    match entry with
    | Some r => mret (CachedDatabase r)
    | None =>
        if bool_decide (name ∈ Object_prototype) then mret (Inherited name)
        else await (database_get_async name) ≫= λ r, mret (CachedDatabase r)
    end.
End database_async.

Arguments atask : clear implicits.

(** ** Without interruption *)

Section uninterrupted.
Context {W C : Type} {G : GRPCStub W} (P : C → gmap string nat → Prop).
Local Abbreviation I := (on_clients (W := W) P).

(** Follows the structure of a function that keeps [I] as its computation does. *)
Ltac runs := repeat (running; try (apply keeps_spec; keeping)).

Hint Resolve get_database_keeps set_replicas_keeps wait_keeps new_database_keeps : hoare.

Lemma fetch_loop_runs name servers :
  runs_as I (fetch_loop_async name servers) (fetch_loop name servers) I.
Proof.
  induction servers as [|sd servers IH]; cbn [fetch_loop_async fetch_loop];
    unfold fetch_from_async, fetch_from; runs.
Qed.
Hint Resolve fetch_loop_runs : runs.

Lemma fetchReplicas_runs name : runs_as I (fetchReplicas_async name) (fetchReplicas name) I.
Proof. unfold fetchReplicas_async, fetchReplicas. runs. Qed.
Hint Resolve fetchReplicas_runs : runs.

Lemma database_get_runs name : runs_as I (database_get_async name) (database_get name) I.
Proof. unfold database_get_async, database_get. runs. Qed.
Hint Resolve database_get_runs : runs.

Lemma seek_loop_runs n r name : runs_as I (seek_loop_async n r name) (seek_loop n r name) I.
Proof. induction n as [|n IH]; cbn [seek_loop_async seek_loop]; runs. Qed.
Hint Resolve seek_loop_runs : runs.

Lemma seekPrimaryReplica_runs r : runs_as I (seekPrimaryReplica_async r) (seekPrimaryReplica r) I.
Proof. unfold seekPrimaryReplica_async, seekPrimaryReplica. runs. Qed.
Hint Resolve seekPrimaryReplica_runs : runs.

Section tasks.
Context {A : Type} (ta : atask W C A) (t : task W C A).
Hypothesis task_runs : ∀ sd db, runs_as I (ta sd db) (t sd db) I.
Hint Resolve task_runs : runs.

Lemma run_task_runs replica : runs_as I (run_task_async ta replica) (run_task t replica) I.
Proof. unfold run_task_async, run_task. runs. Qed.
Hint Resolve run_task_runs : runs.

Lemma any_loop_runs reps : runs_as I (any_loop_async ta reps) (any_loop t reps) I.
Proof. induction reps as [|rep reps IH]; cbn [any_loop_async any_loop]; runs. Qed.
Hint Resolve any_loop_runs : runs.

Lemma primary_loop_runs n r : runs_as I (primary_loop_async n r ta) (primary_loop n r t) I.
Proof. induction n as [|n IH]; cbn [primary_loop_async primary_loop]; runs. Qed.
Hint Resolve primary_loop_runs : runs.

Lemma runOnPrimaryReplica_runs r :
  runs_as I (runOnPrimaryReplica_async r ta) (runOnPrimaryReplica r t) I.
Proof.
  unfold runOnPrimaryReplica_async, runOnPrimaryReplica, ensure_primary_async, ensure_primary. runs.
Qed.
Hint Resolve runOnPrimaryReplica_runs : runs.

Lemma runFailsafe_runs r : runs_as I (runFailsafe_async r ta) (runFailsafe r t) I.
Proof.
  unfold runFailsafe_async, runFailsafe, runOnAnyReplica_async, runOnAnyReplica. runs.
Qed.
End tasks.

Lemma contains_call_runs name sd : runs_as I (contains_call_async name sd) (contains_call name sd) I.
Proof. unfold contains_call_async, contains_call. runs. Qed.
Hint Resolve contains_call_runs runOnPrimaryReplica_runs : runs.

Lemma manager_get_runs name : runs_as I (manager_get_async name) (manager_get name) I.
Proof.
  unfold manager_get_async, manager_get, manager_contains_async, manager_contains,
    manager_runFailsafe_async, manager_runFailsafe. runs.
  match goal with |- runs_as _ (manager_loop_async _ _ ?l ?e) _ _ =>
    generalize e; induction l as [|sd servers IH] end;
    intros errors; cbn [manager_loop_async manager_loop]; runs.
Qed.
End uninterrupted.

(** ** Among other functions *)

Section guaranteed.
Context {W C K : Type} {G : GRPCStub W}.
Local Abbreviation State := (Driver W C).
Context {L : Lens K State} (Inv P : K → Prop) (Rely Guar : K → K → Prop) `{!PreOrder Guar}.

(** A step that leaves the clients and the filings alone. *)
Definition still (k k' : K) : Prop := ∃ d : State, k' = put d k ∧
  clients d = clients (view k) ∧ d_sessions d = d_sessions (view k).

(** Changing the driver is no concern of those who work on the clients. *)
Hypothesis still_guar : ∀ k k', still k k' → Guar k k'.
Hypothesis still_inv : ∀ k k', still k k' → Inv k → Inv k'.
Hypothesis still_keeps : ∀ k k', still k k' → P k → P k'.
Hypothesis P_stable : ∀ k k', P k → Rely k k' → P k'.
Local Abbreviation until m Q := (holds_until Inv Rely Guar P m Q).
Local Abbreviation guards m := (holds_until Inv Rely Guar P m (λ _, P)).

Lemma still_guards {A} (m : proc State exn A) : (∀ P, keeps (on_clients P) m) → guards (sync m).
Proof using still_guar still_inv still_keeps.
  intros Hm. apply until_sync. intros k HI HP.
  assert (still k (put (m (view k)).2 k)) as Hk.
  { eexists. split; [done|].
    pose proof (Hm (λ c f, c = clients (view k) ∧ f = d_sessions (view k)) (view k) (conj eq_refl eq_refl)) as H.
    unfold on_clients in *. by destruct (m (view k)) as [[] d']. }
  split_and!; [by apply still_guar|by eapply still_inv|by eapply still_keeps].
Qed.

Ltac still := apply still_guards; intros; keeping.
Ltac guards_ := repeat (guarding; try still).

Hint Resolve get_database_keeps set_replicas_keeps wait_keeps new_database_keeps : hoare.

Lemma fetch_loop_guards name servers : guards (fetch_loop_async name servers).
Proof.
  induction servers as [|sd servers IH]; cbn [fetch_loop_async];
    unfold fetch_from_async, awaited; guards_.
Qed.
Hint Resolve fetch_loop_guards : guard.

Lemma fetchReplicas_guards name : guards (fetchReplicas_async name).
Proof. unfold fetchReplicas_async. guards_. Qed.
Hint Resolve fetchReplicas_guards : guard.

Lemma database_get_guards name : guards (database_get_async name).
Proof. unfold database_get_async. guards_. Qed.
Hint Resolve database_get_guards : guard.

Lemma seekPrimaryReplica_guards r : guards (seekPrimaryReplica_async r).
Proof.
  unfold seekPrimaryReplica_async. guards_. generalize FETCH_REPLICAS_MAX_RETRIES.
  intros n. induction n as [|n IH]; cbn [seek_loop_async]; unfold awaited; guards_.
Qed.
Hint Resolve seekPrimaryReplica_guards : guard.

Section tasks.
Context {A : Type} (t : atask W C A) (Q : A → K → Prop).
Hypothesis Q_stable : ∀ a k k', Q a k → Rely k k' → Q a k'.
Hypothesis task_until : ∀ sd db, until (t sd db) Q.
Hint Resolve task_until : guard.

Lemma run_task_until replica : until (run_task_async t replica) Q.
Proof. unfold run_task_async. guards_. Qed.
Hint Resolve run_task_until : guard.

Lemma any_loop_until reps : until (any_loop_async t reps) Q.
Proof. induction reps as [|rep reps IH]; cbn [any_loop_async]; guards_. Qed.
Hint Resolve any_loop_until : guard.

Lemma runOnPrimaryReplica_until r : until (runOnPrimaryReplica_async r t) Q.
Proof.
  unfold runOnPrimaryReplica_async, ensure_primary_async. guards_.
  generalize PRIMARY_REPLICA_TASK_MAX_RETRIES. intros n.
  induction n as [|n IH]; cbn [primary_loop_async]; unfold awaited; guards_.
Qed.
Hint Resolve runOnPrimaryReplica_until : guard.

(** A task on some replica keeps what each attempt keeps, and ends as an attempt
    ends. *)
Lemma runFailsafe_until r : until (runFailsafe_async r t) Q.
Proof. unfold runFailsafe_async, runOnAnyReplica_async. guards_. Qed.
End tasks.

Lemma manager_get_guards name : guards (manager_get_async name).
Proof.
  unfold manager_get_async, manager_contains_async, manager_runFailsafe_async. guards_.
  match goal with |- holds_until _ _ _ _ (manager_loop_async _ _ ?l ?e) _ =>
    generalize e; induction l as [|sd servers IH] end;
    intros errors; cbn [manager_loop_async]; unfold contains_call_async, awaited; guards_.
  apply runOnPrimaryReplica_until; guards_.
Qed.
End guaranteed.

(** ** A concrete run *)

(** A server whose first answer names a primary replica and whose later ones
    name none. *)
#[local] Instance wavering_server : GRPCStub nat := {|
  databases_get := λ _ _ _ n,
    (Ret (Some (mkDatabaseProto "db" [mkReplicaProto "a" 1 (bool_decide (n = 0)) true])), S n);
  databases_contains := λ _ _ _ n, (Ret true, n);
  session_open := λ _ _ _ n, (Throw down, n); session_close := λ _ _ _ n, (Ret tt, n);
  session_pulse := λ _ _ _ n, (Ret true, n);
  connection_open := λ _ _ _ n, (Ret tt, n); servers_all := λ _ _ _ n, (Ret ["a"], n);
  databases_create := λ _ _ _ n, (Ret tt, n); databases_all := λ _ _ _ n, (Ret [], n);
  database_delete := λ _ _ _ n, (Ret tt, n); database_schema := λ _ _ _ n, (Ret "define", n);
  database_type_schema := λ _ _ _ n, (Ret "", n); database_rule_schema := λ _ _ _ n, (Ret "", n);
  users_all := λ _ _ _ n, (Ret [], n); users_contains := λ _ _ _ n, (Ret false, n);
  users_create := λ _ _ _ n, (Ret tt, n); users_delete := λ _ _ _ n, (Ret tt, n);
  users_password_set := λ _ _ _ n, (Ret tt, n); users_get := λ _ _ _ n, (Ret None, n);
  user_password_update := λ _ _ _ n, (Ret tt, n); user_token := λ _ _ _ n, (Ret "", n);
  grpc_transaction := λ _ _ n, (Ret tt, n);
|}.

(** A database that no primary replica is known of. *)
Definition leaderless : Driver nat unit :=
  mkDriver (mkWorld 0 [mkStub "a" None None false] []) true true [("a", sd_a)] {[ "db" := 0 ]} ∅
    [mkDatabase "db" [mkReplica "a" (mkServerDatabase "db" (Some sd_a)) 1 false true]] 0 tt.

Definition delete_async (r : nat) : acomp (Driver nat unit) exn unit :=
  runOnPrimaryReplica_async r (λ _ db, awaited (sdb_delete db)).

(** Two tasks on the primary replica of one database object: the search of the
    second replaces the replicas between the end of the first one's search and
    its next look at them, and the first ends in a TypeError. By itself it
    succeeds. *)
Example primary_lost_between_awaits :
  (uninterrupted (delete_async 0) leaderless).1 = Ret tt ∧
  let p := wake 0 (wake 1 (wake 1 (wake 0 (wake 0
    (spawn (delete_async 0) (spawn (delete_async 0) ([], leaderless))))))) in
  match p.1 !! 0 with Some (Done o) => Some o | _ => None end = Some (Throw (type_error "server")).
Proof. split; vm_compute; reflexivity. Qed.
