(* ===== verification/SessionAsync.v ===== *)
(** * Sessions, step by step

    The methods of [connection/TypeDBSessionImpl.ts] as asynchronous functions
    that are interleaved at their awaits: calls of [transaction], [close] and
    the others that overlap, with the pulses among them. Run without
    interruption a method is the computation of [Session.v]. In every
    interleaving, a transaction that the session handed out stays in its set
    until it is closed, and [close] closes all that were there when it was
    called, whatever else is called before it ends. At the end of the file,
    interleavings that go wrong are run. *)
From S2P Require Import Prelude Errors Bytes Proto RequestBuilder BlockingQueue Dispatcher Collector BiStream BiStreamSpec Options Transaction Stub Database Managers DriverImpl Session Hoare Reconnect Async DatabaseAsync.
Local Open Scope string_scope.
Local Open Scope list_scope.

(** Opening a transaction opens none that was closed. *)
Class OpeningLaws (X : Type) {T : TransactionOps X} : Prop :=
  txop_open_keeps : ∀ st connection id type_ options latency r x,
    txop_closed r x = true →
    txop_closed r (txop_open st connection id type_ options latency x).2 = true.

Section session_async.
Context {W X : Type} {G : GRPCStub W} {T : TransactionOps X}.
Context (clock : nat → Z).
(** The turns that a loop over a collection makes at most while the collection
    grows. *)
Context (turns : nat).

Local Abbreviation State := (Driver W (Clients X)).
Local Abbreviation sproc := (proc State exn).
Local Abbreviation aproc := (acomp State exn).

(** ** Loops over what others change *)

(** [for (const callback of callbacks) await callback()]: the array is read
    again at each turn. *)
Fixpoint run_callbacks_async (callbacks : Session → list session_callback) (n i : nat)
    : aproc unit :=
  match n with
  | 0 => sync pending
  | S n' =>
      sync get_session ≫= λ s,
      match callbacks s !! i with
      | Some callback =>
          awaited (run_callback callback) ≫= λ _, run_callbacks_async callbacks n' (S i)
      | None => mret tt
      end
  end.

(** [tx.close()] *)
Definition close_transaction_async (tx : nat) : aproc unit :=
  awaited (on_transactions (txop_close tx)) ≫= λ _,
  sync (modify_session (λ s, set_transactions
    (List.filter (λ t, negb (bool_decide (t = tx))) (s_transactions s)) s)).

(** [for (const tx of this._transactions) await tx.close()]: the iterator of a
    set goes on to the next member in order of insertion, skips those that
    were deleted and comes to those that were added. *)
Fixpoint close_transactions_async (n : nat) (visited : list nat) : aproc unit :=
  match n with
  | 0 => sync pending
  | S n' =>
      sync get_session ≫= λ s,
      match List.find (λ t, negb (bool_decide (t ∈ visited))) (s_transactions s) with
      | Some tx =>
          await (close_transaction_async tx) ≫= λ _, close_transactions_async n' (tx :: visited)
      | None => mret tt
      end
  end.

(** ** Methods *)

Definition closeResources_async : aproc unit :=
  sync (modify_session (set_open false)) ≫= λ _,
  close_transactions_async turns [] ≫= λ _,
  run_callbacks_async s_onClose turns 0 ≫= λ _,
  sync (modify (λ d, closeSession (s_id (session (clients d))) d)) ≫= λ _,
  sync clear_pulse.

Definition close_async : aproc unit :=
  sync get_session ≫= λ s,
  if s_isOpen s then
    await closeResources_async ≫= λ _,
    sync get_session ≫= λ s,
    sync (lift_outcome (Session_closeReq (s_id s))) ≫= λ req,
    sync (stub_of (s_serverDriver s)) ≫= λ st,
    awaited (call (sessionClose st req))
  else mret tt.

Definition openAt_async (sd : option ServerDriver) : aproc unit :=
  sync get_session ≫= λ s,
  let openReq := Session_openReq (s_databaseName s) (s_type s) (options_proto (s_options s)) in
  sync (getMilliseconds clock) ≫= λ start,
  sync (stub_of sd) ≫= λ st,
  awaited (call (sessionOpen st openReq)) ≫= λ res,
  sync (getMilliseconds clock) ≫= λ end_,
  sync (modify_session (λ s,
    mkSession (s_databaseName s) (s_type s) (s_options s)
      ("0x" ++ buffer_to_hex (session_id res))%string (s_database s) true sd (s_pulse s)
      (network_latency start end_ res) (s_transactions s) (s_onClose s) (s_onReopen s)
      (s_called s))) ≫= λ _,
  sync schedule_pulse.

Definition reopenAt_async (sd : option ServerDriver) : aproc unit :=
  await (openAt_async sd) ≫= λ _, run_callbacks_async s_onReopen turns 0.

Definition open_async : aproc unit :=
  sync get_session ≫= λ s,
  sync require_open ≫= λ _,
  await (manager_get_async (s_databaseName s)) ≫= λ db,
  match db with
  | CachedDatabase r =>
      sync (modify_session (set_database r)) ≫= λ _,
      await (runFailsafe_async r (λ sd _, openAt_async sd))
  | Inherited _ => sync (throw (JsError "TypeError" "this._database.runFailsafe is not a function"))
  end.

(** [transaction.open()]: the stub is read and asked for a stream at once, the id
    and the latency are read when the stream is connected. *)
Definition open_transaction_async (type_ : TransactionTypeProto) (options : TypeDBOptions)
    : aproc nat :=
  sync get_session ≫= λ s,
  sync (stub_of (s_serverDriver s)) ≫= λ st,
  sync (settled (call (stub_transaction st))) ≫= λ connection,
  await (mret tt) ≫= λ _,
  sync get_session ≫= λ s,
  awaited (on_transactions (txop_open st connection (s_id s) type_ options (s_latency s))).

Definition database_runFailsafe_async {A} (db : option nat) (t : atask W (Clients X) A) : aproc A :=
  match db with
  | Some r => runFailsafe_async r t
  | None => sync (throw (type_error "runFailsafe"))
  end.

Definition transaction_async (type_ : TransactionTypeProto) (options : option TypeDBOptions)
    : aproc nat :=
  sync get_session ≫= λ s,
  if negb (s_isOpen s) then sync (throw (TypeDBDriverError (ArgTemplate SESSION_CLOSED)))
  else
    let options := default no_options options in
    atry (await (open_transaction_async type_ options)) (λ _,
      await close_async ≫= λ _,
      sync get_session ≫= λ s,
      await (database_runFailsafe_async (s_database s) (λ sd _,
        await (reopenAt_async sd) ≫= λ _, await (open_transaction_async type_ options)))) ≫= λ tx,
    sync (add_transaction tx) ≫= λ _, mret tx.

Definition pulse_async : aproc unit :=
  sync get_session ≫= λ s,
  if negb (s_isOpen s) then mret tt
  else
    sync (lift_outcome (Session_pulseReq (s_id s))) ≫= λ req,
    atry
      (sync (stub_of (s_serverDriver s)) ≫= λ st,
       awaited (call (sessionPulse st req)) ≫= λ isAlive : bool,
       if negb isAlive then await closeResources_async else sync schedule_pulse)
      (λ _, sync (modify_session (set_open false))).

(** [TypeDBDriverImpl.session] *)
Definition driver_session_async (ref : nat) : aproc unit :=
  sync require_open ≫= λ _,
  await open_async ≫= λ _,
  sync get_session ≫= λ s,
  sync (gets (λ d, d_sessions d !! s_id s)) ≫= λ taken_by,
  match taken_by with
  | Some _ => sync (throw (driver_error SESSION_ID_EXISTS [s_id s]))
  | None =>
      sync (modify (λ d, mkDriver (d_world d) (d_isOpen d) (d_isCloud d) (d_serverDrivers d)
        (d_database_cache d) (<[s_id s := ref]> (d_sessions d)) (d_databases d) (waits d)
        (clients d)))
  end.
End session_async.

(** ** Without interruption *)

Section uninterrupted.
Context {W X : Type} {G : GRPCStub W} {T : TransactionOps X}.
Context (clock : nat → Z) (turns : nat).
Local Abbreviation State := (Driver W (Clients X)).
Local Abbreviation sproc := (proc State exn).

(** The transactions of a set, once each, and the callbacks are few enough for
    the loops. *)
Definition few (s : Session) : Prop :=
  NoDup (s_transactions s) ∧ length (s_transactions s) < turns ∧
  length (s_onClose s) < turns ∧ length (s_onReopen s) < turns.

Context (on_close on_reopen : list session_callback).
Hypothesis on_close_few : length on_close < turns.
Hypothesis on_reopen_few : length on_reopen < turns.

Definition steady (c : Clients X) (_ : gmap string nat) : Prop :=
  let s := session c in
  NoDup (s_transactions s) ∧ length (s_transactions s) < turns ∧
  s_onClose s = on_close ∧ s_onReopen s = on_reopen.
Local Abbreviation P := (on_clients (W := W) steady).
Local Abbreviation runs f m := (runs_as P f m P).

Lemma filter_le {A} (f : A → bool) l : length (List.filter f l) <= length l.
Proof. induction l as [|x l IH]; cbn; [done|]. destruct (f x); cbn; lia. Qed.

Lemma filter_NoDup {A} (f : A → bool) (l : list A) : NoDup l → NoDup (List.filter f l).
Proof. rewrite !NoDup_ListNoDup. apply List.NoDup_filter. Qed.

Lemma modify_session_steady f :
  (∀ s, s_transactions (f s) = s_transactions s) → (∀ s, s_onClose (f s) = s_onClose s) →
  (∀ s, s_onReopen (f s) = s_onReopen s) → keeps P (modify_session f).
Proof. intros H1 H2 H3. apply keeps_modify. intros d. unfold on_clients, steady. cbn. by rewrite H1, H2, H3. Qed.

Lemma on_transactions_steady {A} (m : proc X exn A) : keeps P (on_transactions m).
Proof. intros d Hd. unfold on_transactions. by destruct (m _) as [[] x]. Qed.

Lemma forget_transaction_steady tx : keeps P (modify_session (λ s, set_transactions
  (List.filter (λ t, negb (bool_decide (t = tx))) (s_transactions s)) s)).
Proof.
  apply keeps_modify. intros d (H1 & H2 & H3 & H4). unfold on_clients, steady in *. cbn in *.
  split_and!; [by apply filter_NoDup| |done..].
  eapply Nat.le_lt_trans; [apply filter_le|done].
Qed.

Lemma getMilliseconds_steady : keeps P (getMilliseconds clock).
Proof. by intros d Hd. Qed.
Lemma schedule_pulse_steady : keeps P schedule_pulse.
Proof. by intros d Hd. Qed.
Lemma get_session_steady : keeps P get_session.
Proof. apply keeps_gets. Qed.
Lemma clear_pulse_steady : keeps P clear_pulse.
Proof. by apply keeps_modify. Qed.
Lemma run_callback_steady cb : keeps P (run_callback cb).
Proof. unfold run_callback. keeping. by apply modify_session_steady. Qed.
Hint Resolve run_callback_steady on_transactions_steady forget_transaction_steady getMilliseconds_steady
  schedule_pulse_steady get_session_steady clear_pulse_steady : hoare.

Ltac runs_ := repeat (running; try (apply keeps_spec; keeping)).

(** The loop over the callbacks goes through those that are left. *)
Lemma run_callbacks_runs callbacks l n i :
  (∀ c f, steady c f → callbacks (session c) = l) → i <= length l → length l < i + n →
  runs (run_callbacks_async callbacks n i) (run_callbacks (drop i l)).
Proof.
  intros Hl. revert i. induction n as [|n IH]; intros i Hi Hn; [lia|]. intros d Hd.
  cbn [run_callbacks_async]. rewrite (uninterrupted_bind _ _ d), proc_bind_eq. cbn.
  rewrite (Hl _ (d_sessions d) Hd). destruct (l !! i) as [cb|] eqn:Hcb.
  - rewrite (drop_S _ _ _ Hcb). change (run_callbacks (cb :: drop (S i) l))
      with ((run_callback cb : sproc unit) ≫= λ _, run_callbacks (drop (S i) l)).
    apply lookup_lt_Some in Hcb. revert d Hd. change (runs
      (awaited (run_callback cb) ≫= λ _, run_callbacks_async callbacks n (S i))
      (run_callback cb ≫= λ _, run_callbacks (drop (S i) l))). runs_. apply IH; lia.
  - apply lookup_ge_None in Hcb. by rewrite drop_ge.
Qed.

Lemma close_transaction_runs tx : runs (close_transaction_async tx) (close_transaction tx).
Proof. unfold close_transaction_async, close_transaction. runs_. Qed.

(** Closing a transaction takes it out of the set. *)
Lemma close_transaction_set tx (d : State) d' :
  close_transaction tx d = (Ret tt, d') → s_transactions (session (clients d')) =
    List.filter (λ t, negb (bool_decide (t = tx))) (s_transactions (session (clients d))).
Proof.
  unfold close_transaction. rewrite proc_bind_eq. unfold on_transactions.
  destruct (txop_close tx _) as [[u|e|] x]; [|done..]. by intros [= <-].
Qed.

(** The members that the iterator has yet to visit. *)
Definition unvisited (visited l : list nat) : list nat :=
  List.filter (λ t, negb (bool_decide (t ∈ visited))) l.

Lemma unvisited_cons visited l tx :
  List.find (λ t, negb (bool_decide (t ∈ visited))) l = Some tx → NoDup l →
  unvisited visited l = tx :: unvisited (tx :: visited)
    (List.filter (λ t, negb (bool_decide (t = tx))) l).
Proof.
  unfold unvisited. rewrite filter_filter.
  rewrite (List.filter_ext (λ x, negb (bool_decide (x = tx)) && negb (bool_decide (x ∈ tx :: visited)))
    (λ x, negb (bool_decide (x ∈ visited)) && negb (bool_decide (x = tx)))); cycle 1.
  { intros t. rewrite (bool_decide_ext (t ∈ tx :: visited) (t = tx ∨ t ∈ visited)) by apply elem_of_cons.
    by repeat case_bool_decide; naive_solver. }
  induction l as [|t l IH]; [done|]. cbn. rewrite NoDup_cons. intros Hf [Ht Hl].
  destruct (bool_decide (t ∈ visited)) eqn:Hv; cbn in *; [by rewrite IH|].
  injection Hf as ->. rewrite bool_decide_eq_true_2 by done. cbn. f_equal.
  apply List.filter_ext_in. intros t' Ht'%list_elem_of_In.
  rewrite (bool_decide_eq_false_2 (t' = tx)) by by intros ->. cbn. by rewrite andb_true_r.
Qed.

Lemma unvisited_nil visited l :
  List.find (λ t, negb (bool_decide (t ∈ visited))) l = None → unvisited visited l = [].
Proof.
  unfold unvisited. induction l as [|t l IH]; [done|]. cbn. by destruct (bool_decide _).
Qed.

Lemma unvisited_none l : unvisited [] l = l.
Proof. unfold unvisited. induction l as [|t l IH]; [done|]. cbn. by rewrite IH. Qed.

(** The loop over the transactions closes those of the set at its start. *)
Lemma close_transactions_runs n visited (d : State) :
  P d → length (unvisited visited (s_transactions (session (clients d)))) < n →
  let m := for_each close_transaction (unvisited visited (s_transactions (session (clients d)))) in
  uninterrupted (close_transactions_async n visited) d = m d ∧ P (m d).2.
Proof.
  revert visited d. induction n as [|n IH]; intros visited d Hd Hn; [lia|].
  cbn [close_transactions_async]. rewrite (uninterrupted_bind _ _ d), proc_bind_eq. cbn -[unvisited].
  destruct (List.find _ _) as [tx|] eqn:Hf; [|by rewrite (unvisited_nil _ _ Hf)].
  pose proof (unvisited_cons _ _ _ Hf (proj1 Hd)) as Hu. rewrite Hu in *. cbn [for_each length] in *.
  rewrite (uninterrupted_bind _ _ d), !proc_bind_eq, (uninterrupted_await _ d).
  destruct (close_transaction_runs tx d Hd) as [-> HP].
  destruct (close_transaction tx d) as [[[]|e|] d'] eqn:Hc; [|done..].
  rewrite <- (close_transaction_set _ _ _ Hc) in *. apply IH; [done|lia].
Qed.

Lemma modify_closeSession_steady : keeps P (modify (λ d, closeSession (s_id (session (clients d))) d) : sproc unit).
Proof. by apply keeps_modify. Qed.
Hint Resolve modify_closeSession_steady : hoare.

Lemma closeResources_runs : runs (closeResources_async turns) closeResources.
Proof.
  unfold closeResources_async, closeResources. apply runs_bind_keep.
  { apply runs_sync_keep, keeps_spec. by apply modify_session_steady. }
  intros _. apply runs_read. intros d Hd. rewrite (proj1 (proj2 (proj2 Hd))).
  apply (runs_bind _ P); [| |done].
  - intros d' ->. pose proof (close_transactions_runs turns [] d Hd) as H.
    rewrite unvisited_none in H. apply H, Hd.
  - intros _. apply runs_bind_keep.
    { apply (run_callbacks_runs s_onClose on_close turns 0); [by intros c f (_ & _ & ? & _)|lia|done]. }
    intros _. runs_.
Qed.
Hint Resolve closeResources_runs : runs.

Lemma close_runs : runs (close_async turns) session_close_op.
Proof. unfold close_async, session_close_op. runs_. Qed.
Hint Resolve close_runs : runs.

Lemma openAt_runs sd : runs (openAt_async clock sd) (openAt clock sd).
Proof. unfold openAt_async, openAt. runs_. Qed.
Hint Resolve openAt_runs : runs.

Lemma reopenAt_runs sd : runs (reopenAt_async clock turns sd) (reopenAt clock sd).
Proof.
  unfold reopenAt_async, reopenAt. runs_. apply runs_read. intros d Hd.
  rewrite (proj2 (proj2 (proj2 Hd))). apply (runs_conseq _ P _ P); [|by intros ? ->|done].
  apply (run_callbacks_runs s_onReopen on_reopen turns 0); [by intros c f (_ & _ & _ & ?)|lia|done].
Qed.
Hint Resolve reopenAt_runs : runs.

Lemma open_runs : runs (open_async clock) (session_open_op clock).
Proof.
  unfold open_async, session_open_op. runs_; [apply manager_get_runs|].
  apply runFailsafe_runs. runs_.
Qed.

Lemma open_transaction_runs type_ options :
  runs (open_transaction_async type_ options) (open_transaction type_ options).
Proof.
  unfold open_transaction_async, open_transaction. apply runs_get. intros d Hd.
  apply (runs_bind _ (λ d', d' = d)); [| |by intros ? ->].
  { apply runs_sync. intros d' ->. by destruct (s_serverDriver _). }
  intros st. apply (runs_bind _ (λ d', P d' ∧ clients d' = clients d)); [| |by intros ? [? _]].
  { apply runs_sync. intros d' ->. unfold settled, on_clients. cbn.
    pose proof (call_clients (stub_transaction st) d) as Hc. by destruct (call _ d); cbn in *; rewrite Hc. }
  intros connection d' [Hd' Hc]. rewrite <- Hc.
  rewrite (uninterrupted_bind _ _ d'), proc_bind_eq. cbn.
  rewrite (uninterrupted_bind _ _ d'), proc_bind_eq. cbn.
  apply (runs_awaited P P); [|done]. apply keeps_spec, on_transactions_steady.
Qed.
Hint Resolve open_transaction_runs : runs.

Lemma transaction_runs type_ options (d : State) : P d →
  uninterrupted (transaction_async clock turns type_ options) d = transaction clock type_ options d.
Proof.
  revert d. enough (runs_as P (transaction_async clock turns type_ options)
    (transaction clock type_ options) (λ _, True)) as H by apply H.
  unfold transaction_async, transaction. apply runs_get. intros d Hd. destruct (negb _); [done|].
  apply (runs_bind _ P); [|intros tx; by apply (runs_bind _ (λ _, True)); [by apply runs_sync|..]|done].
  apply (runs_conseq _ P _ P); [|by intros ? ->|done]. runs_.
  unfold database_runFailsafe_async, database_runFailsafe. runs_.
  apply runFailsafe_runs. runs_.
Qed.

Lemma pulse_runs : runs (pulse_async turns) pulse.
Proof. unfold pulse_async, pulse. runs_. Qed.

Lemma driver_session_runs ref (d : State) : P d →
  uninterrupted (driver_session_async clock ref) d = driver_session clock ref d.
Proof.
  intros Hd. enough (runs_as P (driver_session_async clock ref)
    (driver_session clock ref) P) as H by by apply H.
  unfold driver_session_async, driver_session. runs_. apply open_runs.
Qed.
End uninterrupted.

(** The methods of a session, run without interruption from one [await] to
    the next, do what the computations of the session model do, in every
    state: [transaction] with its reconnection, [close], [pulse], and the
    driver's [session]. The loops over live collections end after as many
    turns as there are members. *)
Theorem methods_uninterrupted {W X : Type} {G : GRPCStub W} {T : TransactionOps X}
    (clock : nat → Z) (turns : nat) (type_ : TransactionTypeProto) (options : option TypeDBOptions)
    (ref : nat) (d : Driver W (Clients X)) (Hfew : few turns (session (clients d))) :
  uninterrupted (transaction_async clock turns type_ options) d = transaction clock type_ options d ∧
  uninterrupted (close_async turns) d = session_close_op d ∧
  uninterrupted (pulse_async turns) d = pulse d ∧
  uninterrupted (driver_session_async clock ref) d = driver_session clock ref d.
Proof.
  destruct Hfew as (H1 & H2 & H3 & H4). assert (on_clients (steady turns
    (s_onClose (session (clients d))) (s_onReopen (session (clients d)))) d) as HP by done.
  split_and!; [eapply transaction_runs|eapply close_runs|eapply pulse_runs|eapply driver_session_runs];
    try exact HP; assumption.
Qed.

(** ** Among other functions *)

Section interleaved.
Context {W X : Type} {G : GRPCStub W} {T : TransactionOps X}.
Context {TL : TransactionLaws X} {OL : OpeningLaws X}.
Context (clock : nat → Z) (turns : nat).
Local Abbreviation State := (Driver W (Clients X)).
Local Abbreviation sproc := (proc State exn).
Local Abbreviation aproc := (acomp State exn).

Definition transactions_of (d : State) : list nat := s_transactions (session (clients d)).
Definition is_closed (d : State) (tx : nat) : Prop := txop_closed tx (transactions (clients d)) = true.

(** The session still has the transaction, or it is closed. *)
Definition tracked (d : State) (tx : nat) : Prop := tx ∈ transactions_of d ∨ is_closed d tx.

(** What a step of any method guarantees: transactions that are closed stay
    closed, and the session loses only closed ones. *)
Definition progress (d d' : State) : Prop :=
  (∀ tx, is_closed d tx → is_closed d' tx) ∧ ∀ tx, tx ∈ transactions_of d → tracked d' tx.

#[export] Instance progress_preorder : PreOrder progress.
Proof.
  split.
  - intros d. split; [done|by left].
  - intros d1 d2 d3 [H1 K1] [H2 K2]. split; [auto|]. intros tx Htx.
    destruct (K1 tx Htx); [auto|right; auto].
Qed.

Lemma tracked_progress d d' tx : tracked d tx → progress d d' → tracked d' tx.
Proof. intros [H|H] [H1 H2]; [by apply H2|right; by apply H1]. Qed.

Lemma closed_progress d d' tx : is_closed d tx → progress d d' → is_closed d' tx.
Proof. intros H [H1 _]. by apply H1. Qed.

(** A step that changes neither the set nor the transactions. *)
Definition quiet {A} (m : sproc A) : Prop := ∀ d, let d' := (m d).2 in
  transactions_of d' = transactions_of d ∧ transactions (clients d') = transactions (clients d).

Lemma quiet_progress {A} (m : sproc A) d : quiet m → progress d (m d).2.
Proof.
  intros Hm. destruct (Hm d) as [H1 H2]. unfold progress, tracked, is_closed. rewrite H1, H2.
  split; [done|by left].
Qed.

Lemma frame_quiet {A} (m : sproc A) : (∀ P, keeps (on_clients P) m) → quiet m.
Proof.
  intros Hm d. unfold transactions_of.
  pose proof (Hm (λ c _, c = clients d) d eq_refl) as H. unfold on_clients in H.
  by destruct (m d) as [[] d']; cbn in *; rewrite H.
Qed.

Lemma modify_session_quiet f :
  (∀ s, s_transactions (f s) = s_transactions s) → quiet (modify_session f).
Proof. intros Hf d. unfold transactions_of. cbn. by rewrite Hf. Qed.

(** *** Steps that keep an assertion *)

Section keeping.
Context (P : State → Prop) (P_stable : ∀ d d', P d → progress d d' → P d').
Local Abbreviation until m Q := (holds_until (on_clients (W := W) (λ _ _, True)) progress progress P m Q).
Local Abbreviation guards m := (until m (λ _, P)).

Lemma progress_guards {A} (m : sproc A) :
  (∀ d, progress d (m d).2) → guards (sync m).
Proof using P_stable. intros Hm. apply until_sync. intros d _ HP. split_and!; [by apply Hm|done|by eauto]. Qed.

Lemma quiet_guards {A} (m : sproc A) : quiet m → guards (sync m).
Proof using P_stable. intros Hm. apply progress_guards. intros d. by apply quiet_progress. Qed.

(** Closing a transaction, which is then closed and leaves the set. *)
Lemma close_transaction_guards tx :
  until (close_transaction_async tx) (λ _ d, P d ∧ is_closed d tx).
Proof using P_stable TL.
  apply (async_bind _ _ _ _ _ _ (λ _ d, P d ∧ is_closed d tx)).
  - apply until_await; [typeclasses eauto|done|intros _ d d' [H1 H2]; eauto using closed_progress|].
    apply async_sync. intros d _ HP. unfold on_transactions, on_clients.
    pose proof (txop_close_closes tx (transactions (clients d))) as Hc.
    pose proof (λ t, txop_close_keeps tx t (transactions (clients d))) as Hk.
    destruct (txop_close tx _) as [o x]. cbn in *.
    match goal with |- progress d ?d' ∧ _ => assert (progress d d') as HG end.
    { split; [intros t; apply Hk|by left]. }
    split_and!; [done|done|]. destruct o as [[]|e|]; [|by eauto..]. split; [by eauto|by apply Hc].
  - intros _. apply async_sync. intros d _ [HP Hc]. cbn.
    match goal with |- progress d ?d' ∧ _ => assert (progress d d') as HG end.
    { split; [done|]. intros t Ht. unfold tracked, transactions_of. cbn.
      destruct (decide (t = tx)) as [->|Hne]; [by right|left].
      apply list_elem_of_In, List.filter_In. split; [by apply list_elem_of_In|].
      by rewrite bool_decide_eq_false_2. }
    split_and!; [done|done|by eauto|by eauto using closed_progress].
Qed.

Lemma close_transaction_keeps tx : guards (close_transaction_async tx).
Proof using P_stable TL.
  eapply async_conseq; [apply (close_transaction_guards tx)|done|by intros _ d [? _]|done].
Qed.

Lemma on_transactions_open_guards st connection id type_ options latency :
  guards (sync (on_transactions (txop_open st connection id type_ options latency))).
Proof using P_stable OL.
  apply progress_guards. intros d. unfold on_transactions.
  pose proof (λ t, txop_open_keeps st connection id type_ options latency t (transactions (clients d))) as Hk.
  destruct (txop_open _ _ _ _ _ _ _) as [o x]. split; [intros tx; apply Hk|by left].
Qed.

Lemma add_transaction_guards tx :
  until (sync (add_transaction tx)) (λ _ d, P d ∧ tracked d tx).
Proof using P_stable.
  apply async_sync. intros d _ HP. cbn.
  match goal with |- progress d ?d' ∧ _ => assert (progress d d') as HG end.
  { split; [done|]. intros t Ht. left. unfold transactions_of. cbn.
    case_bool_decide; [done|]. apply elem_of_app. by left. }
  split_and!; [done|done|by eauto|]. left. unfold transactions_of. cbn.
  case_bool_decide; [done|]. apply elem_of_app. right. by apply list_elem_of_singleton.
Qed.

Hint Resolve close_transaction_keeps on_transactions_open_guards : guard.

Ltac quietly :=
  apply quiet_guards;
  first [ by intros | apply modify_session_quiet; by intros
        | solve [apply frame_quiet; intros; keeping] ].
Ltac guards_ := unfold awaited; repeat (guarding; try quietly).

Lemma run_callbacks_guards callbacks n i : guards (run_callbacks_async callbacks n i).
Proof using P_stable. revert i. induction n as [|n IH]; intros i; cbn [run_callbacks_async]; guards_. Qed.
Hint Resolve run_callbacks_guards : guard.

Lemma close_transactions_guards n visited : guards (close_transactions_async n visited).
Proof using P_stable TL.
  revert visited. induction n as [|n IH]; intros visited; cbn [close_transactions_async]; guards_.
Qed.
Hint Resolve close_transactions_guards : guard.

Lemma closeResources_guards : guards (closeResources_async turns).
Proof using P_stable TL. unfold closeResources_async. guards_. Qed.
Hint Resolve closeResources_guards : guard.

Lemma close_guards : guards (close_async turns).
Proof using P_stable TL. unfold close_async. guards_. Qed.
Hint Resolve close_guards : guard.

Lemma openAt_guards sd : guards (openAt_async clock sd).
Proof using P_stable. unfold openAt_async. guards_. Qed.
Hint Resolve openAt_guards : guard.

Lemma reopenAt_guards sd : guards (reopenAt_async clock turns sd).
Proof using P_stable. unfold reopenAt_async. guards_. Qed.
Hint Resolve reopenAt_guards : guard.

Lemma open_transaction_guards type_ options : guards (open_transaction_async type_ options).
Proof using P_stable OL. unfold open_transaction_async. guards_. Qed.
Hint Resolve open_transaction_guards : guard.

Lemma pulse_guards : guards (pulse_async turns).
Proof using P_stable TL. unfold pulse_async. guards_. Qed.
End keeping.

(** *** What the methods come to *)

Local Abbreviation anything := (on_clients (W := W) (λ _ _, True)).
Local Abbreviation triple_ := (async_triple anything progress progress).

Lemma anything_stable (d d' : State) : anything d → progress d d' → anything d'.
Proof. done. Qed.

Lemma anything_holds (d : State) : anything d.
Proof. done. Qed.

Lemma still_progress (d d' : State) : still d d' → progress d d'.
Proof.
  intros (d'' & -> & H & _). cbn in *. unfold progress, tracked, is_closed, transactions_of. rewrite H. split; [done|by left].
Qed.

Hint Resolve anything_holds anything_stable still_progress open_transaction_guards reopenAt_guards close_guards
  openAt_guards pulse_guards : guard.
Ltac quietly :=
  apply quiet_guards; [apply anything_stable|];
  first [ by intros | apply modify_session_quiet; by intros
        | solve [apply frame_quiet; intros; keeping] ].
Ltac guards_ := unfold awaited; repeat (guarding; try quietly).

Lemma add_transaction_tracks tx : holds_until anything progress progress anything
  (sync (add_transaction tx) ≫= λ _, mret tx) (λ tx d, tracked d tx).
Proof.
  eapply async_bind; [typeclasses eauto|apply (add_transaction_guards anything anything_stable)|].
  intros u. apply async_ret; [typeclasses eauto|]. by intros d _ [_ ?].
Qed.
Hint Resolve add_transaction_tracks : guard.

(** A transaction that is handed out is in the set, or closed. *)
Lemma transaction_tracks type_ options :
  triple_ anything (transaction_async clock turns type_ options)
    (λ tx d, tracked d tx) (λ _, True).
Proof.
  eapply (async_conseq _ _ _ _ _ anything _ (λ tx d, tracked d tx) _ anything); [|done..].
  unfold transaction_async, database_runFailsafe_async. guards_. apply runFailsafe_until; guards_.
Qed.

Lemma driver_session_guards ref :
  triple_ anything (driver_session_async clock ref) (λ _, anything) anything.
Proof.
  unfold driver_session_async, open_async. guards_.
  - apply manager_get_guards; guards_.
  - apply runFailsafe_until; guards_.
Qed.

(** The loop over the transactions: those of [l] are tracked and the visited
    ones are closed, until all of [l] are. *)
Definition closing (l visited : list nat) (d : State) : Prop :=
  (∀ tx, tx ∈ l → tracked d tx) ∧ ∀ tx, tx ∈ visited → is_closed d tx.

Lemma closing_stable l visited d d' : closing l visited d → progress d d' → closing l visited d'.
Proof. intros [H1 H2] HG. split; eauto using tracked_progress, closed_progress. Qed.

Definition all_closed (l : list nat) (d : State) : Prop := ∀ tx, tx ∈ l → is_closed d tx.

Lemma all_closed_stable l d d' : all_closed l d → progress d d' → all_closed l d'.
Proof. intros H HG tx Htx. eauto using closed_progress. Qed.

Lemma closing_done l visited d :
  closing l visited d → unvisited visited (transactions_of d) = [] → all_closed l d.
Proof.
  intros [H1 H2] Hu tx Htx. destruct (H1 tx Htx) as [Hin|Hc]; [|done]. apply H2.
  destruct (decide (tx ∈ visited)) as [|Hn]; [done|].
  assert (tx ∈ unvisited visited (transactions_of d)) as Hx.
  { apply list_elem_of_In, List.filter_In. split; [by apply list_elem_of_In|].
    by rewrite bool_decide_eq_false_2. }
  rewrite Hu in Hx. by apply elem_of_nil in Hx.
Qed.

Lemma close_transactions_closes l n visited :
  triple_ (closing l visited) (close_transactions_async n visited) (λ _, all_closed l) (λ _, True).
Proof.
  revert visited. induction n as [|n IH]; intros visited; [by apply async_sync|].
  cbn [close_transactions_async]. apply async_get. intros d Hd.
  destruct (List.find _ _) as [tx|] eqn:Hf.
  - apply (async_bind _ _ _ _ _ _ (λ _, closing l (tx :: visited))); [|intros _; apply IH].
    eapply async_conseq.
    + apply until_await; [typeclasses eauto|apply (closing_stable l visited)| |
        apply (close_transaction_guards _ (closing_stable l visited) tx)].
      intros _ d1 d2 [H1 H2] HG. split; eauto using closing_stable, closed_progress.
    + by intros ? ->.
    + intros _ d1 [[H1 H2] H3]. split; [done|]. by intros t [->|?]%elem_of_cons; [|apply H2].
    + done.
  - apply async_ret; [typeclasses eauto|]. intros ? _ ->. apply (closing_done _ visited); [done|]. by apply unvisited_nil.
Qed.

(** [closeResources] closes all that is tracked when it is called. *)
Lemma closeResources_closes l :
  triple_ (closing l []) (closeResources_async turns) (λ _, all_closed l) (λ _, True).
Proof.
  apply (async_bind _ _ _ _ _ _ (λ _, closing l [])).
  { eapply async_conseq; [apply (quiet_guards _ (closing_stable l []))|done..].
    by apply modify_session_quiet. }
  intros _. apply (async_bind _ _ _ _ _ _ (λ _, all_closed l)); [apply close_transactions_closes|].
  intros _. eapply (async_conseq _ _ _ _ _ (all_closed l) _ (λ _, all_closed l) _ (all_closed l));
    [|done..].
  apply until_bind; [typeclasses eauto|apply run_callbacks_guards, all_closed_stable|].
  intros _. apply until_bind; [typeclasses eauto|intros..]; by apply (quiet_guards _ (all_closed_stable l)).
Qed.

Lemma close_closes l :
  triple_ (λ d, closing l [] d ∧ s_isOpen (session (clients d)) = true) (close_async turns)
    (λ _, all_closed l) (λ _, True).
Proof.
  apply async_get. intros d [Hd Ho]. cbn [view lens_id]. rewrite Ho.
  apply (async_bind _ _ _ _ _ _ (λ _, all_closed l)).
  - apply (async_conseq _ _ _ _ _ (closing l []) _ (λ _, all_closed l) _ (λ _, True));
      [apply async_await_rule|by intros ? ->|done|done];
      [typeclasses eauto|apply (closeResources_closes l)|intros _; apply all_closed_stable|done].
  - intros _. eapply (async_conseq _ _ _ _ _ (all_closed l) _ (λ _, all_closed l) _ (all_closed l));
      [|done..]. pose proof (all_closed_stable l) as Hs. unfold awaited.
    repeat (guarding; try (apply quiet_guards; [done|]; first [done|apply frame_quiet; intros; keeping])).
Qed.

(** *** Interleavings *)

(** A method is called, or a pulse timer fires. *)
Inductive session_call : Type :=
  | CallSession (ref : nat)
  | CallTransaction (type_ : TransactionTypeProto) (options : option TypeDBOptions)
  | CallCloseTransaction (tx : nat)
  | CallClose
  | CallOnClose (cb : session_callback)
  | CallOnReopen (cb : session_callback)
  | FirePulse (t : nat).

Definition fire_pulse_async (t : nat) : aproc unit :=
  sync (gets (λ d, bool_decide (t ∈ pending_timers (clients d)))) ≫= λ pending_ : bool,
  if pending_ then
    sync (modify (λ d, let c := clients d in
      set_clients (mkClients (session c) (transactions c) (readings c)
        (List.filter (λ t', negb (bool_decide (t' = t))) (pending_timers c)) (timers_set c)) d)) ≫= λ _,
    pulse_async turns
  else mret tt.

(** The method that runs; [transaction] hands out a transaction. *)
Definition method (c : session_call) : aproc (option nat) :=
  match c with
  | CallTransaction type_ options =>
      transaction_async clock turns type_ options ≫= λ tx, mret (Some tx)
  | CallSession ref => driver_session_async clock ref ≫= λ _, mret None
  | CallCloseTransaction tx => close_transaction_async tx ≫= λ _, mret None
  | CallClose => close_async turns ≫= λ _, mret None
  | CallOnClose cb => sync (session_onClose cb) ≫= λ _, mret None
  | CallOnReopen cb => sync (session_onReopen cb) ≫= λ _, mret None
  | FirePulse t => fire_pulse_async t ≫= λ _, mret None
  end.

Inductive pool_event : Type := Call (c : session_call) | Wake (i : nat).

Local Abbreviation calls := (pool State exn (option nat)).

Definition pool_step (p : calls) (ev : pool_event) : calls :=
  match ev with
  | Call c => spawn (method c) p
  | Wake i => wake i p
  end.

(** Calls and steps in any order; between them, the transactions and the rest
    of the driver go on, where no closed transaction opens again. *)
Inductive interleaved (p : calls) : calls → Prop :=
  | interleaved_start : interleaved p p
  | interleaved_step q ev : interleaved p q → interleaved p (pool_step q ev)
  | interleaved_elsewhere q d' : interleaved p q →
      session (clients d') = session (clients q.2) →
      (∀ tx, is_closed q.2 tx → is_closed d' tx) → interleaved p (q.1, d').

(** What is known of a result. *)
Definition handed_out (r : option nat) (d : State) : Prop :=
  match r with Some tx => tracked d tx | None => True end.

Lemma handed_out_stable r d d' : handed_out r d → progress d d' → handed_out r d'.
Proof. destruct r; [apply tracked_progress|done]. Qed.

Lemma ignoring {A} (m : aproc A) (P : State → Prop) (Q : A → State → Prop) (P' : State → Prop) :
  triple_ P m Q P' → triple_ P (m ≫= λ _, mret None) handed_out (λ _, True).
Proof.
  intros Hm. eapply (async_bind _ _ _ _ _ _ Q); [by eapply async_conseq|].
  intros a. apply async_ret; [typeclasses eauto|done].
Qed.

Lemma method_well c : triple_ anything (method c) handed_out (λ _, True).
Proof.
  destruct c; cbn [method].
  - eapply ignoring, driver_session_guards.
  - eapply (async_bind _ _ _ _ _ _ (λ tx d, tracked d tx)); [apply transaction_tracks|].
    intros tx. by apply async_ret; [typeclasses eauto|].
  - eapply ignoring, (close_transaction_keeps _ anything_stable).
  - eapply ignoring, (close_guards _ anything_stable).
  - eapply ignoring, (quiet_guards _ anything_stable); by intros d.
  - eapply ignoring, (quiet_guards _ anything_stable); by intros d.
  - eapply (ignoring _ anything (λ _, anything) anything). unfold fire_pulse_async. guards_.
Qed.

(** The transactions that the functions of a pool have returned. *)
Definition handed_out_by (rs : list (async State exn (option nat))) : list nat :=
  omap (λ r, match r with Done (Ret tx) => tx | _ => None end) rs.

Lemma handed_out_by_spec rs tx :
  tx ∈ handed_out_by rs ↔ ∃ i, rs !! i = Some (Done (Ret (Some tx))).
Proof.
  unfold handed_out_by. rewrite list_elem_of_omap. split.
  - intros (r & [i Hi]%list_elem_of_lookup_1 & Hr). exists i.
    destruct r as [[[]| |]|]; naive_solver.
  - intros [i Hi%list_elem_of_lookup_2]. by eexists.
Qed.

(** Every interleaving goes well; of function [k] something more may be known,
    if it was when the function was called. *)
Lemma interleaved_well (Q : nat → option nat → State → Prop) p p' :
  (∀ i r d d', Q i r d → progress d d' → Q i r d') →
  (∀ i r d, length p.1 <= i → handed_out r d → Q i r d) →
  pool_well anything progress progress Q p → interleaved p p' →
  pool_well anything progress progress Q p' ∧ length p.1 <= length p'.1.
Proof.
  intros HQ Hnew Hp Hi. induction Hi as [|q ev Hi [IH1 IH2]|q d' Hi [IH1 IH2] Hs Hc]; [done| |].
  - destruct ev as [c|i]; cbn [pool_step].
    + split; cycle 1.
      { unfold spawn. destruct (method c q.2). cbn. rewrite length_app. lia. }
      apply (pool_well_spawn _ _ _ _ (λ s s' H, H) Q HQ _ anything); [|done..].
      eapply async_conseq; [apply method_well|done| |done]. intros r d. by apply Hnew.
    + split; [apply (pool_well_wake _ _ _ _ (λ s s' H, H) Q HQ); [typeclasses eauto|done]|].
      unfold wake. destruct (q.1 !! i) as [[|f]|]; [done| |done]. destruct (f q.2). cbn.
      by rewrite length_insert.
  - split; [|done]. destruct q as [rs d]. cbn in *.
    apply (pool_well_elsewhere _ _ _ _ Q HQ rs d d'); [done| |done]. split; [done|].
    intros tx Htx. left. unfold transactions_of in *. by rewrite Hs.
Qed.

(** C13 - closing under interleaving: calls of the session's methods overlap in
    any way and pulses fire among them. When [close] is called on the open
    session and has returned, every transaction is closed that the session
    had when it was called, and every one that [transaction] had handed out by
    then, whatever other calls ran in the meantime. *)
Theorem close_closes_handed_out (d0 : State) (p p' : calls) (r : option nat)
    (Hp : interleaved ([], d0) p) (Hopen : s_isOpen (session (clients p.2)) = true)
    (Hp' : interleaved (spawn (method CallClose) p) p')
    (Hend : p'.1 !! length p.1 = Some (Done (Ret r))) :
  (∀ tx, tx ∈ transactions_of p.2 → is_closed p'.2 tx) ∧
  ∀ i tx, p.1 !! i = Some (Done (Ret (Some tx))) → is_closed p'.2 tx.
Proof.
  set (l := transactions_of p.2 ++ handed_out_by p.1).
  enough (all_closed l p'.2) as H.
  { split; [intros tx Htx; apply H, elem_of_app; by left|]. intros i tx Hi.
    apply H, elem_of_app. right. apply handed_out_by_spec. by exists i. }
  destruct (interleaved_well (λ _, handed_out) ([], d0) p) as [[_ Hw] _];
    [intros _; apply handed_out_stable|done|by split; [done|]|done|].
  set (Q := λ i r d, handed_out r d ∧ (i = length p.1 → all_closed l d)).
  assert (∀ i r d d', Q i r d → progress d d' → Q i r d') as HQ.
  { intros i r' d d' [H1 H2] HG. split; eauto using handed_out_stable, all_closed_stable. }
  assert (pool_well anything progress progress Q p) as Hq.
  { split; [done|]. intros i r' Hi. eapply goes_well_conseq; [|done|by apply (Hw i)].
    intros a d Ha. split; [done|]. apply lookup_lt_Some in Hi. lia. }
  apply (pool_well_spawn _ _ _ _ (λ s s' H, H) Q HQ (method CallClose)
    (λ d, closing l [] d ∧ s_isOpen (session (clients d)) = true)) in Hq.
  - apply (interleaved_well Q) with (p' := p') in Hq as [[_ Hw'] _]; [|done| |done].
    + apply (proj2 (Hw' _ _ Hend)). done.
    + intros i r' d Hi Hr. split; [done|]. intros ->. unfold spawn in Hi.
      destruct (method CallClose p.2). cbn in Hi. rewrite length_app in Hi. cbn in Hi. lia.
  - cbn [method]. eapply (async_bind _ _ _ _ _ _ (λ _, all_closed l)); [apply close_closes|].
    intros u. apply async_ret; [typeclasses eauto|]. by split.
  - split; [|done]. split; [|by intros tx ?%elem_of_nil].
    intros tx [Htx|(i & Hi)%handed_out_by_spec]%elem_of_app; [by left|exact (Hw _ _ Hi)].
Qed.
End interleaved.

(** ** Transactions of the driver *)

#[export] Instance heap_opening_laws {U : Uuid} {R P} (show_state : TransactionStreamState → string)
    (answers : list (stream_event R P)) :
  OpeningLaws (T := heap_transactions show_state answers) (list (TypeDBTransactionImpl R P)).
Proof.
  intros st connection id type_ options latency r h. cbn. unfold heap_open. intros Hr.
  destruct (h !! r) as [tx|] eqn:Htx; [|done].
  by destruct (_ ≫= _) as [[a|e|] tx']; cbn; rewrite (lookup_app_l_Some _ _ _ _ Htx).
Qed.

(** ** Concrete runs *)

#[local] Existing Instance half_down.

(** Transactions that are only open or closed, and open on [b] only. *)
#[local] Instance flag_transactions : TransactionOps (list bool) := {|
  txop_open st _ _ _ _ _ := λ l,
    if bool_decide (st = 0) then (Throw (wrapped down), l) else (Ret (length l), l ++ [false]);
  txop_close r := λ l,
    match l !! r with
    | Some _ => (Ret tt, <[r := true]> l)
    | None => (Throw (type_error "close"), l)
    end;
  txop_closed r l := default false (l !! r);
|}.

#[local] Instance flag_laws : TransactionLaws (list bool).
Proof.
  split; cbn.
  - intros r l. destruct (l !! r) eqn:Hr; [|done]. intros _. cbn.
    by rewrite list_lookup_insert_eq by by eapply lookup_lt_Some.
  - intros r r' l. destruct (l !! r) eqn:Hr; [|done]. cbn.
    destruct (decide (r = r')) as [<-|Hne]; [|by rewrite list_lookup_insert_ne].
    by rewrite list_lookup_insert_eq by by eapply lookup_lt_Some.
Qed.

#[local] Instance flag_opening : OpeningLaws (list bool).
Proof.
  intros st connection id type_ options latency r l. cbn. case_bool_decide; [done|]. cbn.
  destruct (l !! r) eqn:Hr; [|done]. by rewrite (lookup_app_l_Some _ _ _ _ Hr).
Qed.

(** A session on server [sd] with a transaction. *)
Definition one_session (sd : ServerDriver) : Driver unit (Clients (list bool)) :=
  mkDriver (mkWorld tt [stub_a; stub_b] []) true true [("a", sd_a); ("b", sd_b)] {[ "db" := 0 ]}
    {[ "0x01" := 0 ]} [mkDatabase "db" [rep_a; rep_b]] 0
    (mkClients (mkSession "db" DATA no_options "0x01" (Some 0) true (Some sd) (Some 0) 1 [0]
         [mkSessionCallback 5 (Ret tt)] [] [])
       [false] 0 [0] 1).

Local Abbreviation run := (foldl (pool_step (λ _, 5%Z) 9)).

Lemma run_interleaved (p : pool (Driver unit (Clients (list bool))) exn (option nat)) evs :
  interleaved (λ _, 5%Z) 9 p (run p evs).
Proof.
  induction evs as [|ev evs IH] using rev_ind; [apply interleaved_start|].
  rewrite foldl_app. by apply interleaved_step.
Qed.

(** A transaction is handed out, another is being opened and a pulse is sent
    when [close] is called; all get their turns until it returns. *)
Definition before_close : list pool_event :=
  Call (CallTransaction READ None) :: repeat (Wake 0) 3 ++
  [Call (CallTransaction WRITE None); Call (FirePulse 0)].
Definition until_closed : list pool_event :=
  [Wake 3; Wake 1; Wake 2; Wake 3; Wake 1; Wake 3; Wake 1; Wake 3; Wake 3; Wake 3; Wake 3; Wake 3;
   Wake 3; Wake 3].

Lemma close_closes_handed_out_witness :
  let p := run ([], one_session sd_b) before_close in
  let p' := run (spawn (method (λ _, 5%Z) 9 CallClose) p) until_closed in
  transactions_of p.2 = [0; 1] ∧ p.1 !! 0 = Some (Done (Ret (Some 1))) ∧
  is_closed p'.2 0 ∧ is_closed p'.2 1.
Proof.
  set (p := run ([], one_session sd_b) before_close).
  set (p' := run (spawn (method (λ _, 5%Z) 9 CallClose) p) until_closed). cbv zeta.
  destruct (close_closes_handed_out (λ _, 5%Z) 9 (one_session sd_b) p p' None) as [H1 H2].
  - apply run_interleaved.
  - vm_compute. reflexivity.
  - apply run_interleaved.
  - vm_compute. reflexivity.
  - split; [vm_compute; reflexivity|]. split; [vm_compute; reflexivity|].
    split; [apply H1; vm_compute; left|]. apply (H2 0). vm_compute. reflexivity.
Defined.

Lemma methods_uninterrupted_witness :
  uninterrupted (close_async 9) (one_session sd_b) = session_close_op (one_session sd_b) ∧
  (session_close_op (one_session sd_b)).1 = Ret tt.
Proof.
  destruct (methods_uninterrupted (λ _, 5%Z) 9 READ None 0 (one_session sd_b)) as (_ & H & _).
  - split; [vm_compute; apply NoDup_singleton|]. split; [vm_compute; lia|].
    split; vm_compute; lia.
  - split; [exact H|vm_compute; reflexivity].
Defined.

(** *** What the code does not prevent *)

(** What is seen of a session: whether it is open, its id, its pulse timer and
    the timers pending, its transactions, and the closed flags of all. *)
Definition seen_of (d : Driver unit (Clients (list bool)))
    : bool * string * option nat * list nat * list nat * list bool :=
  let c := clients d in let s := session c in
  (s_isOpen s, s_id s, s_pulse s, pending_timers c, s_transactions s, transactions c).

Definition ended (p : pool (Driver unit (Clients (list bool))) exn (option nat)) (i : nat)
    : option (outcome exn (option nat)) :=
  match p.1 !! i with Some (Done o) => Some o | _ => None end.

(** [close] that is called while [transaction] reconnects finds the session
    closed and returns at once; the session is open again afterwards. *)
Example close_during_reconnect_does_nothing :
  let p := run ([], one_session sd_a)
    (Call (CallTransaction READ None) :: repeat (Wake 0) 12 ++ [Call CallClose]) in
  let p' := run p (repeat (Wake 0) 12) in
  ended p 1 = Some (Ret None) ∧ ended p' 0 = Some (Ret (Some 1)) ∧
  seen_of p'.2 = (true, "0x0aff", Some 1, [1], [1], [true; false]).
Proof. split_and!; vm_compute; reflexivity. Qed.

(** [close] that awaits the transactions while [transaction] reconnects goes
    on with the new session: it is closed on its server and its pulse timer is
    cleared, the old one is not, and the session counts as open after both
    calls have returned. *)
Example close_ends_in_the_new_session :
  let p := run ([], one_session sd_a)
    ([Call (CallTransaction READ None); Call CallClose; Wake 1] ++ repeat (Wake 0) 24 ++
     repeat (Wake 1) 12) in
  ended p 0 = Some (Ret (Some 1)) ∧ ended p 1 = Some (Ret None) ∧
  seen_of p.2 = (true, "0x0aff", Some 1, [0], [], [true; true]) ∧
  last (rpc_log (d_world p.2)) = Some (mkCall 1 "session_close" []).
Proof. split_and!; vm_compute; reflexivity. Qed.

(** A transaction that is being opened while [close] runs is handed out, open,
    by a session that is closed. *)
Example transaction_of_a_closed_session :
  let p := run ([], one_session sd_b)
    ([Call (CallTransaction READ None); Call CallClose] ++ repeat (Wake 1) 12 ++ repeat (Wake 0) 4) in
  ended p 0 = Some (Ret (Some 1)) ∧ ended p 1 = Some (Ret None) ∧
  seen_of p.2 = (false, "0x01", Some 0, [], [1], [true; false]).
Proof. split_and!; vm_compute; reflexivity. Qed.
