(* ===== verification/FleetAsync.v ===== *)
(** * The sessions of a driver, step by step

    Any number of sessions of one driver, whose methods are called at any time
    and interleaved at their awaits, with the pulses among them: a step of a
    method of one session leaves the objects, the pulse timers and the
    transactions of all other sessions as they are. [Fleet.v] has the shared
    state; here every method is the asynchronous function of [SessionAsync.v],
    and nothing runs to its end before the next call. What goes on in the
    transactions and in the rest of the driver meanwhile is left free. *)
From S2P Require Import Prelude Errors Bytes Proto RequestBuilder BlockingQueue Dispatcher Collector BiStream BiStreamSpec Options Transaction Stub Database Managers DriverImpl Session Hoare Fleet FleetSafety Async DatabaseAsync SessionAsync.
Local Open Scope string_scope.
Local Open Scope list_scope.

Section fleet_async.
Context {W X : Type} {G : GRPCStub W} {T : TransactionOps X} {TO : TransactionObjects X}.
Context (clock : nat → Z) (turns : nat).

Local Abbreviation State := (Driver W (Clients X)).
Local Abbreviation FState := (Driver W (Fleet X)).
Local Abbreviation aproc := (acomp State exn).

(** ** State *)

(** The driver with its sessions, and of each transaction the session that
    opened it. The latter is only recorded: no step reads it. *)
Record FleetWorld : Type := mkFleetWorld {
  driver_of : FState;
  openers : list nat;
}.
Local Abbreviation fleet w := (clients (driver_of w)).

(** A step of a session: where it started, and what its methods have made of
    the state they see. *)
Record StepState : Type := mkStepState {
  step_start : FleetWorld;
  step_now : State;
}.

#[export] Instance lens_step : Lens StepState State := {|
  view := step_now;
  put d k := mkStepState (step_start k) d;
  view_put _ _ := eq_refl;
  put_put _ _ _ := eq_refl;
  put_view k := match k with mkStepState _ _ => eq_refl end;
|}.

(** A step of session [i] starts ... *)
Definition enter (i : nat) (w : FleetWorld) : option StepState :=
  (λ s, mkStepState w (with_clients (focus s (fleet w)) (driver_of w))) <$> f_sessions (fleet w) !! i.

(** ... and ends: the timers that were set and the transactions that were opened
    are the session's. *)
Definition leave (i : nat) (k : StepState) : FleetWorld :=
  mkFleetWorld (with_clients (unfocus i (clients (step_now k)) (fleet (step_start k))) (step_now k))
    (openers (step_start k) ++
     replicate (txop_made (transactions (clients (step_now k))) - length (openers (step_start k))) i).

(** ** Calls and steps *)

(** The functions that were called, each with its session. *)
Definition calls : Type := list (nat * async State exn (option nat)) * FleetWorld.

(** A method of session [i] is called. *)
Definition call_at (i : nat) (m : aproc (option nat)) (p : calls) : calls :=
  match enter i p.2 with
  | Some k => let '(r, d) := m (step_now k) in (p.1 ++ [(i, r)], leave i (put d k))
  | None => p
  end.

(** What the [n]-th function awaits has settled. *)
Definition wake_at (n : nat) (p : calls) : calls :=
  match p.1 !! n with
  | Some (i, Awaiting f) =>
      match enter i p.2 with
      | Some k => let '(r, d) := f (step_now k) in (<[n := (i, r)]> p.1, leave i (put d k))
      | None => p
      end
  | _ => p
  end.

(** Calls on a session; a transaction is closed that is in its set. *)
Inductive fleet_call : Type :=
  | OpenTransaction (type_ : TransactionTypeProto) (options : option TypeDBOptions)
  | CloseTransaction (tx : nat)
  | CloseSession
  | OnClose (cb : session_callback)
  | OnReopen (cb : session_callback).

Definition close_own_async (tx : nat) : aproc unit :=
  sync get_session ≫= λ s,
  if bool_decide (tx ∈ s_transactions s) then close_transaction_async tx else mret tt.

Definition fleet_method (c : fleet_call) : aproc (option nat) :=
  match c with
  | OpenTransaction type_ options =>
      transaction_async clock turns type_ options ≫= λ tx, mret (Some tx)
  | CloseTransaction tx => close_own_async tx ≫= λ _, mret None
  | CloseSession => close_async turns ≫= λ _, mret None
  | OnClose cb => sync (session_onClose cb) ≫= λ _, mret None
  | OnReopen cb => sync (session_onReopen cb) ≫= λ _, mret None
  end.

Inductive calls_event : Type :=
  | ESession (databaseName : string) (type_ : SessionTypeProto) (options : option TypeDBOptions)
  | ECall (i : nat) (c : fleet_call)
  | ETimer (t : nat)
  | EWake (n : nat).

Definition calls_step (p : calls) (ev : calls_event) : calls :=
  match ev with
  | ESession name type_ options =>
      if negb (d_isOpen (driver_of p.2)) then p
      else
        let i := length (f_sessions (fleet p.2)) in
        let s := new_session name type_ (default no_options options) in
        call_at i (driver_session_async clock i ≫= λ _, mret None)
          (p.1, mkFleetWorld (add_session s (driver_of p.2)) (openers p.2))
  | ECall i c => call_at i (fleet_method c) p
  | ETimer t =>
      match f_owners (fleet p.2) !! t with
      | Some i => call_at i (fire_pulse_async turns t ≫= λ _, mret None) p
      | None => p
      end
  | EWake n => wake_at n p
  end.

(** The session whose method runs. *)
Definition actor (p : calls) (ev : calls_event) : option nat :=
  match ev with
  | ESession _ _ _ => Some (length (f_sessions (fleet p.2)))
  | ECall i _ => Some i
  | ETimer t => f_owners (fleet p.2) !! t
  | EWake n => fst <$> p.1 !! n
  end.

(** Calls and steps in any order, from a driver without sessions; transactions
    that are there already are in no session's set. *)
Inductive overlapping (d0 : FState) : calls → Prop :=
  | overlap_start : overlapping d0 ([], mkFleetWorld d0 (replicate (txop_made (f_transactions (clients d0))) 0))
  | overlap_step p ev : overlapping d0 p → overlapping d0 (calls_step p ev)
  | overlap_elsewhere p d' : overlapping d0 p → elsewhere (driver_of p.2) d' →
      overlapping d0 (p.1, mkFleetWorld d' (openers p.2)).

(** ** What a step keeps *)

Section one.
Context (i : nat).

(** A timer, and a transaction, of session [i]: from before the step, or of
    it. *)
Definition own_timer (k : StepState) (t : nat) : Prop :=
  f_owners (fleet (step_start k)) !! t = Some i ∨
  length (f_owners (fleet (step_start k))) <= t < timers_set (clients (step_now k)).
Definition own_tx (k : StepState) (tx : nat) : Prop :=
  openers (step_start k) !! tx = Some i ∨
  length (openers (step_start k)) <= tx < txop_made (transactions (clients (step_now k))).

(** The step has so far used what is the session's own and left the rest. *)
Record apart (k : StepState) : Prop := mkApart {
  a_set : length (f_owners (fleet (step_start k))) <= timers_set (clients (step_now k));
  a_known : ∀ t, t ∈ pending_timers (clients (step_now k)) → t < timers_set (clients (step_now k));
  a_timers : ∀ t j, f_owners (fleet (step_start k)) !! t = Some j → j ≠ i →
    (t ∈ pending_timers (clients (step_now k)) ↔ t ∈ f_timers (fleet (step_start k)));
  a_pulse : ∀ t, s_pulse (session (clients (step_now k))) = Some t → own_timer k t;
  a_ok : txop_ok (transactions (clients (step_now k)));
  a_made : length (openers (step_start k)) <= txop_made (transactions (clients (step_now k)));
  a_objects : ∀ tx j, openers (step_start k) !! tx = Some j → j ≠ i →
    txop_object tx (transactions (clients (step_now k))) =
    txop_object tx (f_transactions (fleet (step_start k)));
  a_txs : ∀ tx, tx ∈ s_transactions (session (clients (step_now k))) → own_tx k tx;
}.

(** Others open transactions, and no transaction changes hands. *)
Definition grows (w w' : FleetWorld) : Prop := openers w `prefix_of` openers w'.
Definition resumed (k k' : StepState) : Prop :=
  grows (leave i k) (step_start k') ∧ enter i (step_start k') = Some k'.
Definition same_step (k k' : StepState) : Prop := step_start k' = step_start k.

#[export] Instance same_step_preorder : PreOrder same_step.
Proof. split; [by intros k|]. intros k1 k2 k3. unfold same_step. congruence. Qed.

Lemma own_tx_leave k tx : own_tx k tx → openers (leave i k) !! tx = Some i.
Proof.
  intros [H|H]; cbn; [by apply lookup_app_l_Some|].
  rewrite lookup_app_r by lia. apply lookup_replicate. split; [done|lia].
Qed.

Lemma own_tx_resumed k k' tx : own_tx k tx → resumed k k' → own_tx k' tx.
Proof. intros H%own_tx_leave [[l Hl] _]. left. rewrite Hl. by apply lookup_app_l_Some. Qed.

(** *** Steps that stay apart *)

Local Abbreviation anywhere := (λ _ : StepState, True).
Local Abbreviation until m Q := (holds_until apart resumed same_step anywhere m Q).
Local Abbreviation guards m := (until m (λ _, anywhere)).

(** The part of the state that matters. *)
Lemma apart_clients k d : clients d = clients (step_now k) → apart k → apart (put d k).
Proof. intros H []. split; cbn; unfold own_timer, own_tx in *; cbn; rewrite H; auto. Qed.

Lemma apart_guards {A} (m : proc State exn A) :
  (∀ k, apart k → apart (put (m (step_now k)).2 k)) → guards (sync m).
Proof. intros Hm. apply until_sync. intros k HI _. split_and!; [done|by apply Hm|done]. Qed.

Lemma clients_guards {A} (m : proc State exn A) :
  (∀ d, clients (m d).2 = clients d) → guards (sync m).
Proof. intros Hm. apply apart_guards. intros k Hk. by apply apart_clients. Qed.

Lemma frame_guards {A} (m : proc State exn A) : (∀ P, keeps (on_clients P) m) → guards (sync m).
Proof.
  intros Hm. apply clients_guards. intros d.
  pose proof (Hm (λ c _, c = clients d) d eq_refl) as H. unfold on_clients in H.
  by destruct (m d) as [[] d'].
Qed.

Lemma modify_session_guards f :
  (∀ s, s_pulse (f s) = s_pulse s) → (∀ s, s_transactions (f s) ⊆ s_transactions s) →
  guards (sync (modify_session f)).
Proof.
  intros Hp Ht. apply apart_guards. intros k []. split; cbn; auto.
  - intros t. rewrite Hp. apply a_pulse0.
  - intros tx Htx. apply a_txs0, Ht, Htx.
Qed.

Lemma getMilliseconds_guards : guards (sync (getMilliseconds clock)).
Proof. apply apart_guards. intros k []. by split. Qed.

Lemma schedule_pulse_guards : guards (sync schedule_pulse).
Proof.
  apply apart_guards. intros k []. split; cbn; auto.
  - intros t [H%a_known0|H%list_elem_of_singleton]%elem_of_app; lia.
  - intros t j Hj Hne. rewrite <- (a_timers0 t j Hj Hne), elem_of_app, list_elem_of_singleton.
    apply lookup_lt_Some in Hj. split; [intros [?| ->]; [done|lia]|by left].
  - intros t [= <-]. right. cbn. lia.
Qed.

(** Taking own timers out. *)
Lemma filter_timers_guards (P : StepState → Prop) (f : State → nat → bool) :
  (∀ k t, apart k → P k → f (step_now k) t = false → own_timer k t) →
  async_triple apart resumed same_step P (sync (modify (λ d, let c := clients d in
    set_clients (mkClients (session c) (transactions c) (readings c)
      (List.filter (f d) (pending_timers c)) (timers_set c)) d) : proc State exn unit))
    (λ _, anywhere) anywhere.
Proof.
  intros Hf. apply async_sync. intros k Hk HP. cbn. split_and!; [done| |done].
  pose proof (Hf k) as Hf'. destruct Hk. split; cbn; auto.
  - intros t [H _]%list_elem_of_In%List.filter_In. by apply a_known0, list_elem_of_In.
  - intros t j Hj Hne. rewrite <- (a_timers0 t j Hj Hne).
    rewrite !list_elem_of_In, List.filter_In. split; [by intros [? _]|]. intros Ht. split; [done|].
    destruct (f (step_now k) t) eqn:Ef; [done|]. exfalso.
    destruct (Hf' t) as [H|H]; [by split|done|done|congruence|]. apply lookup_lt_Some in Hj. lia.
Qed.

Lemma clear_pulse_guards : guards (sync clear_pulse).
Proof.
  apply (filter_timers_guards _ (λ d t, negb (bool_decide (Some t = s_pulse (session (clients d)))))).
  intros k t Hk _ H. apply negb_false_iff, bool_decide_eq_true in H. by apply (a_pulse k Hk).
Qed.

Lemma close_transaction_stays tx :
  async_triple apart resumed same_step (λ k, own_tx k tx) (close_transaction_async tx)
    (λ _, anywhere) anywhere.
Proof.
  apply (async_bind _ _ _ _ _ _ (λ _, anywhere)).
  - apply async_await_rule; [typeclasses eauto| |done..]. apply async_sync.
    intros k [] Htx. unfold on_transactions. cbn.
    pose proof (txop_close_ok tx _ a_ok0) as Hok. pose proof (txop_close_made tx _ a_ok0) as Hm.
    pose proof (λ t, txop_close_others tx t _ a_ok0) as Ho.
    destruct (txop_close tx _) as [o x]. cbn in *.
    split_and!; [done| |by destruct o]. split; cbn; unfold own_tx; cbn; rewrite ?Hm; auto.
    intros t j Hj Hne. rewrite Ho; [by eapply a_objects0|]. intros ->.
    destruct Htx as [H|H]; [congruence|]. apply lookup_lt_Some in Hj. lia.
  - intros _. apply modify_session_guards; [done|]. intros s t.
    cbn. rewrite !list_elem_of_In, List.filter_In. by intros [? _].
Qed.

Lemma open_guards st connection id type_ options latency :
  until (sync (on_transactions (txop_open st connection id type_ options latency))) (λ tx k, own_tx k tx).
Proof.
  apply async_sync. intros k [] _. unfold on_transactions. cbn.
  pose proof (txop_open_ok st connection id type_ options latency _ a_ok0) as Hok.
  pose proof (txop_open_made st connection id type_ options latency _ a_ok0) as Hm.
  pose proof (λ r, txop_open_new st connection id type_ options latency _ r a_ok0) as Hn.
  pose proof (λ r, txop_open_others st connection id type_ options latency _ r a_ok0) as Ho.
  destruct (txop_open _ _ _ _ _ _ _) as [o x]. cbn in *. split_and!; [done| |].
  - split; cbn; unfold own_tx in *; cbn; auto; try lia.
    + intros t j Hj Hne. rewrite Ho; [by eapply a_objects0|]. apply lookup_lt_Some in Hj. lia.
    + intros t [H|H]%a_txs0; [by left|right; lia].
  - destruct o as [tx|e|]; [|done..]. right. cbn. specialize (Hn tx eq_refl). lia.
Qed.

Lemma add_transaction_stays tx :
  async_triple apart resumed same_step (λ k, own_tx k tx) (sync (add_transaction tx))
    (λ _, anywhere) anywhere.
Proof.
  apply async_sync. intros k [] Htx. cbn. split_and!; [done| |done]. split; cbn; auto.
  intros t. case_bool_decide as Hin; [by apply a_txs0|].
  intros [H|H%list_elem_of_singleton]%elem_of_app; [by apply a_txs0|by subst].
Qed.

(** *** Methods *)

Lemma anywhere_holds (k : StepState) : anywhere k.
Proof. done. Qed.
Lemma still_same_step (k k' : StepState) : still k k' → same_step k k'.
Proof. by intros (d & -> & _). Qed.
Lemma still_apart (k k' : StepState) : still k k' → apart k → apart k'.
Proof. intros (d & -> & H & _). by apply apart_clients. Qed.

Hint Resolve anywhere_holds still_same_step still_apart getMilliseconds_guards
  schedule_pulse_guards clear_pulse_guards own_tx_resumed : guard.

Ltac staying :=
  first [ apply clients_guards; by intros
        | apply modify_session_guards; by intros
        | solve [apply frame_guards; intros; keeping] ].
Ltac guards_ := unfold awaited; repeat (guarding; try staying).

Lemma run_callback_apart cb : guards (sync (run_callback cb)).
Proof. apply apart_guards. intros k []. by split. Qed.
Hint Resolve run_callback_apart : guard.

Lemma run_callbacks_apart callbacks n m : guards (run_callbacks_async callbacks n m).
Proof. revert m. induction n as [|n IH]; intros m; cbn [run_callbacks_async]; guards_. Qed.
Hint Resolve run_callbacks_apart : guard.

(** The members of the set are the session's own. *)
Lemma close_transactions_apart n visited : guards (close_transactions_async n visited).
Proof.
  revert visited. induction n as [|n IH]; intros visited; [guards_|].
  cbn [close_transactions_async]. intros k HI Hk. revert k HI Hk. apply async_get. intros k _.
  destruct (List.find _ _) as [tx|] eqn:Hf; [|by apply async_ret; [typeclasses eauto|]].
  apply (async_bind _ _ _ _ _ _ (λ _, anywhere)); [|intros _; apply IH].
  intros k' HI ->. revert HI.
  apply List.find_some in Hf as [Hf _]. intros HI.
  assert (own_tx k tx) as Htx by (apply (a_txs k HI), list_elem_of_In, Hf).
  pose proof (async_await_rule apart resumed same_step (close_transaction_async tx) (λ k, own_tx k tx)
    (λ _, anywhere) anywhere) as H. apply H; try done. apply close_transaction_stays.
Qed.
Hint Resolve close_transactions_apart : guard.

Lemma closeResources_apart : guards (closeResources_async turns).
Proof. unfold closeResources_async. guards_. Qed.
Hint Resolve closeResources_apart : guard.

Lemma close_apart : guards (close_async turns).
Proof. unfold close_async. guards_. Qed.
Hint Resolve close_apart : guard.

Lemma openAt_apart sd : guards (openAt_async clock sd).
Proof. unfold openAt_async. guards_. Qed.
Hint Resolve openAt_apart : guard.

Lemma reopenAt_apart sd : guards (reopenAt_async clock turns sd).
Proof. unfold reopenAt_async. guards_. Qed.
Hint Resolve reopenAt_apart : guard.

Lemma open_transaction_apart type_ options :
  until (open_transaction_async type_ options) (λ tx k, own_tx k tx).
Proof. unfold open_transaction_async. guards_. apply open_guards. Qed.
Hint Resolve open_transaction_apart : guard.

Lemma transaction_apart type_ options : guards (transaction_async clock turns type_ options).
Proof.
  unfold transaction_async. apply until_bind; [typeclasses eauto|staying|]. intros s.
  destruct (negb _); [guards_|].
  apply (async_bind _ _ _ _ _ _ (λ tx k, own_tx k tx)).
  - match goal with |- async_triple _ _ _ _ ?m _ _ => change (until m (λ tx k, own_tx k tx)) end.
    unfold database_runFailsafe_async. guards_. apply runFailsafe_until; guards_.
  - intros tx. apply (async_bind _ _ _ _ _ _ (λ _, anywhere)); [apply add_transaction_stays|].
    intros _. by apply async_ret; [typeclasses eauto|].
Qed.
Hint Resolve transaction_apart : guard.

Lemma pulse_apart : guards (pulse_async turns).
Proof. unfold pulse_async. guards_. Qed.
Hint Resolve pulse_apart : guard.

Lemma driver_session_apart ref : guards (driver_session_async clock ref).
Proof.
  unfold driver_session_async, open_async. guards_.
  - apply manager_get_guards; guards_.
  - apply runFailsafe_until; guards_.
Qed.

Lemma close_own_apart tx : guards (close_own_async tx).
Proof.
  apply async_get. intros k _. case_bool_decide as Htx; [|by apply async_ret; [typeclasses eauto|]].
  intros k' HI ->. apply (close_transaction_stays tx); [done|]. by apply (a_txs k HI).
Qed.

Lemma fire_pulse_apart t :
  async_triple apart resumed same_step (λ k, f_owners (fleet (step_start k)) !! t = Some i)
    (fire_pulse_async turns t) (λ _, anywhere) anywhere.
Proof.
  apply async_get. intros k Hk. destruct (bool_decide _); [|by apply async_ret; [typeclasses eauto|]].
  apply (async_bind _ _ _ _ _ _ (λ _, anywhere)); [|intros _; apply pulse_apart].
  apply (filter_timers_guards _ (λ _ t', negb (bool_decide (t' = t)))).
  intros k' t' _ -> H. apply negb_false_iff, bool_decide_eq_true in H as ->. by left.
Qed.

Lemma fleet_method_apart c : guards (fleet_method c).
Proof.
  destruct c; cbn [fleet_method]; guards_. apply close_own_apart.
Qed.
End one.

(** ** The sessions between the steps *)

(** Each session has a pulse timer and transactions of its own. *)
Record fleet_inv (w : FleetWorld) : Prop := mkFleetInv {
  v_pulse : ∀ j s t, f_sessions (fleet w) !! j = Some s → s_pulse s = Some t →
    f_owners (fleet w) !! t = Some j;
  v_txs : ∀ j s tx, f_sessions (fleet w) !! j = Some s → tx ∈ s_transactions s →
    openers w !! tx = Some j;
  v_timers : ∀ t, t ∈ f_timers (fleet w) → t < length (f_owners (fleet w));
  v_ok : txop_ok (f_transactions (fleet w));
  v_made : length (openers w) = txop_made (f_transactions (fleet w));
}.

(** Session [j] is as it was. *)
Definition untouched (j : nat) (w w' : FleetWorld) : Prop :=
  f_sessions (fleet w') !! j = f_sessions (fleet w) !! j ∧
  (∀ t, f_owners (fleet w) !! t = Some j →
     f_owners (fleet w') !! t = Some j ∧ (t ∈ f_timers (fleet w') ↔ t ∈ f_timers (fleet w))) ∧
  ∀ s tx, f_sessions (fleet w) !! j = Some s → tx ∈ s_transactions s →
    txop_object tx (f_transactions (fleet w')) = txop_object tx (f_transactions (fleet w)).

Lemma enter_apart i w k : fleet_inv w → enter i w = Some k → apart i k ∧ step_start k = w.
Proof.
  intros [] H. unfold enter in H. apply fmap_Some in H as (s & Hs & ->). split; [|done].
  split; cbn; auto; try lia.
  - intros t Ht. left. by eapply v_pulse0.
  - intros tx Htx. left. by eapply v_txs0.
Qed.

Lemma leave_inv i k :
  fleet_inv (step_start k) → apart i k → i < length (f_sessions (fleet (step_start k))) →
  fleet_inv (leave i k) ∧ grows (step_start k) (leave i k) ∧
  length (f_sessions (fleet (leave i k))) = length (f_sessions (fleet (step_start k))) ∧
  ∀ j, j ≠ i → untouched j (step_start k) (leave i k).
Proof.
  intros [] Hk Hi. pose proof (λ tx, own_tx_leave i k tx) as Hown. destruct Hk.
  split_and!; [split; cbn|by eexists|by cbn; rewrite length_insert|].
  - intros j s t [(<- & <- & _)|[Hne Hj]]%list_lookup_insert_Some Ht.
    + destruct (a_pulse0 t Ht) as [H|H]; [by apply lookup_app_l_Some|].
      rewrite lookup_app_r by lia. apply lookup_replicate. split; [done|lia].
    + apply lookup_app_l_Some. by eapply v_pulse0.
  - intros j s tx [(<- & <- & _)|[Hne Hj]]%list_lookup_insert_Some Ht; [by apply Hown, a_txs0|].
    apply lookup_app_l_Some. by eapply v_txs0.
  - intros t Ht%a_known0. rewrite length_app, length_replicate. lia.
  - done.
  - rewrite length_app, length_replicate. lia.
  - intros j Hne. split_and!; cbn.
    + by rewrite list_lookup_insert_ne.
    + intros t Ht. split; [by apply lookup_app_l_Some|by eapply a_timers0].
    + intros s tx Hs Htx. eapply a_objects0; [by eapply v_txs0|done].
Qed.

(** Every function of the pool goes well from where it last was, and since then
    transactions were only opened. *)
Definition calls_well (p : calls) : Prop :=
  fleet_inv p.2 ∧ ∀ n i r, p.1 !! n = Some (i, r) →
    i < length (f_sessions (fleet p.2)) ∧
    ∃ k, goes_well (apart i) (resumed i) same_step r (λ _ _, True) (λ _, True) k ∧
         grows (leave i k) p.2.

(** What a step of session [i] comes to. *)
Definition steps_well (i : nat) (p p' : calls) : Prop :=
  calls_well p' ∧ ∀ j, j ≠ i → untouched j p.2 p'.2.

Lemma calls_well_grow (rs : list (nat * async State exn (option nat))) w w' :
  calls_well (rs, w) → fleet_inv w' → grows w w' →
  length (f_sessions (fleet w)) <= length (f_sessions (fleet w')) → calls_well (rs, w').
Proof.
  intros [_ H] Hw Hg Hl. split; [done|]. intros n i r Hn. destruct (H n i r Hn) as (Hi & k & Hk & Hgk).
  split; [cbn in *; lia|]. exists k. split; [done|]. unfold grows in *. by etransitivity.
Qed.

(** A step that session [i] started at [k], and how its function goes on. *)
Lemma step_well i (rs rs' : list (nat * async State exn (option nat))) w k r d :
  calls_well (rs, w) → enter i w = Some k → same_step k (put d k) → apart i (put d k) →
  goes_well (apart i) (resumed i) same_step r (λ _ _, True) (λ _, True) (put d k) →
  (∀ n e, rs' !! n = Some e → e = (i, r) ∨ rs !! n = Some e) →
  steps_well i (rs, w) (rs', leave i (put d k)).
Proof.
  intros Hp Hk _ Ha Hr Hrs. destruct (enter_apart i w k (proj1 Hp) Hk) as [_ Hw].
  assert (i < length (f_sessions (fleet w))) as Hi.
  { unfold enter in Hk. apply fmap_Some in Hk as (s & Hs & _). by eapply lookup_lt_Some. }
  rewrite <- Hw in Hi. pose proof (proj1 Hp) as Hinv. cbn in Hinv. rewrite <- Hw in Hinv.
  change (fleet_inv (step_start (put d k))) in Hinv.
  destruct (leave_inv i (put d k) Hinv Ha Hi) as (H1 & H2 & H3 & H4).
  change (step_start (put d k)) with (step_start k) in *. rewrite Hw in *. split; [|done].
  assert (calls_well (rs, leave i (put d k))) as [_ Hq] by (eapply calls_well_grow; [done..|by rewrite H3]).
  split; [done|]. intros n i' r' [[= -> ->]|Hn]%Hrs; [|by eapply Hq]. split; [cbn in *; lia|].
  exists (put d k). split; [done|]. unfold grows. reflexivity.
Qed.

Lemma call_at_well i (m : aproc (option nat)) (P : StepState → Prop) p :
  async_triple (apart i) (resumed i) same_step P m (λ _ _, True) (λ _, True) →
  (∀ k, enter i p.2 = Some k → P k) → calls_well p → steps_well i p (call_at i m p).
Proof.
  intros Hm HP Hp. destruct p as [rs w]. unfold call_at. cbn in *.
  destruct (enter i w) as [k|] eqn:Hk; [|by split].
  destruct (enter_apart i w k (proj1 Hp) Hk) as [Ha _]. specialize (Hm k Ha (HP k eq_refl)). cbn in Hm.
  destruct (m (step_now k)) as [r d]. destruct Hm as (H1 & H2 & H3).
  eapply step_well; [done..|]. intros n e. rewrite lookup_app_Some, list_lookup_singleton_Some.
  intros [H|(_ & _ & <-)]; [by right|by left].
Qed.

Lemma wake_at_well n i r p :
  p.1 !! n = Some (i, r) → calls_well p → steps_well i p (wake_at n p).
Proof.
  intros Hn Hp. destruct p as [rs w]. unfold wake_at. cbn in *. rewrite Hn.
  destruct r as [o|f]; [by split|]. destruct (enter i w) as [k|] eqn:Hk; [|by split].
  destruct (enter_apart i w k (proj1 Hp) Hk) as [Ha Hw].
  destruct (proj2 Hp n i _ Hn) as (_ & k0 & Hg & Hgr). cbn in Hg, Hgr.
  specialize (Hg k). cbn in Hg. destruct (f (step_now k)) as [r d].
  destruct Hg as (H1 & H2 & H3); [split; by rewrite Hw|done|].
  eapply step_well; [done..|]. intros n' e.
  intros [(-> & <- & _)|[_ H]]%list_lookup_insert_Some; [by left|by right].
Qed.

Lemma untouched_trans j w1 w2 w3 : untouched j w1 w2 → untouched j w2 w3 → untouched j w1 w3.
Proof.
  intros (S1 & T1 & X1) (S2 & T2 & X2). split_and!; [congruence| |].
  - intros t Ht. destruct (T1 t Ht) as [Ht2 E1]. destruct (T2 t Ht2) as [Ht3 E2].
    by rewrite E2.
  - intros s tx Hs Htx. rewrite (X2 s tx), (X1 s tx); [done..|by rewrite S1|done].
Qed.

(** A session object is made. *)
Lemma add_session_well s rs w :
  s_pulse s = None → s_transactions s = [] → calls_well (rs, w) →
  let w' := mkFleetWorld (add_session s (driver_of w)) (openers w) in
  calls_well (rs, w') ∧ ∀ j, j ≠ length (f_sessions (fleet w)) → untouched j w w'.
Proof.
  intros Hp Ht Hw. cbv zeta. split.
  - apply (calls_well_grow _ w); [done| |by unfold grows|by cbn; rewrite length_app; lia].
    destruct Hw as [[] _]. cbn in *. split; cbn; auto.
    + intros j s' t [Hj|[_ [_ <-]%list_lookup_singleton_Some]]%lookup_app_Some; [by eapply v_pulse0|congruence].
    + intros j s' tx [Hj|[_ [_ <-]%list_lookup_singleton_Some]]%lookup_app_Some; [by eapply v_txs0|].
      rewrite Ht. by intros ?%elem_of_nil.
  - intros j Hj. split_and!; [|done|done]. cbn.
    destruct (decide (j < length (f_sessions (fleet w)))); [by rewrite lookup_app_l|].
    rewrite lookup_app_r by lia. rewrite (proj2 (lookup_ge_None (f_sessions (fleet w)) j)) by lia.
    apply lookup_ge_None. cbn. lia.
Qed.

Lemma ignoring_apart {A} i (m : aproc A) (P : StepState → Prop) (Q : A → StepState → Prop)
    (P' : StepState → Prop) (r : option nat) :
  async_triple (apart i) (resumed i) same_step P m Q P' →
  async_triple (apart i) (resumed i) same_step P (m ≫= λ _, mret r) (λ _ _, True) (λ _, True).
Proof.
  intros Hm. eapply (async_bind _ _ _ _ _ _ Q); [by eapply async_conseq|].
  intros a. by apply async_ret; [typeclasses eauto|].
Qed.

Lemma calls_step_well p ev :
  calls_well p → calls_well (calls_step p ev) ∧
  ∀ j, actor p ev ≠ Some j → untouched j p.2 (calls_step p ev).2.
Proof.
  intros Hp. destruct ev as [name type_ options|i c|t|n]; cbn [calls_step actor].
  - destruct (negb _); [by split; [|intros j _; split_and!]|]. destruct p as [rs w].
    destruct (add_session_well (new_session name type_ (default no_options options)) rs w eq_refl eq_refl Hp)
      as [H1 H2]. cbn [fst snd] in *.
    match goal with |- context [call_at ?i ?m ?q] =>
      destruct (call_at_well i m (λ _, True) q) as [H3 H4] end;
      [eapply ignoring_apart, driver_session_apart|done|exact H1|].
    split; [done|]. intros j Hj. eapply untouched_trans; [apply H2; congruence|].
    apply H4. congruence.
  - destruct (call_at_well i (fleet_method c) (λ _, True) p) as [H1 H2]; [|done|done|].
    { eapply async_conseq; [apply fleet_method_apart|done..]. }
    split; [done|]. intros j Hj. apply H2. congruence.
  - destruct (f_owners (fleet p.2) !! t) as [i|] eqn:Ht; [|by split; [|intros j _; split_and!]].
    destruct (call_at_well i (fire_pulse_async turns t ≫= λ _, mret None)
      (λ k, f_owners (fleet (step_start k)) !! t = Some i) p) as [H1 H2];
      [eapply ignoring_apart, fire_pulse_apart| |done|].
    { intros k Hk. destruct (enter_apart i p.2 k (proj1 Hp) Hk) as [_ ->]. done. }
    split; [done|]. intros j Hj. apply H2. congruence.
  - destruct (p.1 !! n) as [[i r]|] eqn:Hn; cycle 1.
    { unfold wake_at. rewrite Hn. by split; [|intros j _; split_and!]. }
    destruct (wake_at_well n i r p Hn Hp) as [H1 H2]. split; [done|]. intros j Hj. apply H2. cbn in Hj.
    congruence.
Qed.

Lemma overlapping_well d0 p : no_sessions d0 → overlapping d0 p → calls_well p.
Proof.
  intros (_ & Hs & Ht & Ho & _ & Hok) Hp. induction Hp as [|p ev Hp IH|p d' Hp IH He].
  - split; cbn; [|done]. split; cbn; rewrite ?Hs, ?Ht, ?Ho; try done.
    + by intros t ?%elem_of_nil.
    + by rewrite length_replicate.
  - by apply calls_step_well.
  - destruct p as [rs w]. apply (calls_well_grow _ w); [done| |by unfold grows|].
    + destruct IH as [[] _]. cbn in *. destruct He as [x Hx Hm|d' _ Hc]; split; cbn; rewrite ?Hc; auto.
      by rewrite Hm.
    + destruct He as [|d' _ Hc]; cbn; [done|by rewrite Hc].
Qed.

(** C12 - sessions of a driver whose methods overlap in any way, interleaved at
    their awaits, stay apart: a step of one session, be it of a call, of a
    pulse or of the opening of a new session, leaves every other session
    object, its pulse timers and its transactions as they are; and at no time
    have two sessions a transaction or a pulse timer in common. *)
Theorem overlapping_sessions_apart (d0 : FState) (p : calls) (ev : calls_event)
    (Hnew : no_sessions d0) (Hp : overlapping d0 p) :
  (∀ j, actor p ev ≠ Some j → untouched j p.2 (calls_step p ev).2) ∧
  ∀ i j si sj, i ≠ j → f_sessions (fleet p.2) !! i = Some si → f_sessions (fleet p.2) !! j = Some sj →
    (∀ tx, tx ∈ s_transactions si → tx ∉ s_transactions sj) ∧
    ∀ t, s_pulse si = Some t → s_pulse sj ≠ Some t.
Proof.
  pose proof (overlapping_well d0 p Hnew Hp) as Hw. split; [by apply calls_step_well|].
  intros i j si sj Hne Hi Hj. destruct (proj1 Hw). split.
  - intros tx H1 H2. pose proof (v_txs0 _ _ _ Hi H1). pose proof (v_txs0 _ _ _ Hj H2). congruence.
  - intros t H1 H2. pose proof (v_pulse0 _ _ _ Hi H1). pose proof (v_pulse0 _ _ _ Hj H2). congruence.
Qed.
End fleet_async.

(** ** A concrete run *)

#[local] Existing Instance number_uuid.
#[local] Existing Instance counting_server.
#[local] Existing Instance fleet_transactions.
#[local] Existing Instance fleet_objects.

(** Two sessions are opened in turns, each opens a transaction while the other
    does, and both are pulsing. *)
Definition overlapping_events : list calls_event :=
  [ESession "db" DATA None; ESession "db" SCHEMA None] ++
  concat (repeat [EWake 0; EWake 1] 16) ++
  [ECall 0 (OpenTransaction READ None); ECall 1 (OpenTransaction WRITE None)] ++
  concat (repeat [EWake 2; EWake 3] 4) ++ [ETimer 0; ETimer 1].

Definition demo_overlapping : calls (W := nat) (X := list (TypeDBTransactionImpl nat nat)) :=
  foldl (calls_step (λ _, 5%Z) 9) ([], mkFleetWorld demo_fleet []) overlapping_events.

Lemma demo_overlapping_runs : overlapping (λ _, 5%Z) 9 demo_fleet demo_overlapping.
Proof.
  unfold demo_overlapping. generalize overlapping_events. intros evs.
  induction evs as [|ev evs IH] using rev_ind; [exact (overlap_start (λ _, 5%Z) 9 demo_fleet)|].
  rewrite foldl_app. by apply overlap_step.
Qed.

Lemma overlapping_sessions_apart_witness :
  let w := demo_overlapping.2 in
  let w' := (calls_step (λ _, 5%Z) 9 demo_overlapping (ECall 1 CloseSession)).2 in
  s_transactions <$> f_sessions (clients (driver_of w)) = [[0]; [1]] ∧ untouched 0 w w' ∧
  txop_closed 0 (f_transactions (clients (driver_of w'))) = false ∧
  txop_closed 1 (f_transactions (clients (driver_of w'))) = true.
Proof.
  destruct (overlapping_sessions_apart (λ _, 5%Z) 9 demo_fleet demo_overlapping (ECall 1 CloseSession)
    demo_fleet_new demo_overlapping_runs) as [H _].
  split; [vm_compute; reflexivity|]. split; [apply H; discriminate|].
  split; vm_compute; reflexivity.
Defined.
