(* ===== verification/DriverInterfaces.v ===== *)
(** * Drivers, sessions and transactions behind their interfaces

    The interfaces under [api/connection/] as records of methods and the
    objects seen through them, the transaction with its managers included. The
    theorems are about objects that are closed: what each of their methods
    then does. *)
From S2P Require Import Prelude Errors Bytes Proto RequestBuilder BlockingQueue Dispatcher Collector BiStream BiStreamSpec Options Streams Messages Concept ConceptManager TypeOps ThingOps Answers FetchTree Transaction Stub Database Managers DriverImpl Session Live Interfaces EntryPoints.
Local Open Scope string_scope.
Local Open Scope list_scope.

(** ** Databases, users, sessions and the driver *)

Section connection.
Context {W X : Type} {G : GRPCStub W} {T : TransactionOps X}.
Context (clock : nat → Z).
Local Abbreviation State := (Driver W (Clients X)).
Local Abbreviation sproc := (proc State exn).

Record ReplicaI : Type := mkReplicaI {
  Replica_databaseName : string;
  Replica_term : Z;
  Replica_primary : bool;
  Replica_preferred : bool;
  Replica_server : string;
}.

Definition as_ReplicaI (r : Replica) : ReplicaI :=
  mkReplicaI (sdb_name (database r)) (term r) (isPrimary r) (isPreferred r) (server r).

(** A property that may change is read of the state. *)
Record DatabaseI : Type := mkDatabaseI {
  Database_name : sproc string;
  Database_replicas : sproc (list ReplicaI);
  Database_primaryReplica : sproc (option ReplicaI);
  Database_preferredReplica : sproc (option ReplicaI);
  Database_delete : sproc unit;
  Database_schema : sproc string;
}.

Definition as_DatabaseI (r : nat) : DatabaseI :=
  let read {A} (f : Database → A) : sproc A := get_database r ≫= λ db, mret (f db) in
  mkDatabaseI (read db_name) (read (λ db, as_ReplicaI <$> replicas db))
    (read (λ db, as_ReplicaI <$> primaryReplica db))
    (read (λ db, as_ReplicaI <$> preferredReplica db))
    (database_delete_op r) (schema r).

Record DatabaseManagerI : Type := mkDatabaseManagerI {
  DatabaseManager_get : string → sproc cached;
  DatabaseManager_all : sproc (list nat);
  DatabaseManager_contains : string → sproc bool;
  DatabaseManager_create : string → sproc unit;
}.

Definition TypeDBDatabaseManagerImpl : DatabaseManagerI :=
  mkDatabaseManagerI manager_get manager_all manager_contains manager_create.

Record UserI : Type := mkUserI {
  User_username : string;
  User_passwordExpirySeconds : option Z;
  User_passwordUpdate : string → string → sproc unit;
}.

Definition as_UserI (u : User) : UserI :=
  mkUserI (user_username u) (passwordExpirySeconds u) (passwordUpdate u).

Record UserManagerI : Type := mkUserManagerI {
  UserManager_contains : string → sproc bool;
  UserManager_create : string → string → sproc unit;
  UserManager_delete : string → sproc unit;
  UserManager_all : sproc (list User);
  UserManager_passwordSet : string → string → sproc unit;
  UserManager_get : string → sproc User;
}.

Definition UserManagerImpl : UserManagerI :=
  mkUserManagerI users_contains_op users_create_op users_delete_op users_all_op
    users_passwordSet_op users_get_op.

Record TypeDBSessionI : Type := mkTypeDBSessionI {
  Session_isOpen : sproc bool;
  Session_type : sproc SessionTypeProto;
  Session_database : sproc (option nat);
  Session_options : sproc TypeDBOptions;
  Session_transaction : TransactionTypeImpl → option TypeDBOptions → sproc nat;
  Session_onClose : session_callback → sproc unit;
  Session_onReopen : session_callback → sproc unit;
  Session_close : sproc unit;
}.

(** The session of the state. *)
Definition TypeDBSessionImpl : TypeDBSessionI :=
  let read {A} (f : Session → A) : sproc A := get_session ≫= λ s, mret (f s) in
  mkTypeDBSessionI (read s_isOpen) (read s_type) (read s_database) (read s_options)
    (λ ty, transaction clock (TransactionType_proto ty)) session_onClose session_onReopen
    session_close_op.

(** The user manager is undefined unless a cloud connection was opened. *)
Record TypeDBDriverI : Type := mkTypeDBDriverI {
  Driver_isOpen : sproc bool;
  Driver_databases : sproc DatabaseManagerI;
  Driver_session : string → SessionTypeImpl → option TypeDBOptions → nat → sproc unit;
  Driver_close : sproc unit;
  Driver_users : sproc (option UserManagerI);
  Driver_user : sproc User;
}.

Definition TypeDBDriverImpl (credential : option TypeDBCredential) : TypeDBDriverI :=
  mkTypeDBDriverI (gets d_isOpen)
    (require_open ≫= λ _, mret TypeDBDatabaseManagerImpl)
    (session_of_driver clock) driver_close
    (require_open ≫= λ _, gets (λ d, if d_isCloud d then Some UserManagerImpl else None))
    (driver_user credential).

(** A closed driver and a closed session give nothing out: every method of
    a closed driver that would give access to the server throws
    [DRIVER_NOT_OPEN], a closed session opens no transaction and throws
    [SESSION_CLOSED], closing either again does nothing, and in all these cases
    no call is made and nothing changes. *)
Theorem closed_connection_refuses (d : State) (credential : option TypeDBCredential)
    (name : string) (type_ : SessionTypeImpl) (ty : TransactionTypeImpl)
    (options : option TypeDBOptions) (ref : nat) :
  let driver := TypeDBDriverImpl credential in
  let not_open := TypeDBDriverError (ArgTemplate DRIVER_NOT_OPEN) in
  (d_isOpen d = false →
   Driver_databases driver d = (Throw not_open, d) ∧
   Driver_session driver name type_ options ref d = (Throw not_open, d) ∧
   Driver_users driver d = (Throw not_open, d) ∧ Driver_user driver d = (Throw not_open, d) ∧
   Driver_close driver d = (Ret tt, d)) ∧
  (s_isOpen (session (clients d)) = false →
   Session_transaction TypeDBSessionImpl ty options d =
     (Throw (TypeDBDriverError (ArgTemplate SESSION_CLOSED)), d) ∧
   Session_close TypeDBSessionImpl d = (Ret tt, d)).
Proof.
  cbv zeta. split; intros Ho.
  - assert (require_open d = (Throw (TypeDBDriverError (ArgTemplate DRIVER_NOT_OPEN)), d)) as Hr
      by (unfold require_open; rewrite proc_bind_eq; cbn; by rewrite Ho).
    split_and!; cbn [Driver_databases Driver_session Driver_users Driver_user Driver_close
      TypeDBDriverImpl].
    1-3: exact (proc_bind_run _ _ _ _ _ Hr).
    + unfold driver_user, driver_users. rewrite proc_bind_eq. cbn. by rewrite Ho.
    + unfold driver_close. rewrite proc_bind_eq. cbn. by rewrite Ho.
  - split; cbn [Session_transaction Session_close TypeDBSessionImpl].
    + unfold transaction. rewrite proc_bind_eq. cbn [get_session gets]. by rewrite Ho.
    + unfold session_close_op. rewrite proc_bind_eq. cbn [get_session gets]. by rewrite Ho.
Qed.
End connection.

(** ** Transactions *)

Section transactions.
Context {U : Uuid}.
Context (show_state : TransactionStreamState → string).
Local Abbreviation lproc := (proc Live exn).
#[local] Existing Instance live_transaction.
#[local] Instance live_here : TransactionExtended Live := live_transaction show_state.

(** [close()], [commit()], [rollback()] and [onClose(callback)], over the event
    loop. *)
Definition live_close : lproc unit := on_tx tx_close.
Definition live_commit : lproc unit :=
  try_finally (live_execute show_state Transaction_commitReq false ≫= λ _, mret tt) live_close.
Definition live_rollback : lproc unit :=
  live_execute show_state Transaction_rollbackReq false ≫= λ _, mret tt.
Definition live_onClose (cb : callback) : lproc unit := on_tx (tx_onClose cb).

Record TypeDBTransactionI : Type := mkTypeDBTransactionI {
  Transaction_isOpen : lproc bool;
  Transaction_type : TransactionTypeImpl;
  Transaction_options : TypeDBOptions;
  Transaction_concepts : @ConceptManagerI Live;
  Transaction_logic : @LogicManagerI Live;
  Transaction_query : @QueryManagerI Live;
  Transaction_onClose : callback → lproc unit;
  Transaction_commit : lproc unit;
  Transaction_rollback : lproc unit;
  Transaction_close : lproc unit;
}.

Definition as_TypeDBTransactionI (type_ : TransactionTypeImpl) (options : TypeDBOptions)
    : TypeDBTransactionI :=
  mkTypeDBTransactionI (gets (λ w, isOpen (bidirectionalStream (live_tx w)))) type_ options
    ConceptManagerImpl LogicManagerImpl QueryManagerImpl live_onClose live_commit live_rollback
    live_close.

(** ** Refused calls *)

(** The call throws [e] at once and changes nothing. *)
Definition refused {A} (e : exn) (w : Live) (m : lproc A) : Prop := m w = (Throw e, w).

Lemma refused_bind {A B} e w (m : lproc A) (k : A → lproc B) :
  refused e w m → refused e w (m ≫= k).
Proof. intros H. unfold refused. by rewrite (proc_bind_run _ _ _ _ _ H). Qed.

Lemma refused_request {A B} e w (o : outcome exn A) a (k : A → lproc B) :
  o = Ret a → refused e w (k a) → refused e w (lift_outcome o ≫= k).
Proof. by intros ->. Qed.

Definition closed_error (w : Live) : exn := transaction_closed (bidirectionalStream (live_tx w)).

Lemma execute_refused w request batch :
  isOpen (bidirectionalStream (live_tx w)) = false →
  refused (closed_error w) w (rpc_execute request batch).
Proof.
  intros Hc. destruct w as [t evs]. cbn in Hc. unfold refused, closed_error. cbn [rpc_execute live_here].
  cbn. unfold live_execute, on_tx, rpcExecute. rewrite proc_bind_eq. cbn. rewrite proc_bind_eq. cbn.
  by rewrite Hc.
Qed.

Lemma stream_refused w request :
  isOpen (bidirectionalStream (live_tx w)) = false →
  refused (closed_error w) w (rpc_stream request).
Proof.
  intros Hc. destruct w as [t evs]. cbn in Hc. unfold refused, closed_error. cbn.
  unfold live_stream, on_tx, rpcStream. rewrite proc_bind_eq. cbn. rewrite proc_bind_eq. cbn.
  by rewrite Hc.
Qed.

(** Every method that asks the server is refused; a method that names an object
    builds its request first. *)
Definition all_refused (tx : TypeDBTransactionI) (e : exn) (w : Live) : Prop :=
  let q := Transaction_query tx in let c := Transaction_concepts tx in
  let l := Transaction_logic tx in
  (∀ query options,
     refused e w (QueryManager_get q query options) ∧
     refused e w (QueryManager_getAggregate q query options) ∧
     refused e w (QueryManager_getGroup q query options) ∧
     refused e w (QueryManager_getGroupAggregate q query options) ∧
     refused e w (QueryManager_fetch q query options) ∧
     refused e w (QueryManager_insert q query options) ∧
     refused e w (QueryManager_delete q query options) ∧
     refused e w (QueryManager_update q query options) ∧
     refused e w (QueryManager_define q query options) ∧
     refused e w (QueryManager_undefine q query options)) ∧
  (∀ x options, refused e w (QueryManager_explain q x options)) ∧
  (∀ label vt,
     refused e w (ConceptManager_getRootEntityType c) ∧
     refused e w (ConceptManager_getRootRelationType c) ∧
     refused e w (ConceptManager_getRootAttributeType c) ∧
     refused e w (ConceptManager_getEntityType c label) ∧
     refused e w (ConceptManager_getRelationType c label) ∧
     refused e w (ConceptManager_getAttributeType c label) ∧
     refused e w (ConceptManager_putEntityType c label) ∧
     refused e w (ConceptManager_putRelationType c label) ∧
     refused e w (ConceptManager_putAttributeType c label vt) ∧
     refused e w (ConceptManager_getSchemaExceptions c)) ∧
  (∀ iid bytes, hexStringToBytes iid = Ret bytes →
     refused e w (ConceptManager_getEntity c iid) ∧
     refused e w (ConceptManager_getRelation c iid) ∧
     refused e w (ConceptManager_getAttribute c iid)) ∧
  (∀ label when_ then_,
     refused e w (LogicManager_getRule l label) ∧ refused e w (LogicManager_getRules l) ∧
     refused e w (LogicManager_putRule l label when_ then_)) ∧
  refused e w (Transaction_rollback tx).

Lemma closed_all_refused w type_ options :
  isOpen (bidirectionalStream (live_tx w)) = false →
  all_refused (as_TypeDBTransactionI type_ options) (closed_error w) w.
Proof.
  intros Hc. pose proof (execute_refused w) as He. pose proof (stream_refused w) as Hs.
  unfold all_refused. cbv zeta. split_and!; intros;
    repeat match goal with |- _ ∧ _ => split end.
  all: try (repeat first [apply He, Hc | apply Hs, Hc | apply refused_bind]; fail).
  all: eapply refused_request; [unfold ConceptManager_getEntityReq, ConceptManager_getRelationReq,
    ConceptManager_getAttributeReq; rewrite H; reflexivity|].
  all: repeat first [apply He, Hc | apply refused_bind].
Qed.

Lemma live_close_closed w :
  isOpen (bidirectionalStream (live_tx (live_close w).2)) = false.
Proof.
  unfold live_close, on_tx. pose proof (tx_close_closed (live_tx w)) as H.
  by destruct (tx_close (live_tx w)).
Qed.

(** C25 - a transaction that has ended gives nothing out: once it was closed, or
    a commit has come to something, every method of its query, concept and
    logic managers that asks the server, and a rollback, throws the error of a
    closed transaction at once and changes nothing ([getEntity], [getRelation]
    and [getAttribute] for ids that can be parsed). *)
Theorem ended_transaction_refuses (w : Live) (type_ : TransactionTypeImpl)
    (options : TypeDBOptions) :
  let tx := as_TypeDBTransactionI type_ options in
  (∀ o w', Transaction_close tx w = (o, w') →
     (Transaction_isOpen tx w').1 = Ret false ∧ all_refused tx (closed_error w') w') ∧
  (∀ o w', Transaction_commit tx w = (o, w') → o ≠ Pending →
     (Transaction_isOpen tx w').1 = Ret false ∧ all_refused tx (closed_error w') w').
Proof.
  assert (∀ w', isOpen (bidirectionalStream (live_tx w')) = false →
    (Transaction_isOpen (as_TypeDBTransactionI type_ options) w').1 = Ret false ∧
    all_refused (as_TypeDBTransactionI type_ options) (closed_error w') w') as Hclosed.
  { intros w' Hc. split; [cbn; by rewrite Hc|by apply closed_all_refused]. }
  cbv zeta. split; intros o w' E.
  - apply Hclosed. cbn in E. pose proof (live_close_closed w) as H. by rewrite E in H.
  - intros Hp. apply Hclosed. cbn in E. revert E. unfold live_commit, try_finally.
    destruct ((live_execute _ _ _ ≫= _) w) as [[a|e|] w1]; [| |by intros [= <- <-]].
    all: rewrite proc_bind_eq; pose proof (live_close_closed w1) as H;
      destruct (live_close w1) as [[[]|e'|] w2]; by intros [= <- <-].
Qed.
End transactions.

(** ** Concrete runs *)

#[local] Existing Instance number_uuid.

(** A commit that is answered; then a query. *)
Lemma ended_transaction_refuses_witness :
  let w := mkLive (new_tx new_transmitter)
    [TData (ServerRes (mkRes (String.list_byte_of_string "0") (Body P_none)))] in
  let w' := (live_commit demo_show w).2 in
  (live_commit demo_show w).1 = Ret tt ∧
  query_get (TransactionExtended0 := live_transaction demo_show) "match $x sub thing;" None w' =
    (Throw (TypeDBDriverError (ArgTemplate TRANSACTION_CLOSED)), w').
Proof.
  cbv zeta. set (w := mkLive _ _).
  destruct (ended_transaction_refuses demo_show w TransactionType_READ no_options) as [_ H].
  destruct (H _ _ (surjective_pairing _)) as [_ [Hq _]]; [vm_compute; discriminate|].
  split; [vm_compute; reflexivity|].
  destruct (Hq "match $x sub thing;" None) as [Hg _]. unfold refused in Hg.
  cbn [Transaction_query Transaction_commit as_TypeDBTransactionI QueryManagerImpl
    QueryManager_get] in Hg.
  assert (closed_error (live_commit demo_show w).2 =
    TypeDBDriverError (ArgTemplate TRANSACTION_CLOSED)) as He by (vm_compute; reflexivity).
  rewrite He in Hg. exact Hg.
Defined.

#[local] Existing Instance core_demo.
#[local] Existing Instance answered_transactions.

Lemma closed_connection_refuses_witness :
  let d := core_driver "localhost:1729" "localhost:1729" 0 (mkWorld tt [] []) no_clients in
  Session_transaction (TypeDBSessionImpl (λ _, 5%Z)) TransactionType_READ None d =
    (Throw (TypeDBDriverError (ArgTemplate SESSION_CLOSED)), d).
Proof.
  cbv zeta. set (d := core_driver _ _ _ _ _).
  apply (closed_connection_refuses (λ _, 5%Z) d None "db" SessionType_DATA TransactionType_READ
    None 0). reflexivity.
Defined.
