(* ===== verification/Program.v ===== *)
(** * A program, from its address to its answers

    The program that the documentation starts with: connect to a server, open a
    session of a database and a transaction in it, and collect the answers of
    a query. It runs through every layer of the library: the driver and its
    stubs, the session, the transaction and its stream with batching, queues
    and iterators, the event loop, and the decoding of answers. *)
From S2P Require Import Prelude Errors Bytes Proto RequestBuilder BlockingQueue Dispatcher Collector BiStream BiStreamSpec Options Streams Messages Concept ConceptManager TypeOps Answers Transaction Stub Database Managers DriverImpl Session Live EntryPoints.
Local Open Scope string_scope.
Local Open Scope list_scope.

(** A response changes no ids and no iterators. *)
Lemma data_frame {U : Uuid} {R P} (show_state : TransactionStreamState → string)
    (st : BidirectionalStream R P) (res : TransactionRes R) :
  let st' := stream_step show_state st (SData (ServerRes res)) in
  drawn st' = drawn st ∧ iterators st' = iterators st.
Proof.
  cbn. unfold on_data, collectRes. destruct (isOpen st); [|done]. cbn.
  destruct (uuid_stringify _); [|done..]. by destruct (collector_get _ _).
Qed.

Section program.
Context {W : Type} {G : GRPCStub W} {U : Uuid}.
Context (show_state : TransactionStreamState → string).
Context (readFileSync : string → outcome exn unit) (clock : nat → Z).

Local Abbreviation Heap := (list (TypeDBTransactionImpl msg msg)).
Local Abbreviation event := (tx_event msg msg).

(** What the server sends while a transaction is opened: one response. *)
Context (open_id : list byte) (open_body : msg).
Definition opening : list (stream_event msg msg) :=
  [SData (ServerRes (mkRes open_id open_body))].
#[local] Instance program_transactions : TransactionOps Heap :=
  heap_transactions show_state opening.

(** No session and no transactions yet. *)
Definition nothing_open : Clients Heap :=
  mkClients (new_session "" DATA no_options) [] 0 [] 0.

(** [driver = await TypeDB.coreDriver(address);]
    [session = await driver.session(name, type);]
    [transaction = await session.transaction(ty);]
    [await transaction.query.get(query).collect()]; the events [after] are what
    happens from then on. *)
Definition get_answers (address name : string) (type_ : SessionTypeImpl)
    (ty : TransactionTypeImpl) (query : string) (after : list event) (w : World W)
    : outcome exn (list ConceptMap) :=
  outcome_bind (coreDriver readFileSync (Some address) nothing_open w).1 (λ d1,
  let '(o, d2) := session_of_driver clock name type_ None 0 d1 in
  outcome_bind o (λ _,
  let '(o, d3) := transaction clock (TransactionType_proto ty) None d2 in
  outcome_bind o (λ r,
  match transactions (clients d3) !! r with
  | Some tx =>
      ((query_get (TransactionExtended0 := live_transaction show_state) query None ≫= collect)
         (mkLive tx after)).1
  | None => Throw (type_error "query")
  end))).

(** ** Opening the transaction *)

Context {UL : UuidLaws U}.

(** The open request was sent, under the first id, and is answered first. *)
Lemma heap_open_answered sessionId bytes type_ options latency (h : Heap) :
  hexStringToBytes sessionId = Ret bytes → uuid_stringify open_id = Ret (uuid_v4 0) →
  ∃ tx, heap_open show_state opening (Ret tt) sessionId type_ options latency h =
      (Ret (length h), h ++ [tx]) ∧
    stream_inv show_state (bidirectionalStream tx) ∧ isOpen (bidirectionalStream tx) = true ∧
    drawn (bidirectionalStream tx) = 1 ∧ iterators (bidirectionalStream tx) = [].
Proof using UL.
  intros Hid Hopen. unfold heap_open, tx_open. rewrite !proc_bind_eq.
  change (on_stream (stream_open (Ret tt)) (mkTx (new_stream new_transmitter) false []))
    with (Ret (E := exn) tt, mkTx (opened (R := msg) (P := msg) new_transmitter) false []).
  cbv iota beta. rewrite !proc_bind_eq. unfold lift_outcome at 1, Transaction_openReq.
  rewrite Hid. cbn [outcome_bind]. unfold rpcExecute. rewrite !proc_bind_eq.
  cbn [gets set_stream bidirectionalStream].
  change (isOpen (opened new_transmitter)) with true. cbn [negb]. rewrite !proc_bind_eq.
  unfold on_stream. cbn [set_stream bidirectionalStream useBatch].
  match goal with |- context [single ?q false _] => set (req := q) end.
  pose proof (stream_inv_opened (R := msg) (P := msg) show_state new_transmitter) as Hinv.
  destruct (single_hands_out show_state req false _ Hinv) as (r & E1 & E2 & Hs).
  pose proof (stream_inv_single show_state req false _ Hinv) as Hinv'.
  destruct (single_run req false (opened (R := msg) (P := msg) new_transmitter) _ eq_refl)
    as (_ & _ & _ & _ & _ & _ & _ & _ & Hdrawn & Hits).
  destruct (single req false (opened new_transmitter)) as [o st]. cbn [fst snd] in *. subst o.
  cbn [note]. unfold await_response. cbn [fst snd set_stream bidirectionalStream].
  unfold opening. set (ev := SData (ServerRes (mkRes open_id open_body))).
  pose proof (run_res show_state [ev] _ _ _ _ Hinv' Hs) as Hrun.
  rewrite (holds_response _ _ _ _ 0 Hrun). cbn [added app]. rewrite E2.
  change (isOpen (opened new_transmitter)) with true in *. 
  replace (deliveries _ _ _) with [Value (mkRes open_id open_body)]; cycle 1.
  { cbn. by rewrite Hopen, bool_decide_eq_true_2. }
  cbn [added app lookup list_lookup from_option take_element outcome_map].
  eexists. split; [reflexivity|]. cbn [bidirectionalStream].
  change (run_stream show_state st [ev]) with (stream_step show_state st ev).
  destruct (data_frame show_state st (mkRes open_id open_body)) as [H1 H2].
  split_and!; [by apply stream_inv_step| |by unfold ev; rewrite H1, Hdrawn
    |by unfold ev; rewrite H2, Hits].
  by rewrite (step_open show_state), E2.
Qed.

(** ** The program *)

End program.

(** ** A concrete run *)

#[local] Existing Instance number_uuid.
#[local] Existing Instance number_uuid_laws.
#[local] Existing Instance core_demo.

